(* ===== verification/_CoqProject ===== *)
-Q . S2P
Prelude.v
Bytes.v
Numbers.v
External.v
Protocol.v
NetAddr.v
Blocklist.v
Filter.v
ServerConfig.v
ServerProxy.v
OriginCC.v
Callsign.v
Browser.v
Scrub.v
SocketRead.v
Admission.v
Server.v
Logger.v
ServerMain.v
TransportTypes.v
ClientConfig.v
ClientState.v
Events.v
Cache.v
Transport.v
AgwpeFrame.v
Agwpe.v
TcpStream.v
VaraCodec.v
Vara.v
Session.v
Delivery.v
Manager.v
Actor.v
HostGuard.v
UiText.v
Ui.v
AnyTransport.v
Rewrite.v
Browse.v
WebApi.v
ClientMain.v
EndToEnd.v
Visits.v
Greeting.v
Contact.v
