(* ===== verification/Prelude.v ===== *)
(** * Packet Browser: a verification library

    Packet Browser brings web pages over amateur packet radio.  A server
    ([src/server]) renders pages in a headless browser behind a filtering proxy
    and answers requests on a TCP port that a LinBPQ node connects radio stations
    to.  A client ([src/client]) runs beside the operator's web browser, drives a
    modem, and passes requests and responses over the link.  Both speak the
    protocol of [src/shared].

    ** Files, and the code they model

    Shared:
    - [Prelude]: results, the state monad, the rules and hint databases for
      logs ([emits]), totality ([total], [succeeds]) and frames ([keeps]).
    - [Bytes], [Numbers]: the parts of Rust's [str], [slice] and integer types
      the code uses, on [list byte] and [Z]: searching, splitting, Unicode
      trimming, UTF-8, slices that panic, casts that wrap, decimal text.
    - [External]: base64, SHA-256, brotli, Unicode case mapping, Rust's [Debug] text
      and HTTP header values as classes of operations with their documented laws,
      each with a concrete instance.
    - [Protocol]: [shared/src/protocol.rs] and [compress.rs]; requests, responses,
      the incremental header decoder, the etag, bounded decompression.

    Server ([src/server/src]):
    - [NetAddr]: IP addresses and their text, as [std::net] has them.
    - [Blocklist]: [blocklist.rs], the domain list and its atomic refresh.
    - [Filter]: [filter.rs], names, CIDR ranges, IPv6 embeddings, [resolve_and_pin]
      and [validate_url].
    - [ServerConfig]: [config.rs].
    - [ServerProxy]: [proxy.rs], the proxy the page browser goes through.
    - [OriginCC]: [origin_cc.rs], the Cache-Control probe.
    - [Callsign]: [session.rs].
    - [Browser]: [browser.rs], the launch of geckodriver and Firefox, and a page fetch.
    - [Scrub]: the script of [browser.rs] that cleans a page, over the tree of the page.
    - [SocketRead]: the bounded readers and [read_request] of [main.rs].
    - [Admission]: the connection caps of [main] as a transition system in which
      the accept loop and the connection threads interleave freely.
    - [Server]: [handle_connection] and [handle_request] of [main.rs].
    - [Logger]: [logger.rs], the lines of the access log.
    - [ServerMain]: [main], [start_proxy] and [serve_conn]; the start-up, and the accept
      loop that joins [Admission], [Server], [Browser] and [ServerProxy].

    Client ([src/client/src]):
    - [TransportTypes]: the data of [transport/mod.rs].
    - [ClientConfig]: [config.rs].  [ClientState]: [state.rs].  [Cache]: [cache.rs].
    - [Events]: the stream of [/events] of [proxy.rs], over a class for the broadcast
      channel of the log.
    - [Transport]: the [Transport] trait as a class with laws, the world the
      client's tasks share, and the rules ([does], [mild], [polite]) by which
      tasks are composed.
    - [AgwpeFrame], [Agwpe]: [transport/agwpe.rs]; the codec, and the modem, whose
      instance discharges the laws of [Transport].
    - [TcpStream], [VaraCodec], [Vara]: [transport/vara]; a socket with timed reads,
      the modem's lines, and the second modem that discharges the laws of [Transport].
    - [Session]: [transport/session.rs], over any transport.
    - [Delivery]: [Session] over [Agwpe] over [Protocol].
    - [Manager]: the commands of [transport/manager.rs], one at a time.
    - [Actor]: its handles and its background task, all callers at the same time.
    - [AnyTransport]: [Box<dyn Transport>], either modem behind one interface.
    - [HostGuard]: the allowlist and [security_guard] of [proxy.rs].
    - [UiText], [Ui]: [ui.rs]; the text of the pages, and the pages with their escaping.
    - [Rewrite]: [rewrite.rs], over classes for the [url] and [lol_html] crates.
    - [Browse]: [handle_browse] and [dispatch_ax25] of [proxy.rs], over [Manager],
      [Cache], [Rewrite] and [Ui]; the world of the web handlers.
    - [WebApi]: the other handlers and the router of [proxy.rs].
    - [ClientMain]: [main.rs], from the start to any sequence of requests.

    Both:
    - [EndToEnd]: [Server] answering what [Browse] sends over [Agwpe], one page.
    - [Visits]: the same, page after page, with what each leaves to the next.
    - [Greeting]: the handshakes of [Server] and [Session] joined.
    - [Contact]: all of it, from the connect button to the station's hanging up.

    ** How code is represented

    A fallible function returns a [Result]: [Ok], [Err], [Panic] for an index out of
    range or an overflowing assertion, and [Spin] when fuel runs out.  An effectful
    function is a computation [M W E A] over a world [W].  A world lists what the
    outside will do (reads with their times, outcomes of writes, of connections and
    of other programs, answers of the operator) and records what the code does.  A
    [match] on a [Result] is [catch]; [let _ =] is [ignore].  Integers are [Z] with
    casts written as [as_u32], [as_i64], ...; texts and bodies are [list byte].
    Functions keep their names; where two modules use one name, the file name
    tells them apart.  Loops that end because they use up input take fuel from that
    input: [stream_fuel] bytes of the stream on the server, [supply] of the modem
    (bytes buffered and events to come) on the client, [incoming_size] of the stream
    inside one frame read, the tenths of a second until the deadline and the lines left
    in [Vara.recv_loop], 64 lines in [Vara.close_loop] as in the code, and the
    attempts of 100 ms in [Browser.wait_ready].  That this fuel is enough is proved, as
    totality.  One loop of the program has no bound of its own, the restart of a browser
    whose session is lost ([Server.fetch_loop]): the server's world says whether the
    browser goes on crashing for ever after the outcomes listed ([crash_loop]); if it
    does, the loop does not end, with whatever fuel ([Server.crash_loop_never_answers]),
    and if not, its fuel, the outcomes listed and three, is enough.

    Other tasks of the client take the lock of the shared state, or raise the abort
    flag, between any two steps of the session: the world of [Transport] lists what
    they do before each access ([interference]), and the theorems of [Session] and
    [Manager] hold for every such list.  Around it, the world of [Browse] has the cache,
    with what other requests do to it before each access ([ticks]), and the commands
    other requests queued ahead of each command ([ahead]); its [replies] lists the
    answers that came over the radio, which is what pages are traced to ([sourced]).
    The clients of an interface are proved against it: [Session], [Manager] and [Browse]
    against [TransportLaws], [Rewrite] against [UrlCrateLaws] and [LolHtmlLaws]; the
    instances meet in [ClientMain].

    Two parts are step relations whose runs interleave freely: the accept loop with its
    threads ([Admission.step], and [ServerMain.serves] with the connections themselves),
    and the actor with its callers ([Actor.moves], labelled by what each step does), where
    the effects of other tasks that come while a command runs are spread over its accesses
    in any way.  The specification of the actor is [Actor.sequential], a fold of
    [Manager.step] over the commands with those effects.

    ** What is shown

    - Consent: the server serves nothing before a valid callsign and AGREE
      ([Server.agree_gate]); the client sends AGREE only after a wait that began with
      the received text on the consent page and ended with the operator's acceptance
      ([Session.handshake_consent]; a decision names no text, and which texts the page
      showed meanwhile is the state's, [Session.display_kept]), or for a text that is,
      byte for byte, one accepted before ([Session.reconnect_consent]), and counts as connected only then
      ([Manager.open_session_consented], and from the web interface, over either modem,
      [WebApi.connect_consented]); a decision is taken once ([WebApi.consent_post_spec]).
      The two handshakes fit: each waits for what the other writes
      ([Greeting.handshakes_agree]).
    - Isolation: the page browser is started with preferences that send its requests to
      the proxy ([Browser.launch_filtered], [Browser.filtered_route]), those for the
      machine itself excepted ([Browser.loopback_bypasses_proxy]), and the proxy reaches
      only pinned addresses outside the blocked ranges ([ServerProxy.handle_permitted],
      [Filter], [ServerConfig]); the start brings these up before it listens
      ([ServerMain.main_starts_filtered]), so that they hold of every connection of a
      running server ([ServerMain.server_filters]).
    - The web interface: which requests are admitted ([HostGuard.security_guard_spec])
      and what those of other sites can do ([WebApi.other_sites_only_read]); pages keep
      their structure whatever text they show ([Ui]); what the rewriter makes of each tag
      of a fetched page, and which it leaves out ([Rewrite.rewrite_html_exact]), after the
      server's browser has taken out the elements and attributes its script names
      ([Scrub.scrub_page]).  Neither makes a page harmless: what the rules do not name
      stays ([Rewrite.area_link_kept], [Scrub.loads_kept]).
    - The actor: it does one command after the other in the order of the queue
      ([Actor.actor_refines]), answers every call in its turn ([Actor.call_answered]),
      with a bounded queue ([Actor.calls_bounded]); no handler panics, which would end
      the task; and no command begun after a disconnection exchanges session data
      ([Actor.disconnect_refuses]).
    - The logs: a page is sent what was logged ([Events.events_complete]), and the access
      log has a line for each entry ([Logger.access_log_lines]).
    - Browsing: every request is answered, with a page that came for this URL
      ([Browse.browse_answers]); a fresh page needs no radio
      ([Browse.fresh_page_offline]), a POST no cache ([Browse.post_bypasses_cache]); a
      page the server encoded is shown and kept ([Browse.browse_delivers]); and with the
      server that answers it, the operator sees the page asked for
      ([EndToEnd.page_delivered]), and one page after the other as long as the requests
      come before the server's idle timeout ([Visits.session_of_pages]); and this from
      the connect button on, the prompt's last bytes unread when the first page comes,
      until the station hangs up ([Contact.contact]).  The server reads
      no further than a request ([SocketRead.read_request_local]), so that what comes
      later does not matter to it.
    - The second modem: it keeps the laws of the interface
      ([Vara.vara_implements_transport]), opens a session only by an acknowledged exchange
      ([Vara.session_acknowledged]) and loses no byte ([Vara.recv_keeps_data]).
    - The client as a whole: started, it answers every sequence of requests
      ([ClientMain.client_serves]) with settings of their types, which a saved file gives
      back cut at comment signs and trimmed ([ClientMain.settings_reread]).
    - Framing: responses, AGWPE frames, reads and the cache survive their round trips, in
      any chunking ([Protocol], [SocketRead], [AgwpeFrame], [Agwpe], [Cache]); requests do
      if and only if they are without the bytes that end a field
      ([Protocol.request_roundtrip]), which the client does not check
      ([Protocol.line_feed_splits_request]).
    - Delivery: each request gets exactly one response
      ([Server.handle_request_one_response]); a response sent is received
      ([Delivery.response_delivered]), is never mistaken for the end of the session
      ([AgwpeFrame.response_not_session_death]), and a request is repeated at most
      once ([Session.retry_at_most_once]).
    - Bounds and termination: lines, bodies, downloads, pages, connections, the log
      and the cache keep to their limits; requests of the client and handshakes end, and
      connections of the server, unless the browser crashes for ever
      ([Server.handle_connection_terminates]).

    ** What is not modelled

    Code outside [src] is an interface: the crates, tokio's scheduling of the tasks
    beyond the interference and the interleavings listed, WebDriver and Firefox (of which
    [Browser.FirefoxLaws] states how proxy preferences route a request), SQLite, the file
    text of configparser ([ClientConfig.IniLaws]), the tokens of [lol_html]
    ([Rewrite.LolHtmlLaws]: what the rewriter writes, not what a browser makes of it).
    The scripts of the interface's own pages are text.  A web handler runs between its
    accesses of shared state without the other handlers, whose effects are the listed
    ones; two requests to the client are not traced separately.  Axum's parsing of
    parameters and forms and serde's of JSON are the arguments of the handlers.  Of what
    is written to a console only the client's banner is modelled
    ([ClientMain.print_startup_banner]), not the log lines of the two programs.  A node
    between the two programs (BPQ) is another program; the handshakes and the contact are
    joined for a direct connection.

    The world of one web handler ([Browse], [WebApi]) and the system of all callers
    ([Actor]) are two models of the same queue: that the commands [ahead] of a handler's
    own, and the [interference] it meets, are those of a run of [Actor] is how the lists
    are to be read, and no theorem here. *)
From Stdlib Require Import ZArith Lia Strings.Byte.
From stdpp Require Import base decidable list countable gmap strings.

(** ** Results of Rust computations

    [Ok] and [Err] are Rust's [Result]; [Panic] is a panic (an index out of
    range, an arithmetic assertion); [Spin] is fuel exhausted in a loop whose
    recursion is not structural. *)

Inductive Result (E A : Type) : Type :=
| Ok (a : A)
| Err (e : E)
| Panic
| Spin.
Arguments Ok {E A} a.
Arguments Err {E A} e.
Arguments Panic {E A}.
Arguments Spin {E A}.

#[export] Instance Result_ret E : MRet (Result E) := fun A a => Ok a.
#[export] Instance Result_bind E : MBind (Result E) := fun A B f m =>
  match m with
  | Ok a => f a
  | Err e => Err e
  | Panic => Panic
  | Spin => Spin
  end.
#[export] Instance Result_fmap E : FMap (Result E) := fun A B f m =>
  match m with
  | Ok a => Ok (f a)
  | Err e => Err e
  | Panic => Panic
  | Spin => Spin
  end.

(** [r.map_err(f)] *)
Definition map_err {E F A} (f : E -> F) (r : Result E A) : Result F A :=
  match r with
  | Ok a => Ok a
  | Err e => Err (f e)
  | Panic => Panic
  | Spin => Spin
  end.

(** [o.ok_or(e)] *)
Definition ok_or {E A} (e : E) (o : option A) : Result E A :=
  match o with Some a => Ok a | None => Err e end.

(** A computation returned a value or an error: it neither panicked nor ran
    out of fuel. *)
Definition returns {E A} (r : Result E A) : Prop :=
  match r with Ok _ | Err _ => True | Panic | Spin => False end.

(** ** Stateful computations *)

Definition M (W E A : Type) : Type := W -> Result E A * W.

#[export] Instance M_ret W E : MRet (M W E) := fun A a w => (Ok a, w).
#[export] Instance M_bind W E : MBind (M W E) := fun A B f m w =>
  match m w with
  | (Ok a, w') => f a w'
  | (Err e, w') => (Err e, w')
  | (Panic, w') => (Panic, w')
  | (Spin, w') => (Spin, w')
  end.

(** One step of a [bind] at the head of the goal *)
Ltac bind1 := unfold mbind at 1, M_bind at 1.

Definition throw {W E A} (e : E) : M W E A := fun w => (Err e, w).
Definition diverge {W E A} : M W E A := fun w => (Spin, w).
Definition get {W E} : M W E W := fun w => (Ok w, w).
Definition gets {W E A} (f : W -> A) : M W E A := fun w => (Ok (f w), w).
Definition modify {W E} (f : W -> W) : M W E unit := fun w => (Ok tt, f w).
Definition mapE {W E F A} (f : E -> F) (m : M W E A) : M W F A := fun w =>
  let (r, w') := m w in (map_err f r, w').
(** Run [m] and hand its outcome to [k], as a [match] on a [Result] does. *)
Definition catch {W E F A B} (m : M W E A) (k : E + A -> M W F B) : M W F B :=
  fun w =>
    match m w with
    | (Ok a, w') => k (inr a) w'
    | (Err e, w') => k (inl e) w'
    | (Panic, w') => (Panic, w')
    | (Spin, w') => (Spin, w')
    end.
(** [let _ = m;] *)
Definition ignore {W E F A} (m : M W E A) : M W F unit :=
  catch m (fun _ => mret tt).

(** Results without a panic, as the calls into libraries have them *)
Definition of_sum {E A} (x : E + A) : Result E A :=
  match x with inl e => Err e | inr a => Ok a end.
Definition lift {W E A} (r : Result E A) : M W E A := fun w => (r, w).

Lemma bind_ok {W E A B} (m : M W E A) (k : A -> M W E B) w a w' :
  m w = (Ok a, w') -> (m ≫= k) w = k a w'.
Proof. intros Hm. unfold mbind, M_bind. by rewrite Hm. Qed.

(** ** Computations that log their actions

    The log is the part [tr] of the state.  [emits tr P m]: [m] only appends to
    the log, and each action it appends satisfies [P]. *)
Definition log {T E} (a : T) : M (list T) E unit := modify (fun t => t ++ [a]).

Definition emits {W T} (tr : W -> list T) (P : T -> Prop) {E A} (m : M W E A) : Prop :=
  forall w, exists tail, tr (m w).2 = tr w ++ tail /\ Forall P tail.

Section Emits.
Context {W T : Type} (tr : W -> list T) (P : T -> Prop).

Lemma emits_silent {E A} (m : M W E A) : (forall w, tr (m w).2 = tr w) -> emits tr P m.
Proof. intros H w. exists []. by rewrite app_nil_r. Qed.
Lemma emits_ret {E A} (a : A) : emits tr P (mret a : M W E A).
Proof. by apply emits_silent. Qed.
Lemma emits_throw {E A} (e : E) : emits tr P (throw e : M W E A).
Proof. by apply emits_silent. Qed.
Lemma emits_diverge {E A} : emits tr P (diverge : M W E A).
Proof. by apply emits_silent. Qed.
Lemma emits_lift {E A} (r : Result E A) : emits tr P (lift r : M W E A).
Proof. by apply emits_silent. Qed.
Lemma emits_gets {E A} (f : W -> A) : emits tr P (gets f : M W E A).
Proof. by apply emits_silent. Qed.

Lemma emits_bind {E A B} (m : M W E A) (f : A -> M W E B) :
  emits tr P m -> (forall w a, (m w).1 = Ok a -> emits tr P (f a)) -> emits tr P (m ≫= f).
Proof.
  intros Hm Hf w. destruct (Hm w) as (tl & Ht & HP).
  unfold mbind, M_bind. specialize (Hf w). destruct (m w) as [[a|e| |] w'] eqn:E1;
    simpl in *; [|by exists tl..].
  destruct (Hf a eq_refl w') as (tl' & Ht' & HP').
  exists (tl ++ tl'). rewrite Ht', Ht, app_assoc. split; [done|by apply Forall_app].
Qed.

Lemma emits_mapE {E F A} (f : E -> F) (m : M W E A) : emits tr P m -> emits tr P (mapE f m).
Proof. intros Hm w. specialize (Hm w). unfold mapE. by destruct (m w). Qed.

Lemma emits_catch {E F A B} (m : M W E A) (k : E + A -> M W F B) :
  emits tr P m -> (forall x, emits tr P (k x)) -> emits tr P (catch m k).
Proof.
  intros Hm Hk w. destruct (Hm w) as (tl & Ht & HP). unfold catch.
  destruct (m w) as [[a|e| |] w']; simpl in *; [| |by exists tl..].
  - destruct (Hk (inr a) w') as (tl' & Ht' & HP').
    exists (tl ++ tl'). rewrite Ht', Ht, app_assoc. split; [done|by apply Forall_app].
  - destruct (Hk (inl e) w') as (tl' & Ht' & HP').
    exists (tl ++ tl'). rewrite Ht', Ht, app_assoc. split; [done|by apply Forall_app].
Qed.

Lemma emits_ignore {E F A} (m : M W E A) :
  emits tr P m -> emits tr P (ignore m : M W F unit).
Proof. intros Hm. apply emits_catch; [done|]. intros. apply emits_ret. Qed.
End Emits.

Lemma emits_log {T} (P : T -> Prop) {E} a : P a -> emits (fun t => t) P (log a : M (list T) E unit).
Proof. intros Ha t. exists [a]. auto. Qed.

(** A weaker property of the actions *)
Lemma emits_mono {W T} (tr : W -> list T) (P Q : T -> Prop) {E A} (m : M W E A) :
  (forall a, P a -> Q a) -> emits tr P m -> emits tr Q m.
Proof.
  intros H Hm w. destruct (Hm w) as (tl & Ht & HP). exists tl. split; [done|].
  by eapply Forall_impl.
Qed.

Create HintDb emits.
#[export] Hint Resolve emits_ret emits_throw emits_diverge emits_lift emits_gets emits_log
  emits_mapE emits_ignore : emits.

(** A computation whose outcome is a value or an error from every state *)
Definition total {W E A} (m : M W E A) : Prop := forall w, returns (m w).1.

Lemma total_run {W E A} (m : M W E A) w : total m -> returns (m w).1.
Proof. by intros H. Qed.
Lemma total_ret {W E A} (a : A) : total (mret a : M W E A).
Proof. done. Qed.
Lemma total_throw {W E A} (e : E) : total (throw e : M W E A).
Proof. done. Qed.
Lemma total_modify {W E} (f : W -> W) : total (modify f : M W E unit).
Proof. done. Qed.
Lemma total_gets {W E A} (f : W -> A) : total (gets f : M W E A).
Proof. done. Qed.
Lemma total_lift {W E A} (r : Result E A) : returns r -> total (lift r : M W E A).
Proof. by intros ? w. Qed.
Lemma total_bind {W E A B} (m : M W E A) (f : A -> M W E B) :
  total m -> (forall a, total (f a)) -> total (m ≫= f).
Proof.
  intros Hm Hf w. specialize (Hm w). unfold mbind, M_bind.
  destruct (m w) as [[a|e| |] w']; try done. apply Hf.
Qed.
Lemma total_mapE {W E F A} (f : E -> F) (m : M W E A) : total m -> total (mapE f m).
Proof.
  intros Hm w. specialize (Hm w). unfold mapE. by destruct (m w) as [[| | |] ?].
Qed.
Lemma total_catch {W E F A B} (m : M W E A) (k : E + A -> M W F B) :
  total m -> (forall x, total (k x)) -> total (catch m k).
Proof.
  intros Hm Hk w. specialize (Hm w). unfold catch.
  destruct (m w) as [[a|e| |] w']; try done; apply Hk.
Qed.
Lemma total_ignore {W E F A} (m : M W E A) : total m -> total (ignore m : M W F unit).
Proof. intros Hm. by apply total_catch. Qed.

Lemma returns_ok_or {E A} (e : E) (o : option A) : returns (ok_or e o).
Proof. by destruct o. Qed.
Lemma returns_of_sum {E A} (x : E + A) : returns (of_sum x).
Proof. by destruct x. Qed.
Lemma returns_bind {E A B} (m : Result E A) (f : A -> Result E B) :
  returns m -> (forall a, m = Ok a -> returns (f a)) -> returns (m ≫= f).
Proof. destruct m; cbn; auto. Qed.
Lemma returns_map_err {E F A} (f : E -> F) (r : Result E A) :
  returns r -> returns (map_err f r).
Proof. by destruct r. Qed.

Lemma total_log {T E} (a : T) : total (log a : M (list T) E unit).
Proof. done. Qed.

(** Returning from one state, step by step *)
Lemma returns_bind_at {W E A B} (m : M W E A) (f : A -> M W E B) w :
  returns (m w).1 -> (forall a w', m w = (Ok a, w') -> returns (f a w').1) ->
  returns ((m ≫= f) w).1.
Proof. intros Hm Hf. bind1. destruct (m w) as [[a|e| |] w'] eqn:E1; simpl in *; auto. Qed.
Lemma returns_catch_at {W E F A B} (m : M W E A) (k : E + A -> M W F B) w :
  returns (m w).1 -> (forall x w', match x with inr a => m w = (Ok a, w') | inl e => m w = (Err e, w') end ->
    returns (k x w').1) ->
  returns (catch m k w).1.
Proof.
  intros Hm Hk. unfold catch. destruct (m w) as [[a|e| |] w'] eqn:E1; simpl in *; try done.
  - by apply (Hk (inr a)).
  - by apply (Hk (inl e)).
Qed.
Lemma returns_mapE_at {W E F A} (f : E -> F) (m : M W E A) w :
  returns (m w).1 -> returns (mapE f m w).1.
Proof. intros Hm. unfold mapE. destruct (m w) as [r w']. by apply returns_map_err. Qed.

Create HintDb total.
#[export] Hint Resolve total_ret total_throw total_modify total_gets total_log total_lift total_bind total_mapE
  total_catch total_ignore returns_ok_or returns_of_sum returns_map_err : total.

(** A computation that always yields a value *)
Definition succeeds {W E A} (m : M W E A) : Prop := forall w, exists a, (m w).1 = Ok a.

Lemma succeeds_ret {W E A} (a : A) : succeeds (mret a : M W E A).
Proof. intros w. by exists a. Qed.
Lemma succeeds_bind {W E A B} (m : M W E A) (f : A -> M W E B) :
  succeeds m -> (forall a, succeeds (f a)) -> succeeds (m ≫= f).
Proof.
  intros Hm Hf w. destruct (Hm w) as [a Ha]. unfold mbind, M_bind.
  destruct (m w) as [r w']; simpl in *; subst. apply Hf.
Qed.
Lemma succeeds_catch {W E F A B} (m : M W E A) (k : E + A -> M W F B) :
  total m -> (forall x, succeeds (k x)) -> succeeds (catch m k).
Proof.
  intros Hm Hk w. specialize (Hm w). unfold catch.
  destruct (m w) as [[a|e| |] w']; try done; apply Hk.
Qed.
Lemma succeeds_ignore {W E F A} (m : M W E A) : total m -> succeeds (ignore m : M W F unit).
Proof. intros Hm. apply succeeds_catch; [done|]. intros. apply succeeds_ret. Qed.
#[export] Hint Resolve succeeds_ret succeeds_bind succeeds_catch succeeds_ignore : total.

(** A computation that leaves a part of the state as it was *)
Definition keeps {W X E A} (f : W -> X) (m : M W E A) : Prop := forall w, f (m w).2 = f w.

Section Keeps.
Context {W X : Type} (f : W -> X).

Lemma keeps_ret {E A} (a : A) : keeps f (mret a : M W E A).
Proof. done. Qed.
Lemma keeps_throw {E A} (e : E) : keeps f (throw e : M W E A).
Proof. done. Qed.
Lemma keeps_diverge {E A} : keeps f (diverge : M W E A).
Proof. done. Qed.
Lemma keeps_lift {E A} (r : Result E A) : keeps f (lift r : M W E A).
Proof. done. Qed.
Lemma keeps_gets {E A} (g : W -> A) : keeps f (gets g : M W E A).
Proof. done. Qed.
Lemma keeps_bind {E A B} (m : M W E A) (k : A -> M W E B) :
  keeps f m -> (forall a, keeps f (k a)) -> keeps f (m ≫= k).
Proof.
  intros Hm Hk w. specialize (Hm w). unfold mbind, M_bind.
  destruct (m w) as [[a|e| |] w']; simpl in *; [|done..]. by rewrite (Hk a w').
Qed.
Lemma keeps_mapE {E F A} (g : E -> F) (m : M W E A) : keeps f m -> keeps f (mapE g m).
Proof. intros Hm w. specialize (Hm w). unfold mapE. by destruct (m w). Qed.
Lemma keeps_catch {E F A B} (m : M W E A) (k : E + A -> M W F B) :
  keeps f m -> (forall x, keeps f (k x)) -> keeps f (catch m k).
Proof.
  intros Hm Hk w. specialize (Hm w). unfold catch.
  destruct (m w) as [[a|e| |] w']; simpl in *; [| |done..]; by rewrite (Hk _ w').
Qed.
Lemma keeps_ignore {E F A} (m : M W E A) : keeps f m -> keeps f (ignore m : M W F unit).
Proof. intros Hm. by apply keeps_catch. Qed.
End Keeps.

Create HintDb keeps.
#[export] Hint Resolve keeps_ret keeps_throw keeps_diverge keeps_lift keeps_gets keeps_bind
  keeps_mapE keeps_catch keeps_ignore : keeps.
