(* ===== verification/Bytes.v ===== *)
(** * Byte strings: slices, Rust's [str] operations and UTF-8

    A [Vec<u8>], a [&[u8]] and a [str] are all a [list byte]; a [str] is a
    byte list that satisfies [utf8_valid].  The searching, splitting and
    trimming operations of the Rust standard library the program uses are
    defined here, with the lemmas the components share. *)
From Stdlib Require Import ZArith Lia Strings.Byte.
From stdpp Require Import base decidable list countable gmap strings.
From S2P Require Import Prelude.
Export String.StringSyntax.

(** ** Bytes *)

#[export] Instance byte_eq_dec : EqDecision byte := Byte.byte_eq_dec.
#[export] Instance byte_countable : Countable byte.
Proof.
  refine (inj_countable Byte.to_N Byte.of_N _). apply Byte.of_to_N.
Defined.

Definition u8 (b : byte) : Z := Z.of_N (Byte.to_N b).
(** [z as u8] *)
Definition u8_of (z : Z) : byte :=
  match Byte.of_N (Z.to_N (z mod 256)) with Some b => b | None => x00 end.

Lemma u8_range b : (0 <= u8 b < 256)%Z.
Proof. unfold u8. pose proof (Byte.to_N_bounded b). lia. Qed.

Lemma u8_of_u8 b : u8_of (u8 b) = b.
Proof.
  unfold u8_of. rewrite Z.mod_small by apply u8_range.
  unfold u8. by rewrite N2Z.id, Byte.of_to_N.
Qed.

Lemma u8_u8_of z : u8 (u8_of z) = (z mod 256)%Z.
Proof.
  unfold u8_of, u8. pose proof (Z.mod_pos_bound z 256 ltac:(lia)).
  destruct (Byte.of_N (Z.to_N (z mod 256))) as [b|] eqn:E.
  - apply Byte.to_of_N in E. rewrite E. lia.
  - apply Byte.of_N_None_iff in E. lia.
Qed.

Lemma u8_inj a b : u8 a = u8 b -> a = b.
Proof. intros H. by rewrite <- (u8_of_u8 a), <- (u8_of_u8 b), H. Qed.

Abbreviation NUL := x00 (only parsing).
Abbreviation LF := x0a (only parsing).
Abbreviation CR := x0d (only parsing).
Abbreviation SP := x20 (only parsing).

Definition bs (s : string) : list byte := String.list_byte_of_string s.
Arguments bs s%_string.

(** ** Character classes ([char::is_ascii_*], [to_ascii_lowercase], ...) *)

Definition in_range (lo hi : Z) (b : byte) : bool :=
  ((lo <=? u8 b) && (u8 b <=? hi))%Z.
Definition is_ascii (b : byte) : bool := (u8 b <? 128)%Z.
Definition is_digit (b : byte) : bool := in_range 48 57 b.
Definition is_upper (b : byte) : bool := in_range 65 90 b.
Definition is_lower (b : byte) : bool := in_range 97 122 b.
Definition is_alpha (b : byte) : bool := is_upper b || is_lower b.
Definition is_alnum (b : byte) : bool := is_alpha b || is_digit b.
Definition lower (b : byte) : byte := if is_upper b then u8_of (u8 b + 32) else b.
Definition upper (b : byte) : byte := if is_lower b then u8_of (u8 b - 32) else b.
Definition to_ascii_lowercase : list byte -> list byte := map lower.
Definition to_ascii_uppercase : list byte -> list byte := map upper.
Definition eq_ignore_ascii_case (a b : list byte) : bool :=
  bool_decide (to_ascii_lowercase a = to_ascii_lowercase b).

Lemma lower_idem b : lower (lower b) = lower b.
Proof. by destruct b. Qed.
Lemma to_ascii_lowercase_idem s :
  to_ascii_lowercase (to_ascii_lowercase s) = to_ascii_lowercase s.
Proof.
  unfold to_ascii_lowercase. rewrite map_map. apply map_ext. apply lower_idem.
Qed.

(** ** Searching *)

(** [l.iter().position(p)] *)
Fixpoint position {A} (p : A -> bool) (l : list A) : option nat :=
  match l with
  | [] => None
  | x :: t => if p x then Some 0 else S <$> position p t
  end.

(** [l.starts_with(prefix)] *)
Fixpoint starts_with (prefix l : list byte) : bool :=
  match prefix, l with
  | [], _ => true
  | p :: ps, x :: t => Byte.eqb p x && starts_with ps t
  | _ :: _, [] => false
  end.

(** [l.windows(needle.len()).position(|w| w == needle)], and [str::find] *)
Fixpoint find_sub (needle l : list byte) : option nat :=
  if starts_with needle l then Some 0
  else match l with
       | [] => None
       | _ :: t => S <$> find_sub needle t
       end.

Definition contains (needle l : list byte) : bool :=
  match find_sub needle l with Some _ => true | None => false end.

(** [l.strip_prefix(p)], [l.strip_suffix(p)] *)
Definition strip_prefix (p l : list byte) : option (list byte) :=
  if starts_with p l then Some (drop (length p) l) else None.
Definition strip_suffix (p l : list byte) : option (list byte) :=
  if starts_with (rev p) (rev l) then Some (take (length l - length p) l) else None.

(** [l.split_once(needle)] *)
Definition split_once (needle l : list byte) : option (list byte * list byte) :=
  i ← find_sub needle l; Some (take i l, drop (i + length needle) l).

(** [l.rsplit_once(c)] *)
Definition rsplit_once (c : byte) (l : list byte) : option (list byte * list byte) :=
  i ← position (Byte.eqb c) (rev l);
  Some (take (length l - S i) l, drop (length l - i) l).

(** [l.split(c)]: never empty *)
Fixpoint split_on (c : byte) (l : list byte) : list (list byte) :=
  match l with
  | [] => [[]]
  | x :: t =>
      if Byte.eqb x c then [] :: split_on c t
      else match split_on c t with
           | [] => [[x]]
           | p :: ps => (x :: p) :: ps
           end
  end.

(** ** Trimming

    [str::trim] removes Unicode [White_Space] characters, here by their UTF-8
    encodings: one, two or three bytes. *)
Definition ws1 (a : byte) : bool := in_range 9 13 a || Byte.eqb a SP.
Definition ws2 (a b : byte) : bool := Byte.eqb a xc2 && (Byte.eqb b x85 || Byte.eqb b xa0).
Definition ws3 (a b c : byte) : bool :=
  (Byte.eqb a xe1 && Byte.eqb b x9a && Byte.eqb c x80)
  || (Byte.eqb a xe2 && Byte.eqb b x80
      && (in_range 128 138 c || Byte.eqb c xa8 || Byte.eqb c xa9 || Byte.eqb c xaf))
  || (Byte.eqb a xe2 && Byte.eqb b x81 && Byte.eqb c x9f)
  || (Byte.eqb a xe3 && Byte.eqb b x80 && Byte.eqb c x80).

Fixpoint trim_while (w1 : byte -> bool) (w2 : byte -> byte -> bool)
    (w3 : byte -> byte -> byte -> bool) (l : list byte) : list byte :=
  match l with
  | [] => []
  | a :: t1 =>
      if w1 a then trim_while w1 w2 w3 t1 else
      match t1 with
      | [] => l
      | b :: t2 =>
          if w2 a b then trim_while w1 w2 w3 t2 else
          match t2 with
          | [] => l
          | c :: t3 => if w3 a b c then trim_while w1 w2 w3 t3 else l
          end
      end
  end.

Definition trim_start : list byte -> list byte := trim_while ws1 ws2 ws3.
Definition trim_end (l : list byte) : list byte :=
  rev (trim_while ws1 (fun b a => ws2 a b) (fun c b a => ws3 a b c) (rev l)).
(** [s.trim()] *)
Definition trim (l : list byte) : list byte := trim_end (trim_start l).

(** [s.lines()]: the pieces ended by a line feed, each without one trailing
    carriage return; a last piece is a line only when it is not empty. *)
Definition strip_cr (l : list byte) : list byte :=
  match strip_suffix [CR] l with Some l' => l' | None => l end.
Fixpoint drop_last_empty (ps : list (list byte)) : list (list byte) :=
  match ps with
  | [] => []
  | [p] => if bool_decide (p = []) then [] else [p]
  | p :: ps' => strip_cr p :: drop_last_empty ps'
  end.
Definition lines (l : list byte) : list (list byte) := drop_last_empty (split_on LF l).

(** [s.split_whitespace()]; [cur] is the current word, reversed *)
Definition flush (cur : list byte) : list (list byte) :=
  match cur with [] => [] | _ => [rev cur] end.
Fixpoint words (cur l : list byte) : list (list byte) :=
  match l with
  | [] => flush cur
  | a :: t1 =>
      if ws1 a then flush cur ++ words [] t1 else
      match t1 with
      | [] => words (a :: cur) t1
      | b :: t2 =>
          if ws2 a b then flush cur ++ words [] t2 else
          match t2 with
          | [] => words (a :: cur) t1
          | c :: t3 => if ws3 a b c then flush cur ++ words [] t3 else words (a :: cur) t1
          end
      end
  end.
Definition split_whitespace (l : list byte) : list (list byte) := words [] l.

(** [s.trim_end_matches(p)] and [s.trim_start_matches(p)] for a predicate on
    single-byte characters *)
Definition trim_end_matches (p : byte -> bool) (l : list byte) : list byte :=
  rev (trim_while p (fun _ _ => false) (fun _ _ _ => false) (rev l)).
Definition trim_start_matches (p : byte -> bool) (l : list byte) : list byte :=
  trim_while p (fun _ _ => false) (fun _ _ _ => false) l.

(** ** UTF-8 *)

(** The lead byte of a character: how many bytes it announces, and the range
    of the second byte where it is narrower than a continuation byte. *)
Inductive utf8_lead : Type :=
| Lead1
| Lead2
| Lead3 (lo hi : Z)
| Lead4 (lo hi : Z)
| LeadBad.

Definition lead (a : byte) : utf8_lead :=
  if is_ascii a then Lead1
  else if in_range 0xC2 0xDF a then Lead2
  else if Byte.eqb a xe0 then Lead3 0xA0 0xBF
  else if Byte.eqb a xed then Lead3 0x80 0x9F
  else if in_range 0xE1 0xEF a then Lead3 0x80 0xBF
  else if Byte.eqb a xf0 then Lead4 0x90 0xBF
  else if in_range 0xF1 0xF3 a then Lead4 0x80 0xBF
  else if Byte.eqb a xf4 then Lead4 0x80 0x8F
  else LeadBad.

Definition is_cont (b : byte) : bool := in_range 0x80 0xBF b.

(** [str::from_utf8(l).is_ok()] *)
Fixpoint utf8_valid (l : list byte) : bool :=
  match l with
  | [] => true
  | a :: t1 =>
      match lead a with
      | Lead1 => utf8_valid t1
      | Lead2 => match t1 with b :: t2 => is_cont b && utf8_valid t2 | _ => false end
      | Lead3 lo hi =>
          match t1 with
          | b :: c :: t3 => in_range lo hi b && is_cont c && utf8_valid t3
          | _ => false
          end
      | Lead4 lo hi =>
          match t1 with
          | b :: c :: d :: t4 =>
              in_range lo hi b && is_cont c && is_cont d && utf8_valid t4
          | _ => false
          end
      | LeadBad => false
      end
  end.

Definition from_utf8 (l : list byte) : option (list byte) :=
  if utf8_valid l then Some l else None.

(** [String::from_utf8_lossy]: each maximal ill-formed prefix of a character
    becomes U+FFFD. *)
Definition replacement : list byte := [xef; xbf; xbd].
Fixpoint from_utf8_lossy (l : list byte) : list byte :=
  match l with
  | [] => []
  | a :: t1 =>
      match lead a with
      | Lead1 => a :: from_utf8_lossy t1
      | Lead2 =>
          match t1 with
          | b :: t2 => if is_cont b then a :: b :: from_utf8_lossy t2
                       else replacement ++ from_utf8_lossy t1
          | [] => replacement
          end
      | Lead3 lo hi =>
          match t1 with
          | b :: t2 =>
              if in_range lo hi b then
                match t2 with
                | c :: t3 => if is_cont c then a :: b :: c :: from_utf8_lossy t3
                             else replacement ++ from_utf8_lossy t2
                | [] => replacement
                end
              else replacement ++ from_utf8_lossy t1
          | [] => replacement
          end
      | Lead4 lo hi =>
          match t1 with
          | b :: t2 =>
              if in_range lo hi b then
                match t2 with
                | c :: t3 =>
                    if is_cont c then
                      match t3 with
                      | d :: t4 => if is_cont d then a :: b :: c :: d :: from_utf8_lossy t4
                                   else replacement ++ from_utf8_lossy t3
                      | [] => replacement
                      end
                    else replacement ++ from_utf8_lossy t2
                | [] => replacement
                end
              else replacement ++ from_utf8_lossy t1
          | [] => replacement
          end
      | LeadBad => replacement ++ from_utf8_lossy t1
      end
  end.

(** ** Automation

    [len] decides goals on list lengths after pushing [length] inwards. *)
Create Rewrite HintDb len.
#[export] Hint Rewrite @length_app @length_cons @length_nil @length_take @length_drop
  @length_rev @length_map @length_replicate : len.
(** Boolean comparisons as propositions. *)
Ltac b2p :=
  repeat match goal with
         | H : (_ <? _)%Z = true |- _ => apply Z.ltb_lt in H
         | H : (_ <? _)%Z = false |- _ => apply Z.ltb_ge in H
         | H : (_ <=? _)%Z = true |- _ => apply Z.leb_le in H
         | H : (_ <=? _)%Z = false |- _ => apply Z.leb_gt in H
         | H : (_ =? _)%Z = true |- _ => apply Z.eqb_eq in H
         | H : (_ =? _)%Z = false |- _ => apply Z.eqb_neq in H
         | H : (_ <? _)%nat = true |- _ => apply Nat.ltb_lt in H
         | H : (_ <? _)%nat = false |- _ => apply Nat.ltb_ge in H
         | H : (_ <=? _)%nat = true |- _ => apply Nat.leb_le in H
         | H : (_ <=? _)%nat = false |- _ => apply Nat.leb_gt in H
         | H : (_ =? _)%nat = true |- _ => apply Nat.eqb_eq in H
         | H : (_ =? _)%nat = false |- _ => apply Nat.eqb_neq in H
         end.
Ltac len := b2p; repeat (progress (autorewrite with len in *; simpl length in *)); lia.

(** No occurrence of a byte *)
Definition no_byte (c : byte) (l : list byte) : bool :=
  forallb (fun y => negb (Byte.eqb c y)) l.

(** ** Lemmas on searching *)

Lemma byte_eqb_eq a b : Byte.eqb a b = true <-> a = b.
Proof. split; [apply Byte.byte_dec_bl | apply Byte.byte_dec_lb]. Qed.
Lemma byte_eqb_refl a : Byte.eqb a a = true.
Proof. by apply byte_eqb_eq. Qed.
Lemma byte_eqb_sym a b : Byte.eqb a b = Byte.eqb b a.
Proof. apply eq_true_iff_eq. rewrite !byte_eqb_eq. by split. Qed.
Lemma byte_eqb_ne a b : Byte.eqb a b = false <-> a <> b.
Proof. rewrite <- byte_eqb_eq. by destruct (Byte.eqb a b). Qed.

Lemma position_Some {A} (p : A -> bool) l i :
  position p l = Some i <->
  exists a x b, l = a ++ x :: b /\ length a = i /\ p x = true
                /\ forallb (fun y => negb (p y)) a = true.
Proof.
  revert i. induction l as [|y t IH]; intros i; simpl.
  - split; [done|]. intros (a & x & b & H & _). by destruct a.
  - destruct (p y) eqn:Hy.
    + split.
      * intros [= <-]. by exists [], y, t.
      * intros (a & x & b & H & Hi & Hx & Ha). destruct a as [|z a]; simplify_eq/=; [done|].
        by rewrite Hy in Ha.
    + rewrite fmap_Some. split.
      * intros (j & Hj & ->). apply IH in Hj as (a & x & b & -> & <- & Hx & Ha).
        exists (y :: a), x, b. simpl. by rewrite Hy, Ha.
      * intros (a & x & b & H & Hi & Hx & Ha). destruct a as [|z a]; simplify_eq/=; [congruence|].
        rewrite Hy in Ha. simpl in Ha.
        exists (length a). split; [|done]. apply IH. by exists a, x, b.
Qed.

Lemma position_None {A} (p : A -> bool) l :
  position p l = None <-> forallb (fun y => negb (p y)) l = true.
Proof.
  induction l as [|y t IH]; simpl; [done|].
  destruct (p y); simpl; [done|]. by rewrite fmap_None.
Qed.

Lemma position_lt {A} (p : A -> bool) l i : position p l = Some i -> (i < length l)%nat.
Proof.
  rewrite position_Some. intros (a & x & b & -> & <- & _). rewrite length_app. simpl. lia.
Qed.

(** The first match is not affected by what follows: an incremental reader
    that has found it keeps it. *)
Lemma position_app {A} (p : A -> bool) l r i :
  position p l = Some i -> position p (l ++ r) = Some i.
Proof.
  rewrite !position_Some. intros (a & x & b & -> & Hi & Hx & Ha).
  exists a, x, (b ++ r). by rewrite <- app_assoc.
Qed.

Lemma position_app_first {A} (p : A -> bool) a x b :
  forallb (fun y => negb (p y)) a = true -> p x = true ->
  position p (a ++ x :: b) = Some (length a).
Proof. intros. apply position_Some. by exists a, x, b. Qed.

Lemma starts_with_spec p l : starts_with p l = true <-> exists r, l = p ++ r.
Proof.
  revert l. induction p as [|a p IH]; intros l; simpl.
  - split; [by exists l|done].
  - destruct l as [|x t]; [split; [done|by intros [? ?]]|].
    rewrite andb_true_iff, byte_eqb_eq, IH. split.
    + intros [-> [r ->]]. by exists r.
    + intros [r [= -> ->]]. eauto.
Qed.

Lemma starts_with_app p r : starts_with p (p ++ r) = true.
Proof. apply starts_with_spec. eauto. Qed.

Lemma starts_with_length p l : starts_with p l = true -> (length p <= length l)%nat.
Proof. rewrite starts_with_spec. intros (r & ->). rewrite length_app. lia. Qed.

Lemma starts_with_app_l p l r :
  (length p <= length l)%nat -> starts_with p (l ++ r) = starts_with p l.
Proof.
  revert l. induction p as [|a p IH]; intros [|x t] Hl; simpl in *; try done; [lia|].
  by rewrite IH by lia.
Qed.

Lemma starts_with_mono p l r : starts_with p l = true -> starts_with p (l ++ r) = true.
Proof. rewrite !starts_with_spec. intros (q & ->). exists (q ++ r). by rewrite app_assoc. Qed.

Lemma find_sub_unfold n l :
  find_sub n l = if starts_with n l then Some 0
                 else match l with [] => None | _ :: t => S <$> find_sub n t end.
Proof. by destruct l. Qed.

Lemma find_sub_Some n l i :
  find_sub n l = Some i ->
  exists a b, l = a ++ n ++ b /\ length a = i.
Proof.
  revert i. induction l as [|x t IH]; intros i; rewrite find_sub_unfold;
    destruct (starts_with n _) eqn:E; try done.
  - intros [= <-]. apply starts_with_spec in E as (r & ->). by exists [], r.
  - intros [= <-]. apply starts_with_spec in E as (r & ->). by exists [], r.
  - rewrite fmap_Some. intros (j & Hj & ->). apply IH in Hj as (a & b & -> & <-).
    by exists (x :: a), b.
Qed.

Lemma find_sub_bound n l i :
  find_sub n l = Some i -> (i + length n <= length l)%nat.
Proof.
  intros (a & b & -> & <-)%find_sub_Some. rewrite !length_app. lia.
Qed.

Lemma find_sub_app n l r i :
  find_sub n l = Some i -> find_sub n (l ++ r) = Some i.
Proof.
  revert i. induction l as [|x t IH]; intros i H.
  - rewrite find_sub_unfold in H. destruct (starts_with n []) eqn:E; [|done].
    rewrite find_sub_unfold, starts_with_mono by done. done.
  - pose proof (find_sub_bound _ _ _ H) as Hb.
    rewrite find_sub_unfold in H |- *. rewrite starts_with_app_l by lia.
    destruct (starts_with n (x :: t)); [done|]. simpl in *.
    apply fmap_Some in H as (j & Hj & ->). by rewrite (IH _ Hj).
Qed.

(** Searching for a needle that starts nowhere in [g] finds the one after it. *)
Lemma find_sub_skip n g l :
  (forall i, (i < length g)%nat -> starts_with n (drop i (g ++ l)) = false) ->
  find_sub n (g ++ l) = (fun i => length g + i)%nat <$> find_sub n l.
Proof.
  induction g as [|x g IH]; intros H.
  - simpl. by destruct (find_sub n l).
  - pose proof (H 0%nat ltac:(simpl; lia)) as H0. simpl in H0 |- *. rewrite H0.
    rewrite IH. { by destruct (find_sub n l). }
    intros i Hi. apply (H (S i)). simpl. lia.
Qed.

Lemma contains_spec n l : contains n l = true <-> exists a b, l = a ++ n ++ b.
Proof.
  unfold contains. split.
  - destruct (find_sub n l) as [i|] eqn:E; [|done].
    apply find_sub_Some in E as (a & b & -> & _). eauto.
  - intros (a & b & ->).
    assert (is_Some (find_sub n (a ++ n ++ b))) as [i ->]; [|done].
    induction a as [|x a IH].
    + simpl. rewrite find_sub_unfold, starts_with_app. eauto.
    + destruct IH as [j Hj]. simpl. rewrite Hj. destruct (starts_with n _); simpl; eauto.
Qed.

(** A text does not begin among bytes that lack its first one. *)
Lemma contains_fresh c n g x :
  c ∉ g -> contains (c :: n) (g ++ x) = contains (c :: n) x.
Proof.
  intros Hg. apply Bool.eq_iff_eq_true. rewrite !contains_spec. split.
  - intros (a & b & Hx). revert a Hx. induction g as [|y g IH]; intros a Hx; [by exists a, b|].
    apply not_elem_of_cons in Hg as [Hy Hg]. destruct a as [|z a]; injection Hx as Hxy Hx; [congruence|].
    by apply (IH Hg a).
  - intros (a & b & ->). exists (g ++ a), b. by rewrite <- !app_assoc.
Qed.

Lemma contains_app_l n l r : contains n l = true -> contains n (l ++ r) = true.
Proof.
  rewrite !contains_spec. intros (a & b & ->). exists a, (b ++ r). by rewrite <- !app_assoc.
Qed.

Lemma split_once_Some n l u v :
  split_once n l = Some (u, v) -> l = u ++ n ++ v.
Proof.
  unfold split_once. intros H. apply bind_Some in H as (i & Hi & [= <- <-]).
  apply find_sub_Some in Hi as (a & b & -> & <-).
  rewrite take_app_length. f_equal. f_equal.
  rewrite app_assoc. by rewrite drop_app_length' by (rewrite length_app; lia).
Qed.

Lemma split_once_None n l : split_once n l = None <-> contains n l = false.
Proof.
  unfold split_once, contains. by destruct (find_sub n l).
Qed.

Lemma find_sub_first n u v :
  n <> [] ->
  contains n (u ++ take (length n - 1) n) = false ->
  find_sub n (u ++ n ++ v) = Some (length u).
Proof.
  intros Hn H. rewrite find_sub_skip.
  - rewrite find_sub_unfold, starts_with_app. simpl. f_equal. lia.
  - intros i Hi. destruct (starts_with n (drop i (u ++ n ++ v))) eqn:E; [|done].
    exfalso. apply not_true_iff_false in H. apply H. apply contains_spec.
    exists (take i u). apply starts_with_spec in E as (r & Hr).
    assert (Hl : (1 <= length n)%nat) by (destruct n; [done|simpl; lia]).
    assert (n = take (length n) (drop i u ++ take (length n - 1) n)) as Hpre.
    { rewrite drop_app_le in Hr by lia.
      transitivity (take (length n) (n ++ r)); [by rewrite take_app_length|].
      rewrite <- Hr, !take_app. f_equal. rewrite !take_take, length_drop.
      replace (length n - (length u - i) - length n)%nat with 0%nat by lia.
      rewrite take_0, app_nil_r. f_equal. lia. }
    set (X := drop i u ++ take (length n - 1) n) in *.
    exists (drop (length n) X). transitivity (take i u ++ X).
    { unfold X. by rewrite app_assoc, take_drop. }
    f_equal. rewrite <- (take_drop (length n) X) at 1. by f_equal.
Qed.

Lemma split_once_first n u v :
  n <> [] ->
  contains n (u ++ take (length n - 1) n) = false ->
  split_once n (u ++ n ++ v) = Some (u, v).
Proof.
  intros Hn H. unfold split_once. rewrite (find_sub_first n u v Hn H). simpl.
  rewrite take_app_length. do 2 f_equal.
  rewrite app_assoc. by rewrite drop_app_length' by (rewrite length_app; lia).
Qed.

Lemma split_on_none c l :
  forallb (fun y => negb (Byte.eqb y c)) l = true -> split_on c l = [l].
Proof.
  induction l as [|x t IH]; simpl; [done|].
  intros [Hx Ht]%andb_true_iff. rewrite negb_true_iff in Hx. by rewrite Hx, (IH Ht).
Qed.

Lemma split_on_app c a b :
  forallb (fun y => negb (Byte.eqb y c)) a = true ->
  split_on c (a ++ c :: b) = a :: split_on c b.
Proof.
  induction a as [|x a IH]; simpl.
  - by rewrite byte_eqb_refl.
  - intros [Hx Ha]%andb_true_iff. rewrite negb_true_iff in Hx. by rewrite Hx, (IH Ha).
Qed.

Lemma split_on_nonempty c l : split_on c l <> [].
Proof.
  destruct l as [|x t]; simpl; [done|].
  destruct (Byte.eqb x c); [done|]. by destruct (split_on c t).
Qed.

Lemma split_on_cat c a b : split_on c (a ++ c :: b) = split_on c a ++ split_on c b.
Proof.
  induction a as [|x a IH]; simpl; [by rewrite byte_eqb_refl|].
  rewrite IH. destruct (Byte.eqb x c); [done|].
  pose proof (split_on_nonempty c a). by destruct (split_on c a).
Qed.

(** Joining the pieces gives the string back, and no piece has the separator. *)
Lemma split_on_pieces c l :
  Forall (fun p => forallb (fun y => negb (Byte.eqb y c)) p = true) (split_on c l).
Proof.
  induction l as [|x t IH]; simpl; [by constructor|].
  destruct (Byte.eqb x c) eqn:E; [by constructor|].
  destruct (split_on c t) as [|p ps]; [by repeat constructor; simpl; rewrite E|].
  inversion IH; subst. constructor; [|done]. simpl. by rewrite E.
Qed.

(** ** Lemmas on UTF-8 *)

Lemma length_ind {A} (P : list A -> Prop) :
  (forall l, (forall l', (length l' < length l)%nat -> P l') -> P l) -> forall l, P l.
Proof.
  intros H l. remember (length l) as n eqn:E. revert l E.
  induction n as [n IH] using lt_wf_ind. intros l ->. apply H.
  intros l' Hl'. by eapply IH.
Qed.

(** Case analysis on the first character of a byte string. *)
Ltac utf8_cases l :=
  destruct l as [|? l]; simpl in *; try done;
  try match goal with
      | |- context [lead ?a] => destruct (lead a) eqn:?
      | H : context [lead ?a] |- _ => destruct (lead a) eqn:?
      end; simpl in *; try done;
  repeat match goal with
         | H : context [match ?t with [] => _ | _ :: _ => _ end] |- _ =>
             is_var t; destruct t; simpl in *; try done
         end.

Lemma utf8_valid_app a b : utf8_valid a = true -> utf8_valid (a ++ b) = utf8_valid b.
Proof.
  induction a as [a IH] using length_ind. intros Ha.
  utf8_cases a; rewrite ?andb_true_iff in Ha; destruct_and?;
    repeat match goal with H : _ = true |- _ => rewrite H end; simpl;
    by rewrite IH by (simpl; lia || done).
Qed.

Lemma lead_ascii a : is_ascii a = true -> lead a = Lead1.
Proof. unfold lead. by intros ->. Qed.

Lemma ascii_utf8_valid l : forallb is_ascii l = true -> utf8_valid l = true.
Proof.
  induction l as [|a l IH]; simpl; [done|]. intros [Ha Hl]%andb_true_iff.
  by rewrite lead_ascii by done; apply IH.
Qed.

Lemma is_ascii_not_cont a : is_ascii a = true -> is_cont a = false.
Proof. unfold is_ascii, is_cont, in_range. lia. Qed.

Lemma lead3_range a lo hi b :
  lead a = Lead3 lo hi -> in_range lo hi b = true -> is_ascii b = false.
Proof.
  unfold lead, in_range, is_ascii. repeat case_match; intros; simplify_eq; lia.
Qed.
Lemma lead4_range a lo hi b :
  lead a = Lead4 lo hi -> in_range lo hi b = true -> is_ascii b = false.
Proof.
  unfold lead, in_range, is_ascii. repeat case_match; intros; simplify_eq; lia.
Qed.

(** A valid string may be cut at any ASCII byte: both sides are valid. *)
Lemma utf8_valid_cut a x b :
  is_ascii x = true -> utf8_valid (a ++ x :: b) = true ->
  utf8_valid a = true /\ utf8_valid b = true.
Proof.
  intros Hx. pose proof (is_ascii_not_cont _ Hx) as Hc.
  induction a as [a IH] using length_ind. intros H.
  destruct a as [|c a]; simpl in *; [by rewrite lead_ascii in H|].
  destruct (lead c) as [| |lo hi|lo hi|] eqn:E; [by apply IH; simpl; [lia|]| | | |done].
  - destruct a as [|d a]; simpl in *; apply andb_true_iff in H as [H1 H2]; [congruence|].
    rewrite H1. simpl. apply IH; [simpl; lia|done].
  - destruct a as [|d [|e a]]; simpl in *.
    + destruct b; [done|]. rewrite !andb_true_iff in H. destruct H as [[H _] _].
      pose proof (lead3_range _ _ _ _ E H). congruence.
    + rewrite !andb_true_iff in H. destruct H as [[_ H] _]. congruence.
    + rewrite !andb_true_iff in H. destruct H as [[H1 H2] H3].
      rewrite H1, H2. simpl. apply IH; [simpl; lia|done].
  - destruct a as [|d [|e [|f a]]]; simpl in *.
    + destruct b as [|? [|? b]]; try done. rewrite !andb_true_iff in H.
      destruct H as [[[H _] _] _]. pose proof (lead4_range _ _ _ _ E H). congruence.
    + destruct b; [done|]. rewrite !andb_true_iff in H.
      destruct H as [[[_ H] _] _]. congruence.
    + rewrite !andb_true_iff in H. destruct H as [[[_ _] H] _]. congruence.
    + rewrite !andb_true_iff in H. destruct H as [[[H1 H2] H4] H3].
      rewrite H1, H2, H4. simpl. apply IH; [simpl; lia|done].
Qed.

Lemma from_utf8_lossy_valid l : utf8_valid l = true -> from_utf8_lossy l = l.
Proof.
  induction l as [l IH] using length_ind. intros Hl.
  utf8_cases l; rewrite ?andb_true_iff in Hl; destruct_and?;
    repeat match goal with H : _ = true |- _ => rewrite H end; simpl;
    by rewrite IH by (simpl; lia || done).
Qed.

(** Whatever the bytes, the lossy conversion is a [String]. *)
Lemma from_utf8_lossy_utf8 l : utf8_valid (from_utf8_lossy l) = true.
Proof.
  induction l as [l IH] using length_ind.
  destruct l as [|a l]; simpl; [done|].
  destruct (lead a) as [| |lo hi|lo hi|] eqn:E; simpl.
  - rewrite E. apply IH. simpl; lia.
  - destruct l as [|b l]; [done|]. destruct (is_cont b) eqn:Hb; [|apply IH; simpl; lia].
    simpl. rewrite E, Hb. apply IH. simpl; lia.
  - destruct l as [|b l]; [done|]. destruct (in_range lo hi b) eqn:Hb; [|apply IH; simpl; lia].
    destruct l as [|c l]; [done|]. destruct (is_cont c) eqn:Hc; [|apply IH; simpl; lia].
    simpl. rewrite E, Hb, Hc. apply IH. simpl; lia.
  - destruct l as [|b l]; [done|]. destruct (in_range lo hi b) eqn:Hb; [|apply IH; simpl; lia].
    destruct l as [|c l]; [done|]. destruct (is_cont c) eqn:Hc; [|apply IH; simpl; lia].
    destruct l as [|d l]; [done|]. destruct (is_cont d) eqn:Hd; [|apply IH; simpl; lia].
    simpl. rewrite E, Hb, Hc, Hd. apply IH. simpl; lia.
  - apply IH. simpl; lia.
Qed.

Lemma from_utf8_lossy_length l : (length (from_utf8_lossy l) <= 3 * length l)%nat.
Proof.
  induction l as [l IH] using length_ind.
  destruct l as [|a l]; simpl; [done|].
  assert (Hlt : forall x, (length x <= length l)%nat ->
    (length (from_utf8_lossy x) <= 3 * length x)%nat) by (intros; apply IH; simpl; lia).
  clear IH.
  destruct (lead a) as [| |lo hi|lo hi|] eqn:E; simpl.
  - specialize (Hlt l). lia.
  - destruct l as [|b l]; [simpl; lia|]. pose proof (Hlt l ltac:(simpl; lia)). specialize (Hlt (b :: l)).
    destruct (is_cont b); simpl in *; lia.
  - destruct l as [|b l]; [simpl; lia|]. pose proof (Hlt (b :: l) ltac:(simpl; lia)).
    destruct (in_range lo hi b); [|simpl in *; lia].
    destruct l as [|c l]; [simpl in *; lia|]. pose proof (Hlt (c :: l) ltac:(simpl; lia)).
    pose proof (Hlt l ltac:(simpl; lia)). destruct (is_cont c); simpl in *; lia.
  - destruct l as [|b l]; [simpl; lia|]. pose proof (Hlt (b :: l) ltac:(simpl; lia)).
    destruct (in_range lo hi b); [|simpl in *; lia].
    destruct l as [|c l]; [simpl in *; lia|]. pose proof (Hlt (c :: l) ltac:(simpl; lia)).
    destruct (is_cont c); [|simpl in *; lia].
    destruct l as [|d l]; [simpl in *; lia|]. pose proof (Hlt (d :: l) ltac:(simpl; lia)).
    pose proof (Hlt l ltac:(simpl; lia)). destruct (is_cont d); simpl in *; lia.
  - specialize (Hlt l). lia.
Qed.

(** A prefix of a concatenation that reaches past its first part *)
Lemma take_app_prefix {A} (a b c d : list A) :
  a ++ b = c ++ d -> (length a <= length c)%nat -> exists e, c = a ++ e /\ b = e ++ d.
Proof.
  intros H Hl. exists (drop (length a) c). split.
  - rewrite <- (take_drop (length a) c) at 1. f_equal.
    rewrite <- (take_app_le c d) by done. by rewrite <- H, take_app_length.
  - rewrite <- (drop_app_le c d) by done. by rewrite <- H, drop_app_length.
Qed.

(** ** Lemmas on trimming *)

Lemma trim_start_stop c l :
  is_ascii c = true -> ws1 c = false -> trim_start (c :: l) = c :: l.
Proof.
  intros Hc Hw. unfold trim_start. simpl. rewrite Hw. destruct l as [|b [|d l]]; [done| |];
    assert (ws2 c b = false) as -> by (by destruct c); [done|].
  assert (ws3 c b d = false) as -> by (by destruct c). done.
Qed.

Lemma trim_end_stop l c :
  is_ascii c = true -> ws1 c = false -> trim_end (l ++ [c]) = l ++ [c].
Proof.
  intros Hc Hw. unfold trim_end. rewrite rev_app_distr. simpl. rewrite Hw.
  rewrite <- (rev_involutive l) at 2. destruct (rev l) as [|b [|d r]]; [done| |];
    assert (ws2 b c = false) as -> by (unfold ws2; destruct c; by rewrite ?andb_false_r);
    [done|].
  assert (ws3 d b c = false) as -> by (unfold ws3; destruct c; by rewrite ?andb_false_r).
  done.
Qed.

Lemma trim_end_ws1 l c : ws1 c = true -> trim_end (l ++ [c]) = trim_end l.
Proof. intros Hw. unfold trim_end. rewrite rev_app_distr. simpl. by rewrite Hw. Qed.

Lemma trim_while_length w1 w2 w3 l : (length (trim_while w1 w2 w3 l) <= length l)%nat.
Proof.
  induction l as [l IH] using length_ind.
  destruct l as [|a l]; simpl; [lia|]. destruct (w1 a); [etrans; [apply IH|]; simpl; lia|].
  destruct l as [|b l]; [done|]. destruct (w2 a b); [etrans; [apply IH|]; simpl; lia|].
  destruct l as [|d l]; [done|]. destruct (w3 a b d); [etrans; [apply IH|]; simpl; lia|done].
Qed.

Lemma trim_while_shrinks w1 w2 w3 l x r :
  trim_while w1 w2 w3 l = x ++ r -> (length l < length (x ++ r))%nat -> False.
Proof. intros H Hl. pose proof (trim_while_length w1 w2 w3 l). rewrite H in *. lia. Qed.

(** The backward scan of an already trimmed [u] stops inside [u] when an ASCII
    byte precedes it: no white-space character contains that byte. *)
Lemma trim_while_rev_ascii c u q :
  let back := trim_while ws1 (fun b a => ws2 a b) (fun c b a => ws3 a b c) in
  is_ascii c = true -> u <> [] -> back u = u -> back (u ++ c :: q) = u ++ c :: q.
Proof.
  intros back Hc Hu Ht. unfold back in *. destruct u as [|x r]; [done|]. simpl in *.
  destruct (ws1 x).
  { exfalso. eapply (trim_while_shrinks _ _ _ r [x] r); [exact Ht|simpl; lia]. }
  assert (Hw2 : ws2 c x = false) by (by destruct c).
  assert (Hw3 : forall y, ws3 y c x = false)
    by (intros y; unfold ws3; destruct c; by rewrite ?andb_false_r).
  destruct r as [|y r]; simpl in *.
  { rewrite Hw2. destruct q as [|z q]; [done|]. by rewrite Hw3. }
  destruct (ws2 y x).
  { exfalso. eapply (trim_while_shrinks _ _ _ r [x; y] r); [exact Ht|simpl; lia]. }
  destruct r as [|z r]; simpl in *.
  { assert (ws3 c y x = false) as -> by (by destruct c). done. }
  destruct (ws3 z y x); [|done].
  exfalso. eapply (trim_while_shrinks _ _ _ r [x; y; z] r); [exact Ht|simpl; lia].
Qed.

(** An already trimmed, non-empty [u] stays so after an ASCII byte. *)
Lemma trim_end_app_ascii p c u :
  is_ascii c = true -> u <> [] -> trim_end u = u ->
  trim_end (p ++ c :: u) = p ++ c :: u.
Proof.
  intros Hc Hu Ht. unfold trim_end in *.
  rewrite rev_app_distr. simpl. rewrite <- app_assoc. simpl.
  rewrite trim_while_rev_ascii; [|done| |].
  - rewrite rev_app_distr. simpl. by rewrite !rev_involutive, <- app_assoc.
  - intros H. apply Hu. by rewrite <- (rev_involutive u), H.
  - rewrite <- Ht at 2. by rewrite rev_involutive.
Qed.

(** ** Slicing with Rust's bounds checks *)

(** [l[i]], [&l[a..]], [&l[a..b]]: a panic out of range *)
Definition index {E A} (i : nat) (l : list A) : Result E A :=
  match l !! i with Some x => Ok x | None => Panic end.
Definition slice_from {E A} (a : nat) (l : list A) : Result E (list A) :=
  if Nat.leb a (length l) then Ok (drop a l) else Panic.
Definition slice {E A} (a b : nat) (l : list A) : Result E (list A) :=
  if Nat.leb a b && Nat.leb b (length l) then Ok (take (b - a) (drop a l)) else Panic.

Section Slices.
Context {E A : Type}.
Implicit Types l r : list A.

Lemma index_app i l r : (i < length l)%nat -> index (E:=E) i (l ++ r) = index i l.
Proof. intros. unfold index. by rewrite lookup_app_l. Qed.
Lemma index_lt i l : (i < length l)%nat -> exists x, l !! i = Some x /\ index (E:=E) i l = Ok x.
Proof.
  intros H. unfold index. destruct (lookup_lt_is_Some_2 l i H) as [x Hx].
  exists x. by rewrite Hx.
Qed.
Lemma slice_from_ok a l : (a <= length l)%nat -> slice_from (E:=E) a l = Ok (drop a l).
Proof. intros. unfold slice_from. by rewrite (proj2 (Nat.leb_le _ _)). Qed.
Lemma slice_ok a b l :
  (a <= b)%nat -> (b <= length l)%nat -> slice (E:=E) a b l = Ok (take (b - a) (drop a l)).
Proof. intros. unfold slice. by rewrite !(proj2 (Nat.leb_le _ _)). Qed.
Lemma slice_app a b l r :
  (a <= b)%nat -> (b <= length l)%nat -> slice (E:=E) a b (l ++ r) = slice a b l.
Proof.
  intros. rewrite !slice_ok by (rewrite ?length_app; lia).
  by rewrite drop_app_le, take_app_le by (rewrite ?length_drop; lia).
Qed.
Lemma slice_mid l m r : slice (E:=E) (length l) (length l + length m) (l ++ m ++ r) = Ok m.
Proof.
  rewrite slice_ok by (rewrite ?length_app; lia).
  rewrite drop_app_length. replace (length l + length m - length l)%nat with (length m) by lia.
  by rewrite take_app_length.
Qed.
Lemma slice_mid_eq a b l m r :
  a = length l -> b = (length l + length m)%nat ->
  slice (E:=E) a b (l ++ m ++ r) = Ok m.
Proof. intros -> ->. apply slice_mid. Qed.
End Slices.
