(* ===== verification/Numbers.v ===== *)
(** * Machine integers: wrap-around casts, byte orders, decimal text

    Integers are [Z] with the width written out.  [parse_unsigned] and
    [parse_signed] are [str::parse] at an integer type, [display] is
    [to_string]. *)
From Stdlib Require Import ZArith Lia Strings.Byte.
From stdpp Require Import base decidable list.
From S2P Require Import Prelude Bytes.

Open Scope Z_scope.

(** ** Widths *)

Definition u32_max : Z := 2 ^ 32 - 1.
Definition i32_min : Z := - 2 ^ 31.
Definition i32_max : Z := 2 ^ 31 - 1.
Definition i64_min : Z := - 2 ^ 63.
Definition i64_max : Z := 2 ^ 63 - 1.
Definition u64_max : Z := 2 ^ 64 - 1.
(** [z as u32], [z as u64], [z as i32], [z as i64] *)
Definition as_u32 (z : Z) : Z := z mod 2 ^ 32.
Definition as_u64 (z : Z) : Z := z mod 2 ^ 64.
Definition as_i32 (z : Z) : Z := (z + 2 ^ 31) mod 2 ^ 32 - 2 ^ 31.
Definition as_i64 (z : Z) : Z := (z + 2 ^ 63) mod 2 ^ 64 - 2 ^ 63.

Lemma as_u32_small z : 0 <= z < 2 ^ 32 -> as_u32 z = z.
Proof. apply Z.mod_small. Qed.
Lemma as_i64_small z : i64_min <= z <= i64_max -> as_i64 z = z.
Proof. unfold as_i64, i64_min, i64_max. intros. rewrite Z.mod_small; lia. Qed.
Lemma as_i32_small z : i32_min <= z <= i32_max -> as_i32 z = z.
Proof. unfold as_i32, i32_min, i32_max. intros. rewrite Z.mod_small; lia. Qed.
Lemma as_u64_small z : 0 <= z <= u64_max -> as_u64 z = z.
Proof. unfold as_u64, u64_max. intros. rewrite Z.mod_small; lia. Qed.

(** [z.to_be_bytes()], [z.to_le_bytes()] and their inverses, at [u32] *)
Definition to_be_bytes (z : Z) : list byte :=
  [u8_of (Z.shiftr z 24); u8_of (Z.shiftr z 16); u8_of (Z.shiftr z 8); u8_of z].
Definition to_le_bytes (z : Z) : list byte := rev (to_be_bytes z).
Definition from_be_bytes (a b c d : byte) : Z :=
  u8 a * 2 ^ 24 + u8 b * 2 ^ 16 + u8 c * 2 ^ 8 + u8 d.
Definition from_le_bytes (a b c d : byte) : Z := from_be_bytes d c b a.

Lemma from_be_bytes_range a b c d : 0 <= from_be_bytes a b c d < 2 ^ 32.
Proof.
  unfold from_be_bytes. pose proof (u8_range a). pose proof (u8_range b).
  pose proof (u8_range c). pose proof (u8_range d). lia.
Qed.

Lemma be_bytes_roundtrip z :
  0 <= z < 2 ^ 32 ->
  from_be_bytes (u8_of (Z.shiftr z 24)) (u8_of (Z.shiftr z 16))
    (u8_of (Z.shiftr z 8)) (u8_of z) = z.
Proof.
  intros Hz. unfold from_be_bytes. rewrite !u8_u8_of, !Z.shiftr_div_pow2 by lia.
  change (2 ^ 24) with (256 * (256 * 256)). change (2 ^ 16) with (256 * 256).
  change (2 ^ 8) with 256.
  rewrite <- !Z.div_div by lia.
  pose proof (Z.div_mod z 256 ltac:(lia)).
  pose proof (Z.div_mod (z / 256) 256 ltac:(lia)).
  pose proof (Z.div_mod (z / 256 / 256) 256 ltac:(lia)).
  assert (0 <= z / 256 / 256 / 256 < 256).
  { rewrite !Z.div_div by lia. split; [apply Z.div_pos; lia|].
    apply Z.div_lt_upper_bound; lia. }
  rewrite (Z.mod_small (z / 256 / 256 / 256)) by lia. lia.
Qed.

Lemma to_from_be_bytes a b c d : to_be_bytes (from_be_bytes a b c d) = [a; b; c; d].
Proof.
  unfold to_be_bytes, from_be_bytes.
  pose proof (u8_range a). pose proof (u8_range b).
  pose proof (u8_range c). pose proof (u8_range d).
  repeat f_equal; apply u8_inj; rewrite u8_u8_of, ?Z.shiftr_div_pow2 by lia;
    Z.to_euclidean_division_equations; lia.
Qed.

(** ** Decimal text *)

Definition digit_of (z : Z) : byte := u8_of (48 + z).

Fixpoint dec_digits (fuel : nat) (n : Z) (acc : list byte) : list byte :=
  match fuel with
  | O => acc
  | S f =>
      let acc' := digit_of (n mod 10) :: acc in
      if n <? 10 then acc' else dec_digits f (n / 10) acc'
  end.

(** A number has at most as many decimal as binary digits. *)
Definition dec_fuel (n : Z) : nat := S (Z.to_nat (Z.log2 n)).

Definition display (z : Z) : list byte :=
  if z <? 0 then x2d :: dec_digits (dec_fuel (- z)) (- z) []
  else dec_digits (dec_fuel z) z [].

Fixpoint parse_digits (acc : Z) (l : list byte) : option Z :=
  match l with
  | [] => Some acc
  | b :: t => if is_digit b then parse_digits (10 * acc + (u8 b - 48)) t else None
  end.

(** [s.parse::<uN>()] with [hi] the type's maximum; [s.parse::<iN>()] *)
Definition parse_unsigned (hi : Z) (s : list byte) : option Z :=
  match s with
  | [] => None
  | b :: t =>
      if Byte.eqb b x2b || Byte.eqb b x2d then
        if Byte.eqb b x2d || bool_decide (t = []) then None
        else n ← parse_digits 0 t; if n <=? hi then Some n else None
      else n ← parse_digits 0 s; if n <=? hi then Some n else None
  end.

Definition parse_signed (lo hi : Z) (s : list byte) : option Z :=
  match s with
  | [] => None
  | b :: t =>
      let range n := if (lo <=? n) && (n <=? hi) then Some n else None in
      if Byte.eqb b x2b || Byte.eqb b x2d then
        if bool_decide (t = []) then None
        else n ← parse_digits 0 t; range (if Byte.eqb b x2d then - n else n)
      else n ← parse_digits 0 s; range n
  end.

Lemma is_digit_digit_of z : 0 <= z < 10 -> is_digit (digit_of z) = true.
Proof.
  intros. unfold is_digit, in_range, digit_of. rewrite u8_u8_of, Z.mod_small by lia. lia.
Qed.

Lemma dec_digits_parse fuel : forall n acc,
  0 <= n < 10 ^ Z.of_nat fuel -> (0 < fuel)%nat ->
  exists k, 0 <= k /\
    forall a, parse_digits a (dec_digits fuel n acc) = parse_digits (a * 10 ^ k + n) acc.
Proof.
  induction fuel as [|f IH]; intros n acc Hn Hf; [lia|].
  pose proof (Z.mod_pos_bound n 10 ltac:(lia)) as Hm.
  assert (Hd : u8 (digit_of (n mod 10)) = 48 + n mod 10)
    by (unfold digit_of; rewrite u8_u8_of, Z.mod_small; lia).
  simpl. destruct (n <? 10) eqn:E.
  - exists 1. split; [lia|]. intros a. simpl. rewrite is_digit_digit_of by lia.
    rewrite Hd, (Z.mod_small n 10) by lia. f_equal. lia.
  - destruct f as [|f]; [simpl in Hn; lia|].
    destruct (IH (n / 10) (digit_of (n mod 10) :: acc)) as (k & Hk & H); [|lia|].
    { split; [apply Z.div_pos; lia|]. apply Z.div_lt_upper_bound; [lia|].
      rewrite (Nat2Z.inj_succ (S f)), Z.pow_succ_r in Hn by lia. lia. }
    exists (k + 1). split; [lia|]. intros a. rewrite H. simpl.
    rewrite is_digit_digit_of by lia. rewrite Hd. f_equal.
    rewrite Z.pow_add_r, Z.pow_1_r by lia. pose proof (Z.div_mod n 10 ltac:(lia)). lia.
Qed.

Lemma dec_fuel_enough n : 0 <= n -> 0 <= n < 10 ^ Z.of_nat (dec_fuel n).
Proof.
  intros Hn. split; [done|]. unfold dec_fuel.
  destruct (decide (n = 0)) as [->|]; [done|].
  pose proof (Z.log2_spec n ltac:(lia)) as [_ H].
  pose proof (Z.log2_nonneg n).
  rewrite Nat2Z.inj_succ, Z2Nat.id by done.
  eapply Z.lt_le_trans; [exact H|]. apply Z.pow_le_mono_l. lia.
Qed.

Lemma parse_digits_display n :
  0 <= n -> parse_digits 0 (dec_digits (dec_fuel n) n []) = Some n.
Proof.
  intros Hn. destruct (dec_digits_parse (dec_fuel n) n []) as (k & _ & H);
    [by apply dec_fuel_enough|unfold dec_fuel; lia|]. by rewrite H.
Qed.

Lemma dec_digits_digits fuel : forall n acc,
  0 <= n -> forallb is_digit acc = true -> forallb is_digit (dec_digits fuel n acc) = true.
Proof.
  induction fuel as [|f IH]; intros n acc Hn Hacc; simpl; [done|].
  pose proof (Z.mod_pos_bound n 10 ltac:(lia)).
  assert (forallb is_digit (digit_of (n mod 10) :: acc) = true)
    by (simpl; by rewrite is_digit_digit_of by lia).
  destruct (n <? 10); [done|]. apply IH; [apply Z.div_pos; lia|done].
Qed.

Lemma dec_digits_nonempty fuel n acc : acc <> [] -> dec_digits fuel n acc <> [].
Proof.
  revert n acc. induction fuel as [|f IH]; intros n acc H; simpl; [done|].
  destruct (n <? 10); [done|]. by apply IH.
Qed.

(** The decimal text of [n] starts with a digit. *)
Lemma dec_digits_cons n :
  0 <= n -> exists d t, dec_digits (dec_fuel n) n [] = d :: t /\ is_digit d = true
                        /\ forallb is_digit t = true.
Proof.
  intros Hn. pose proof (dec_digits_digits (dec_fuel n) n [] Hn eq_refl) as Hd.
  destruct (dec_digits (dec_fuel n) n []) as [|d t] eqn:E.
  - exfalso. unfold dec_fuel in E. simpl in E. destruct (n <? 10); [done|].
    by apply dec_digits_nonempty in E.
  - simpl in Hd. apply andb_true_iff in Hd as [Hd Ht]. by exists d, t.
Qed.

Lemma is_digit_not_sign d : is_digit d = true -> Byte.eqb d x2b || Byte.eqb d x2d = false.
Proof. by destruct d. Qed.

Lemma parse_unsigned_display hi n :
  0 <= n <= hi -> parse_unsigned hi (display n) = Some n.
Proof.
  intros Hn. unfold display. rewrite (proj2 (Z.ltb_ge n 0)) by lia.
  pose proof (parse_digits_display n ltac:(lia)) as Hp.
  destruct (dec_digits_cons n ltac:(lia)) as (d & t & E & Hd & _). rewrite E in *.
  unfold parse_unsigned. rewrite is_digit_not_sign by done. rewrite Hp. simpl.
  by rewrite (proj2 (Z.leb_le n hi)) by lia.
Qed.

Lemma parse_signed_display lo hi n :
  lo <= n <= hi -> parse_signed lo hi (display n) = Some n.
Proof.
  intros Hn. unfold display. destruct (n <? 0) eqn:Hneg.
  - pose proof (parse_digits_display (- n) ltac:(lia)) as Hp.
    destruct (dec_digits_cons (- n) ltac:(lia)) as (d & t & E & _ & _). rewrite E in *.
    unfold parse_signed. change (Byte.eqb x2d x2b || Byte.eqb x2d x2d) with true.
    cbv iota. rewrite bool_decide_false, Hp by done. simpl. rewrite Z.opp_involutive.
    by rewrite (proj2 (Z.leb_le lo n)), (proj2 (Z.leb_le n hi)) by lia.
  - pose proof (parse_digits_display n ltac:(lia)) as Hp.
    destruct (dec_digits_cons n ltac:(lia)) as (d & t & E & Hd & _). rewrite E in *.
    unfold parse_signed. rewrite is_digit_not_sign by done. rewrite Hp. simpl.
    by rewrite (proj2 (Z.leb_le lo n)), (proj2 (Z.leb_le n hi)) by lia.
Qed.

Lemma parse_digits_nonneg l : forall a n, 0 <= a -> parse_digits a l = Some n -> 0 <= n.
Proof.
  induction l as [|b t IH]; intros a n Ha; simpl; [by intros [= <-]|].
  destruct (is_digit b) eqn:E; [|done]. apply IH.
  unfold is_digit, in_range in E. lia.
Qed.

Lemma parse_unsigned_range hi s n : parse_unsigned hi s = Some n -> 0 <= n <= hi.
Proof.
  unfold parse_unsigned. destruct s as [|b t]; [done|].
  assert (forall l, (m ← parse_digits 0 l; if m <=? hi then Some m else None) = Some n ->
          0 <= n <= hi) as Hgen.
  { intros l (m & Hm & H)%bind_Some. destruct (m <=? hi) eqn:E; [|done].
    simplify_eq. apply parse_digits_nonneg in Hm; lia. }
  destruct (_ || _); [destruct (_ || _); [done|]|]; apply Hgen.
Qed.

Lemma parse_signed_range lo hi s n : parse_signed lo hi s = Some n -> lo <= n <= hi.
Proof.
  unfold parse_signed. destruct s as [|b t]; [done|].
  intros H. destruct (_ || _); [destruct (bool_decide _); [done|]|];
    apply bind_Some in H as (m & Hm & H); destruct (_ && _) eqn:E in H; simplify_eq;
    apply andb_true_iff in E; lia.
Qed.

(** A setting that is read, or its default *)
Lemma parsed_unsigned_bound hi dflt (o : option (list byte)) :
  0 <= dflt <= hi -> 0 <= default dflt (v ← o; parse_unsigned hi v) <= hi.
Proof.
  intros Hd. destruct o as [v|]; [|done]. cbn. destruct (parse_unsigned hi v) eqn:E; [|done].
  by eapply parse_unsigned_range.
Qed.
Lemma parsed_signed_bound lo hi dflt (o : option (list byte)) :
  lo <= dflt <= hi -> lo <= default dflt (v ← o; parse_signed lo hi v) <= hi.
Proof.
  intros Hd. destruct o as [v|]; [|done]. cbn. destruct (parse_signed lo hi v) eqn:E; [|done].
  by eapply parse_signed_range.
Qed.

Lemma display_ascii n : forallb (in_range 0x2d 0x39) (display n) = true.
Proof.
  assert (Hd : forall l, forallb is_digit l = true -> forallb (in_range 0x2d 0x39) l = true).
  { intros l. rewrite !forallb_forall. intros H x Hx. specialize (H x Hx).
    unfold is_digit, in_range in *. lia. }
  unfold display. destruct (n <? 0) eqn:E.
  - change (in_range 0x2d 0x39 x2d && forallb (in_range 0x2d 0x39)
              (dec_digits (dec_fuel (- n)) (- n) []) = true).
    apply Hd, dec_digits_digits; done || lia.
  - apply Hd, dec_digits_digits; done || lia.
Qed.
