(* ===== verification/External.v ===== *)
(** * Third-party crates as interfaces

    The program calls crates whose code is not in the repository.  Each is an
    operational class (the functions the program calls) and, where a proof
    relies on it, a class of the documented laws.  Every law class has a
    concrete instance, so that theorems stated against it can be applied. *)
From Stdlib Require Import ZArith Lia Strings.Byte.
From stdpp Require Import base decidable list.
From S2P Require Import Prelude Bytes Numbers.

(** ** The base64 crate (RFC 4648) *)

Class Base64 := {
  (** [STANDARD.encode], [STANDARD.decode] *)
  b64_encode : list byte -> list byte;
  b64_decode : list byte -> option (list byte);
  (** [URL_SAFE_NO_PAD.encode] *)
  b64url_encode : list byte -> list byte }.

Definition b64_char (b : byte) : bool :=
  is_alnum b || Byte.eqb b x2b || Byte.eqb b x2f || Byte.eqb b x3d.
Definition b64url_char (b : byte) : bool :=
  is_alnum b || Byte.eqb b x2d || Byte.eqb b x5f.

Class Base64Laws `{Base64} := {
  b64_roundtrip x : b64_decode (b64_encode x) = Some x;
  b64_alphabet x : forallb b64_char (b64_encode x) = true;
  b64_length x : length (b64_encode x) = (4 * ((length x + 2) / 3))%nat;
  b64url_alphabet x : forallb b64url_char (b64url_encode x) = true;
  b64url_length x : length (b64url_encode x) = ((4 * length x + 2) / 3)%nat }.

(** ** The sha2 crate *)

Class Sha256 := { sha256_digest : list byte -> list byte }.
Class Sha256Laws `{Sha256} := { sha256_length x : length (sha256_digest x) = 32%nat }.

(** ** The brotli crate

    [CompressorWriter::write_all] followed by [drop] either fails with a
    message or yields the output; [Decompressor::read] is called until it
    returns 0 bytes: the successive results of those calls are a list, whose
    end is the [Ok(0)]. *)

Class Brotli := {
  brotli_write : list byte -> Z -> list byte + list byte;
  brotli_reads : list byte -> list (list byte + list byte) }.

Class BrotliLaws `{Brotli} := {
  (** decompressing what the compressor wrote gives the data back, in
      non-empty reads and without an error *)
  brotli_roundtrip data quality out :
    brotli_write data quality = inr out ->
    exists chunks, brotli_reads out = map inr chunks /\ mjoin chunks = data
                   /\ Forall (fun c => c <> []) chunks }.

(** ** Unicode case mapping

    [str::to_uppercase] and [str::to_lowercase] use the Unicode tables; the
    program relies on what they do to ASCII text only. *)

Class UnicodeCase := {
  to_uppercase : list byte -> list byte;
  to_lowercase : list byte -> list byte }.

Class UnicodeCaseLaws `{UnicodeCase} := {
  to_uppercase_ascii s :
    forallb is_ascii s = true -> to_uppercase s = to_ascii_uppercase s;
  to_lowercase_ascii s :
    forallb is_ascii s = true -> to_lowercase s = to_ascii_lowercase s }.

(** ** The http crate

    [HeaderValue::to_str] gives the text of a value when it is visible ASCII, and
    [HeaderValue::from_str] accepts such a text. *)

Class HttpHeaders : Type := {
  header_to_str : list byte -> option (list byte);
  header_from_str : list byte -> option (list byte) }.

Definition visible_ascii (b : byte) : bool := in_range 32 126 b.

Class HttpHeadersLaws `{HttpHeaders} : Prop := {
  header_to_str_same v s : header_to_str v = Some s -> s = v;
  header_to_str_visible v : forallb visible_ascii v = true -> header_to_str v = Some v;
  header_from_str_same s v : header_from_str s = Some v -> v = s;
  header_from_str_visible s : forallb visible_ascii s = true -> header_from_str s = Some s }.

(** ** Debug formatting

    [{:?}] of a string, which escapes by Unicode tables *)

Class DebugFormat : Type := { debug_str : list byte -> list byte }.

(** ** Concrete instances *)

Definition b64_std_table : list byte :=
  Eval vm_compute in bs "ABCDEFGHIJKLMNOPQRSTUVWXYZabcdefghijklmnopqrstuvwxyz0123456789+/".
Definition b64_url_table : list byte :=
  Eval vm_compute in bs "ABCDEFGHIJKLMNOPQRSTUVWXYZabcdefghijklmnopqrstuvwxyz0123456789-_".

Definition sextet (table : list byte) (n : Z) : byte := nth (Z.to_nat n) table x00.
Definition unsextet (table : list byte) (b : byte) : option Z :=
  Z.of_nat <$> position (Byte.eqb b) table.

Fixpoint rfc4648_encode (table : list byte) (pad : bool) (l : list byte) : list byte :=
  let s := sextet table in
  match l with
  | [] => []
  | [a] =>
      [s (u8 a / 4); s (u8 a mod 4 * 16)] ++ (if pad then [x3d; x3d] else [])
  | [a; b] =>
      [s (u8 a / 4); s (u8 a mod 4 * 16 + u8 b / 16); s (u8 b mod 16 * 4)]
      ++ (if pad then [x3d] else [])
  | a :: b :: c :: t =>
      s (u8 a / 4) :: s (u8 a mod 4 * 16 + u8 b / 16)
      :: s (u8 b mod 16 * 4 + u8 c / 64) :: s (u8 c mod 64) :: rfc4648_encode table pad t
  end.

Fixpoint rfc4648_decode (table : list byte) (l : list byte) : option (list byte) :=
  let u := unsextet table in
  match l with
  | [] => Some []
  | p :: q :: r :: s :: t =>
      a ← u p; b ← u q;
      if Byte.eqb r x3d && Byte.eqb s x3d then
        if bool_decide (t = []) then Some [u8_of (a * 4 + b / 16)] else None
      else
        c ← u r;
        if Byte.eqb s x3d then
          if bool_decide (t = []) then Some [u8_of (a * 4 + b / 16); u8_of (b mod 16 * 16 + c / 4)]
          else None
        else
          d ← u s; rest ← rfc4648_decode table t;
          Some (u8_of (a * 4 + b / 16) :: u8_of (b mod 16 * 16 + c / 4)
                :: u8_of (c mod 4 * 64 + d) :: rest)
  | _ => None
  end.

#[export] Instance rfc4648 : Base64 := {|
  b64_encode := rfc4648_encode b64_std_table true;
  b64_decode := rfc4648_decode b64_std_table;
  b64url_encode := rfc4648_encode b64_url_table false |}.

Lemma sextets_all (P : Z -> bool) :
  forallb P (map Z.of_nat (seq 0 64)) = true -> forall n, 0 <= n < 64 -> P n = true.
Proof.
  rewrite forallb_forall. intros H n Hn. apply H. apply in_map_iff.
  exists (Z.to_nat n). split; [lia|]. apply in_seq. lia.
Qed.

Lemma unsextet_sextet n :
  0 <= n < 64 -> unsextet b64_std_table (sextet b64_std_table n) = Some n.
Proof.
  intros Hn. apply (bool_decide_eq_true_1 _).
  revert n Hn. apply sextets_all. by vm_compute.
Qed.
Lemma sextet_not_pad n : 0 <= n < 64 -> Byte.eqb (sextet b64_std_table n) x3d = false.
Proof.
  intros Hn. apply negb_true_iff.
  by apply (sextets_all (fun n => negb (Byte.eqb (sextet b64_std_table n) x3d))).
Qed.
Lemma sextet_char n : 0 <= n < 64 -> b64_char (sextet b64_std_table n) = true.
Proof. by apply (sextets_all (fun n => b64_char (sextet b64_std_table n))). Qed.
Lemma sextet_url_char n : 0 <= n < 64 -> b64url_char (sextet b64_url_table n) = true.
Proof. by apply (sextets_all (fun n => b64url_char (sextet b64_url_table n))). Qed.

(** Induction three bytes at a time. *)
Lemma triple_ind {A} (P : list A -> Prop) :
  P [] -> (forall a, P [a]) -> (forall a b, P [a; b]) ->
  (forall a b c t, P t -> P (a :: b :: c :: t)) -> forall l, P l.
Proof.
  intros H0 H1 H2 H3 l. induction l as [l IH] using length_ind.
  destruct l as [|a [|b [|c t]]]; auto. apply H3, IH. simpl. lia.
Qed.

Ltac sextet_range :=
  repeat match goal with
         | a : byte |- _ =>
             lazymatch goal with
             | _ : 0 <= u8 a < 256 |- _ => fail
             | _ => pose proof (u8_range a)
             end
         end;
  Z.to_euclidean_division_equations; lia.

Lemma byte_of_arith z a : z = u8 a -> u8_of z = a.
Proof. intros ->. apply u8_of_u8. Qed.

Lemma rfc4648_roundtrip l :
  rfc4648_decode b64_std_table (rfc4648_encode b64_std_table true l) = Some l.
Proof.
  induction l as [|a|a b|a b c t IH] using triple_ind; [done| | |];
    cbn [rfc4648_encode rfc4648_decode app];
    rewrite !unsextet_sextet by sextet_range; cbn [mbind option_bind];
    rewrite ?sextet_not_pad by sextet_range; rewrite ?byte_eqb_refl;
    cbn [andb]; rewrite ?unsextet_sextet by sextet_range; cbn [mbind option_bind];
    rewrite ?sextet_not_pad by sextet_range;
    rewrite ?bool_decide_true by done; rewrite ?IH; cbn [mbind option_bind];
    repeat f_equal; apply byte_of_arith; sextet_range.
Qed.

Lemma rfc4648_chars table ok pad l :
  (forall n, 0 <= n < 64 -> ok (sextet table n) = true) ->
  (pad = true -> ok x3d = true) ->
  forallb ok (rfc4648_encode table pad l) = true.
Proof.
  intros Hok Hpad.
  induction l as [|a|a b|a b c t IH] using triple_ind; [done| | |]; simpl;
    rewrite !Hok by sextet_range; simpl; try done; destruct pad; simpl;
    by rewrite ?Hpad by done.
Qed.

Lemma rfc4648_length table pad l :
  length (rfc4648_encode table pad l) =
  (if pad then 4 * ((length l + 2) / 3) else (4 * length l + 2) / 3)%nat.
Proof.
  induction l as [|a|a b|a b c t IH] using triple_ind; [by destruct pad..|]; simpl length.
  rewrite IH. clear IH.
  apply Nat2Z.inj. destruct pad;
    rewrite ?Nat2Z.inj_succ, ?Nat2Z.inj_mul, ?Nat2Z.inj_div, ?Nat2Z.inj_add, ?Nat2Z.inj_mul;
    Z.to_euclidean_division_equations; lia.
Qed.

#[export] Instance rfc4648_laws : Base64Laws.
Proof.
  constructor; intros x; simpl.
  - apply rfc4648_roundtrip.
  - by apply rfc4648_chars; [apply sextet_char|].
  - apply (rfc4648_length b64_std_table true).
  - by apply rfc4648_chars; [apply sextet_url_char|].
  - apply (rfc4648_length b64_url_table false).
Qed.

(** A digest and a compressor that satisfy the laws, for concrete runs: the
    digest is the zero-padded first 32 bytes, the compressor stores its input
    and its reader delivers one byte per call. *)
Module Toy.
#[export] Instance sha256 : Sha256 :=
  {| sha256_digest x := take 32 (x ++ replicate 32 x00) |}.
#[export] Instance sha256_laws : Sha256Laws.
Proof.
  constructor. intros x. unfold sha256_digest, sha256.
  rewrite length_take, length_app, length_replicate. lia.
Qed.

#[export] Instance brotli : Brotli := {|
  brotli_write data _ := inr data;
  brotli_reads out := map (fun b => inr [b]) out |}.
#[export] Instance brotli_laws : BrotliLaws.
Proof.
  constructor. intros data q out [= ->]. exists (map (fun b => [b]) out).
  split; [by rewrite map_map|]. split.
  - induction out as [|b t IH]; simpl; [done|]. by rewrite IH.
  - induction out; by constructor.
Qed.

(** Case mapping of ASCII letters only *)
#[export] Instance unicode : UnicodeCase :=
  {| to_uppercase := to_ascii_uppercase; to_lowercase := to_ascii_lowercase |}.
#[export] Instance unicode_laws : UnicodeCaseLaws.
Proof. by constructor. Qed.
End Toy.

Module ToyDebug.
#[export] Instance debug_format : DebugFormat := {| debug_str := fun s => s |}.
End ToyDebug.

Module ToyHttp.
#[export] Instance http_headers : HttpHeaders := {|
  header_to_str := fun v => if forallb visible_ascii v then Some v else None;
  header_from_str := fun s => if forallb visible_ascii s then Some s else None |}.
#[export] Instance http_headers_laws : HttpHeadersLaws.
Proof.
  split; cbn; intros v; try (intros s); destruct (forallb visible_ascii v); naive_solver.
Qed.
End ToyHttp.
