(* ===== verification/Protocol.v ===== *)
(** * The wire protocol ([shared/src/protocol.rs], [shared/src/compress.rs])

    Requests and responses with their encoders and decoders, the etag of a
    page, and the bounded brotli decompression loop. *)
From Stdlib Require Import ZArith Lia Strings.Byte.
From stdpp Require Import base decidable list.
From S2P Require Import Prelude Bytes Numbers External.

Inductive ProtocolError : Type :=
| InvalidRequest
| InvalidResponse
| UrlTooLong
| PayloadTooLarge.

Inductive Request : Type :=
| Get (url : list byte) (if_none_match : option (list byte))
| Post (url body : list byte).

Module Status.
Inductive t : Type := Ok | Err | Blocked | NotModified.

#[export] Instance eq_dec : EqDecision t.
Proof. solve_decision. Defined.

(** [impl TryFrom<u8> for Status] *)
Definition try_from (value : Z) : Result ProtocolError t :=
  if value =? 0x00 then Prelude.Ok Ok
  else if value =? 0x01 then Prelude.Ok Err
  else if value =? 0x02 then Prelude.Ok Blocked
  else if value =? 0x03 then Prelude.Ok NotModified
  else Prelude.Err InvalidResponse.
End Status.

Record Response : Type := mkResponse {
  status : Status.t;
  etag : list byte;
  max_age : Z;
  payload : list byte }.

(** ** Requests *)

Definition IF_NONE_MATCH : list byte := Eval vm_compute in bs " IF-NONE-MATCH ".
Definition GET_ : list byte := Eval vm_compute in bs "GET ".
Definition POST_ : list byte := Eval vm_compute in bs "POST ".

(** [Request::encode] *)
Definition encode_request (r : Request) : list byte :=
  match r with
  | Get url None => GET_ ++ url ++ [LF]
  | Get url (Some etag) => GET_ ++ url ++ IF_NONE_MATCH ++ etag ++ [LF]
  | Post url body =>
      let body_len := as_u32 (Z.of_nat (length body)) in
      POST_ ++ url ++ [LF] ++ to_be_bytes body_len ++ body
  end.

(** [Request::decode] *)
Definition decode_request (data : list byte) : Result ProtocolError Request :=
  if bool_decide (data = []) then Err InvalidRequest
  else if starts_with GET_ data then
    rest ← slice_from 4 data;
    line_end ← ok_or InvalidRequest (position (Byte.eqb LF) rest);
    seg ← slice 4 (4 + line_end) data;
    line ← ok_or InvalidRequest (from_utf8 seg);
    match split_once IF_NONE_MATCH line with
    | Some (url, etag) => Ok (Get url (Some etag))
    | None => Ok (Get line None)
    end
  else if starts_with POST_ data then
    rest ← slice_from 5 data;
    url_end ← ok_or InvalidRequest (position (Byte.eqb LF) rest);
    seg ← slice 5 (5 + url_end) data;
    url ← ok_or InvalidRequest (from_utf8 seg);
    let body_start := (5 + url_end + 1)%nat in
    if (length data <? body_start + 4)%nat then Err InvalidRequest
    else
      b0 ← index body_start data;
      b1 ← index (body_start + 1) data;
      b2 ← index (body_start + 2) data;
      b3 ← index (body_start + 3) data;
      let body_len := from_be_bytes b0 b1 b2 b3 in
      if Z.of_nat (length data) <? Z.of_nat (body_start + 4) + body_len
      then Err InvalidRequest
      else
        body ← slice (body_start + 4) (body_start + 4 + Z.to_nat body_len) data;
        Ok (Post url body)
  else Err InvalidRequest.

(** ** Responses *)

Definition MAGIC : list byte := Eval vm_compute in bs "RESP".

Definition status_digit (s : Status.t) : byte :=
  match s with
  | Status.Ok => "0"%byte
  | Status.Err => "1"%byte
  | Status.Blocked => "2"%byte
  | Status.NotModified => "3"%byte
  end.

(** The alphabet test of [Response::decode_header]: [-], or 16 characters of
    the base64url alphabet. *)
Definition valid_etag (etag : list byte) : bool :=
  bool_decide (etag = ["-"%byte])
  || (length etag =? 16)%nat
     && forallb (fun b => is_alnum b || Byte.eqb b "-"%byte || Byte.eqb b "_"%byte) etag.

Section Responses.
Context `{Base64}.

(** [Response::encode] *)
Definition encode_response (r : Response) : list byte :=
  let encoded_payload := b64_encode (payload r) in
  MAGIC ++ [status_digit (status r)] ++ [SP]
  ++ display (Z.of_nat (length encoded_payload)) ++ [SP]
  ++ etag r ++ [SP] ++ display (max_age r) ++ [LF]
  ++ encoded_payload ++ [LF].

(** [Response::decode_payload] *)
Definition decode_payload (base64_bytes : list byte) : Result ProtocolError (list byte) :=
  ok_or InvalidResponse (b64_decode base64_bytes).
End Responses.

(** The tuple [(status, payload_len, etag, max_age, header_end)] *)
Record Header : Type := mkHeader {
  h_status : Status.t;
  h_len : Z;
  h_etag : list byte;
  h_max_age : Z;
  h_end : nat }.

Definition is_eol (b : byte) : bool := Byte.eqb b LF || Byte.eqb b CR.

(** The fields of the header line, from [header_line.split(' ')] on *)
Definition parse_fields (st : Status.t) (header_line : list byte) (header_end : nat)
    : Result ProtocolError (option Header) :=
  let parts := split_on SP header_line in
  len_str ← ok_or InvalidResponse (parts !! 0%nat);
  etag ← ok_or InvalidResponse (parts !! 1%nat);
  if negb (valid_etag etag) then Err InvalidResponse
  else
    max_age_str ← ok_or InvalidResponse (parts !! 2%nat);
    match parts !! 3%nat with
    | Some _ => Err InvalidResponse
    | None =>
        payload_len ← ok_or InvalidResponse (parse_unsigned u32_max len_str);
        max_age ← ok_or InvalidResponse (parse_signed i32_min i32_max max_age_str);
        Ok (Some (mkHeader st payload_len etag max_age header_end))
    end.

(** [Response::decode_header] *)
Definition decode_header (data : list byte) : Result ProtocolError (option Header) :=
  match find_sub MAGIC data with
  | None => Ok None
  | Some magic_pos =>
      let after_magic := (magic_pos + length MAGIC)%nat in
      if (length data <? after_magic + 2)%nat then Ok None
      else
        c ← index after_magic data;
        st ← match c with
             | "0"%byte => Ok Status.Ok
             | "1"%byte => Ok Status.Err
             | "2"%byte => Ok Status.Blocked
             | "3"%byte => Ok Status.NotModified
             | _ => Err InvalidResponse
             end;
        sp ← index (after_magic + 1) data;
        if negb (Byte.eqb sp SP) then Err InvalidResponse
        else
          let fields_start := (after_magic + 2)%nat in
          rest ← slice_from fields_start data;
          match position is_eol rest with
          | None => Ok None
          | Some nl_offset =>
              seg ← slice fields_start (fields_start + nl_offset) data;
              header_line ← ok_or InvalidResponse (from_utf8 seg);
              parse_fields st header_line (fields_start + nl_offset + 1)
          end
  end.

(** [sanitized_html_etag] *)
Definition sanitized_html_etag `{Base64, Sha256} (html : list byte) : list byte :=
  b64url_encode (take 12 (sha256_digest html)).

(** ** Compression *)

Definition MAX_DECOMPRESSED_SIZE : Z := 10 * 1024 * 1024.

Inductive CompressionError : Type :=
| CompressFailed (msg : list byte)
| DecompressFailed (msg : list byte)
| TooLarge.

Section Compression.
Context `{Brotli}.

Definition brotli_compress (data : list byte) (quality : Z)
    : Result CompressionError (list byte) :=
  map_err CompressFailed (of_sum (brotli_write data quality)).

(** The [loop] of [brotli_decompress], over the results of the successive
    [read] calls *)
Fixpoint decompress_loop (reads : list (list byte + list byte)) (output : list byte)
    : Result CompressionError (list byte) :=
  match reads with
  | [] => Ok output
  | inl e :: _ => Err (DecompressFailed e)
  | inr buf :: rest =>
      let n := length buf in
      if (n =? 0)%nat then Ok output
      else if MAX_DECOMPRESSED_SIZE <? Z.of_nat (length output + n) then Err TooLarge
      else decompress_loop rest (output ++ buf)
  end.

Definition brotli_decompress (data : list byte) : Result CompressionError (list byte) :=
  decompress_loop (brotli_reads data) [].
End Compression.

(** ** Requests round trip *)

(** What [Request::encode] takes for granted: the URL and the etag are strings
    without a line feed, the URL does not contain the sentinel token, and the
    body is under 4 GiB.  Nothing checks it: [encode] takes any request, and the
    handlers of [client/src/proxy.rs] pass on the URL of a query as it comes. *)
Definition request_wf (r : Request) : Prop :=
  match r with
  | Get url None =>
      utf8_valid url = true /\ no_byte LF url = true /\ contains IF_NONE_MATCH url = false
  | Get url (Some etag) =>
      utf8_valid url = true /\ no_byte LF url = true
      /\ contains IF_NONE_MATCH (url ++ [SP]) = false
      /\ utf8_valid etag = true /\ no_byte LF etag = true
  | Post url body =>
      utf8_valid url = true /\ no_byte LF url = true /\ Z.of_nat (length body) < 2 ^ 32
  end.

(** The sentinel overlaps itself in its outer spaces only. *)
Lemma sentinel_borders k :
  (2 <= k < 15)%nat -> drop (15 - k) IF_NONE_MATCH <> take k IF_NONE_MATCH.
Proof.
  intros Hk. do 15 (destruct k as [|k]; [try lia; by vm_compute|]). lia.
Qed.

Lemma sentinel_split url etag :
  contains IF_NONE_MATCH (url ++ [SP]) = false ->
  split_once IF_NONE_MATCH (url ++ IF_NONE_MATCH ++ etag) = Some (url, etag).
Proof.
  intros H. apply split_once_first; [done|].
  apply not_true_iff_false. intros (a & b & Hab)%contains_spec.
  change (length IF_NONE_MATCH - 1)%nat with 14%nat in Hab.
  apply not_true_iff_false in H. apply H, contains_spec.
  assert (Hlen := f_equal length Hab). rewrite !length_app in Hlen.
  change (length IF_NONE_MATCH) with 15%nat in Hlen.
  change (length (take 14 IF_NONE_MATCH)) with 14%nat in Hlen.
  (* the occurrence starts inside [url], and [k] of its bytes are after it *)
  destruct (decide (length a + 15 <= length url + 1)%nat) as [Hin|Hout].
  - exists a, (take (length url + 1 - (length a + 15)) b).
    transitivity (take (length url + 1) (url ++ take 14 IF_NONE_MATCH)).
    { rewrite take_app_add. done. }
    rewrite Hab, !take_app.
    rewrite (take_ge a), (take_ge IF_NONE_MATCH) by (simpl; lia).
    do 3 f_equal. simpl length. lia.
  - exfalso. set (k := (length a + 15 - length url)%nat).
    apply (sentinel_borders k); [unfold k; lia|].
    assert (Hd : drop (length url) (url ++ take 14 IF_NONE_MATCH)
                 = drop (length url) (a ++ IF_NONE_MATCH ++ b)) by by rewrite Hab.
    rewrite drop_app_length, drop_app_ge, drop_app_le in Hd by (simpl; lia).
    apply (f_equal (take k)) in Hd. rewrite take_take in Hd.
    rewrite take_app_le in Hd by (rewrite length_drop; simpl; unfold k; lia).
    rewrite Nat.min_l in Hd by (unfold k; lia). rewrite Hd.
    rewrite take_ge by (rewrite length_drop; simpl; unfold k; lia).
    f_equal. unfold k. lia.
Qed.

Lemma position_no_byte l t :
  no_byte LF l = true -> position (Byte.eqb LF) (l ++ LF :: t) = Some (length l).
Proof. intros. by apply position_app_first. Qed.

Lemma decode_get_line line rest :
  utf8_valid line = true -> no_byte LF line = true ->
  decode_request (GET_ ++ line ++ [LF] ++ rest) =
  match split_once IF_NONE_MATCH line with
  | Some (url, etag) => Ok (Get url (Some etag))
  | None => Ok (Get line None)
  end.
Proof.
  intros Hu Hn. unfold decode_request. rewrite bool_decide_false by done.
  rewrite starts_with_app. rewrite slice_from_ok by (simpl; lia).
  change (drop 4 (GET_ ++ line ++ [LF] ++ rest)) with (line ++ LF :: rest).
  cbn [mbind Result_bind]. rewrite position_no_byte by done. cbn [ok_or mbind Result_bind].
  rewrite (slice_mid_eq 4 _ GET_ line) by done. cbn [mbind Result_bind].
  unfold from_utf8. by rewrite Hu.
Qed.

Lemma no_byte_app c a b : no_byte c (a ++ b) = no_byte c a && no_byte c b.
Proof. apply forallb_app. Qed.

Lemma decode_encode_post url body rest :
  request_wf (Post url body) ->
  decode_request (encode_request (Post url body) ++ rest) = Ok (Post url body).
Proof.
  intros (Hu & Hn & Hb). unfold decode_request, encode_request.
  set (len4 := to_be_bytes (as_u32 (Z.of_nat (length body)))).
  assert (Hlen4 : length len4 = 4%nat) by done.
  rewrite <- !app_assoc.
  rewrite bool_decide_false by done.
  change (starts_with GET_ _) with false. cbv iota. rewrite starts_with_app.
  rewrite slice_from_ok by (simpl; lia).
  change (drop 5 (POST_ ++ url ++ [LF] ++ len4 ++ body ++ rest))
    with (url ++ LF :: len4 ++ body ++ rest).
  cbn [mbind Result_bind]. rewrite position_no_byte by done. cbn [ok_or mbind Result_bind].
  rewrite (slice_mid_eq 5 _ POST_ url) by done. cbn [mbind Result_bind].
  unfold from_utf8. rewrite Hu. cbn [ok_or mbind Result_bind].
  set (pre := POST_ ++ url ++ [LF]).
  assert (Hpre : (5 + length url + 1)%nat = length pre)
    by (unfold pre; rewrite !length_app; simpl; lia).
  replace (POST_ ++ url ++ [LF] ++ len4 ++ body ++ rest) with (pre ++ len4 ++ body ++ rest)
    by (unfold pre; by rewrite <- !app_assoc).
  rewrite Hpre.
  rewrite (proj2 (Nat.ltb_ge _ _)) by len.
  assert (Hix : forall i, (i < 4)%nat ->
    index (E:=ProtocolError) (length pre + i) (pre ++ len4 ++ body ++ rest) = index i len4).
  { intros i Hi. unfold index. rewrite lookup_app_r by lia.
    replace (length pre + i - length pre)%nat with i by lia.
    by rewrite lookup_app_l by lia. }
  pose proof (Hix 0%nat ltac:(lia)) as Hix0. rewrite Nat.add_0_r in Hix0.
  rewrite Hix0, !Hix by lia. clear Hix Hix0.
  repeat match goal with
         | |- context [index ?i len4] =>
             let x := eval unfold len4, to_be_bytes in (nth i len4 NUL) in
             let x := eval cbn [nth] in x in change (index i len4) with (@Ok ProtocolError _ x)
         end.
  cbn [mbind Result_bind].
  rewrite be_bytes_roundtrip by (unfold as_u32; apply Z.mod_pos_bound; lia).
  rewrite as_u32_small by lia.
  rewrite (proj2 (Z.ltb_ge _ _)) by len.
  rewrite Nat2Z.id.
  replace (length pre + 4)%nat with (length (pre ++ len4)) by len.
  rewrite app_assoc, slice_mid. done.
Qed.

(** The decoder reads back every well-formed request, whatever follows it in
    the buffer. *)
Lemma decode_encode_request r rest :
  request_wf r -> decode_request (encode_request r ++ rest) = Ok r.
Proof.
  destruct r as [url [etag|]|url body]; [| |apply decode_encode_post].
  - intros (Hu & Hn & Hc & He & Hne). unfold encode_request.
    replace ((GET_ ++ url ++ IF_NONE_MATCH ++ etag ++ [LF]) ++ rest)
      with (GET_ ++ (url ++ IF_NONE_MATCH ++ etag) ++ [LF] ++ rest)
      by by rewrite <- !app_assoc.
    rewrite decode_get_line.
    + by rewrite sentinel_split.
    + rewrite !utf8_valid_app by done. done.
    + rewrite !no_byte_app, Hn, Hne. done.
  - intros (Hu & Hn & Hc). unfold encode_request. rewrite <- !app_assoc.
    rewrite decode_get_line by done.
    by rewrite (proj2 (split_once_None _ _)) by done.
Qed.

(** ** The request decoder without its index arithmetic *)

Lemma decode_request_get t :
  decode_request (GET_ ++ t) =
  match position (Byte.eqb LF) t with
  | None => Err InvalidRequest
  | Some i =>
      match from_utf8 (take i t) with
      | None => Err InvalidRequest
      | Some line =>
          match split_once IF_NONE_MATCH line with
          | Some (url, etag) => Ok (Get url (Some etag))
          | None => Ok (Get line None)
          end
      end
  end.
Proof.
  unfold decode_request. rewrite bool_decide_false by done. rewrite starts_with_app.
  rewrite slice_from_ok by (simpl; lia). change (drop 4 (GET_ ++ t)) with t.
  cbn [mbind Result_bind]. destruct (position _ t) as [i|] eqn:E; [|done].
  cbn [ok_or mbind Result_bind]. apply position_lt in E.
  rewrite slice_ok by (simpl; lia).
  replace (take _ (drop 4 (GET_ ++ t))) with (take i t)
    by (change (drop 4 (GET_ ++ t)) with t; f_equal; lia).
  cbn [mbind Result_bind]. by destruct (from_utf8 _).
Qed.

Lemma decode_request_post t :
  decode_request (POST_ ++ t) =
  match position (Byte.eqb LF) t with
  | None => Err InvalidRequest
  | Some i =>
      match from_utf8 (take i t), drop (S i) t with
      | Some url, b0 :: b1 :: b2 :: b3 :: body =>
          let n := from_be_bytes b0 b1 b2 b3 in
          if Z.of_nat (length body) <? n then Err InvalidRequest
          else Ok (Post url (take (Z.to_nat n) body))
      | _, _ => Err InvalidRequest
      end
  end.
Proof.
  unfold decode_request. rewrite bool_decide_false by done.
  change (starts_with GET_ (POST_ ++ t)) with false. cbv iota. rewrite starts_with_app.
  rewrite slice_from_ok by (simpl; lia). change (drop 5 (POST_ ++ t)) with t.
  cbn [mbind Result_bind]. destruct (position _ t) as [i|] eqn:E; [|done].
  cbn [ok_or mbind Result_bind]. apply position_lt in E.
  rewrite slice_ok by (simpl; lia).
  replace (take _ (drop 5 (POST_ ++ t))) with (take i t)
    by (change (drop 5 (POST_ ++ t)) with t; f_equal; lia).
  cbn [mbind Result_bind]. destruct (from_utf8 _) as [url|]; [|done].
  cbn [ok_or mbind Result_bind].
  assert (Hlen : length (POST_ ++ t) = (5 + i + 1 + length (drop (S i) t))%nat)
    by (rewrite length_app, length_drop; simpl; lia).
  assert (Hix : forall j, index (E:=ProtocolError) (5 + i + 1 + j) (POST_ ++ t)
                          = index j (drop (S i) t)).
  { intros j. unfold index. rewrite lookup_drop, lookup_app_r by (simpl; lia).
    simpl length. by replace (5 + i + 1 + j - 5)%nat with (S i + j)%nat by lia. }
  assert (Hsl : forall a b, slice (E:=ProtocolError) (5 + i + 1 + a) (5 + i + 1 + b) (POST_ ++ t)
                            = slice a b (drop (S i) t)).
  { intros a b. unfold slice. rewrite Hlen.
    replace (5 + i + 1 + a <=? 5 + i + 1 + b)%nat with (a <=? b)%nat
      by (apply Bool.eq_iff_eq_true; rewrite !Nat.leb_le; lia).
    replace (5 + i + 1 + b <=? 5 + i + 1 + length (drop (S i) t))%nat
      with (b <=? length (drop (S i) t))%nat
      by (apply Bool.eq_iff_eq_true; rewrite !Nat.leb_le; lia).
    rewrite drop_drop, drop_app_ge by (simpl; lia).
    simpl length. replace (5 + i + 1 + a - 5)%nat with (S i + a)%nat by lia.
    by replace (5 + i + 1 + b - (5 + i + 1 + a))%nat with (b - a)%nat by lia. }
  rewrite <- (Nat.add_0_r (5 + i + 1)) at 2. rewrite !Hix, Hlen.
  destruct (drop (S i) t) as [|b0 [|b1 [|b2 [|b3 body]]]];
    try (by rewrite (proj2 (Nat.ltb_lt _ _)) by (simpl; lia)).
  rewrite (proj2 (Nat.ltb_ge _ _)) by (simpl; lia).
  cbn [index lookup list_lookup mbind Result_bind].
  pose proof (from_be_bytes_range b0 b1 b2 b3). cbv zeta.
  set (n := from_be_bytes b0 b1 b2 b3) in *.
  replace (Z.of_nat (5 + i + 1 + length (b0 :: b1 :: b2 :: b3 :: body)) <?
           Z.of_nat (5 + i + 1 + 4) + n) with (Z.of_nat (length body) <? n)
    by (apply Bool.eq_iff_eq_true; rewrite !Z.ltb_lt; simpl length; lia).
  destruct (Z.of_nat (length body) <? n) eqn:Hn; [done|].
  rewrite <- (Nat.add_assoc _ 4), Hsl.
  rewrite slice_ok by (simpl length; lia).
  cbn [mbind Result_bind]. do 3 f_equal. lia.
Qed.

Lemma decode_request_other data :
  starts_with GET_ data = false -> starts_with POST_ data = false ->
  decode_request data = Err InvalidRequest.
Proof. intros Hg Hp. unfold decode_request. rewrite Hg, Hp. by case_bool_decide. Qed.

(** The three shapes of a request buffer. *)
Lemma request_shapes data :
  (exists t, data = GET_ ++ t) \/ (exists t, data = POST_ ++ t)
  \/ (starts_with GET_ data = false /\ starts_with POST_ data = false).
Proof.
  destruct (starts_with GET_ data) eqn:Hg; [left; by apply starts_with_spec|].
  destruct (starts_with POST_ data) eqn:Hp; [right; left; by apply starts_with_spec|auto].
Qed.

Lemma position_LF t i :
  position (Byte.eqb LF) t = Some i ->
  t = take i t ++ LF :: drop (S i) t /\ no_byte LF (take i t) = true.
Proof.
  intros (a & x & b & -> & <- & Hx & Ha)%position_Some.
  apply byte_eqb_eq in Hx as <-. rewrite take_app_length.
  change (LF :: b) with ([LF] ++ b). rewrite app_assoc, drop_app_length' by len.
  by rewrite <- app_assoc.
Qed.

(** A request the decoder accepts is, byte for byte, the encoding of what it
    returns followed by the rest of the buffer. *)
Lemma decode_request_exact data r :
  decode_request data = Ok r -> exists rest, data = encode_request r ++ rest.
Proof.
  destruct (request_shapes data) as [[t ->]|[[t ->]|[Hg Hp]]].
  - rewrite decode_request_get. destruct (position _ t) as [i|] eqn:E; [|done].
    apply position_LF in E as [Ht _]. unfold from_utf8.
    destruct (utf8_valid (take i t)); [|done].
    destruct (split_once _ _) as [[url etag]|] eqn:Es; intros [= <-]; exists (drop (S i) t);
      rewrite Ht at 1; [apply split_once_Some in Es; rewrite Es|]; unfold encode_request;
      by rewrite <- ?app_assoc.
  - rewrite decode_request_post. destruct (position _ t) as [i|] eqn:E; [|done].
    apply position_LF in E as [Ht _]. unfold from_utf8.
    destruct (utf8_valid (take i t)); [|done].
    destruct (drop (S i) t) as [|b0 [|b1 [|b2 [|b3 body]]]]; try done. cbv zeta.
    pose proof (from_be_bytes_range b0 b1 b2 b3).
    destruct (_ <? _) eqn:Hn; [done|]. intros [= <-].
    exists (drop (Z.to_nat (from_be_bytes b0 b1 b2 b3)) body). unfold encode_request.
    rewrite as_u32_small by len. rewrite length_take, Nat.min_l by lia.
    rewrite Z2Nat.id, to_from_be_bytes by lia. rewrite Ht at 1.
    rewrite <- !app_assoc. simpl. by rewrite take_drop.
  - by rewrite decode_request_other.
Qed.

(** No buffer makes the decoder index out of bounds. *)
Lemma decode_request_returns data : returns (decode_request data).
Proof.
  destruct (request_shapes data) as [[t ->]|[[t ->]|[Hg Hp]]].
  - rewrite decode_request_get. repeat (case_match; try done).
  - rewrite decode_request_post. repeat (case_match; cbv zeta; try done).
  - by rewrite decode_request_other.
Qed.

(** ** Response headers *)

(** The header text a response starts with *)
Definition header_text `{Base64} (r : Response) : list byte :=
  MAGIC ++ [status_digit (status r)] ++ [SP]
  ++ display (Z.of_nat (length (b64_encode (payload r)))) ++ [SP]
  ++ etag r ++ [SP] ++ display (max_age r) ++ [LF].

Lemma encode_response_split `{Base64} r :
  encode_response r = header_text r ++ b64_encode (payload r) ++ [LF].
Proof. unfold encode_response, header_text. by rewrite <- !app_assoc. Qed.

(** The header decoder after the magic, without its index arithmetic *)
Definition header_tail (pos : nat) (t : list byte) : Result ProtocolError (option Header) :=
  match t with
  | c :: sp :: rest =>
      match (match c with
             | "0"%byte => Some Status.Ok
             | "1"%byte => Some Status.Err
             | "2"%byte => Some Status.Blocked
             | "3"%byte => Some Status.NotModified
             | _ => None
             end) with
      | None => Err InvalidResponse
      | Some st =>
          if negb (Byte.eqb sp SP) then Err InvalidResponse
          else
            match position is_eol rest with
            | None => Ok None
            | Some i =>
                match from_utf8 (take i rest) with
                | None => Err InvalidResponse
                | Some line => parse_fields st line (pos + 2 + i + 1)
                end
            end
      end
  | _ => Ok None
  end.

Lemma decode_header_eq data :
  decode_header data =
  match find_sub MAGIC data with
  | None => Ok None
  | Some p => header_tail (p + 4) (drop (p + 4) data)
  end.
Proof.
  unfold decode_header. change (length MAGIC) with 4%nat.
  destruct (find_sub MAGIC data) as [p|] eqn:Ef; [|done].
  apply find_sub_bound in Ef. change (length MAGIC) with 4%nat in Ef.
  assert (Hlen : length data = (p + 4 + length (drop (p + 4) data))%nat)
    by (rewrite length_drop; lia).
  assert (Hix : forall j, index (E:=ProtocolError) (p + 4 + j) data
                          = index j (drop (p + 4) data))
    by (intros j; unfold index; by rewrite lookup_drop).
  rewrite <- (Nat.add_0_r (p + 4)) at 2. rewrite !Hix.
  set (t := drop (p + 4) data) in *. rewrite Hlen.
  destruct t as [|c [|sp rest]] eqn:Et;
    try (by rewrite (proj2 (Nat.ltb_lt _ _)) by (simpl; lia)).
  rewrite (proj2 (Nat.ltb_ge _ _)) by (simpl; lia).
  cbn [index lookup list_lookup mbind Result_bind header_tail].
  assert (Hr : drop (p + 4 + 2) data = rest)
    by (rewrite <- drop_drop; change (drop 2 t = rest); by rewrite Et).
  rewrite slice_from_ok by (simpl in Hlen; lia). rewrite Hr.
  assert (Hk : forall st,
    (_ ← Ok (E:=ProtocolError) st; if negb (Byte.eqb sp SP) then Err InvalidResponse
     else match position is_eol rest with
          | Some nl_offset =>
              seg ← slice (p + 4 + 2) (p + 4 + 2 + nl_offset) data;
              header_line ← ok_or InvalidResponse (from_utf8 seg);
              parse_fields st header_line (p + 4 + 2 + nl_offset + 1)
          | None => Ok None
          end)
    = if negb (Byte.eqb sp SP) then Err InvalidResponse
      else match position is_eol rest with
           | Some i =>
               match from_utf8 (take i rest) with
               | Some line => parse_fields st line (p + 4 + 2 + i + 1)
               | None => Err InvalidResponse
               end
           | None => Ok None
           end).
  { intros st. cbn [mbind Result_bind]. destruct (negb _); [done|].
    destruct (position _ rest) as [i|] eqn:Ei; [|done]. apply position_lt in Ei.
    rewrite slice_ok by (simpl in Hlen; lia). rewrite Hr.
    replace (p + 4 + 2 + i - (p + 4 + 2))%nat with i by lia.
    cbn [mbind Result_bind]. by destruct (from_utf8 _). }
  cbn [mbind Result_bind] in Hk |- *.
  destruct c; cbn [mbind Result_bind]; try done; apply Hk.
Qed.

(** What a successful header satisfies: widths, etag alphabet, and a payload
    offset inside the buffer, just after an end-of-line byte. *)
Record header_ok (data : list byte) (h : Header) : Prop := {
  header_len_u32 : 0 <= h_len h <= u32_max;
  header_age_i32 : i32_min <= h_max_age h <= i32_max;
  header_etag : valid_etag (h_etag h) = true;
  header_in : (h_end h <= length data)%nat;
  header_eol : exists b, data !! (h_end h - 1)%nat = Some b /\ is_eol b = true }.

Lemma parse_fields_inv st line e res :
  parse_fields st line e = res ->
  res = Err InvalidResponse \/
  exists h, res = Ok (Some h) /\ h_status h = st /\ h_end h = e
            /\ 0 <= h_len h <= u32_max /\ i32_min <= h_max_age h <= i32_max
            /\ valid_etag (h_etag h) = true.
Proof.
  intros <-. unfold parse_fields.
  destruct (split_on SP line !! 0%nat) as [len_str|]; [|by left].
  destruct (split_on SP line !! 1%nat) as [tag|]; [|by left].
  cbn [ok_or mbind Result_bind]. destruct (valid_etag tag) eqn:Hv; [|by left]. simpl negb.
  destruct (split_on SP line !! 2%nat) as [age|]; [|by left].
  cbn [ok_or mbind Result_bind]. destruct (split_on SP line !! 3%nat); [by left|].
  destruct (parse_unsigned u32_max len_str) as [n|] eqn:Hn; [|by left].
  destruct (parse_signed i32_min i32_max age) as [a|] eqn:Ha; [|by left].
  right. eexists. split; [done|]. simpl.
  apply parse_unsigned_range in Hn. apply parse_signed_range in Ha. done.
Qed.

Lemma header_tail_app pos t more :
  header_tail pos t <> Ok None -> header_tail pos (t ++ more) = header_tail pos t.
Proof.
  destruct t as [|c [|sp rest]]; [done..|]. cbn [header_tail app].
  case_match; [|done]. destruct (negb _); [done|].
  destruct (position is_eol rest) as [i|] eqn:Ei; [|done].
  rewrite (position_app _ _ _ _ Ei). apply position_lt in Ei.
  by rewrite take_app_le by lia.
Qed.

(** A decided header stays decided when more bytes arrive. *)
Lemma decode_header_app data more :
  decode_header data <> Ok None -> decode_header (data ++ more) = decode_header data.
Proof.
  rewrite !decode_header_eq. destruct (find_sub MAGIC data) as [p|] eqn:Ef; [|done].
  rewrite (find_sub_app _ _ _ _ Ef). apply find_sub_bound in Ef.
  change (length MAGIC) with 4%nat in Ef. rewrite drop_app_le by lia.
  apply header_tail_app.
Qed.

Lemma header_tail_ok data p h :
  (p <= length data)%nat ->
  header_tail p (drop p data) = Ok (Some h) -> header_ok data h.
Proof.
  intros Hp. destruct (drop p data) as [|c [|sp rest]] eqn:Ed; [done..|].
  cbn [header_tail]. case_match; [|done]. destruct (negb _); [done|].
  destruct (position is_eol rest) as [i|] eqn:Ei; [|done].
  destruct (from_utf8 _) as [line|]; [|done]. intros Hf.
  apply parse_fields_inv in Hf as [?|(h' & ? & _ & He & Hl & Ha & Hv)]; [done|]. simplify_eq.
  assert (Hlen := f_equal length Ed). rewrite length_drop in Hlen. simpl in Hlen.
  pose proof (position_lt _ _ _ Ei).
  split; try done; rewrite He; [lia|].
  apply position_Some in Ei as (a & x & b & -> & <- & Hx & _).
  exists x. split; [|done].
  replace (p + 2 + length a + 1 - 1)%nat with (p + S (S (length a)))%nat by lia.
  rewrite <- lookup_drop, Ed. simpl.
  rewrite lookup_app_r by lia. by rewrite Nat.sub_diag.
Qed.

Lemma decode_header_ok data h : decode_header data = Ok (Some h) -> header_ok data h.
Proof.
  rewrite decode_header_eq. destruct (find_sub MAGIC data) as [p|] eqn:Ef; [|done].
  apply find_sub_bound in Ef. change (length MAGIC) with 4%nat in Ef.
  apply header_tail_ok. lia.
Qed.

Lemma header_tail_returns p t : returns (header_tail p t).
Proof.
  destruct t as [|c [|sp rest]]; [done..|]. cbn [header_tail]. case_match; [|done].
  destruct (negb _); [done|]. destruct (position _ _); [|done].
  destruct (from_utf8 _) as [line|]; [|done].
  destruct (parse_fields_inv _ _ _ _ (eq_refl (parse_fields t line (p + 2 + n + 1))))
    as [->|(h & -> & _)]; done.
Qed.

Lemma decode_header_returns data : returns (decode_header data).
Proof.
  rewrite decode_header_eq. destruct (find_sub MAGIC data); [|done].
  apply header_tail_returns.
Qed.

(** ** Responses round trip *)

Definition response_wf `{Base64} (r : Response) : Prop :=
  valid_etag (etag r) = true /\ i32_min <= max_age r <= i32_max
  /\ Z.of_nat (length (b64_encode (payload r))) <= u32_max.

Definition header_of `{Base64} (off : nat) (r : Response) : Header :=
  mkHeader (status r) (Z.of_nat (length (b64_encode (payload r)))) (etag r) (max_age r)
    (off + length (header_text r)).

Lemma forallb_imp {A} (p q : A -> bool) l :
  (forall x, p x = true -> q x = true) -> forallb p l = true -> forallb q l = true.
Proof. rewrite !forallb_forall. auto. Qed.

(** Bytes of a header field: printable, and neither a space nor an end of line *)
Definition field_byte (b : byte) : bool := in_range 0x21 0x7e b.

Lemma display_field n : forallb field_byte (display n) = true.
Proof.
  eapply forallb_imp, display_ascii. intros x. unfold field_byte, in_range. lia.
Qed.

Lemma valid_etag_field e : valid_etag e = true -> forallb field_byte e = true.
Proof.
  unfold valid_etag. intros [->%bool_decide_eq_true|[_ H]%andb_true_iff]%orb_true_iff; [done|].
  eapply forallb_imp; [|exact H]. by intros [].
Qed.

Lemma field_byte_facts b :
  field_byte b = true ->
  is_ascii b = true /\ Byte.eqb b SP = false /\ is_eol b = false.
Proof. by destruct b. Qed.

Lemma fields_line r `{Base64} :
  valid_etag (etag r) = true ->
  let line := display (Z.of_nat (length (b64_encode (payload r)))) ++ [SP]
              ++ etag r ++ [SP] ++ display (max_age r) in
  utf8_valid line = true
  /\ forallb (fun y => negb (is_eol y)) line = true
  /\ split_on SP line =
     [display (Z.of_nat (length (b64_encode (payload r)))); etag r; display (max_age r)].
Proof.
  intros Hv line.
  pose proof (display_field (Z.of_nat (length (b64_encode (payload r))))) as H1.
  pose proof (valid_etag_field _ Hv) as H2. pose proof (display_field (max_age r)) as H3.
  assert (Hsep : forall l, forallb field_byte l = true ->
    forallb (fun y => negb (Byte.eqb y SP)) l = true).
  { intros l. apply forallb_imp. intros x Hx. by destruct (field_byte_facts x Hx) as (_ & -> & _). }
  unfold line. split; [|split].
  - apply ascii_utf8_valid. rewrite !forallb_app.
    assert (Hasc : forall l, forallb field_byte l = true -> forallb is_ascii l = true)
      by (intros l; apply forallb_imp; intros x Hx; apply (field_byte_facts x Hx)).
    by rewrite (Hasc _ H1), (Hasc _ H2), (Hasc _ H3).
  - rewrite !forallb_app.
    assert (Heol : forall l, forallb field_byte l = true ->
      forallb (fun y => negb (is_eol y)) l = true)
      by (intros l; apply forallb_imp; intros x Hx;
          by destruct (field_byte_facts x Hx) as (_ & _ & ->)).
    by rewrite (Heol _ H1), (Heol _ H2), (Heol _ H3).
  - simpl app. rewrite split_on_app by auto. rewrite split_on_app by auto.
    by rewrite split_on_none by auto.
Qed.

Lemma status_digit_inv s :
  match status_digit s with
  | "0"%byte => Some Status.Ok
  | "1"%byte => Some Status.Err
  | "2"%byte => Some Status.Blocked
  | "3"%byte => Some Status.NotModified
  | _ => None
  end = Some s.
Proof. by destruct s. Qed.

Lemma header_text_length `{Base64} r : (4 <= length (header_text r))%nat.
Proof.
  unfold header_text. rewrite length_app. change (length MAGIC) with 4%nat. lia.
Qed.

Lemma header_tail_roundtrip `{Base64} p r rest :
  response_wf r ->
  header_tail p (drop 4 (header_text r) ++ rest) =
  Ok (Some (mkHeader (status r) (Z.of_nat (length (b64_encode (payload r)))) (etag r)
              (max_age r) (p + length (header_text r) - 4))).
Proof.
  intros (Hv & Ha & Hl).
  pose proof (fields_line r Hv) as Hfl. cbv zeta in Hfl.
  set (line := display (Z.of_nat (length (b64_encode (payload r)))) ++ [SP]
               ++ etag r ++ [SP] ++ display (max_age r)) in *.
  destruct Hfl as (Hutf & Heol & Hsplit).
  assert (Ht : drop 4 (header_text r) = status_digit (status r) :: SP :: line ++ [LF]).
  { unfold header_text, line. simpl. rewrite <- !app_assoc. simpl. by rewrite <- app_assoc. }
  assert (Hlen : length (header_text r) = (4 + 2 + length line + 1)%nat).
  { assert (E := f_equal length Ht). rewrite length_drop in E. cbn [length] in E.
    rewrite length_app in E. cbn [length] in E.
    pose proof (header_text_length r). lia. }
  rewrite Ht, Hlen. cbn [app header_tail]. rewrite status_digit_inv. cbn [negb Byte.eqb].
  change (negb (Byte.eqb SP SP)) with false. cbv iota.
  rewrite <- app_assoc. cbn [app]. rewrite position_app_first by done.
  unfold from_utf8. rewrite take_app_length, Hutf.
  unfold parse_fields. rewrite Hsplit. cbn [lookup list_lookup ok_or mbind Result_bind].
  rewrite Hv. cbn [negb]. rewrite parse_unsigned_display by lia.
  rewrite parse_signed_display by done. cbn [ok_or mbind Result_bind].
  do 3 f_equal. lia.
Qed.

(** The decoder finds a response behind any prefix that does not itself start
    the magic (a banner, an echoed prompt), whatever follows it. *)
Lemma decode_encode_header `{Base64} garbage r rest :
  contains MAGIC (garbage ++ take 3 MAGIC) = false ->
  response_wf r ->
  decode_header (garbage ++ encode_response r ++ rest)
  = Ok (Some (header_of (length garbage) r)).
Proof.
  intros Hg Hwf. rewrite decode_header_eq.
  assert (Hm : encode_response r ++ rest
    = MAGIC ++ drop 4 (header_text r) ++ b64_encode (payload r) ++ [LF] ++ rest).
  { rewrite encode_response_split. by rewrite <- !app_assoc. }
  rewrite Hm, find_sub_first by done.
  replace (drop (length garbage + 4) _)
    with (drop 4 (header_text r) ++ b64_encode (payload r) ++ [LF] ++ rest).
  2:{ by rewrite <- drop_drop, drop_app_length. }
  rewrite header_tail_roundtrip by done. unfold header_of. do 3 f_equal.
  pose proof (header_text_length r). lia.
Qed.

(** ... and the payload sits where the header says. *)
Lemma decode_encode_payload `{Base64Laws} garbage r rest :
  let h := header_of (length garbage) r in
  slice (h_end h) (h_end h + Z.to_nat (h_len h)) (garbage ++ encode_response r ++ rest)
  = Ok (E:=ProtocolError) (b64_encode (payload r))
  /\ decode_payload (b64_encode (payload r)) = Ok (payload r).
Proof.
  intros h. split.
  - unfold h, header_of, h_end, h_len. rewrite Nat2Z.id, encode_response_split.
    rewrite <- !app_assoc, app_assoc.
    apply slice_mid_eq; rewrite length_app; lia.
  - unfold decode_payload. by rewrite b64_roundtrip.
Qed.

(** Bytes a TELNET driver passes through: printable ASCII and the line feed *)
Definition telnet_safe (b : byte) : bool := in_range 0x20 0x7e b || Byte.eqb b LF.

Lemma encode_response_telnet_safe `{Base64Laws} r :
  valid_etag (etag r) = true -> forallb telnet_safe (encode_response r) = true.
Proof.
  intros Hv. unfold encode_response. rewrite !forallb_app.
  assert (Hf : forall l, forallb field_byte l = true -> forallb telnet_safe l = true)
    by (intros l; apply forallb_imp; by intros []).
  rewrite (Hf _ (display_field _)), (Hf _ (valid_etag_field _ Hv)), (Hf _ (display_field _)).
  assert (forallb telnet_safe (b64_encode (payload r)) = true) as ->.
  { eapply forallb_imp, b64_alphabet. by intros []. }
  by destruct (status r).
Qed.

Lemma sanitized_html_etag_valid `{Base64Laws, Sha256Laws} html :
  valid_etag (sanitized_html_etag html) = true.
Proof.
  unfold valid_etag, sanitized_html_etag. apply orb_true_iff. right.
  rewrite b64url_length, length_take, sha256_length. cbn [Nat.min].
  change ((4 * 12 + 2) `div` 3 =? 16)%nat with true. cbn [andb].
  eapply forallb_imp, b64url_alphabet. intros b. unfold b64url_char. done.
Qed.

(** ** Compression *)

Lemma decompress_loop_bounded `{Brotli} reads : forall output out,
  Z.of_nat (length output) <= MAX_DECOMPRESSED_SIZE ->
  decompress_loop reads output = Ok out ->
  Z.of_nat (length out) <= MAX_DECOMPRESSED_SIZE.
Proof.
  induction reads as [|[e|buf] rest IH]; intros output out Ho;
    cbn [decompress_loop]; [by intros [= <-]|done|].
  destruct (length buf =? 0)%nat; [by intros [= <-]|].
  destruct (_ <? _) eqn:E; [done|]. apply IH. len.
Qed.

Lemma decompress_loop_chunks `{Brotli} chunks : forall output,
  Forall (fun c => c <> []) chunks ->
  Z.of_nat (length output) <= MAX_DECOMPRESSED_SIZE ->
  decompress_loop (map inr chunks) output =
  if Z.of_nat (length (output ++ mjoin chunks)) <=? MAX_DECOMPRESSED_SIZE
  then Ok (output ++ mjoin chunks) else Err TooLarge.
Proof.
  induction chunks as [|c t IH]; intros output Hne Ho; cbn [map decompress_loop].
  - change (mjoin (M:=list) (A:=byte) []) with (@nil byte). rewrite app_nil_r. by rewrite (proj2 (Z.leb_le _ _)).
  - inversion Hne as [|? ? Hc Ht]; subst. destruct c as [|b c]; [done|].
    change (length (b :: c) =? 0)%nat with false. cbv iota.
    destruct (_ <? _) eqn:E.
    + rewrite (proj2 (Z.leb_gt _ _)); [done|]. cbn [mjoin list_join]. len.
    + rewrite IH by (done || len). cbn [mjoin list_join]. by rewrite <- app_assoc.
Qed.

Lemma brotli_roundtrip_bounded `{BrotliLaws} data quality out :
  brotli_compress data quality = Ok out ->
  brotli_decompress out =
  if Z.of_nat (length data) <=? MAX_DECOMPRESSED_SIZE then Ok data else Err TooLarge.
Proof.
  unfold brotli_compress, brotli_decompress. intros Hw.
  destruct (brotli_write data quality) as [e|o] eqn:E; [done|]. injection Hw as ->.
  destruct (brotli_roundtrip _ _ _ E) as (chunks & -> & Hj & Hne).
  rewrite decompress_loop_chunks by (done || (simpl; unfold MAX_DECOMPRESSED_SIZE; lia)).
  simpl app. by rewrite Hj.
Qed.

Lemma header_tail_error p t e : header_tail p t = Err e -> e = InvalidResponse.
Proof.
  destruct t as [|c [|sp rest]]; [done..|]. cbn [header_tail].
  case_match; [|by intros [= <-]]. destruct (negb _); [by intros [= <-]|].
  destruct (position _ _); [|done].
  destruct (from_utf8 _) as [line|]; [|by intros [= <-]].
  intros [[= <-]|(h & ? & _)]%parse_fields_inv; [done|simplify_eq].
Qed.

Lemma header_tail_none p t :
  header_tail p t = Ok None ->
  (length t < 2)%nat \/ forallb (fun b => negb (is_eol b)) (drop 2 t) = true.
Proof.
  destruct t as [|c [|sp rest]]; [simpl; auto with lia..|]. cbn [header_tail].
  case_match; [|done]. destruct (negb _); [done|].
  destruct (position is_eol rest) eqn:Ei; [|intros _; right; by apply position_None].
  destruct (from_utf8 _) as [line|]; [|done].
  intros [?|(h & ? & _)]%parse_fields_inv; simplify_eq.
Qed.

(** ** Only well-formed requests round trip *)

(** The fields are [String]s. *)
Definition request_strings (r : Request) : Prop :=
  match r with
  | Get url None | Post url _ => utf8_valid url = true
  | Get url (Some etag) => utf8_valid url = true /\ utf8_valid etag = true
  end.

Lemma line_without_feed x rest i :
  position (Byte.eqb LF) (x ++ LF :: rest) = Some i -> take i (x ++ LF :: rest) = x ->
  no_byte LF x = true.
Proof.
  intros (a & c & b & E & <- & _ & Ha)%position_Some. rewrite E, take_app_length.
  intros ->. exact Ha.
Qed.

(** The line that a GET request decodes from *)
Lemma decode_get_wire x rest r :
  decode_request (GET_ ++ x ++ LF :: rest) = Ok r ->
  exists i, position (Byte.eqb LF) (x ++ LF :: rest) = Some i
    /\ match split_once IF_NONE_MATCH (take i (x ++ LF :: rest)) with
       | Some (url, etag) => r = Get url (Some etag)
       | None => r = Get (take i (x ++ LF :: rest)) None
       end.
Proof.
  rewrite decode_request_get. destruct (position _ _) as [i|] eqn:Ei; [|done].
  unfold from_utf8. destruct (utf8_valid _); [|done].
  intros E. exists i. split; [done|]. destruct (split_once _ _) as [[u e]|]; congruence.
Qed.

Lemma sentinel_split_inv url etag :
  split_once IF_NONE_MATCH (url ++ IF_NONE_MATCH ++ etag) = Some (url, etag) ->
  contains IF_NONE_MATCH (url ++ [SP]) = false.
Proof.
  intros Hs. destruct (contains _ (url ++ [SP])) eqn:Hc; [|done]. exfalso.
  unfold contains in Hc. destruct (find_sub IF_NONE_MATCH (url ++ [SP])) as [i|] eqn:Ei; [|done].
  pose proof (find_sub_bound _ _ _ Ei) as Hb.
  apply (find_sub_app _ _ (drop 1 IF_NONE_MATCH ++ etag)) in Ei.
  rewrite <- app_assoc in Ei. change ([SP] ++ drop 1 IF_NONE_MATCH ++ etag) with (IF_NONE_MATCH ++ etag) in Ei.
  unfold split_once in Hs. rewrite Ei in Hs. injection Hs as Hu _.
  apply (f_equal length) in Hu. rewrite length_app in Hb.
  change (length IF_NONE_MATCH) with 15%nat in Hb. change (length [SP]) with 1%nat in Hb.
  rewrite length_take_le in Hu by (rewrite length_app; lia). lia.
Qed.

Lemma decode_encode_wf r rest :
  request_strings r -> decode_request (encode_request r ++ rest) = Ok r -> request_wf r.
Proof.
  destruct r as [url [etag|]|url body]; unfold encode_request; rewrite <- ?app_assoc.
  - intros [Hu He].
    replace (GET_ ++ url ++ IF_NONE_MATCH ++ etag ++ [LF] ++ rest)
      with (GET_ ++ (url ++ IF_NONE_MATCH ++ etag) ++ LF :: rest) by by rewrite <- !app_assoc.
    intros (i & Hi & Hsp)%decode_get_wire.
    destruct (split_once _ _) as [[u e]|] eqn:Es; [|done]. injection Hsp as <- <-.
    pose proof (split_once_Some _ _ _ _ Es) as Hline.
    pose proof (line_without_feed _ _ _ Hi Hline) as Hn. rewrite Hline in Es.
    rewrite !no_byte_app in Hn. apply andb_true_iff in Hn as [Hn [_ Hne]%andb_true_iff].
    split_and!; auto. by apply sentinel_split_inv in Es.
  - intros Hu (i & Hi & Hsp)%decode_get_wire.
    destruct (split_once _ _) as [[u e]|] eqn:Es; [done|]. injection Hsp as Hline.
    symmetry in Hline. split_and!; [done|by eapply line_without_feed|].
    apply split_once_None. by rewrite Hline in Es.
  - intros Hu. rewrite decode_request_post. cbn [app].
    destruct (position _ _) as [i|] eqn:Ei; [|done].
    unfold from_utf8. destruct (utf8_valid _); [|done].
    destruct (drop _ _) as [|b0 [|b1 [|b2 [|b3 t]]]] eqn:Ed; try done. cbv zeta.
    destruct (_ <? _) eqn:Hlt; [done|]. intros [= Hline Hbody].
    split_and!; [done|by eapply line_without_feed|].
    apply Z.ltb_ge in Hlt. apply (f_equal length) in Hbody.
    pose proof (from_be_bytes_range b0 b1 b2 b3). rewrite length_take_le in Hbody by lia. lia.
Qed.

(** ** Properties *)

(** C20: a request is read back exactly from its wire bytes, whatever bytes
    follow it, if and only if its URL and its etag are without a line feed, its
    URL is without the sentinel token (the one that begins in the last byte of
    the URL included) and its body is under 4 GiB.  [Request::encode] checks none
    of this. *)
Theorem request_roundtrip r rest :
  request_strings r ->
  decode_request (encode_request r ++ rest) = Ok r <-> request_wf r.
Proof.
  intros Hs. split; [by apply decode_encode_wf|apply decode_encode_request].
Qed.

Lemma request_roundtrip_witness :
  decode_request (encode_request (Get (bs "https://a.org/x") (Some (bs "aBcDeFgHiJkLmNoP")))
                  ++ bs "tail")
  = Ok (Get (bs "https://a.org/x") (Some (bs "aBcDeFgHiJkLmNoP"))).
Proof. apply request_roundtrip; by vm_compute. Defined.

(** A URL with a line feed is cut there: the server answers a request for what
    is before it, and takes what follows for its next request. *)
Theorem line_feed_splits_request u v inm rest :
  utf8_valid u = true -> no_byte LF u = true -> contains IF_NONE_MATCH u = false ->
  decode_request (encode_request (Get (u ++ LF :: v) inm) ++ rest) = Ok (Get u None)
  /\ exists later, encode_request (Get (u ++ LF :: v) inm) ++ rest
                    = encode_request (Get u None) ++ v ++ later.
Proof.
  intros Hu Hn Hc.
  assert (exists later, encode_request (Get (u ++ LF :: v) inm) ++ rest
                        = encode_request (Get u None) ++ v ++ later) as [later E].
  { destruct inm as [e|]; unfold encode_request; eexists;
      rewrite <- ?app_assoc; cbn [app]; rewrite <- ?app_assoc; reflexivity. }
  split; [|by exists later]. rewrite E. by apply decode_encode_request.
Qed.

Example smuggled_request :
  decode_request (encode_request (Get (bs "http://a/" ++ [LF] ++ bs "GET http://b/") None))
    = Ok (Get (bs "http://a/") None)
  /\ decode_request (encode_request (Get (bs "http://a/ IF-NONE-MATCH b") None))
    = Ok (Get (bs "http://a/") (Some (bs "b"))).
Proof. by vm_compute. Qed.

(** On any bytes the request decoder either rejects them with
    [InvalidRequest] or returns a request whose encoding is, byte for byte, the
    start of the buffer; it never indexes out of bounds. *)
Theorem decode_request_total data :
  match decode_request data with
  | Ok r => exists rest, data = encode_request r ++ rest
  | Err e => e = InvalidRequest
  | Panic | Spin => False
  end.
Proof.
  pose proof (decode_request_returns data) as Hr.
  destruct (decode_request data) as [r|e| |] eqn:E; try done.
  - by apply decode_request_exact.
  - destruct (request_shapes data) as [[t ->]|[[t ->]|[Hg Hp]]].
    + rewrite decode_request_get in E. by repeat (case_match; cbv zeta in E); simplify_eq.
    + rewrite decode_request_post in E. by repeat (case_match; cbv zeta in E); simplify_eq.
    + rewrite decode_request_other in E by done. by simplify_eq.
Qed.

(** C21: a response is found behind any prefix that does not start the magic
    itself, with its own status, etag and max-age; the payload is at the
    announced place and decodes to the bytes that were sent. *)
Theorem response_roundtrip `{Base64Laws} garbage r rest :
  contains MAGIC (garbage ++ take 3 MAGIC) = false ->
  response_wf r ->
  exists h, decode_header (garbage ++ encode_response r ++ rest) = Ok (Some h)
    /\ h_status h = status r /\ h_etag h = etag r /\ h_max_age h = max_age r
    /\ exists b64,
         slice (h_end h) (h_end h + Z.to_nat (h_len h)) (garbage ++ encode_response r ++ rest)
         = Ok (E:=ProtocolError) b64
         /\ decode_payload b64 = Ok (payload r).
Proof.
  intros Hg Hwf. exists (header_of (length garbage) r).
  split; [by apply decode_encode_header|]. repeat split.
  exists (b64_encode (payload r)). apply decode_encode_payload.
Qed.

Lemma response_roundtrip_witness :
  exists h, decode_header (bs "*** CONNECTED" ++ encode_response
              (mkResponse Status.Ok (bs "aBcDeFgHiJkLmNoP") 3600 (bs "body")) ++ [CR])
            = Ok (Some h)
    /\ h_status h = Status.Ok /\ h_etag h = bs "aBcDeFgHiJkLmNoP" /\ h_max_age h = 3600
    /\ exists b64,
         slice (h_end h) (h_end h + Z.to_nat (h_len h))
           (bs "*** CONNECTED" ++ encode_response
              (mkResponse Status.Ok (bs "aBcDeFgHiJkLmNoP") 3600 (bs "body")) ++ [CR])
         = Ok (E:=ProtocolError) b64
         /\ decode_payload b64 = Ok (bs "body").
Proof.
  apply (response_roundtrip (bs "*** CONNECTED")
           (mkResponse Status.Ok (bs "aBcDeFgHiJkLmNoP") 3600 (bs "body")) [CR]).
  - by vm_compute.
  - by vm_compute.
Defined.

(** The header decoder is incremental: once it has accepted or rejected a
    buffer, more bytes do not change its answer. *)
Theorem decode_header_incremental data more :
  decode_header data <> Ok None -> decode_header (data ++ more) = decode_header data.
Proof. apply decode_header_app. Qed.

Lemma decode_header_incremental_witness :
  decode_header (bs "RESP1 3 - -1
" ++ bs "abc") = decode_header (bs "RESP1 3 - -1
").
Proof. apply decode_header_incremental. by vm_compute. Defined.

(** C40: on any bytes the header decoder returns: a decoded header has its
    fields in range and its payload offset inside the buffer just after an
    end-of-line byte; an error is [InvalidResponse]; "more input needed" means
    the magic, the status or the end of the header line is missing. *)
Theorem decode_header_total data :
  match decode_header data with
  | Ok (Some h) => header_ok data h
  | Ok None =>
      contains MAGIC data = false
      \/ exists p, find_sub MAGIC data = Some p
                   /\ ((length data < p + 6)%nat
                       \/ forallb (fun b => negb (is_eol b)) (drop (p + 6) data) = true)
  | Err e => e = InvalidResponse
  | Panic | Spin => False
  end.
Proof.
  pose proof (decode_header_returns data) as Hr.
  destruct (decode_header data) as [[h|]|e| |] eqn:E; try done.
  - by apply decode_header_ok.
  - rewrite decode_header_eq in E. unfold contains.
    destruct (find_sub MAGIC data) as [p|] eqn:Ef; [right|by left].
    exists p. split; [done|]. apply find_sub_bound in Ef.
    change (length MAGIC) with 4%nat in Ef.
    apply header_tail_none in E as [E|E].
    + rewrite length_drop in E. left. lia.
    + right. rewrite drop_drop in E. by replace (p + 6)%nat with (p + 4 + 2)%nat by lia.
  - rewrite decode_header_eq in E. destruct (find_sub MAGIC data); [|done].
    by apply header_tail_error in E.
Qed.

(** Every byte of an encoded response is printable ASCII or a line feed,
    so the TELNET driver of the node changes none of them. *)
Theorem response_telnet_safe `{Base64Laws} r :
  valid_etag (etag r) = true -> forallb telnet_safe (encode_response r) = true.
Proof. apply encode_response_telnet_safe. Qed.

Lemma response_telnet_safe_witness :
  forallb telnet_safe (encode_response (mkResponse Status.Blocked [x2d] (-1) [x00; xff])) = true.
Proof. by apply response_telnet_safe. Defined.

(** Decompression never returns more than 10 MiB, and what the compressor
    wrote comes back exactly, or as [TooLarge] when it is over that size. *)
Theorem decompress_bounded_roundtrip `{BrotliLaws} data quality out :
  brotli_compress data quality = Ok out ->
  brotli_decompress out =
    (if Z.of_nat (length data) <=? MAX_DECOMPRESSED_SIZE then Ok data else Err TooLarge)
  /\ forall input res, brotli_decompress input = Ok res ->
       Z.of_nat (length res) <= MAX_DECOMPRESSED_SIZE.
Proof.
  intros Hc. split; [by eapply brotli_roundtrip_bounded|].
  intros input res Hd. eapply decompress_loop_bounded; [|exact Hd].
  unfold MAX_DECOMPRESSED_SIZE. simpl. lia.
Qed.

Lemma decompress_bounded_roundtrip_witness :
  brotli_decompress (H:=Toy.brotli) (bs "page") =
    (if Z.of_nat (length (bs "page")) <=? MAX_DECOMPRESSED_SIZE then Ok (bs "page")
     else Err TooLarge)
  /\ forall input res, brotli_decompress (H:=Toy.brotli) input = Ok res ->
       Z.of_nat (length res) <= MAX_DECOMPRESSED_SIZE.
Proof. apply (@decompress_bounded_roundtrip Toy.brotli Toy.brotli_laws (bs "page") 11). done. Defined.
