(* ===== verification/NetAddr.v ===== *)
(** * IP addresses: [std::net] parsing and printing

    The parser of the Rust standard library ([Ipv4Addr], [Ipv6Addr] and
    [IpAddr] [from_str]) as a recursive-descent parser on the remaining input,
    and the [Display] of both address kinds. *)
From Stdlib Require Import ZArith Lia Strings.Byte.
From stdpp Require Import base decidable list countable.
From S2P Require Import Prelude Bytes Numbers.

(** An IPv6 address is its 16 octets. *)
Inductive IpAddr : Type :=
| V4 (a b c d : byte)
| V6 (octets : list byte).

#[export] Instance IpAddr_eq_dec : EqDecision IpAddr.
Proof. solve_decision. Defined.

#[export] Instance IpAddr_countable : Countable IpAddr.
Proof.
  refine (inj_countable'
    (fun ip => match ip with V4 a b c d => inl (a, b, c, d) | V6 o => inr o end)
    (fun x => match x with inl (a, b, c, d) => V4 a b c d | inr o => V6 o end) _).
  by intros [].
Defined.

Definition ip_wf (ip : IpAddr) : Prop :=
  match ip with V4 _ _ _ _ => True | V6 o => length o = 16%nat end.

Definition octet (o : list byte) (i : nat) : Z := u8 (nth i o NUL).

(** ** Parsing *)

Definition hex_digit (b : byte) : option Z :=
  if is_digit b then Some (u8 b - 48)
  else if in_range 97 102 b then Some (u8 b - 87)
  else if in_range 65 70 b then Some (u8 b - 55)
  else None.
Definition to_digit (radix : Z) (b : byte) : option Z :=
  d ← hex_digit b; if d <? radix then Some d else None.

(** The digit loop of [Parser::read_number]: fails on overflow of the type and
    on more than [max_digits] digits. *)
Fixpoint read_digits (radix hi : Z) (max_digits : nat) (acc : Z) (count : nat) (l : list byte)
    : option (Z * nat * list byte) :=
  match l with
  | [] => Some (acc, count, [])
  | b :: t =>
      match to_digit radix b with
      | None => Some (acc, count, l)
      | Some d =>
          let acc' := acc * radix + d in
          if hi <? acc' then None
          else if (max_digits <? S count)%nat then None
          else read_digits radix hi max_digits acc' (S count) t
      end
  end.

Definition read_number (radix hi : Z) (max_digits : nat) (allow_zero_prefix : bool)
    (l : list byte) : option (Z * list byte) :=
  let has_leading_zero := starts_with ["0"%byte] l in
  '(n, count, rest) ← read_digits radix hi max_digits 0 0 l;
  if (count =? 0)%nat then None
  else if negb allow_zero_prefix && has_leading_zero && (1 <? count)%nat then None
  else Some (n, rest).

Definition read_given_char (c : byte) (l : list byte) : option (list byte) :=
  match l with
  | b :: t => if Byte.eqb b c then Some t else None
  | [] => None
  end.

(** [read_separator(sep, index, inner)]: the separator precedes all but the
    first element. *)
Definition read_separator {A} (sep : byte) (i : nat) (inner : list byte -> option (A * list byte))
    (l : list byte) : option (A * list byte) :=
  if (i =? 0)%nat then inner l
  else t ← read_given_char sep l; inner t.

Definition read_octet : list byte -> option (Z * list byte) := read_number 10 255 3 false.
Definition read_ipv4_addr (l : list byte) : option ((byte * byte * byte * byte) * list byte) :=
  '(a, l) ← read_separator "."%byte 0 read_octet l;
  '(b, l) ← read_separator "."%byte 1 read_octet l;
  '(c, l) ← read_separator "."%byte 2 read_octet l;
  '(d, l) ← read_separator "."%byte 3 read_octet l;
  Some ((u8_of a, u8_of b, u8_of c, u8_of d), l).

(** [read_groups] with [n] slots left, the first of them at index [i]: the
    octets read, whether they end in an embedded IPv4 address, the rest. *)
Fixpoint read_groups (n i : nat) (l : list byte) : list byte * bool * list byte :=
  match n with
  | O => ([], false, l)
  | S n' =>
      match (if (2 <=? n)%nat then read_separator ":"%byte i read_ipv4_addr l else None) with
      | Some ((a, b, c, d), rest) => ([a; b; c; d], true, rest)
      | None =>
          match read_separator ":"%byte i (read_number 16 65535 4 true) l with
          | None => ([], false, l)
          | Some (g, rest) =>
              let '(gs, v4, rest') := read_groups n' (S i) rest in
              (u8_of (Z.shiftr g 8) :: u8_of g :: gs, v4, rest')
          end
      end
  end.

Definition read_ipv6_addr (l : list byte) : option (list byte * list byte) :=
  let '(head, head_ipv4, rest) := read_groups 8 0 l in
  if (length head =? 16)%nat then Some (head, rest)
  else if (head_ipv4 : bool) then None
  else
    rest ← read_given_char ":"%byte rest;
    rest ← read_given_char ":"%byte rest;
    let limit := (8 - (length head / 2 + 1))%nat in
    let '(tail, _, rest) := read_groups limit 0 rest in
    Some (head ++ replicate (16 - length head - length tail) NUL ++ tail, rest).

(** [s.parse::<Ipv4Addr>()], [s.parse::<IpAddr>()] *)
Definition parse_ipv4 (s : list byte) : option (byte * byte * byte * byte) :=
  if (15 <? length s)%nat then None
  else match read_ipv4_addr s with
       | Some (ip, []) => Some ip
       | _ => None
       end.
Definition parse_ip (s : list byte) : option IpAddr :=
  match read_ipv4_addr s with
  | Some ((a, b, c, d), []) => Some (V4 a b c d)
  | Some (_, _ :: _) => None
  | None =>
      match read_ipv6_addr s with
      | Some (o, []) => Some (V6 o)
      | _ => None
      end
  end.

(** ** Classification *)

Definition is_loopback (ip : IpAddr) : bool :=
  match ip with
  | V4 a _ _ _ => Byte.eqb a x7f
  | V6 o => bool_decide (o = replicate 15 NUL ++ [x01])
  end.
Definition is_unspecified (ip : IpAddr) : bool :=
  match ip with
  | V4 a b c d => bool_decide ([a; b; c; d] = [NUL; NUL; NUL; NUL])
  | V6 o => bool_decide (o = replicate 16 NUL)
  end.
(** [Ipv6Addr::is_multicast], [Ipv6Addr::to_ipv4_mapped] *)
Definition v6_is_multicast (o : list byte) : bool := octet o 0 =? 0xff.
Definition to_ipv4_mapped (o : list byte) : option (byte * byte * byte * byte) :=
  match o with
  | [x00; x00; x00; x00; x00; x00; x00; x00; x00; x00; xff; xff; a; b; c; d] =>
      Some (a, b, c, d)
  | _ => None
  end.
(** [Ipv4Addr::is_private], [Ipv4Addr::is_link_local] *)
Definition v4_is_private (a b : byte) : bool :=
  (u8 a =? 10) || (u8 a =? 172) && (16 <=? u8 b) && (u8 b <=? 31)
  || (u8 a =? 192) && (u8 b =? 168).
Definition v4_is_link_local (a b : byte) : bool := (u8 a =? 169) && (u8 b =? 254).

(** ** Printing *)

Definition display_v4 (a b c d : byte) : list byte :=
  display (u8 a) ++ ["."%byte] ++ display (u8 b) ++ ["."%byte]
  ++ display (u8 c) ++ ["."%byte] ++ display (u8 d).

Definition hex_char (n : Z) : byte := if n <? 10 then u8_of (48 + n) else u8_of (87 + n).
Fixpoint hex_digits (fuel : nat) (n : Z) (acc : list byte) : list byte :=
  match fuel with
  | O => acc
  | S f => let acc' := hex_char (n mod 16) :: acc in
           if n <? 16 then acc' else hex_digits f (n / 16) acc'
  end.
(** [{:x}] of a 16-bit segment *)
Definition display_hex (n : Z) : list byte := hex_digits 4 n [].

Fixpoint segments (o : list byte) : list Z :=
  match o with
  | a :: b :: t => u8 a * 256 + u8 b :: segments t
  | _ => []
  end.

(** The first longest run of zero segments, as (start, length) *)
Fixpoint longest_zeros (i : nat) (cur best : nat * nat) (l : list Z) : nat * nat :=
  match l with
  | [] => best
  | s :: t =>
      if s =? 0 then
        let cur' := if (cur.2 =? 0)%nat then (i, 1)%nat else (cur.1, S cur.2) in
        longest_zeros (S i) cur' (if (best.2 <? cur'.2)%nat then cur' else best) t
      else longest_zeros (S i) (0, 0)%nat best t
  end.

Fixpoint join_hex (l : list Z) : list byte :=
  match l with
  | [] => []
  | [s] => display_hex s
  | s :: t => display_hex s ++ [":"%byte] ++ join_hex t
  end.

Definition display_v6 (o : list byte) : list byte :=
  match to_ipv4_mapped o with
  | Some (a, b, c, d) => bs "::ffff:" ++ display_v4 a b c d
  | None =>
      let segs := segments o in
      let '(start, len) := longest_zeros 0 (0, 0)%nat (0, 0)%nat segs in
      if (1 <? len)%nat then
        join_hex (take start segs) ++ bs "::" ++ join_hex (drop (start + len) segs)
      else join_hex segs
  end.

(** [ip.to_string()] *)
Definition display_ip (ip : IpAddr) : list byte :=
  match ip with
  | V4 a b c d => display_v4 a b c d
  | V6 o => display_v6 o
  end.

Example parse_v6_compressed :
  parse_ip (bs "fe80::1:ff") =
  Some (V6 [xfe; x80; x00; x00; x00; x00; x00; x00; x00; x00; x00; x00; x00; x01; x00; xff]).
Proof. by vm_compute. Qed.
Example parse_v6_embedded :
  parse_ip (bs "::ffff:10.0.0.1") =
  Some (V6 [x00; x00; x00; x00; x00; x00; x00; x00; x00; x00; xff; xff; x0a; x00; x00; x01]).
Proof. by vm_compute. Qed.
Example parse_ip_rejects :
  map parse_ip [bs "01.2.3.4"; bs "1.2.3.256"; bs "1.2.3.4 "; bs "1::2::3"; bs "12345::"]
  = [None; None; None; None; None].
Proof. by vm_compute. Qed.
Example display_v6_examples :
  map (fun s => display_ip <$> parse_ip s)
    [bs "2001:DB8:0:0:8:0:0:1"; bs "::"; bs "1:0:3:4:5:6:7:8"; bs "::ffff:1.2.3.4"]
  = [Some (bs "2001:db8::8:0:0:1"); Some (bs "::"); Some (bs "1:0:3:4:5:6:7:8");
     Some (bs "::ffff:1.2.3.4")].
Proof. by vm_compute. Qed.

(** ** Parsed addresses are well formed *)

Lemma read_groups_shape n : forall i l,
  let '(o, v4, _) := read_groups n i l in
  (length o <= 2 * n)%nat /\ exists k, length o = (2 * k)%nat.
Proof.
  induction n as [|n IH]; intros i l; [split; [done|by exists 0%nat]|].
  cbn [read_groups].
  destruct (if (2 <=? S n)%nat then _ else None) as [[[[[a b] c] d] rest]|] eqn:E.
  - destruct (2 <=? S n)%nat eqn:Hn; [|done]. b2p. simpl length. split; [lia|by exists 2%nat].
  - destruct (read_separator ":"%byte i (read_number 16 65535 4 true) l) as [[g rest]|]; [|split; [simpl; lia|by exists 0%nat]].
    specialize (IH (S i) rest). destruct (read_groups n (S i) rest) as [[o v4] r].
    simpl length. destruct IH as [Hl [k Hk]]. split; [lia|]. exists (S k). lia.
Qed.

Lemma parse_ip_wf s ip : parse_ip s = Some ip -> ip_wf ip.
Proof.
  unfold parse_ip. destruct (read_ipv4_addr s) as [[[[[a b] c] d] [|? ?]]|]; [by intros [= <-]|done|].
  unfold read_ipv6_addr.
  pose proof (read_groups_shape 8 0 s) as Hh.
  destruct (read_groups 8 0 s) as [[head v4] rest]. destruct Hh as [Hh [k Hk]].
  destruct (length head =? 16)%nat eqn:H16.
  { b2p. destruct rest; [|done]. intros [= <-]. done. }
  b2p. destruct v4; [done|].
  destruct (read_given_char _ rest) as [r1|]; [|done]. cbn [mbind option_bind].
  destruct (read_given_char _ r1) as [r2|]; [|done]. cbn [mbind option_bind].
  pose proof (read_groups_shape (8 - (length head / 2 + 1)) 0 r2) as Ht.
  destruct (read_groups (8 - (length head / 2 + 1)) 0 r2) as [[tail tv4] r3].
  destruct Ht as [Ht _]. destruct r3; [|done]. intros [= <-]. simpl.
  rewrite !length_app, length_replicate.
  assert (length head / 2 = k)%nat as Hdiv
    by (rewrite Hk, Nat.mul_comm; apply Nat.div_mul; lia).
  rewrite Hdiv in Ht. lia.
Qed.
