(* ===== verification/Blocklist.v ===== *)
(** * The domain blocklist ([server/src/blocklist.rs])

    The process-wide set of blocked names, its refresh from hosts-format files
    and the capped download.  [None] is the uninitialised [OnceLock]. *)
From Stdlib Require Import ZArith Lia Strings.Byte.
From stdpp Require Import base decidable list gmap.
From S2P Require Import Prelude Bytes Numbers.

Definition MAX_BLOCKLIST_BYTES : Z := 16 * 1024 * 1024.
Definition MAX_DOMAIN_LEN : nat := 253.

(** [DOMAIN_BLOCKLIST] *)
Definition State : Type := option (gset (list byte)).

(** [init_domain_blocklist]: a second [OnceLock::set] changes nothing *)
Definition init_domain_blocklist (st : State) : State :=
  match st with None => Some ∅ | Some _ => st end.

Definition is_domain_blocked (st : State) (host : list byte) : bool :=
  match st with
  | None => false
  | Some domains => bool_decide (to_ascii_lowercase host ∈ domains)
  end.

(** ** Download

    What the HTTP client reports for one URL: a transport or status error, or
    the announced length and the successive results of [read], whose end is a
    read of 0 bytes. *)
Inductive FetchError : Type :=
| Http (msg : list byte)
| Announced (len : Z)
| Exceeded
| NotUtf8.

Record HttpBody : Type := mkBody {
  content_length : option Z;
  reads : list (list byte + list byte) }.

(** The read loop of [fetch_capped] *)
Fixpoint read_capped (reads : list (list byte + list byte)) (buf : list byte)
    : Result FetchError (list byte) :=
  match reads with
  | [] => Ok buf
  | inl e :: _ => Err (Http e)
  | inr chunk :: rest =>
      if (length chunk =? 0)%nat then Ok buf
      else if MAX_BLOCKLIST_BYTES <? Z.of_nat (length buf + length chunk) then Err Exceeded
      else read_capped rest (buf ++ chunk)
  end.

Definition fetch_capped (get : list byte -> Result (list byte) HttpBody) (url : list byte)
    : Result FetchError (list byte) :=
  resp ← map_err Http (get url);
  _ ← (match content_length resp with
       | Some len => if MAX_BLOCKLIST_BYTES <? len then Err (Announced len) else Ok tt
       | None => Ok tt
       end : Result FetchError unit);
  buf ← read_capped (reads resp) [];
  ok_or NotUtf8 (from_utf8 buf).

(** ** Parsing a hosts file *)

Definition LOCAL_NAMES : list (list byte) :=
  Eval vm_compute in [bs "localhost"; bs "localhost.localdomain"; bs "broadcasthost"].

(** The name one line contributes *)
Definition hosts_line (line : list byte) : option (list byte) :=
  let line := trim line in
  if bool_decide (line = []) || starts_with ["#"%byte] line then None
  else
    match split_whitespace line with
    | _ip :: domain :: _ =>
        if (MAX_DOMAIN_LEN <? length domain)%nat then None
        else if bool_decide (domain ∈ LOCAL_NAMES) then None
        else Some (to_ascii_lowercase domain)
    | _ => None
    end.

Fixpoint insert_lines (ls : list (list byte)) (domains : gset (list byte))
    : gset (list byte) :=
  match ls with
  | [] => domains
  | l :: rest =>
      insert_lines rest
        (match hosts_line l with Some d => {[ d ]} ∪ domains | None => domains end)
  end.

(** The loop over [urls] *)
Fixpoint collect (get : list byte -> Result (list byte) HttpBody) (urls : list (list byte))
    (domains : gset (list byte)) : Result FetchError (gset (list byte)) :=
  match urls with
  | [] => Ok domains
  | url :: rest =>
      body ← fetch_capped get url;
      collect get rest (insert_lines (lines body) domains)
  end.

(** [build] is the outcome of building the HTTP client. *)
Definition update_blocklist (build : Result (list byte) unit)
    (get : list byte -> Result (list byte) HttpBody) (urls : list (list byte)) (st : State)
    : Result FetchError unit * State :=
  match (_ ← map_err Http build; collect get urls ∅) with
  | Ok domains => (Ok tt, match st with Some _ => Some domains | None => None end)
  | Err e => (Err e, st)
  | Panic => (Panic, st)
  | Spin => (Spin, st)
  end.

(** [start_blocklist_manager] after [ticks] periods: the initial update, then
    one refresh per element; errors are printed and dropped. *)
Definition start_blocklist_manager (urls : list (list byte))
    (initial : Result (list byte) unit * (list byte -> Result (list byte) HttpBody))
    (ticks : list (Result (list byte) unit * (list byte -> Result (list byte) HttpBody)))
    (st : State) : State :=
  if bool_decide (urls = []) then st
  else
    fold_left (fun st '(build, get) => (update_blocklist build get urls st).2)
      (initial :: ticks) (init_domain_blocklist st).

(** ** The download is capped *)

(** What a reader delivers before its first end of file *)
Fixpoint delivered (reads : list (list byte + list byte)) : option (list byte) :=
  match reads with
  | [] => Some []
  | inl _ :: _ => None
  | inr [] :: _ => Some []
  | inr chunk :: rest => app chunk <$> delivered rest
  end.

Lemma read_capped_spec reads : forall buf,
  (Z.of_nat (length buf) <= MAX_BLOCKLIST_BYTES)%Z ->
  match read_capped reads buf with
  | Ok body => (Z.of_nat (length body) <= MAX_BLOCKLIST_BYTES)%Z
               /\ app buf <$> delivered reads = Some body
  | Err Exceeded =>
      exists pre rest : list (list byte), exists tl,
        reads = map inr (pre ++ rest) ++ tl /\
        (MAX_BLOCKLIST_BYTES < Z.of_nat (length buf + length (mjoin (pre ++ rest))))%Z
  | Err (Http e) => inl e ∈ reads
  | _ => False
  end.
Proof.
  induction reads as [|[e|chunk] rest IH]; intros buf Hbuf; simpl.
  - by rewrite app_nil_r.
  - by left.
  - destruct chunk as [|b chunk]; [cbn; by rewrite app_nil_r|].
    change (length (b :: chunk) =? 0)%nat with false. cbv iota. destruct (_ <? _)%Z eqn:E; b2p.
    + exists [b :: chunk], [], rest. split; [done|]. autorewrite with len. simpl.
      rewrite app_nil_r. simpl length in *. lia.
    + specialize (IH (buf ++ b :: chunk)). rewrite length_app in IH. specialize (IH E).
      destruct (read_capped rest (buf ++ b :: chunk)) as [body|[e|n| |]| |]; try done.
      * destruct IH as [Hb Hd]. split; [done|]. destruct (delivered rest); [|done].
        simpl in *. rewrite <- app_assoc in Hd. done.
      * by right.
      * destruct IH as (pre & rs & tl & -> & Hl). exists ((b :: chunk) :: pre), rs, tl.
        split; [done|]. simpl in *. autorewrite with len in *. lia.
Qed.

(** A download that succeeds is at most 16 MiB of valid UTF-8, the bytes the
    connection delivered up to its end; an announced length over the limit is
    refused before anything is read, and the loop always ends with one of the
    listed outcomes. *)
Theorem fetch_capped_bounded get url :
  match fetch_capped get url with
  | Ok body =>
      exists resp, get url = Ok resp /\ delivered (reads resp) = Some body
      /\ utf8_valid body = true /\ (Z.of_nat (length body) <= MAX_BLOCKLIST_BYTES)%Z
      /\ (forall len, content_length resp = Some len -> (len <= MAX_BLOCKLIST_BYTES)%Z)
  | Err (Announced len) => (MAX_BLOCKLIST_BYTES < len)%Z
      /\ exists r, get url = Ok (mkBody (Some len) r)
  | Err NotUtf8 => exists resp body, get url = Ok resp
      /\ delivered (reads resp) = Some body /\ utf8_valid body = false
  | Err (Http e) => get url = Err e \/ exists resp, get url = Ok resp /\ inl e ∈ reads resp
  | Err Exceeded => exists resp pre tl, get url = Ok resp
      /\ reads resp = map inr pre ++ tl
      /\ (MAX_BLOCKLIST_BYTES < Z.of_nat (length (mjoin pre)))%Z
  | Panic => get url = Panic
  | Spin => get url = Spin
  end.
Proof.
  unfold fetch_capped. destruct (get url) as [resp|e| |] eqn:Hg; cbn; [|by left|done|done].
  pose proof (read_capped_spec (reads resp) [] ltac:(done)) as H.
  assert (forall len, (MAX_BLOCKLIST_BYTES <? len)%Z = true -> content_length resp = Some len ->
    (MAX_BLOCKLIST_BYTES < len)%Z /\ exists r, Ok (E:=list byte) resp = Ok (mkBody (Some len) r)) as Hann.
  { intros len E Hc. b2p. split; [done|]. exists (reads resp). destruct resp; simpl in *. by subst. }
  assert (match (match content_length resp with
                 | Some len => if (MAX_BLOCKLIST_BYTES <? len)%Z then Err (Announced len) else Ok tt
                 | None => Ok tt end : Result FetchError unit) with
          | Ok _ => forall len, content_length resp = Some len -> (len <= MAX_BLOCKLIST_BYTES)%Z
          | Err (Announced len) => (MAX_BLOCKLIST_BYTES < len)%Z
              /\ exists r, Ok (E:=list byte) resp = Ok (mkBody (Some len) r)
          | _ => False end) as Hc.
  { destruct (content_length resp) as [len|] eqn:Hc; [|done].
    destruct (_ <? len)%Z eqn:E; [by apply Hann|]. b2p. by intros ? [= ->]. }
  destruct (match content_length resp with Some _ => _ | None => _ end) as [[]|[]| |]; try done.
  cbn. destruct (read_capped _ _) as [body|[e|n| |]| |]; cbn; try done.
  - destruct H as [Hl Hd]. destruct (delivered (reads resp)) as [d|] eqn:Hr; [|done].
    simpl in Hd. injection Hd as ->. unfold from_utf8. destruct (utf8_valid body) eqn:Hu; simpl; eauto 10.
  - right. eauto.
  - destruct H as (pre & rs & tl & Hr & Hl). by exists resp, (pre ++ rs), tl.
Qed.

(** ** The refresh *)

Lemma insert_lines_spec ls : forall d x,
  x ∈ insert_lines ls d <-> x ∈ d \/ exists l, l ∈ ls /\ hosts_line l = Some x.
Proof.
  induction ls as [|l ls IH]; intros d x; simpl; [set_solver|].
  rewrite IH. setoid_rewrite elem_of_cons.
  destruct (hosts_line l) as [y|] eqn:E; [rewrite elem_of_union, elem_of_singleton|]; naive_solver.
Qed.

(** The names the files at [urls] list *)
Definition listed (get : list byte -> Result (list byte) HttpBody) (urls : list (list byte))
    (x : list byte) : Prop :=
  exists url body line, url ∈ urls /\ fetch_capped get url = Ok body
    /\ line ∈ lines body /\ hosts_line line = Some x.

Lemma listed_cons get url urls x :
  listed get (url :: urls) x <->
  (exists body line, fetch_capped get url = Ok body
     /\ line ∈ lines body /\ hosts_line line = Some x) \/ listed get urls x.
Proof.
  unfold listed. split.
  - intros (u & body & line & [->|Hu]%elem_of_cons & H); [left|right]; eauto.
  - intros [(body & line & H)|(u & body & line & Hu & H)].
    + exists url, body, line. split; [by left|done].
    + exists u, body, line. split; [by right|done].
Qed.

Lemma collect_spec get urls : forall d,
  match collect get urls d with
  | Ok d' => (forall url, url ∈ urls -> exists body, fetch_capped get url = Ok body)
             /\ forall x, x ∈ d' <-> x ∈ d \/ listed get urls x
  | Err e => exists url, url ∈ urls /\ fetch_capped get url = Err e
  | Panic => exists url, url ∈ urls /\ fetch_capped get url = Panic
  | Spin => exists url, url ∈ urls /\ fetch_capped get url = Spin
  end.
Proof.
  induction urls as [|url urls IH]; intros d; simpl.
  { split; [by intros ? ?%elem_of_nil|]. intros x. split; [by left|].
    intros [H|(url & ? & ? & H%elem_of_nil & _)]; done. }
  destruct (fetch_capped get url) as [body|e| |] eqn:Hf; cbn;
    [|exists url; split; [by left|done]..].
  specialize (IH (insert_lines (lines body) d)).
  destruct (collect get urls _) as [d'|e| |];
    [|destruct IH as (u & Hu & H); exists u; split; [by right|done]..].
  destruct IH as [Hall Hd]. split.
  { intros u [->|Hu]%elem_of_cons; eauto. }
  intros x. rewrite Hd, insert_lines_spec, listed_cons, Hf, <- (assoc or).
  apply or_iff_compat_l, or_iff_compat_r. split.
  - intros (l & Hl & Hx). by exists body, l.
  - intros (b & l & [= ->] & Hl & Hx). by exists l.
Qed.

(** C37: a refresh replaces the set by exactly the names the fetched files list,
    compared without regard to case, and leaves it as it was when the client
    cannot be built or any one download fails. *)
Theorem update_blocklist_atomic build get urls domains :
  let '(r, st) := update_blocklist build get urls (Some domains) in
  match r with
  | Ok _ => (forall url, url ∈ urls -> exists body, fetch_capped get url = Ok body)
      /\ forall host, is_domain_blocked st host = true
                      <-> listed get urls (to_ascii_lowercase host)
  | Err e => st = Some domains
      /\ (build = Ok tt -> exists url, url ∈ urls /\ fetch_capped get url = Err e)
  | Panic | Spin => st = Some domains
  end.
Proof.
  unfold update_blocklist. destruct build as [[]|e| |]; cbn; [|by split|done|done].
  pose proof (collect_spec get urls ∅) as H. destruct (collect get urls ∅); cbn; try done.
  destruct H as [Hall Hd]. split; [done|]. intros host. simpl. rewrite bool_decide_eq_true, Hd.
  split; [by intros [?%not_elem_of_empty|]|by right].
Qed.

Example hosts_line_examples :
  map hosts_line [bs "0.0.0.0 Ads.Example.com # tracker"; bs "# comment"; bs "  ";
    bs "127.0.0.1 localhost"; bs "lonely"]
  = [Some (bs "ads.example.com"); None; None; None; None].
Proof. by vm_compute. Qed.
