(* ===== verification/Filter.v ===== *)
(** * The address filter ([server/src/filter.rs])

    Host names and addresses the server refuses to contact.  [resolve] is the
    system resolver ([ToSocketAddrs]); [url_parse] is the [url] crate, reduced
    to the parts of a URL the filter reads. *)
From Stdlib Require Import ZArith Lia Strings.Byte.
From stdpp Require Import base decidable list gmap.
From S2P Require Import Prelude Bytes Numbers NetAddr Blocklist.

Inductive UrlError : Type :=
| BlockedProtocol (p : list byte)
| BlockedHost (h : list byte)
| UnresolvableHost (h : list byte)
| InvalidUrl.

(** [impl Display for UrlError] *)
Definition display_url_error (e : UrlError) : list byte :=
  match e with
  | BlockedProtocol p => bs "Blocked protocol: " ++ p
  | BlockedHost h => bs "Blocked host: " ++ h
  | UnresolvableHost h => bs "Host could not be resolved: " ++ h
  | InvalidUrl => bs "Invalid URL"
  end.

Definition BLOCKED_HOSTNAMES : list (list byte) :=
  Eval vm_compute in
    [bs "localhost"; bs "localhost.localdomain"; bs "ip6-localhost";
     bs "ip6-loopback"; bs "broadcasthost"].

(** ** Address ranges *)

Definition v4_bits (a b c d : byte) : Z := from_be_bytes a b c d.

(** [is_ipv4_in_cidr]; a shift of the 32-bit [!0] drops the high bits *)
Definition is_ipv4_in_cidr (ip_bits net_bits prefix_len : Z) : bool :=
  let mask := if prefix_len =? 0 then 0
              else as_u32 (Z.shiftl u32_max (32 - prefix_len)) in
  Z.land ip_bits mask =? Z.land net_bits mask.

(** One element of [blocked_ranges]: [Some (net, prefix)] when it is a CIDR *)
Definition parse_cidr (range : list byte) : option (Z * Z) :=
  '(network, prefix) ← split_once (bs "/") range;
  '(a, b, c, d) ← parse_ipv4 network;
  prefix_len ← parse_unsigned 255 prefix;
  Some (v4_bits a b c d, prefix_len).

Definition ipv4_is_blocked (ip_bits : Z) (blocked_ranges : list (list byte)) : bool :=
  existsb (fun range =>
    match parse_cidr range with
    | Some (net_bits, prefix_len) =>
        (prefix_len <=? 32) && is_ipv4_in_cidr ip_bits net_bits prefix_len
    | None => false
    end) blocked_ranges.

Definition ipv6_is_blocked (octets : list byte) (blocked_ranges : list (list byte)) : bool :=
  if is_loopback (V6 octets) || is_unspecified (V6 octets) || v6_is_multicast octets then true
  else if Z.land (octet octets 0) 0xfe =? 0xfc then true
  else if (octet octets 0 =? 0xfe) && (Z.land (octet octets 1) 0xc0 =? 0x80) then true
  else if bool_decide (take 8 octets = [x01; NUL; NUL; NUL; NUL; NUL; NUL; NUL]) then true
  else
    match to_ipv4_mapped octets with
    | Some (a, b, c, d) => ipv4_is_blocked (v4_bits a b c d) blocked_ranges
    | None =>
        if (octet octets 0 =? 0x20) && (octet octets 1 =? 0x02) then
          let o := fun i => nth i octets NUL in
          ipv4_is_blocked (v4_bits (o 2%nat) (o 3%nat) (o 4%nat) (o 5%nat)) blocked_ranges
        else false
    end.

Definition ip_is_blocked (ip : IpAddr) (blocked_ranges : list (list byte)) : bool :=
  match ip with
  | V4 a b c d => ipv4_is_blocked (v4_bits a b c d) blocked_ranges
  | V6 octets => ipv6_is_blocked octets blocked_ranges
  end.

(** ** Hosts *)

Section Hosts.
(** [(host, port).to_socket_addrs()]: [None] when resolution fails *)
Variable resolve : list byte -> Z -> option (list IpAddr).
Variable domains : Blocklist.State.
Variable blocked_ranges : list (list byte).

Definition check_ip (ip : IpAddr) : Result UrlError IpAddr :=
  if ip_is_blocked ip blocked_ranges then Err (BlockedHost (display_ip ip)) else Ok ip.

(** [host.strip_prefix('[').and_then(|s| s.strip_suffix(']'))] *)
Definition bracketed (host : list byte) : option (list byte) :=
  s ← strip_prefix (bs "[") host; strip_suffix (bs "]") s.

Definition resolve_and_pin (host : list byte) (port : Z) : Result UrlError IpAddr :=
  let host_lc := to_ascii_lowercase host in
  if bool_decide (host_lc ∈ BLOCKED_HOSTNAMES) then Err (BlockedHost host_lc)
  else if is_domain_blocked domains host_lc then Err (BlockedHost host_lc)
  else
    match parse_ip host with
    | Some ip => check_ip ip
    | None =>
        match (inner ← bracketed host; parse_ip inner) with
        | Some ip => check_ip ip
        | None =>
            addrs ← ok_or (UnresolvableHost host) (resolve host port);
            first ← ok_or (UnresolvableHost host) (head addrs);
            if ip_is_blocked first blocked_ranges
            then Err (BlockedHost (host ++ bs " (resolves to " ++ display_ip first ++ bs ")"))
            else Ok first
        end
    end.

(** ** Whole URLs *)

Inductive Host : Type :=
| Domain (name : list byte)
| Ipv4 (a b c d : byte)
| Ipv6 (octets : list byte).

Record Url : Type := mkUrl {
  scheme : list byte;
  host : option Host;
  port_or_known_default : option Z }.

Variable url_parse : list byte -> option Url.

(** The loop over every resolved address *)
Fixpoint check_all (name : list byte) (addrs : list IpAddr) : Result UrlError unit :=
  match addrs with
  | [] => Ok tt
  | ip :: rest =>
      if ip_is_blocked ip blocked_ranges
      then Err (BlockedHost (name ++ bs " (resolves to " ++ display_ip ip ++ bs ")"))
      else check_all name rest
  end.

Definition validate_url (url : list byte) : Result UrlError unit :=
  parsed ← ok_or InvalidUrl (url_parse url);
  if negb (bool_decide (scheme parsed = bs "http") || bool_decide (scheme parsed = bs "https"))
  then Err (BlockedProtocol (scheme parsed))
  else
    h ← ok_or InvalidUrl (host parsed);
    match h with
    | Domain name =>
        let name_lc := to_ascii_lowercase name in
        if bool_decide (name_lc ∈ BLOCKED_HOSTNAMES) then Err (BlockedHost name_lc)
        else if is_domain_blocked domains name_lc then Err (BlockedHost name_lc)
        else
          let port := default 80 (port_or_known_default parsed) in
          resolved ← ok_or (UnresolvableHost name) (resolve name port);
          check_all name resolved
    | Ipv4 a b c d => _ ← check_ip (V4 a b c d); Ok tt
    | Ipv6 o => _ ← check_ip (V6 o); Ok tt
    end.
End Hosts.

(** ** CIDR membership is equality of prefixes *)

Lemma land_mask x k :
  0 <= k <= 32 -> 0 <= x < 2 ^ 32 ->
  Z.land x (as_u32 (Z.shiftl u32_max k)) = Z.shiftl (Z.shiftr x k) k.
Proof.
  intros Hk Hx. unfold as_u32, u32_max. change (2 ^ 32 - 1) with (Z.ones 32).
  apply Z.bits_inj'. intros n Hn. rewrite Z.land_spec, Z.shiftl_spec by lia.
  destruct (Z.ltb_spec n 32) as [H32|H32].
  - rewrite Z.mod_pow2_bits_low, Z.shiftl_spec by lia. destruct (Z.ltb_spec n k) as [Hnk|Hnk].
    + rewrite !(Z.testbit_neg_r _ (n - k)) by lia. by rewrite andb_false_r.
    + rewrite Z.ones_spec_low, Z.shiftr_spec by lia. rewrite andb_true_r. f_equal. lia.
  - rewrite Z.mod_pow2_bits_high, andb_false_r by lia.
    rewrite Z.shiftr_spec by lia. replace (n - k + k) with n by lia.
    destruct (Z.eq_dec x 0) as [->|]; [by rewrite Z.bits_0|].
    rewrite Z.bits_above_log2; [done|lia|].
    apply Z.lt_le_trans with 32; [apply Z.log2_lt_pow2; lia|done].
Qed.

Lemma is_ipv4_in_cidr_eq ip net prefix_len :
  0 <= ip < 2 ^ 32 -> 0 <= net < 2 ^ 32 -> 0 <= prefix_len <= 32 ->
  is_ipv4_in_cidr ip net prefix_len
  = (ip / 2 ^ (32 - prefix_len) =? net / 2 ^ (32 - prefix_len)).
Proof.
  intros Hi Hn Hp. apply eq_true_iff_eq. unfold is_ipv4_in_cidr.
  destruct (Z.eqb_spec prefix_len 0) as [->|H0].
  - rewrite !Z.land_0_r. change (2 ^ (32 - 0)) with (2 ^ 32). by rewrite !Z.div_small by lia.
  - rewrite !land_mask, !Z.eqb_eq, <- !Z.shiftr_div_pow2 by lia. split; [|by intros ->].
    intros H. apply (f_equal (fun z => Z.shiftr z (32 - prefix_len))) in H.
    by rewrite !Z.shiftr_shiftl_l, Z.sub_diag, !Z.shiftl_0_r in H by lia.
Qed.

(** An address is in a CIDR block exactly when its first [prefix_len] bits
    are those of the network address, for every prefix length up to 32. *)
Theorem is_ipv4_in_cidr_spec ip net prefix_len :
  0 <= ip < 2 ^ 32 -> 0 <= net < 2 ^ 32 -> 0 <= prefix_len <= 32 ->
  is_ipv4_in_cidr ip net prefix_len = true
  <-> ip / 2 ^ (32 - prefix_len) = net / 2 ^ (32 - prefix_len).
Proof. intros. by rewrite is_ipv4_in_cidr_eq, Z.eqb_eq. Qed.

Lemma is_ipv4_in_cidr_spec_witness :
  is_ipv4_in_cidr (v4_bits xac x10 x00 x00) (v4_bits xac x1f xff xff) 12 = true
  <-> v4_bits xac x10 x00 x00 / 2 ^ (32 - 12) = v4_bits xac x1f xff xff / 2 ^ (32 - 12).
Proof.
  apply (is_ipv4_in_cidr_spec (v4_bits xac x10 x00 x00) (v4_bits xac x1f xff xff) 12);
    by vm_compute.
Defined.

(** ** What the filter lets through *)

Section Soundness.
Context (resolve : list byte -> Z -> option (list IpAddr)).
Context (domains : Blocklist.State) (blocked_ranges : list (list byte)).

(** The address a host stands for: a literal, a bracketed literal, or the
    first answer of the resolver *)
Definition target (host : list byte) (port : Z) : option IpAddr :=
  match parse_ip host with
  | Some ip => Some ip
  | None =>
      match (inner ← bracketed host; parse_ip inner) with
      | Some ip => Some ip
      | None => addrs ← resolve host port; head addrs
      end
  end.

(** A host name neither list refuses *)
Definition name_allowed (host : list byte) : Prop :=
  to_ascii_lowercase host ∉ BLOCKED_HOSTNAMES /\ is_domain_blocked domains host = false.

Lemma is_domain_blocked_lower host :
  is_domain_blocked domains (to_ascii_lowercase host) = is_domain_blocked domains host.
Proof. unfold is_domain_blocked. by rewrite to_ascii_lowercase_idem. Qed.

Lemma check_ip_spec ip :
  match check_ip blocked_ranges ip with
  | Ok ip' => ip' = ip /\ ip_is_blocked ip blocked_ranges = false
  | Err e => (exists h, e = BlockedHost h) /\ ip_is_blocked ip blocked_ranges = true
  | _ => False
  end.
Proof. unfold check_ip. destruct (ip_is_blocked ip blocked_ranges); eauto. Qed.

(** The outcome of [resolve_and_pin], as a decision on the name and the target *)
Lemma resolve_and_pin_cases host port :
  match resolve_and_pin resolve domains blocked_ranges host port with
  | Ok ip => name_allowed host /\ target host port = Some ip
             /\ ip_is_blocked ip blocked_ranges = false
  | Err (BlockedHost _) => ~ name_allowed host \/
      exists ip, target host port = Some ip /\ ip_is_blocked ip blocked_ranges = true
  | Err (UnresolvableHost h) => h = host /\ name_allowed host /\ target host port = None
  | _ => False
  end.
Proof.
  unfold resolve_and_pin, target, name_allowed. rewrite is_domain_blocked_lower.
  case_bool_decide as Hn; [naive_solver|].
  destruct (is_domain_blocked domains host); [naive_solver|].
  destruct (parse_ip host) as [ip|].
  { pose proof (check_ip_spec ip) as H. destruct (check_ip _ _) as [|[]| |]; naive_solver. }
  destruct (inner ← bracketed host; parse_ip inner) as [ip|].
  { pose proof (check_ip_spec ip) as H. destruct (check_ip _ _) as [|[]| |]; naive_solver. }
  destruct (resolve host port) as [[|ip rest]|]; cbn; [done| |done].
  destruct (ip_is_blocked ip blocked_ranges) eqn:E; eauto 10.
Qed.

(** C4: [resolve_and_pin] returns an address exactly when the name is on neither
    block list, the host denotes that address (as a literal, a bracketed
    literal or the first DNS answer) and the address is outside every blocked
    range; it never panics. *)
Theorem resolve_and_pin_spec host port ip :
  resolve_and_pin resolve domains blocked_ranges host port = Ok ip
  <-> name_allowed host /\ target host port = Some ip
      /\ ip_is_blocked ip blocked_ranges = false.
Proof.
  pose proof (resolve_and_pin_cases host port) as H.
  destruct (resolve_and_pin _ _ _ host port) as [ip'|e| |]; [|..|done|done].
  - destruct H as (Hn & Ht & Hb). split; [by intros [= <-]|]. rewrite Ht. by intros (_ & [= ->] & _).
  - split; [done|]. intros (Hn & Ht & Hb). destruct e as [|h|h|]; [done| | |done].
    + destruct H as [H|(i & Hi & Hi')]; [done|]. rewrite Ht in Hi. injection Hi as ->. congruence.
    + destruct H as (_ & _ & H). congruence.
Qed.

Lemma check_all_spec name addrs :
  match check_all blocked_ranges name addrs with
  | Ok _ => forall ip, ip ∈ addrs -> ip_is_blocked ip blocked_ranges = false
  | Err e => (exists h, e = BlockedHost h)
             /\ exists ip, ip ∈ addrs /\ ip_is_blocked ip blocked_ranges = true
  | _ => False
  end.
Proof.
  induction addrs as [|ip addrs IH]; simpl; [by intros ? ?%elem_of_nil|].
  destruct (ip_is_blocked ip blocked_ranges) eqn:E.
  - split; [eauto|]. exists ip. split; [by left|done].
  - destruct (check_all _ name addrs); [|..|done|done].
    + by intros ? [->|?]%elem_of_cons; auto.
    + destruct IH as [He (i & Hi & Hb)]. split; [done|]. exists i. split; [by right|done].
Qed.

Lemma validate_url_returns url_parse url :
  returns (validate_url resolve domains blocked_ranges url_parse url).
Proof.
  unfold validate_url, check_ip. destruct (url_parse url) as [u|]; cbn; [|done].
  destruct (negb _); [done|]. destruct (host u) as [[name|a b c d|o]|]; cbn; [| | |done].
  - case_bool_decide; [done|]. destruct (is_domain_blocked _ _); [done|].
    destruct (resolve name _) as [addrs|]; cbn; [|done].
    pose proof (check_all_spec name addrs). by destruct (check_all _ name addrs).
  - by destruct (ipv4_is_blocked _ _).
  - by destruct (ipv6_is_blocked _ _).
Qed.

Lemma web_scheme s :
  (bool_decide (s = bs "http") || bool_decide (s = bs "https"))
  = bool_decide (s ∈ [bs "http"; bs "https"]).
Proof.
  apply eq_true_iff_eq.
  rewrite orb_true_iff, !bool_decide_eq_true, !elem_of_cons, elem_of_nil. tauto.
Qed.

(** [validate_url] accepts a URL exactly when it parses, is http or https,
    has a host, and either its literal address is unblocked, or its name is on
    neither list and resolves to unblocked addresses only. *)
Theorem validate_url_spec url_parse url :
  validate_url resolve domains blocked_ranges url_parse url = Ok tt
  <-> exists u h, url_parse url = Some u /\ scheme u ∈ [bs "http"; bs "https"] /\ host u = Some h
      /\ match h with
         | Domain name => name_allowed name /\
             exists addrs, resolve name (default 80 (port_or_known_default u)) = Some addrs
               /\ forall ip, ip ∈ addrs -> ip_is_blocked ip blocked_ranges = false
         | Ipv4 a b c d => ip_is_blocked (V4 a b c d) blocked_ranges = false
         | Ipv6 o => ip_is_blocked (V6 o) blocked_ranges = false
         end.
Proof.
  unfold validate_url, name_allowed.
  destruct (url_parse url) as [u|]; cbn; [|by split; [|intros (? & ? & ? & _)]].
  rewrite web_scheme. case_bool_decide as Hs; cbn; [|naive_solver].
  destruct (host u) as [h|] eqn:Hh; cbn; [|naive_solver].
  transitivity (match h with
         | Domain name => name_allowed name /\
             exists addrs, resolve name (default 80 (port_or_known_default u)) = Some addrs
               /\ forall ip, ip ∈ addrs -> ip_is_blocked ip blocked_ranges = false
         | Ipv4 a b c d => ip_is_blocked (V4 a b c d) blocked_ranges = false
         | Ipv6 o => ip_is_blocked (V6 o) blocked_ranges = false
         end);
    [|split; [by intros; exists u, h|by intros (u' & h' & Hu & _ & Hh' & H); simplify_eq]].
  destruct h as [name|a b c d|o].
  - unfold name_allowed. rewrite is_domain_blocked_lower.
    case_bool_decide as Hn; [naive_solver|].
    destruct (is_domain_blocked domains name); [naive_solver|].
    destruct (resolve name _) as [addrs|] eqn:Hr; cbn; [|naive_solver].
    pose proof (check_all_spec name addrs) as H.
    destruct (check_all _ name addrs) as [[]| | |]; [by split; eauto 10|..|done|done].
    destruct H as [_ (ip & Hi & Hb)]. split; [done|].
    intros (_ & addrs' & [= <-] & Hall). by rewrite (Hall ip Hi) in Hb.
  - unfold check_ip. by destruct (ip_is_blocked (V4 a b c d) _).
  - unfold check_ip. by destruct (ip_is_blocked (V6 o) _).
Qed.
End Soundness.

(** ** IPv6 addresses that stand for IPv4 ones *)

(** Whatever the configured ranges, an IPv4 address is blocked exactly when
    its IPv4-mapped form is, and when any 6to4 address of it is; unique-local,
    link-local, multicast, loopback, unspecified and discard-only IPv6
    addresses are always blocked. *)
Theorem ipv6_embedding_blocked ranges a b c d :
  (forall tail, length tail = 10%nat ->
     ip_is_blocked (V6 (x20 :: x02 :: a :: b :: c :: d :: tail)) ranges
     = ip_is_blocked (V4 a b c d) ranges)
  /\ ip_is_blocked (V6 (replicate 10 NUL ++ [xff; xff; a; b; c; d])) ranges
     = ip_is_blocked (V4 a b c d) ranges
  /\ (forall x y o,
        (u8 x = 0xfc \/ u8 x = 0xfd \/ u8 x = 0xff \/ (u8 x = 0xfe /\ 0x80 <= u8 y < 0xc0)) ->
        ip_is_blocked (V6 (x :: y :: o)) ranges = true)
  /\ (forall o, length o = 8%nat ->
        ip_is_blocked (V6 (x01 :: replicate 7 NUL ++ o)) ranges = true)
  /\ (forall x, u8 x <= 1 -> ip_is_blocked (V6 (replicate 15 NUL ++ [x])) ranges = true).
Proof.
  split_and!.
  - intros tail Ht. unfold ip_is_blocked, ipv6_is_blocked.
    do 10 (destruct tail as [|? tail]; [done|]). by destruct tail.
  - done.
  - intros x y o Hx. unfold ip_is_blocked, ipv6_is_blocked, v6_is_multicast, octet.
    cbn [nth]. destruct (_ || _ || _)%bool eqn:E; [done|].
    apply orb_false_iff in E as [_ E]. b2p.
    destruct Hx as [->|[->|[Hx|[-> Hy]]]]; [done|done|lia|].
    assert (Z.land (u8 y) 0xc0 = 0x80) as ->; [|done].
    destruct y; first [by vm_compute|exfalso; vm_compute in Hy; destruct Hy; congruence].
  - intros o Ho. do 8 (destruct o as [|? o]; [done|]). by destruct o.
  - intros x Hx. assert (x = x00 \/ x = x01) as [->| ->]; [|done..].
    destruct x; auto; exfalso; vm_compute in Hx; congruence.
Qed.
