(* ===== verification/ServerConfig.v ===== *)
(** * Server configuration ([server/src/config.rs])

    The environment is a function from variable names to values ([env::var],
    [None] when unset or not UTF-8). *)
From Stdlib Require Import ZArith Lia Strings.Byte.
From stdpp Require Import base decidable list gmap.
From S2P Require Import Prelude Bytes Numbers External NetAddr Blocklist Filter.

Definition Env : Type := list byte -> option (list byte).

Section Parsing.
Context `{UnicodeCase}.
Variable env : Env.

Definition parse_env_u16 (key : list byte) (dflt : Z) : Z :=
  default dflt (v ← env key; parse_unsigned 65535 v).
Definition parse_env_u32 (key : list byte) (dflt : Z) : Z :=
  default dflt (v ← env key; parse_unsigned u32_max v).
Definition parse_env_u64 (key : list byte) (dflt : Z) : Z :=
  default dflt (v ← env key; parse_unsigned u64_max v).
Definition parse_env_i32 (key : list byte) (dflt : Z) : Z :=
  default dflt (v ← env key; parse_signed i32_min i32_max v).
Definition parse_env_bool (key : list byte) (dflt : bool) : bool :=
  default dflt
    (v ← env key;
     let v := to_lowercase v in
     if bool_decide (v ∈ [bs "true"; bs "1"; bs "yes"; bs "on"]) then Some true
     else if bool_decide (v ∈ [bs "false"; bs "0"; bs "no"; bs "off"]) then Some false
     else None).
Definition parse_env_vec (key : list byte) (dflt : list (list byte)) : list (list byte) :=
  default dflt
    ((fun v => List.filter (fun s => negb (bool_decide (s = []))) (map trim (split_on ","%byte v)))
     <$> env key).

Definition DEFAULT_BLOCKED_RANGES : list (list byte) :=
  Eval vm_compute in
    [bs "0.0.0.0/8"; bs "127.0.0.0/8"; bs "10.0.0.0/8"; bs "172.16.0.0/12";
     bs "192.168.0.0/16"; bs "169.254.0.0/16"].

Record Config : Type := mkConfig {
  listen_port : Z;
  portal_url : list byte;
  idle_timeout_minutes : Z;
  brotli_quality : Z;
  blocked_ranges : list (list byte);
  blocklist_urls : list (list byte);
  blocklist_refresh_hours : Z;
  blocklist_enabled : bool;
  allowed_callsigns : list (list byte);
  origin_cc_head_timeout_ms : Z;
  default_max_age_seconds : Z;
  max_max_age_seconds : Z }.

(** [Config::from_env] *)
Definition from_env : Config := {|
  listen_port := parse_env_u16 (bs "LISTEN_PORT") 63004;
  portal_url := default (bs "https://www.zeroretries.radio") (env (bs "PORTAL_URL"));
  idle_timeout_minutes := parse_env_u64 (bs "IDLE_TIMEOUT_MINUTES") 10;
  brotli_quality := parse_env_u32 (bs "BROTLI_QUALITY") 11;
  blocked_ranges := parse_env_vec (bs "BLOCKED_RANGES") DEFAULT_BLOCKED_RANGES;
  blocklist_urls := parse_env_vec (bs "BLOCKLIST_URLS") [];
  blocklist_refresh_hours := parse_env_u64 (bs "BLOCKLIST_REFRESH_HOURS") 24;
  blocklist_enabled := parse_env_bool (bs "BLOCKLIST_ENABLED") true;
  allowed_callsigns := map to_uppercase (parse_env_vec (bs "ALLOWED_CALLSIGNS") []);
  origin_cc_head_timeout_ms := parse_env_u64 (bs "ORIGIN_CC_HEAD_TIMEOUT_MS") 3000;
  default_max_age_seconds := parse_env_i32 (bs "DEFAULT_MAX_AGE_SECONDS") 3600;
  max_max_age_seconds := parse_env_i32 (bs "MAX_MAX_AGE_SECONDS") 2592000 |}.
End Parsing.

(** ** The default ranges are the internal networks *)

Definition internal_v4 (a b c d : byte) : bool :=
  (u8 a =? 0) || (u8 a =? 127) || (u8 a =? 10)
  || (u8 a =? 172) && (16 <=? u8 b) && (u8 b <=? 31)
  || (u8 a =? 192) && (u8 b =? 168)
  || (u8 a =? 169) && (u8 b =? 254).

(** The quotients the six prefixes compare *)
Lemma v4_bits_quotients a b c d :
  v4_bits a b c d / 2 ^ 24 = u8 a
  /\ v4_bits a b c d / 2 ^ 20 = u8 a * 16 + u8 b / 16
  /\ v4_bits a b c d / 2 ^ 16 = u8 a * 256 + u8 b.
Proof.
  unfold v4_bits, from_be_bytes. pose proof (u8_range a). pose proof (u8_range b).
  pose proof (u8_range c). pose proof (u8_range d).
  split_and!; Z.to_euclidean_division_equations; lia.
Qed.

Definition DEFAULT_CIDRS : list (Z * Z) :=
  [(0, 8); (127 * 2 ^ 24, 8); (10 * 2 ^ 24, 8); (172 * 2 ^ 24 + 16 * 2 ^ 16, 12);
   (192 * 2 ^ 24 + 168 * 2 ^ 16, 16); (169 * 2 ^ 24 + 254 * 2 ^ 16, 16)].

Lemma default_ranges_parse : map parse_cidr DEFAULT_BLOCKED_RANGES = map Some DEFAULT_CIDRS.
Proof. by vm_compute. Qed.

(** Checking ranges that all parse is checking their parsed forms. *)
Lemma ipv4_is_blocked_parsed ip ranges cidrs :
  map parse_cidr ranges = map Some cidrs ->
  ipv4_is_blocked ip ranges
  = existsb (fun '(net, p) => (p <=? 32) && is_ipv4_in_cidr ip net p) cidrs.
Proof.
  revert cidrs. induction ranges as [|r ranges IH]; intros [|[net p] cidrs] H; try done.
  cbn [map] in H. injection H as Hr H. unfold ipv4_is_blocked in *. cbn [existsb].
  by rewrite Hr, (IH _ H).
Qed.

Lemma default_ranges_ipv4 a b c d :
  ipv4_is_blocked (v4_bits a b c d) DEFAULT_BLOCKED_RANGES = internal_v4 a b c d.
Proof.
  rewrite (ipv4_is_blocked_parsed _ _ _ default_ranges_parse).
  pose proof (from_be_bytes_range a b c d) as Hr. fold (v4_bits a b c d) in Hr.
  destruct (v4_bits_quotients a b c d) as (H8 & H12 & H16).
  unfold DEFAULT_CIDRS. cbn [existsb].
  rewrite !is_ipv4_in_cidr_eq by lia.
  change (32 - 8) with 24. change (32 - 12) with 20. change (32 - 16) with 16.
  rewrite H8, H12, H16. unfold internal_v4.
  pose proof (u8_range a). pose proof (u8_range b).
  rewrite orb_false_r, !orb_assoc.
  repeat match goal with |- (_ || _)%bool = (_ || _)%bool => f_equal end;
    apply eq_true_iff_eq; rewrite ?andb_true_iff, ?Z.eqb_eq, ?Z.leb_le; cbn;
    Z.to_euclidean_division_equations; lia.
Qed.

(** With no [BLOCKED_RANGES] in the environment the filter refuses, among
    IPv4 addresses, exactly the internal ones (0/8, 10/8, 127/8, 172.16/12,
    192.168/16, 169.254/16), and the IPv6 forms that embed them. *)
Theorem default_ranges_internal `{UnicodeCase} (env : Env) a b c d :
  env (bs "BLOCKED_RANGES") = None ->
  ip_is_blocked (V4 a b c d) (blocked_ranges (from_env env)) = internal_v4 a b c d
  /\ ip_is_blocked (V6 (replicate 10 NUL ++ [xff; xff; a; b; c; d]))
       (blocked_ranges (from_env env)) = internal_v4 a b c d.
Proof.
  intros He. unfold from_env, blocked_ranges, parse_env_vec. rewrite He. cbn [default].
  split; apply default_ranges_ipv4.
Qed.

Lemma default_ranges_internal_witness :
  ip_is_blocked (V4 xac x1f x00 x01) (blocked_ranges (@from_env Toy.unicode (fun _ => None)))
    = internal_v4 xac x1f x00 x01
  /\ ip_is_blocked (V6 (replicate 10 NUL ++ [xff; xff; xac; x1f; x00; x01]))
       (blocked_ranges (@from_env Toy.unicode (fun _ => None))) = internal_v4 xac x1f x00 x01.
Proof.
  apply (@default_ranges_internal Toy.unicode (fun _ => None) xac x1f x00 x01). reflexivity.
Defined.

(** ** Every field is a value of its type *)

(** Whatever the environment holds, reading the configuration succeeds with
    each integer in the range of its Rust type and no empty list entry. *)
Theorem from_env_typed `{UnicodeCase} (env : Env) :
  let c := from_env env in
  0 <= listen_port c <= 65535 /\ 0 <= idle_timeout_minutes c <= u64_max
  /\ 0 <= brotli_quality c <= u32_max /\ 0 <= blocklist_refresh_hours c <= u64_max
  /\ 0 <= origin_cc_head_timeout_ms c <= u64_max
  /\ i32_min <= default_max_age_seconds c <= i32_max
  /\ i32_min <= max_max_age_seconds c <= i32_max
  /\ [] ∉ blocked_ranges c /\ [] ∉ blocklist_urls c.
Proof.
  assert (Hvec : forall key dflt, [] ∉ dflt -> [] ∉ parse_env_vec env key dflt).
  { intros key dflt Hd. unfold parse_env_vec. destruct (env key) as [v|]; [|done]. simpl.
    rewrite list_elem_of_In, filter_In. intros [_ Hn]. by rewrite bool_decide_true in Hn. }
  split_and!; try (by apply parsed_unsigned_bound); try (by apply parsed_signed_bound);
    apply Hvec; apply (bool_decide_unpack _); by vm_compute.
Qed.
