(* ===== verification/ServerProxy.v ===== *)
(** * The filtering forward proxy ([server/src/proxy.rs])

    What the proxy does with one request of the browser: the checks, the
    outbound connection and the rewritten request, as a computation that logs
    its network actions.  hyper's [Uri] is the record of its accessors; header
    names are in the lower-case form [HeaderName] keeps. *)
From Stdlib Require Import ZArith Lia Strings.Byte.
From stdpp Require Import base decidable list gmap.
From S2P Require Import Prelude Bytes Numbers NetAddr Blocklist Filter.

Record Uri : Type := mkUri {
  scheme_str : option (list byte);
  uri_host : option (list byte);
  port_u16 : option Z;
  authority : option (list byte);
  path_and_query : option (list byte) }.

Definition HeaderMap : Type := list (list byte * list byte).

Record HttpRequest : Type := mkRequest {
  is_connect : bool;
  uri : Uri;
  headers : HeaderMap;
  body : list byte }.

Record HttpResponse : Type := mkResponse {
  code : Z;
  resp_headers : HeaderMap;
  resp_body : list byte }.

(** What reaches the network: a connection attempt, a forwarded request, the
    write of bytes into a tunnel (all of them, or a part when it fails) and the
    start of splicing *)
Inductive Action : Type :=
| Connect (ip : IpAddr) (port : Z)
| Forward (req : HttpRequest)
| WriteUpstream (data : list byte)
| Splice.

Inductive ConnectOutcome : Type :=
| Connected
| ConnectTimeout
| ConnectFailed (msg : list byte).

(** The outcomes of the calls into hyper and tokio *)
Record Net : Type := mkNet {
  connect : IpAddr -> Z -> ConnectOutcome;
  handshake : list byte + unit;
  send_request : HttpRequest -> list byte + HttpResponse;
  (** [Uri::builder().path_and_query(p).build()], [host.parse::<HeaderValue>()] *)
  build_uri : list byte -> list byte + Uri;
  header_value : list byte -> list byte + list byte;
  (** [hyper::upgrade::on]: the buffered bytes once the upgrade lands, [None]
      when the downcast fails *)
  upgrade : list byte + option (list byte);
  (** [upstream.write_all(..)], [tokio::io::copy_bidirectional(..)] *)
  write_all : list byte -> list byte + unit;
  copy_bidirectional : list byte + unit }.

(** ** Responses and headers *)

Definition empty_response (c : Z) : HttpResponse := mkResponse c [] [].
Definition error_response (err : UrlError) : HttpResponse :=
  mkResponse 403 [] (bs "packet-browser proxy: " ++ display_url_error err ++ [LF]).

Definition header_remove (name : list byte) (h : HeaderMap) : HeaderMap :=
  List.filter (fun kv => negb (bool_decide (kv.1 = name))) h.
(** [HeaderMap::insert]: the value replaces every earlier one *)
Definition header_insert (name value : list byte) (h : HeaderMap) : HeaderMap :=
  header_remove name h ++ [(name, value)].

Definition HOP_BY_HOP : list (list byte) :=
  Eval vm_compute in
    [bs "connection"; bs "proxy-connection"; bs "keep-alive"; bs "transfer-encoding";
     bs "te"; bs "trailer"; bs "upgrade"; bs "proxy-authenticate"; bs "proxy-authorization"].

Definition remove_hop_by_hop (h : HeaderMap) : HeaderMap :=
  fold_left (fun h name => header_remove name h) HOP_BY_HOP h.

Definition HOST : list byte := Eval vm_compute in bs "host".

Inductive ForwardError : Type :=
| Blocked (e : UrlError)
| BadRequest
| Upstream (msg : list byte).

Section Proxy.
Variable net : Net.
Variable resolve : list byte -> Z -> option (list IpAddr).
Variable domains : Blocklist.State.
Variable blocked : list (list byte).

Definition host_header (host : list byte) (port : Z) : list byte :=
  if port =? 80 then host else host ++ bs ":" ++ display port.

Definition is_bracket (c b : byte) : bool := Byte.eqb b c.

Definition handle_connect (req : HttpRequest) : Result UrlError (list byte * Z * IpAddr) :=
  auth ← ok_or InvalidUrl (authority (uri req));
  '(host, port_str) ← ok_or InvalidUrl (rsplit_once ":"%byte auth);
  port ← ok_or InvalidUrl (parse_unsigned 65535 port_str);
  if negb (port =? 443) && negb (port =? 80)
  then Err (BlockedProtocol (bs "CONNECT :" ++ display port))
  else
    let host_clean :=
      trim_end_matches (is_bracket "]"%byte) (trim_start_matches (is_bracket "["%byte) host) in
    pinned ← resolve_and_pin resolve domains blocked host_clean port;
    Ok (host, port, pinned).

(** The connection with its timeout, and the attempt logged *)
Definition tcp_connect (ip : IpAddr) (port : Z) : M (list Action) (list byte) unit :=
  _ ← log (Connect ip port);
  match connect net ip port with
  | Connected => mret tt
  | ConnectTimeout => throw (bs "connect timeout")
  | ConnectFailed e => throw e
  end.

(** [tunnel] *)
Definition tunnel (upgraded : option (list byte)) (ip : IpAddr) (port : Z)
    : M (list Action) (list byte) unit :=
  _ ← tcp_connect ip port;
  read_buf ← lift (ok_or (bs "upgrade downcast failed") upgraded);
  _ ← (if bool_decide (read_buf = []) then mret tt
       else (_ ← log (WriteUpstream read_buf); lift (of_sum (write_all net read_buf))));
  _ ← log Splice;
  lift (of_sum (copy_bidirectional net)).

Definition forward_http (req : HttpRequest) : M (list Action) ForwardError HttpResponse :=
  let u := uri req in
  scheme ← lift (ok_or BadRequest (scheme_str u));
  if negb (bool_decide (scheme = bs "http")) then throw (Blocked (BlockedProtocol scheme))
  else
    host ← lift (ok_or BadRequest (uri_host u));
    let port := default 80 (port_u16 u) in
    pinned ← lift (map_err Blocked (resolve_and_pin resolve domains blocked host port));
    _ ← mapE Upstream (tcp_connect pinned port);
    _ ← lift (map_err Upstream (of_sum (handshake net)));
    let p := default (bs "/") (path_and_query u) in
    new_uri ← lift (map_err Upstream (of_sum (build_uri net p)));
    value ← lift (map_err Upstream (of_sum (header_value net (host_header host port))));
    let h := remove_hop_by_hop (header_insert HOST value (headers req)) in
    let outbound := mkRequest (is_connect req) new_uri h (body req) in
    _ ← log (Forward outbound);
    lift (map_err Upstream (of_sum (send_request net outbound))).

(** [handle]: always a response; for CONNECT the spawned tunnel runs after it *)
Definition handle (req : HttpRequest) : M (list Action) (list byte) HttpResponse :=
  if is_connect req then
    match handle_connect req with
    | Ok (_host, port, pinned_ip) =>
        _ ← ignore (upgraded ← lift (of_sum (upgrade net)); tunnel upgraded pinned_ip port);
        mret (empty_response 200)
    | Err e => mret (error_response e)
    | Panic => lift Panic
    | Spin => lift Spin
    end
  else
    catch (forward_http req) (fun r =>
      match r with
      | inr resp => mret resp
      | inl (Blocked e) => mret (error_response e)
      | inl BadRequest => mret (empty_response 400)
      | inl (Upstream _) => mret (empty_response 502)
      end).
End Proxy.

(** ** What the proxy may do *)

Section Safety.
Context (net : Net) (resolve : list byte -> Z -> option (list IpAddr)).
Context (domains : Blocklist.State) (blocked : list (list byte)).

(** The actions the policy allows for a request: connections to the pinned,
    unblocked address of an allowed name, and forwarded requests that differ
    from the original in their target, a single [Host] and the hop-by-hop
    headers only *)
Definition permitted (req : HttpRequest) (a : Action) : Prop :=
  match a with
  | Connect ip port =>
      ip_is_blocked ip blocked = false
      /\ (exists host, name_allowed domains host /\ target resolve host port = Some ip)
      /\ (is_connect req = true -> port = 443 \/ port = 80)
  | Forward out =>
      is_connect out = is_connect req /\ body out = body req
      /\ exists host v, uri_host (uri req) = Some host
         /\ header_value net (host_header host (default 80 (port_u16 (uri req)))) = inr v
         /\ List.filter (fun kv => bool_decide (kv.1 = HOST)) (headers out) = [(HOST, v)]
         /\ forall kv, kv.1 <> HOST ->
              kv ∈ headers out <-> kv ∈ headers req /\ kv.1 ∉ HOP_BY_HOP
  | WriteUpstream _ | Splice => is_connect req = true
  end.

Lemma tcp_connect_emits P ip port : P (Connect ip port) -> emits (fun t => t) P (tcp_connect net ip port).
Proof.
  intros HP. unfold tcp_connect. apply emits_bind; [by apply emits_log|]. intros _ [] _.
  destruct (connect net ip port); auto with emits.
Qed.

Lemma remove_hop_by_hop_spec kv h :
  kv ∈ remove_hop_by_hop h <-> kv ∈ h /\ kv.1 ∉ HOP_BY_HOP.
Proof.
  unfold remove_hop_by_hop. generalize HOP_BY_HOP. intros names.
  revert h. induction names as [|n names IH]; intros h; simpl.
  { split; [|by intros []]. intros. split; [done|apply not_elem_of_nil]. }
  rewrite IH, not_elem_of_cons. unfold header_remove.
  rewrite !list_elem_of_In, filter_In, negb_true_iff, bool_decide_eq_false. tauto.
Qed.

Lemma forwarded_headers v h :
  let out := remove_hop_by_hop (header_insert HOST v h) in
  List.filter (fun kv => bool_decide (kv.1 = HOST)) out = [(HOST, v)]
  /\ forall kv, kv.1 <> HOST -> kv ∈ out <-> kv ∈ h /\ kv.1 ∉ HOP_BY_HOP.
Proof.
  split.
  - unfold remove_hop_by_hop, header_insert.
    assert (Hn : forall n, n ∈ HOP_BY_HOP -> n <> HOST).
    { apply Forall_forall. apply (bool_decide_unpack _). by vm_compute. }
    assert (H0 : List.filter (fun kv => bool_decide (kv.1 = HOST)) (header_remove HOST h) = []).
    { unfold header_remove. induction h as [|kv h IH]; simpl; [done|].
      case_bool_decide; simpl; [done|]. by rewrite bool_decide_false. }
    assert (H1 : List.filter (fun kv => bool_decide (kv.1 = HOST))
                   (header_remove HOST h ++ [(HOST, v)]) = [(HOST, v)]).
    { by rewrite List.filter_app, H0. }
    revert H1. generalize (header_remove HOST h ++ [(HOST, v)]). clear H0.
    induction HOP_BY_HOP as [|n names IH]; intros l Hl; simpl; [done|].
    apply IH; [intros ? ?; apply Hn; by right|]. rewrite <- Hl. clear Hl.
    induction l as [|kv l IHl]; simpl; [done|].
    case_bool_decide as Hk; simpl; rewrite IHl; [|done].
    rewrite bool_decide_false; [done|]. rewrite Hk. apply Hn. by left.
  - intros kv Hk. rewrite remove_hop_by_hop_spec. unfold header_insert, header_remove.
    rewrite elem_of_app, list_elem_of_singleton, !list_elem_of_In, filter_In,
      negb_true_iff, bool_decide_eq_false.
    split; [intros [[[]|Hkv] ?]; [done|by subst]|tauto].
Qed.

Lemma forward_http_emits req :
  is_connect req = false ->
  emits (fun t => t) (permitted req) (forward_http net resolve domains blocked req).
Proof.
  intros Hc. unfold forward_http. apply emits_bind; [auto with emits|]. intros ? scheme _.
  destruct (negb _); [auto with emits|].
  apply emits_bind; [auto with emits|]. intros t0 host Hhost.
  apply emits_bind; [auto with emits|]. intros t1 ip Hpin.
  pose proof (resolve_and_pin_cases resolve domains blocked host
    (default 80 (port_u16 (uri req)))) as Hcases.
  unfold lift in Hpin. cbn in Hpin.
  destruct (resolve_and_pin _ _ _ host _) as [ip'| | |]; try done. injection Hpin as ->.
  destruct Hcases as (Hn & Ht & Hb).
  apply emits_bind.
  { apply emits_mapE, tcp_connect_emits. simpl. rewrite Hc. split_and!; eauto. done. }
  intros _ _ _. apply emits_bind; [auto with emits|]. intros _ _ _.
  apply emits_bind; [auto with emits|]. intros _ u' _.
  apply emits_bind; [auto with emits|]. intros t2 v Hv.
  apply emits_bind; [|auto with emits].
  apply emits_log. simpl. split; [done|]. split; [done|]. exists host, v.
  unfold lift in Hhost, Hv. cbn in Hhost, Hv.
  destruct (uri_host (uri req)); [|done]. injection Hhost as ->.
  destruct (header_value _ _); [done|]. injection Hv as ->.
  split; [done|]. split; [done|]. apply forwarded_headers.
Qed.

Lemma handle_connect_ok req host port ip :
  handle_connect resolve domains blocked req = Ok (host, port, ip) ->
  permitted req (Connect ip port).
Proof.
  unfold handle_connect. destruct (authority _) as [auth|]; cbn; [|done].
  destruct (rsplit_once _ auth) as [[h port_str]|]; cbn; [|done].
  destruct (parse_unsigned _ port_str) as [p|]; cbn; [|done].
  destruct (negb _ && _)%bool eqn:Hp; [done|].
  set (hc := trim_end_matches _ _).
  pose proof (resolve_and_pin_cases resolve domains blocked hc p) as Hcases.
  destruct (resolve_and_pin _ _ _ hc p) as [ip'| | |]; try done. cbn. intros [= -> -> ->].
  destruct Hcases as (Hn & Ht & Hb). split; [done|]. split; [eauto|]. intros _.
  apply andb_false_iff in Hp as [Hp|Hp]; apply negb_false_iff, Z.eqb_eq in Hp; auto.
Qed.

Lemma handle_connect_returns req : returns (handle_connect resolve domains blocked req).
Proof.
  unfold handle_connect. destruct (authority _) as [auth|]; cbn; [|done].
  destruct (rsplit_once _ auth) as [[h port_str]|]; cbn; [|done].
  destruct (parse_unsigned _ port_str) as [p|]; cbn; [|done].
  destruct (negb _ && _)%bool; [done|]. set (hc := trim_end_matches _ _).
  pose proof (resolve_and_pin_cases resolve domains blocked hc p).
  by destruct (resolve_and_pin _ _ _ hc p).
Qed.

Lemma tcp_connect_total ip port : total (tcp_connect net ip port).
Proof.
  unfold tcp_connect. apply total_bind; [done|]. intros []. by destruct (connect net ip port).
Qed.

Lemma forward_http_total req : total (forward_http net resolve domains blocked req).
Proof.
  unfold forward_http. apply total_bind; [auto with total|]. intros scheme.
  destruct (negb _); [done|]. apply total_bind; [auto with total|]. intros host.
  apply total_bind.
  { apply total_lift, returns_map_err.
    pose proof (resolve_and_pin_cases resolve domains blocked host
      (default 80 (port_u16 (uri req)))).
    by destruct (resolve_and_pin _ _ _ host _). }
  intros ip. apply total_bind; [apply total_mapE, tcp_connect_total|].
  auto 15 with total.
Qed.

Lemma tunnel_total upgraded ip port : total (tunnel net upgraded ip port).
Proof.
  unfold tunnel. apply total_bind; [apply tcp_connect_total|]. intros _.
  apply total_bind; [auto with total|]. intros rb.
  apply total_bind; [case_bool_decide|]; auto with total.
Qed.

Lemma handle_succeeds req : succeeds (handle net resolve domains blocked req).
Proof.
  unfold handle. destruct (is_connect req).
  - pose proof (handle_connect_returns req) as Hr.
    destruct (handle_connect _ _ _ req) as [[[host port] ip]|e| |]; try done; auto with total.
    apply succeeds_bind; [|auto with total]. apply succeeds_ignore.
    apply total_bind; [auto with total|]. intros. apply tunnel_total.
  - apply succeeds_catch; [apply forward_http_total|]. intros [[| |]|]; auto with total.
Qed.

Lemma handle_emits req : emits (fun t => t) (permitted req) (handle net resolve domains blocked req).
Proof.
  unfold handle. destruct (is_connect req) eqn:Hc.
  - destruct (handle_connect _ _ _ req) as [[[host port] ip]| | |] eqn:Hh; auto with emits.
    apply handle_connect_ok in Hh.
    apply emits_bind; [|auto with emits]. apply emits_ignore.
    apply emits_bind; [auto with emits|]. intros _ up _. unfold tunnel.
    apply emits_bind; [by apply tcp_connect_emits|]. intros _ _ _.
    apply emits_bind; [auto with emits|]. intros _ rb _.
    apply emits_bind.
    { case_bool_decide; [auto with emits|]. apply emits_bind; auto with emits. }
    intros _ _ _. apply emits_bind; [by apply emits_log|]. auto with emits.
  - apply emits_catch; [by apply forward_http_emits|]. intros [[| |]|]; auto with emits.
Qed.

(** C3: whatever request reaches the proxy, every connection it attempts is to
    the address pinned by one name resolution, outside the blocked ranges and
    under an allowed name; a CONNECT reaches only ports 443 and 80; and a
    forwarded request keeps method and body, carries exactly one [Host] header
    and no hop-by-hop header.  The browser always gets a response. *)
Theorem handle_permitted req t :
  let '(r, t') := handle net resolve domains blocked req t in
  (exists resp, r = Ok resp) /\ exists tail, t' = t ++ tail /\ Forall (permitted req) tail.
Proof.
  pose proof (handle_succeeds req t) as Hs. pose proof (handle_emits req t) as He.
  by destruct (handle _ _ _ _ req t).
Qed.
End Safety.
