(* ===== verification/OriginCC.v ===== *)
(** * Origin cache directives ([server/src/origin_cc.rs])

    The freshness lifetime the server announces with a page, from the origin's
    [Cache-Control], [Expires] and [Date] headers. *)
From Stdlib Require Import ZArith Lia Strings.Byte.
From stdpp Require Import base decidable list gmap.
From S2P Require Import Prelude Bytes Numbers External ServerConfig.

Record CcDefaults : Type := mkCcDefaults {
  default_max_age : Z;
  max_max_age : Z }.

Definition tokens (cc : list byte) : list (list byte) :=
  map trim (split_on ","%byte (to_ascii_lowercase cc)).

(** [tokens.iter().find_map(|t| t.strip_prefix(name)).and_then(parse::<i64>)]:
    the first directive with that name, a number or not *)
Definition seconds_of (name : list byte) (ts : list (list byte)) : option Z :=
  v ← head (omap (strip_prefix name) ts); parse_signed i64_min i64_max v.

(** [i64::clamp]: an assertion when the bounds are out of order *)
Definition clamp {E} (n lo hi : Z) : Result E Z :=
  if hi <? lo then Panic else Ok (Z.min (Z.max n lo) hi).

Section Parse.
(** [httpdate::parse_http_date], in seconds since the epoch *)
Variable parse_http_date : list byte -> option Z.

(** The [Cache-Control] branch of [parse_cache_control] *)
Definition from_cache_control (cc : list byte) (defaults : CcDefaults)
    : Result (list byte) Z :=
  let ts := tokens cc in
  if existsb (fun t => bool_decide (t = bs "no-store") || bool_decide (t = bs "private")) ts
  then Ok (-1)
  else if existsb (fun t => bool_decide (t = bs "no-cache")) ts then Ok 0
  else
    let s_maxage := seconds_of (bs "s-maxage=") ts in
    let max_age := seconds_of (bs "max-age=") ts in
    match (match s_maxage with Some _ => s_maxage | None => max_age end) with
    | Some secs =>
        clamped ← clamp secs 0 (max_max_age defaults); Ok (as_i32 clamped)
    | None => Ok (default_max_age defaults)
    end.

Definition parse_cache_control (cc expires date : option (list byte)) (defaults : CcDefaults)
    : Result (list byte) Z :=
  match cc with
  | Some cc => from_cache_control cc defaults
  | None =>
      match (exp ← expires; dt ← date;
             exp_ts ← parse_http_date exp; dt_ts ← parse_http_date dt;
             if exp_ts <? dt_ts then None else Some (exp_ts - dt_ts)) with
      | Some secs => Ok (as_i32 (Z.min secs (as_u64 (max_max_age defaults))))
      | None => Ok (default_max_age defaults)
      end
  end.

(** ** The probe *)

Record HttpReply : Type := mkReply {
  reply_status : Z;
  (** a header that [to_str] accepts *)
  reply_header : list byte -> option (list byte) }.

(** The two requests the HTTP client can make, [None] on a transport error *)
Record Prober : Type := mkProber {
  proxy_port : option Z;
  (** [Proxy::all] and [Client::build] both succeed *)
  client_built : bool;
  head_request : list byte -> option HttpReply;
  get_request : list byte -> option HttpReply }.

Definition is_success (s : Z) : bool := (200 <=? s) && (s <? 300).
Definition is_redirection (s : Z) : bool := (300 <=? s) && (s <? 400).

Definition probe_headers (p : Prober) (url : list byte) : option HttpReply :=
  match head_request p url with
  | Some r =>
      if is_success (reply_status r) || is_redirection (reply_status r) then Some r
      else if reply_status r =? 405 then
        match get_request p url with
        | Some r => if is_success (reply_status r) || is_redirection (reply_status r)
                    then Some r else None
        | None => None
        end
      else None
  | None => None
  end.

Definition probe_origin_cc (p : Prober) (url : list byte) (config : Config)
    : Result (list byte) Z :=
  let defaults := mkCcDefaults (default_max_age_seconds config) (max_max_age_seconds config) in
  match proxy_port p with
  | None => Ok (default_max_age defaults)
  | Some _ =>
      if negb (client_built p) then Ok (default_max_age defaults)
      else
        match probe_headers p url with
        | None => Ok (default_max_age defaults)
        | Some r =>
            parse_cache_control (reply_header r (bs "cache-control"))
              (reply_header r (bs "expires")) (reply_header r (bs "date")) defaults
        end
  end.
End Parse.

Example cc_examples :
  map (fun cc => parse_cache_control (fun _ => None) (Some cc) None None
                   (mkCcDefaults 3600 2592000))
    [bs "no-store"; bs "private, max-age=600"; bs "no-cache"; bs "max-age=600";
     bs "s-maxage=60, max-age=600"; bs "max-age=99999999"; bs "bogus!!"]
  = map Ok [-1; -1; 0; 600; 60; 2592000; 3600].
Proof. by vm_compute. Qed.

(** ** Bounds *)

Section Bounds.
Context (parse_http_date : list byte -> option Z).

(** A lifetime the client may rely on: never stored, the default, or within
    the operator's cap *)
Definition lifetime_ok (defaults : CcDefaults) (n : Z) : Prop :=
  n = -1 \/ n = default_max_age defaults \/ 0 <= n <= max_max_age defaults.

Lemma parse_cache_control_ok cc expires date defaults :
  0 <= max_max_age defaults <= i32_max ->
  exists n, parse_cache_control parse_http_date cc expires date defaults = Ok n
            /\ lifetime_ok defaults n.
Proof.
  intros Hmax. unfold parse_cache_control, lifetime_ok, i32_max in *.
  destruct cc as [cc|].
  - unfold from_cache_control. destruct (existsb _ _); [eauto|].
    destruct (existsb _ _); [eauto 6 with lia|].
    destruct (match seconds_of _ _ with Some _ => _ | None => _ end) as [secs|]; [|eauto].
    unfold clamp. destruct (_ <? 0) eqn:E; b2p; [lia|]. cbn.
    eexists. split; [done|]. right; right.
    rewrite as_i32_small; unfold i32_min, i32_max; lia.
  - destruct (mbind _ expires) as [secs|] eqn:E; [|eauto].
    assert (0 <= secs) as Hs.
    { apply bind_Some in E as (? & _ & E). apply bind_Some in E as (? & _ & E).
      apply bind_Some in E as (e & _ & E). apply bind_Some in E as (d & _ & E).
      destruct (e <? d) eqn:Hlt; [done|]. b2p. injection E as <-. lia. }
    eexists. split; [done|]. right; right.
    rewrite as_u64_small by (unfold u64_max; lia).
    rewrite as_i32_small; unfold i32_min, i32_max; lia.
Qed.

(** With a non-negative cap the announced lifetime always exists and is -1
    (do not store), the operator's default or between 0 and the cap, whatever
    the origin sends; a negative cap makes a [max-age] directive panic. *)
Theorem probe_origin_cc_bounded p url config :
  (0 <= max_max_age_seconds config <= i32_max ->
   exists n, probe_origin_cc parse_http_date p url config = Ok n
     /\ lifetime_ok (mkCcDefaults (default_max_age_seconds config)
                       (max_max_age_seconds config)) n)
  /\ (forall defaults, max_max_age defaults < 0 ->
        parse_cache_control parse_http_date (Some (bs "max-age=600")) None None defaults = Panic).
Proof.
  split.
  - intros Hmax. unfold probe_origin_cc.
    destruct (proxy_port p); [|eexists; split; [done|by right; left]].
    destruct (negb _); [eexists; split; [done|by right; left]|].
    destruct (probe_headers p url); [|eexists; split; [done|by right; left]].
    by apply parse_cache_control_ok.
  - intros defaults Hd. unfold parse_cache_control, from_cache_control.
    change (existsb _ _) with false. cbv iota. change (existsb _ _) with false. cbv iota.
    change (seconds_of (bs "s-maxage=") (tokens (bs "max-age=600"))) with (@None Z).
    change (seconds_of (bs "max-age=") (tokens (bs "max-age=600"))) with (Some 600).
    unfold clamp. cbv iota. rewrite (proj2 (Z.ltb_lt _ _) Hd). done.
Qed.
End Bounds.

(** ** Precedence *)

Lemma split_on_comma_lower s :
  split_on ","%byte (to_ascii_lowercase s) = map to_ascii_lowercase (split_on ","%byte s).
Proof.
  induction s as [|b s IH]; [done|]. cbn [to_ascii_lowercase map split_on]. 
  assert (Byte.eqb (lower b) ","%byte = Byte.eqb b ","%byte) as -> by (by destruct b).
  fold to_ascii_lowercase. change (map lower s) with (to_ascii_lowercase s). rewrite IH.
  destruct (Byte.eqb b ","%byte); [done|]. by destruct (split_on ","%byte s).
Qed.

(** A [no-store] or [private] directive, in any position, case and spacing,
    forbids storing whatever else the header says. *)
Theorem no_store_wins parse_http_date pre d post expires date defaults :
  forallb (fun y => negb (Byte.eqb y ","%byte)) d = true ->
  trim (to_ascii_lowercase d) ∈ [bs "no-store"; bs "private"] ->
  parse_cache_control parse_http_date (Some (pre ++ ","%byte :: d ++ ","%byte :: post))
    expires date defaults = Ok (-1).
Proof.
  intros Hd Ht. unfold parse_cache_control, from_cache_control, tokens.
  rewrite split_on_comma_lower, split_on_cat, split_on_app by done.
  rewrite (proj2 (existsb_exists _ _)); [done|].
  exists (trim (to_ascii_lowercase d)). split.
  - rewrite map_app, map_app. apply in_or_app. right. simpl. by left.
  - apply orb_true_iff. rewrite !bool_decide_eq_true.
    rewrite !elem_of_cons, elem_of_nil in Ht. tauto.
Qed.

Lemma no_store_wins_witness :
  parse_cache_control (fun _ => None)
    (Some (bs "max-age=60" ++ ","%byte :: bs " No-Store " ++ ","%byte :: bs "no-cache"))
    None None (mkCcDefaults 3600 86400) = Ok (-1).
Proof.
  apply (no_store_wins (fun _ => None) (bs "max-age=60") (bs " No-Store ") (bs "no-cache"));
    [reflexivity|]. apply (bool_decide_unpack _). vm_compute. exact I.
Defined.
