(* ===== verification/Callsign.v ===== *)
(** * Callsigns and sessions ([server/src/session.rs])

    The callsign pattern as a regular expression over character classes with
    its backtracking matcher, the validation of a connecting station, and the
    session record with its idle clock (milliseconds). *)
From Stdlib Require Import ZArith Lia Strings.Byte.
From stdpp Require Import base decidable list gmap.
From S2P Require Import Prelude Bytes Numbers External.

(** ** Sequences of repeated character classes *)

(** [[class]{lo,hi}] *)
Record Atom : Type := mkAtom { cls : byte -> bool; lo : nat; hi : nat }.

(** Anchored match: each atom takes some number of characters within its bounds *)
Fixpoint is_match (re : list Atom) (s : list byte) : bool :=
  match re with
  | [] => bool_decide (s = [])
  | a :: re' =>
      existsb (fun k => (k <=? length s)%nat && forallb (cls a) (take k s)
                        && is_match re' (drop k s))
        (seq (lo a) (hi a + 1 - lo a))
  end.

(** The strings an expression denotes *)
Inductive matches : list Atom -> list byte -> Prop :=
| matches_nil : matches [] []
| matches_cons a re u v :
    (lo a <= length u <= hi a)%nat -> forallb (cls a) u = true -> matches re v ->
    matches (a :: re) (u ++ v).

Lemma is_match_spec re : forall s, is_match re s = true <-> matches re s.
Proof.
  induction re as [|a re IH]; intros s; simpl.
  - rewrite bool_decide_eq_true. split; [intros ->; constructor|by inversion 1].
  - rewrite existsb_exists. split.
    + intros (k & Hk%in_seq & H). rewrite !andb_true_iff in H. destruct H as [[Hl Hc] Hm].
      b2p. apply IH in Hm. rewrite <- (take_drop k s). constructor; [|done..].
      rewrite length_take. lia.
    + inversion 1 as [|? ? u v Hl Hc Hm]; subst. exists (length u). split.
      { apply in_seq. lia. }
      rewrite length_app, take_app_length, drop_app_length, Hc, (proj2 (IH v) Hm).
      rewrite (proj2 (Nat.leb_le _ _)) by lia. done.
Qed.

(** [^[a-zA-Z0-9]{1,3}[0-9][a-zA-Z0-9]{0,3}[a-zA-Z]$] *)
Definition CALLSIGN_REGEX : list Atom :=
  [mkAtom is_alnum 1 3; mkAtom is_digit 1 1; mkAtom is_alnum 0 3; mkAtom is_alpha 1 1].

(** ** Validation *)

Inductive SessionError : Type := InvalidCallsign.

(** [callsign.split('-').next()] *)
Definition base_call (callsign : list byte) : list byte :=
  default callsign (head (split_on "-"%byte callsign)).

Section Validation.
Context `{UnicodeCase}.

Definition validate_callsign_with_allowlist (callsign : list byte) (allowlist : list (list byte))
    : Result SessionError (list byte) :=
  let call := base_call callsign in
  let upper := to_uppercase call in
  if is_match CALLSIGN_REGEX call then Ok upper
  else if existsb (fun entry => eq_ignore_ascii_case entry call) allowlist then Ok upper
  else Err InvalidCallsign.

Definition validate_callsign (callsign : list byte) : Result SessionError (list byte) :=
  validate_callsign_with_allowlist callsign [].
End Validation.

Example callsign_examples :
  map (@validate_callsign Toy.unicode)
    [bs "w1aw"; bs "KC9ABC-7"; bs "DEMOUSR"; bs ""; bs "W1TEST-0"; bs "2E0XYZ"; bs "ABCD1X"]
  = [Ok (bs "W1AW"); Ok (bs "KC9ABC"); Err InvalidCallsign; Err InvalidCallsign;
     Ok (bs "W1TEST"); Ok (bs "2E0XYZ"); Err InvalidCallsign].
Proof. by vm_compute. Qed.

(** ** The session *)

Record Session : Type := mkSession {
  callsign : list byte;
  acknowledged : bool;
  current_url : option (list byte);
  last_activity : Z }.

(** [Session::new], [touch], [acknowledge] at the time [now] *)
Definition new (call : list byte) (now : Z) : Session := mkSession call false None now.
Definition touch (s : Session) (now : Z) : Session :=
  mkSession (callsign s) (acknowledged s) (current_url s) now.
Definition acknowledge (s : Session) (now : Z) : Session :=
  touch (mkSession (callsign s) true (current_url s) (last_activity s)) now.
(** [elapsed().as_secs() > timeout_minutes * 60] *)
Definition is_timed_out (s : Session) (timeout_minutes now : Z) : bool :=
  as_u64 (timeout_minutes * 60) <? (now - last_activity s) / 1000.

(** ** What a valid callsign is *)

Lemma matches_app re1 re2 s1 s2 :
  matches re1 s1 -> matches re2 s2 -> matches (re1 ++ re2) (s1 ++ s2).
Proof.
  induction 1; intros; [done|]. simpl. rewrite <- app_assoc. by constructor; auto.
Qed.

Lemma matches_classes (P : byte -> bool) re s :
  Forall (fun a => forall b, cls a b = true -> P b = true) re ->
  matches re s -> forallb P s = true.
Proof.
  intros Hre H. induction H as [|a re u v Hl Hc Hm IH]; [done|].
  inversion Hre as [|? ? Ha Hre']; subst. rewrite forallb_app, (IH Hre'), andb_true_r.
  rewrite forallb_forall in *. auto.
Qed.

Lemma alpha_alnum b : is_alpha b = true -> is_alnum b = true.
Proof. unfold is_alnum. by intros ->. Qed.
Lemma digit_alnum b : is_digit b = true -> is_alnum b = true.
Proof. unfold is_alnum. intros ->. apply orb_true_r. Qed.
Lemma alnum_ascii b : is_alnum b = true -> is_ascii b = true.
Proof. unfold is_alnum, is_alpha, is_upper, is_lower, is_digit, is_ascii, in_range. lia. Qed.

Lemma callsign_alnum s : matches CALLSIGN_REGEX s -> forallb is_alnum s = true.
Proof.
  apply matches_classes. unfold CALLSIGN_REGEX.
  repeat constructor; simpl; auto using alpha_alnum, digit_alnum.
Qed.

Lemma callsign_shape s :
  matches CALLSIGN_REGEX s ->
  exists p d m l, s = p ++ d :: m ++ [l] /\ (1 <= length p <= 3)%nat /\ (length m <= 3)%nat
    /\ is_digit d = true /\ is_alpha l = true.
Proof.
  unfold CALLSIGN_REGEX. intros H.
  repeat match goal with H : matches (_ :: _) _ |- _ => inversion H; clear H; subst end.
  match goal with H : matches [] _ |- _ => inversion H; subst end. simpl in *.
  repeat match goal with
         | H : (1 <= length ?u <= 1)%nat |- _ => destruct u as [|? [|? ?]]; simpl in H; try lia; clear H
         end.
  simpl in *. rewrite andb_true_r in *.
  do 4 eexists. split; [reflexivity|]. repeat split; try lia; done.
Qed.

Lemma callsign_length s : matches CALLSIGN_REGEX s -> (3 <= length s <= 8)%nat.
Proof.
  intros (p & d & m & l & -> & Hp & Hm & _)%callsign_shape.
  rewrite length_app. cbn [length]. rewrite length_app. cbn [length]. lia.
Qed.

Section Spec.
Context `{UnicodeCaseLaws}.

Lemma base_call_ssid call ssid :
  forallb (fun y => negb (Byte.eqb y "-"%byte)) call = true ->
  base_call (call ++ "-"%byte :: ssid) = call /\ base_call call = call.
Proof.
  intros Hc. unfold base_call. by rewrite split_on_app, (split_on_none _ call) by done.
Qed.

Lemma upper_ascii_call s :
  matches CALLSIGN_REGEX s -> to_uppercase s = to_ascii_uppercase s.
Proof.
  intros Hm%callsign_alnum. apply to_uppercase_ascii.
  rewrite forallb_forall in *. auto using alnum_ascii.
Qed.

(** A callsign is accepted exactly when its base, without the SSID, matches
    the regular expression or equals an allowlist entry up to case; what is
    stored is the base in upper case, of 3 to 8 characters in the first case;
    and an SSID suffix never changes the outcome. *)
Theorem validate_callsign_spec callsign allowlist :
  (match validate_callsign_with_allowlist callsign allowlist with
   | Ok r => r = to_uppercase (base_call callsign)
       /\ ((matches CALLSIGN_REGEX (base_call callsign)
             /\ r = to_ascii_uppercase (base_call callsign) /\ (3 <= length r <= 8)%nat)
           \/ exists entry, entry ∈ allowlist
                /\ eq_ignore_ascii_case entry (base_call callsign) = true)
   | Err _ => ~ matches CALLSIGN_REGEX (base_call callsign)
       /\ forall entry, entry ∈ allowlist ->
            eq_ignore_ascii_case entry (base_call callsign) = false
   | _ => False
   end)
  /\ (forall ssid, forallb (fun y => negb (Byte.eqb y "-"%byte)) callsign = true ->
        validate_callsign_with_allowlist (callsign ++ "-"%byte :: ssid) allowlist
        = validate_callsign_with_allowlist callsign allowlist).
Proof.
  split.
  - unfold validate_callsign_with_allowlist. cbv zeta.
    destruct (is_match _ _) eqn:Em.
    + apply is_match_spec in Em. split; [done|]. left. split; [done|].
      split; [by apply upper_ascii_call|].
      rewrite upper_ascii_call by done. unfold to_ascii_uppercase. rewrite length_map.
      by apply callsign_length.
    + destruct (existsb _ allowlist) eqn:Ee.
      * split; [done|]. right. apply existsb_exists in Ee as (e & He & Hq).
        exists e. split; [by apply list_elem_of_In|done].
      * split; [by rewrite <- is_match_spec, Em|]. intros e He.
        apply not_true_iff_false. intros Hq. apply not_true_iff_false in Ee. apply Ee.
        apply existsb_exists. exists e. split; [by apply list_elem_of_In|done].
  - intros ssid Hc. unfold validate_callsign_with_allowlist.
    destruct (base_call_ssid callsign ssid Hc) as [-> ->]. done.
Qed.
End Spec.

Lemma validate_callsign_spec_witness :
  let r := @validate_callsign_with_allowlist Toy.unicode (bs "w1aw-7") [] in
  r = Ok (bs "W1AW") /\
  (match r with
   | Ok r => r = @to_uppercase Toy.unicode (base_call (bs "w1aw-7"))
       /\ ((matches CALLSIGN_REGEX (base_call (bs "w1aw-7"))
            /\ r = to_ascii_uppercase (base_call (bs "w1aw-7")) /\ (3 <= length r <= 8)%nat)
           \/ exists entry, entry ∈ []
                /\ eq_ignore_ascii_case entry (base_call (bs "w1aw-7")) = true)
   | Err _ => ~ matches CALLSIGN_REGEX (base_call (bs "w1aw-7"))
       /\ forall entry, entry ∈ [] ->
            eq_ignore_ascii_case entry (base_call (bs "w1aw-7")) = false
   | _ => False
   end).
Proof.
  split; [reflexivity|].
  apply (@validate_callsign_spec Toy.unicode Toy.unicode_laws (bs "w1aw-7") []).
Defined.
