(* ===== verification/Browser.v ===== *)
(** * The page browser ([server/src/browser.rs])

    Starting geckodriver and a Firefox session set to go through the filtering proxy,
    and fetching a page.  What the operating system and WebDriver report is listed in
    the world; how Firefox routes a request by its preferences is an interface.  The
    script run in the page is in the file [Scrub]. *)
From Stdlib Require Import ZArith Lia Strings.Byte.
From stdpp Require Import base decidable list sets.
From S2P Require Import Prelude Bytes Numbers.

Inductive BrowserError : Type :=
| LaunchFailed (msg : list byte)
| NavigationFailed (msg : list byte)
| ExtractionFailed (msg : list byte)
| BrowserCrashed.
Definition display_browser_error (e : BrowserError) : list byte :=
  match e with
  | LaunchFailed m => bs "Failed to launch browser: " ++ m
  | NavigationFailed m => bs "Failed to navigate: " ++ m
  | ExtractionFailed m => bs "Failed to extract content: " ++ m
  | BrowserCrashed => bs "Browser crashed - please try again"
  end.

(** [PROXY_PORT]: set once *)
Definition set_proxy_port (port : Z) (cell : option Z) : option Z := Some (default port cell).
Definition current_proxy_port (cell : option Z) : option Z := cell.

(** ** Preferences *)

Inductive Pref : Type := PBool (b : bool) | PInt (n : Z) | PText (s : list byte).

Definition LOOPBACK : list byte := Eval vm_compute in bs "127.0.0.1".
Definition firefox_prefs (proxy_port : Z) : list (list byte * Pref) :=
  [(bs "browser.cache.disk.enable", PBool false);
   (bs "browser.cache.memory.enable", PBool true);
   (bs "media.autoplay.default", PInt 5);
   (bs "permissions.default.image", PInt 2);
   (bs "datareporting.healthreport.uploadEnabled", PBool false);
   (bs "toolkit.telemetry.enabled", PBool false);
   (bs "app.update.enabled", PBool false);
   (bs "browser.shell.checkDefaultBrowser", PBool false);
   (bs "browser.startup.homepage_override.mstone", PText (bs "ignore"));
   (bs "browser.contentblocking.category", PText (bs "strict"));
   (bs "network.cookie.cookieBehavior", PInt 5);
   (bs "security.enterprise_roots.enabled", PBool true);
   (bs "pdfjs.disabled", PBool true);
   (bs "network.proxy.type", PInt 1);
   (bs "network.proxy.http", PText LOOPBACK);
   (bs "network.proxy.http_port", PInt proxy_port);
   (bs "network.proxy.ssl", PText LOOPBACK);
   (bs "network.proxy.ssl_port", PInt proxy_port);
   (bs "network.proxy.share_proxy_settings", PBool true);
   (bs "network.proxy.socks_remote_dns", PBool true);
   (bs "network.proxy.no_proxies_on", PText []);
   (bs "network.dns.disablePrefetch", PBool true);
   (bs "network.prefetch-next", PBool false)].
Definition pref (name : list byte) (prefs : list (list byte * Pref)) : option Pref :=
  snd <$> List.find (fun nv => bool_decide (nv.1 = name)) prefs.

(** ** Firefox

    Its choice of a route for a request, by its preferences.  The preferences a session
    sets are added to the built-in ones; [network.proxy.allow_hijacking_localhost] is
    off among these, and Firefox then contacts the machine itself without any proxy. *)

Inductive Route : Type := Direct | Via (host : list byte) (port : Z).
Class Firefox := {
  (** [localhost], the names under it and the loopback addresses *)
  is_loopback : list byte -> bool;
  route : list (list byte * Pref) -> forall (encrypted : bool) (host : list byte), Route }.
Class FirefoxLaws `{Firefox} := {
  manual_proxy prefs (encrypted : bool) host proxy port :
    pref (bs "network.proxy.type") prefs = Some (PInt 1) ->
    pref (bs "network.proxy.no_proxies_on") prefs = Some (PText []) ->
    pref (bs (if encrypted then "network.proxy.ssl" else "network.proxy.http")) prefs
      = Some (PText proxy) ->
    pref (bs (if encrypted then "network.proxy.ssl_port" else "network.proxy.http_port")) prefs
      = Some (PInt port) ->
    is_loopback host = false -> route prefs encrypted host = Via proxy port;
  loopback_direct prefs encrypted host :
    pref (bs "network.proxy.allow_hijacking_localhost") prefs <> Some (PBool true) ->
    is_loopback host = true -> route prefs encrypted host = Direct;
  loopback_names : is_loopback (bs "localhost") = true /\ is_loopback LOOPBACK = true }.

(** ** The world *)

Record Spawn : Type := mkSpawn {
  program : list byte;
  args : list (list byte);
  env : list (list byte * list byte) }.

Inductive Act : Type :=
| Spawned (s : Spawn)
| Killed
| Opened (binary : list byte) (prefs : list (list byte * Pref))
| TimeoutsSet (script page implicit : Z)
| Closed.

(** What the calls of a launch will report: an error message, or success *)
Record World : Type := mkWorld {
  proxy_port : option Z;
  var : list byte -> option (list byte);
  clock : Z;
  tempdir : list byte + list byte;
  runtime : option (list byte);
  free_port : list byte + Z;
  spawn : option (list byte);
  (** how long the next attempts to connect take, and whether they succeed *)
  attempts : list (Z * bool);
  webdriver : option (list byte);
  update_timeouts : option (list byte);
  trace : list Act }.

Definition with_attempts (t : Z) (a : list (Z * bool)) (w : World) : World :=
  mkWorld (proxy_port w) (var w) t (tempdir w) (runtime w) (free_port w) (spawn w) a
    (webdriver w) (update_timeouts w) (trace w).
Definition act (a : Act) (w : World) : World :=
  mkWorld (proxy_port w) (var w) (clock w) (tempdir w) (runtime w) (free_port w) (spawn w) (attempts w)
    (webdriver w) (update_timeouts w) (trace w ++ [a]).

Abbreviation Launch := (M World BrowserError).
Definition does (a : Act) : Launch unit := modify (act a).

(** A call that fails with this message, if any *)
Definition checked (what : list byte) (e : option (list byte)) : Launch unit :=
  match e with Some m => throw (LaunchFailed (what ++ m)) | None => mret tt end.

(** [TcpStream::connect]: whether it succeeded *)
Definition try_connect : Launch bool := fun w =>
  match attempts w with
  | [] => (Ok false, w)
  | (d, ok) :: rest => (Ok ok, with_attempts (clock w + Z.max d 0) rest w)
  end.
Definition sleep (ms : Z) : Launch unit := modify (fun w => with_attempts (clock w + ms) (attempts w) w).

(** The wait for the WebDriver port; each turn takes at least 100 ms *)
Fixpoint wait_ready (fuel : nat) (deadline : Z) : Launch unit :=
  match fuel with
  | O => diverge
  | S k =>
      up ← try_connect;
      if (up : bool) then mret tt
      else
        now ← gets clock;
        if deadline <=? now then
          _ ← does Killed;
          throw (LaunchFailed (bs "geckodriver did not start listening within 30s"))
        else
          _ ← sleep 100;
          wait_ready k deadline
  end.

Definition LAUNCH_WAIT : Z := 30 * 1000.

Record BrowserInstance : Type := mkBrowserInstance { client : bool; session_dir : list byte }.

(** Characters that [char::is_alphanumeric] keeps; other than ASCII ones do not occur in
    the callsigns it is given *)
Definition safe_id (callsign : list byte) : list byte := List.filter is_alnum callsign.

Definition new (callsign : list byte) : Launch BrowserInstance :=
  session_tmp ← (dir ← gets tempdir;
                 match dir with
                 | inl e => throw (LaunchFailed (bs "Failed to create session dir: " ++ e))
                 | inr d => mret (d ++ bs "/firefox-" ++ safe_id callsign ++ bs "-")
                 end : Launch (list byte));
  _ ← gets runtime ≫= checked (bs "create tokio runtime: ");
  probed ← gets free_port;
  port ← (match probed with
          | inl e => throw (LaunchFailed e)
          | inr p => mret p
          end : Launch Z);
  vars ← gets var;
  let geckodriver_path := default (bs "/bin/geckodriver") (vars (bs "GECKODRIVER_PATH")) in
  let firefox_path := default (bs "/bin/firefox") (vars (bs "FIREFOX_PATH")) in
  let ld_path := default (bs "/lib") (vars (bs "LD_LIBRARY_PATH")) in
  _ ← gets spawn ≫= checked (bs "spawn geckodriver: ");
  _ ← does (Spawned (mkSpawn geckodriver_path
        [bs "--port"; display port; bs "--binary"; firefox_path; bs "--profile-root"; session_tmp]
        [(bs "HOME", session_tmp); (bs "MOZ_HEADLESS", bs "1"); (bs "LD_LIBRARY_PATH", ld_path)]));
  now ← gets clock;
  _ ← wait_ready (S (Z.to_nat (LAUNCH_WAIT / 100 + 1))) (now + LAUNCH_WAIT);
  cell ← gets proxy_port;
  proxy_port ← (match cell with
                | None => throw (LaunchFailed (bs "proxy port not initialized before BrowserInstance::new"))
                | Some p => mret p
                end : Launch Z);
  _ ← gets webdriver ≫= checked (bs "connect WebDriver: ");
  _ ← does (Opened firefox_path (firefox_prefs proxy_port));
  _ ← gets update_timeouts ≫= checked (bs "set timeouts: ");
  _ ← does (TimeoutsSet 15 15 15);
  mret (mkBrowserInstance true session_tmp).

(** [Drop]: the session is closed if there is one, and the process killed *)
Definition drop_instance (b : BrowserInstance) : Launch unit :=
  _ ← (if client b then does Closed else mret tt);
  does Killed.

(** ** Fetching a page *)

Definition session_lost (display : list byte) : bool :=
  contains (bs "session deleted") display || contains (bs "invalid session id") display.
Definition SCRUB_ERROR : list byte := Eval vm_compute in bs "__SCRUB_ERROR__".

(** [goto] and [execute_async] as WebDriver answers them: an error with its display and
    debug texts; the value of the script, if it is a string *)
Definition fetch_page (b : BrowserInstance) (goto : option (list byte * list byte))
    (script : list byte + option (list byte)) : BrowserError + list byte :=
  if negb (client b) then inl BrowserCrashed
  else
    match goto with
    | Some (shown, debug) =>
        inl (if session_lost shown then BrowserCrashed
             else NavigationFailed (if bool_decide (shown = []) then debug else shown))
    | None =>
        match script with
        | inl s => inl (if session_lost s then BrowserCrashed else ExtractionFailed s)
        | inr None => inl (ExtractionFailed (bs "No HTML returned"))
        | inr (Some html) =>
            match strip_prefix SCRUB_ERROR html with
            | Some rest => inl (ExtractionFailed rest)
            | None => inr html
            end
        end
    end.

(** ** Launches *)

Lemma wait_ready_ends : forall fuel deadline w,
  deadline <= clock w + 100 * (Z.of_nat fuel - 1) -> (0 < fuel)%nat ->
  let (r, w') := wait_ready fuel deadline w in
  returns r /\ proxy_port w' = proxy_port w
  /\ trace w' = match r with Ok _ => trace w | _ => trace w ++ [Killed] end
  /\ (forall e, r = Err e -> exists m, e = LaunchFailed m).
Proof.
  induction fuel as [|k IH]; intros deadline w Hd Hf; [lia|]. cbn [wait_ready].
  assert (Hgo : forall w1 : World, clock w <= clock w1 -> trace w1 = trace w -> proxy_port w1 = proxy_port w ->
    let (r, w') := (now ← gets clock;
        if deadline <=? now then
          _ ← does Killed;
          throw (LaunchFailed (bs "geckodriver did not start listening within 30s"))
        else _ ← sleep 100; wait_ready k deadline) w1 in
    returns r /\ proxy_port w' = proxy_port w
    /\ trace w' = match r with Ok _ => trace w | _ => trace w ++ [Killed] end
    /\ (forall e, r = Err e -> exists m, e = LaunchFailed m)).
  { intros w1 Hc Ht Hp. change ((gets clock ≫= ?f) w1) with (f (clock w1) w1). cbv beta.
    destruct (Z.leb_spec deadline (clock w1)).
    - unfold does, modify, throw, mbind, M_bind. cbn. rewrite Ht, Hp. split_and!; [done..|].
      intros e [= <-]. by eexists.
    - change ((sleep 100 ≫= ?f) w1) with (f tt (with_attempts (clock w1 + 100) (attempts w1) w1)). cbv beta.
      destruct (decide (k = 0)%nat) as [->|Hk]; [lia|].
      specialize (IH deadline (with_attempts (clock w1 + 100) (attempts w1) w1)). cbn [clock with_attempts] in IH.
      destruct (wait_ready k deadline _) as [r w']. cbn in IH. rewrite Ht, Hp in IH. apply IH; lia. }
  unfold mbind at 1, M_bind at 1, try_connect. destruct (attempts w) as [|[d ok] rest].
  - by apply Hgo.
  - destruct ok; [done|]. apply Hgo; cbn; [lia|done|done].
Qed.

(** The preferences that name the program's proxy for plain and encrypted requests, with
    no exception of their own, and resolve names there *)
Definition filtered (port : Z) (prefs : list (list byte * Pref)) : Prop :=
  pref (bs "network.proxy.type") prefs = Some (PInt 1)
  /\ pref (bs "network.proxy.http") prefs = Some (PText LOOPBACK)
  /\ pref (bs "network.proxy.http_port") prefs = Some (PInt port)
  /\ pref (bs "network.proxy.ssl") prefs = Some (PText LOOPBACK)
  /\ pref (bs "network.proxy.ssl_port") prefs = Some (PInt port)
  /\ pref (bs "network.proxy.no_proxies_on") prefs = Some (PText [])
  /\ pref (bs "network.proxy.socks_remote_dns") prefs = Some (PBool true).
Lemma prefs_filtered port : filtered port (firefox_prefs port).
Proof. by repeat split. Qed.

Section Routes.
Context `{FirefoxLaws}.

(** A request for another machine goes to the proxy; *)
Lemma filtered_route port prefs encrypted host :
  filtered port prefs -> is_loopback host = false ->
  route prefs encrypted host = Via LOOPBACK port.
Proof. intros (Ht & Hh & Hhp & Hs & Hsp & Hn & _) Hl. destruct encrypted; by apply manual_proxy. Qed.

(** one for the machine the server runs on does not: the preference that would send it
    there is not set. *)
Theorem loopback_bypasses_proxy port encrypted host :
  is_loopback host = true -> route (firefox_prefs port) encrypted host = Direct.
Proof. by apply loopback_direct. Qed.
End Routes.

(** What a launch has done, by its outcome *)
Definition launch_trace (w : World) (r : Result BrowserError BrowserInstance) (tl : list Act) : Prop :=
  match r with
  | Ok b => client b = true
      /\ exists s bin port, proxy_port w = Some port
           /\ tl = [Spawned s; Opened bin (firefox_prefs port); TimeoutsSet 15 15 15]
  | Err e => (exists m, e = LaunchFailed m)
      /\ (tl = [] \/ (exists s, tl = [Spawned s; Killed]) \/ (exists s, tl = [Spawned s])
          \/ exists s bin port, proxy_port w = Some port /\ tl = [Spawned s; Opened bin (firefox_prefs port)])
  | _ => False
  end.

(** [checked] in front *)
Lemma checked_bind {A} (what : list byte) (f : World -> option (list byte)) (k : unit -> Launch A) w :
  ((gets f ≫= checked what) ≫= k) w
  = match f w with Some m => (Err (LaunchFailed (what ++ m)), w) | None => k tt w end.
Proof. unfold mbind, M_bind, gets, checked. by destruct (f w). Qed.

(** Launches that fail before the session is opened *)
Lemma launch_fails e w w' tl :
  trace w' = trace w ++ tl ->
  (tl = [] \/ (exists s, tl = [Spawned s; Killed]) \/ (exists s, tl = [Spawned s])) ->
  exists tl', trace w' = trace w ++ tl' /\ launch_trace w (Err (LaunchFailed e)) tl'.
Proof. intros Ht Htl. exists tl. split; [done|]. split; [by exists e|]. destruct Htl as [?|[?|?]]; auto. Qed.

Lemma launch_runs callsign w :
  exists tl, trace (new callsign w).2 = trace w ++ tl /\ launch_trace w (new callsign w).1 tl.
Proof.
  unfold new. cbv zeta. unfold mbind, M_bind, gets, checked, throw, mret, M_ret, does, modify.
  destruct (tempdir w) as [e|d]; [apply (launch_fails _ _ _ []); [by rewrite app_nil_r|by left]|].
  destruct (runtime w) as [e|]; [apply (launch_fails _ _ _ []); [by rewrite app_nil_r|by left]|].
  destruct (free_port w) as [e|p]; [apply (launch_fails _ _ _ []); [by rewrite app_nil_r|by left]|].
  destruct (spawn w) as [e|]; [apply (launch_fails _ _ _ []); [by rewrite app_nil_r|by left]|].
  set (s := mkSpawn _ _ _). set (w1 := act (Spawned s) w).
  change (S (Z.to_nat (LAUNCH_WAIT / 100 + 1))) with 302%nat.
  pose proof (wait_ready_ends 302 (clock w1 + LAUNCH_WAIT) w1) as Hw.
  destruct (wait_ready 302 _ w1) as [r w2].
  destruct Hw as (Hr & Hp & Ht & He); [unfold LAUNCH_WAIT; lia|lia|].
  change (trace w1) with (trace w ++ [Spawned s]) in Ht. change (proxy_port w1) with (proxy_port w) in Hp.
  destruct r as [[]|e| |]; [| |done|done].
  2: { destruct (He e eq_refl) as [m ->].
       apply (launch_fails m w w2 [Spawned s; Killed]); [by rewrite Ht, <- app_assoc|]. right. left. by exists s. }
  rewrite Hp. destruct (proxy_port w) as [port|] eqn:Eport.
  2: { apply (launch_fails _ w w2 [Spawned s]); [exact Ht|]. right. right. by exists s. }
  destruct (webdriver w2) as [e|].
  { apply (launch_fails _ w w2 [Spawned s]); [exact Ht|]. right. right. by exists s. }
  cbn [webdriver update_timeouts act]. destruct (update_timeouts w2) as [e|].
  - exists [Spawned s; Opened (default (bs "/bin/firefox") (var w (bs "FIREFOX_PATH"))) (firefox_prefs port)].
    split; [cbn; by rewrite Ht, <- app_assoc|]. split; [by eexists|]. right. right. right. by eexists _, _, port.
  - eexists. split; [cbn; by rewrite Ht, <- !app_assoc|]. split; [done|]. by eexists _, _, port.
Qed.

Lemma trace_filtered w r tl bin prefs :
  launch_trace w r tl -> Opened bin prefs ∈ tl -> exists port, proxy_port w = Some port /\ filtered port prefs.
Proof.
  intros Hl Hin.
  assert (Ho : exists s b port rest, proxy_port w = Some port
    /\ tl = Spawned s :: Opened b (firefox_prefs port) :: rest /\ rest ∈ [[]; [TimeoutsSet 15 15 15]]).
  { destruct r as [b|e| |]; cbn in Hl; [| |done|done].
    - destruct Hl as (_ & s & b' & port & Hp & ->). exists s, b', port, [TimeoutsSet 15 15 15].
      split_and!; [done..|set_solver].
    - destruct Hl as (_ & [->|[[s ->]|[[s ->]|(s & b' & port & Hp & ->)]]]);
        [set_solver..|]. exists s, b', port, []. split_and!; [done..|set_solver]. }
  destruct Ho as (s & b & port & rest & Hp & -> & Hr). exists port. split; [done|].
  apply elem_of_cons in Hin as [?|Hin]; [done|].
  apply elem_of_cons in Hin as [[= _ ->]|Hin]; [apply prefs_filtered|].
  exfalso. assert (rest = [] \/ rest = [TimeoutsSet 15 15 15]) as [->| ->] by set_solver; set_solver.
Qed.

(** A page browser is handed out only with a session whose preferences name the
    filtering proxy for plain and encrypted requests and for the names to resolve; a launch always ends, within its wait for the driver or before. *)
Theorem launch_filtered callsign w :
  let (r, w') := new callsign w in
  exists tl, trace w' = trace w ++ tl /\ launch_trace w r tl
  /\ (forall bin prefs, Opened bin prefs ∈ tl -> exists port, proxy_port w = Some port /\ filtered port prefs).
Proof.
  destruct (launch_runs callsign w) as (tl & Ht & Hl). destruct (new callsign w) as [r w'].
  exists tl. split_and!; [done|done|]. intros bin prefs. by apply (trace_filtered w r tl).
Qed.

(** A launch that fails once the driver runs leaves it running: the handle of a process
    does not kill it when it is dropped. *)
Example driver_left_running :
  let w := mkWorld None (fun _ => None) 0 (inr (bs "/tmp")) None (inr 4444) None [(5, true)] None None [] in
  let (r, w') := new (bs "N0CALL") w in
  r = Err (LaunchFailed (bs "proxy port not initialized before BrowserInstance::new"))
  /\ length (trace w') = 1%nat /\ Killed ∉ trace w'.
Proof.
  vm_compute. split; [reflexivity|]. split; [reflexivity|]. intros Hin.
  apply elem_of_cons in Hin as [Hk|Hin]; [discriminate Hk|by apply not_elem_of_nil in Hin].
Qed.

(** Firefox's rule on these preferences, for the hosts named here *)
Module ToyFirefox.
#[export] Instance firefox : Firefox := {|
  is_loopback host := bool_decide (host ∈ [bs "localhost"; LOOPBACK; bs "[::1]"]);
  route prefs encrypted host :=
    if bool_decide (host ∈ [bs "localhost"; LOOPBACK; bs "[::1]"])
       && negb (match pref (bs "network.proxy.allow_hijacking_localhost") prefs with
                | Some (PBool b) => b
                | _ => false
                end)
    then Direct
    else
      match pref (bs "network.proxy.type") prefs, pref (bs "network.proxy.no_proxies_on") prefs,
            pref (bs (if encrypted then "network.proxy.ssl" else "network.proxy.http")) prefs,
            pref (bs (if encrypted then "network.proxy.ssl_port" else "network.proxy.http_port")) prefs with
      | Some (PInt 1), Some (PText []), Some (PText h), Some (PInt p) => Via h p
      | _, _, _, _ => Direct
      end |}.
#[export] Instance firefox_laws : FirefoxLaws.
Proof.
  constructor; cbn -[bs pref].
  - intros prefs encrypted host proxy port -> -> -> -> Hl. by rewrite Hl.
  - intros prefs encrypted host Hp Hl. rewrite Hl.
    destruct (pref _ prefs) as [[[]| |]|]; done.
  - by vm_compute.
Qed.
End ToyFirefox.
