(* ===== verification/Scrub.v ===== *)
(** * The script that cleans a page ([JS_SCRUB_HTML] of [server/src/browser.rs])

    Before a page is handed to the server, a script run in it inlines its
    stylesheets, removes the elements it lists and turns its images into text.  The
    page is a tree; what the browser itself does (fetching, resolving addresses,
    writing the tree out) is an interface. *)
From Stdlib Require Import ZArith Lia Strings.Byte.
From stdpp Require Import base decidable list.
From S2P Require Import Prelude Bytes Numbers Browser.

(** ** The page *)

Definition Attrs : Type := list (list byte * list byte).

Inductive Node : Type :=
| TextNode (s : list byte)
| Element (name : list byte) (attrs : Attrs) (children : list Node).

Section NodeInd.
Variable P : Node -> Prop.
Hypothesis HText : forall s, P (TextNode s).
Hypothesis HElement : forall name attrs children, Forall P children -> P (Element name attrs children).
Fixpoint node_ind' (n : Node) : P n :=
  match n with
  | TextNode s => HText s
  | Element name attrs children => HElement name attrs children
      ((fix all (l : list Node) : Forall P l :=
          match l with
          | [] => @List.Forall_nil Node P
          | n :: l => @List.Forall_cons Node P n l (node_ind' n) (all l)
          end) children)
  end.
End NodeInd.

Definition attribute (name : list byte) (attrs : Attrs) : option (list byte) :=
  snd <$> List.find (fun kv => bool_decide (kv.1 = name)) attrs.

(** What the browser does for the script *)
Class Dom : Type := {
  (** [img.src], [link.href]: the address as the page resolves it *)
  resolve : list byte -> list byte;
  (** [fetch(link.href)] and its text, unless it fails *)
  fetch_css : list byte -> option (list byte);
  outer_html : Node -> list byte;
  (** [html.length], in UTF-16 units *)
  js_length : list byte -> Z }.
(** An element is written with its tag. *)
Class DomLaws `{Dom} : Prop :=
  outer_html_tag : forall name attrs children, exists rest,
    outer_html (Element name attrs children) = bs "<" ++ rest.

Definition FALLBACK_CSS : list byte := bs "body{font-family:sans-serif;max-width:40em;margin:0 auto;padding:1em;line-height:1.5}a{color:#06c}h1,h2,h3{margin:1em 0 .5em}table{border-collapse:collapse}td,th{border:1px solid #ccc;padding:.3em}img{display:none}".
Definition MAX_SIZE : Z := 32768.

(** [css.replace(/url\([^)]*\)/g, '')]: one pass; an opening without an end stays *)
Fixpoint strip_urls (inside : bool) (css : list byte) : list byte :=
  match css with
  | [] => []
  | c :: t =>
      if inside then strip_urls (negb (Byte.eqb c ")"%byte)) t
      else if starts_with (bs "url(") css && existsb (Byte.eqb ")"%byte) css then strip_urls true t
      else c :: strip_urls false t
  end.

(** [querySelectorAll(..).forEach(el => el.remove())] below and at a node *)
Fixpoint prune (p : list byte -> Attrs -> bool) (n : Node) : list Node :=
  match n with
  | TextNode s => [TextNode s]
  | Element name attrs children =>
      if p name attrs then [] else [Element name attrs (concat (map (prune p) children))]
  end.

(** The attributes of every element *)
Fixpoint map_attrs (f : Attrs -> Attrs) (n : Node) : Node :=
  match n with
  | TextNode s => TextNode s
  | Element name attrs children => Element name (f attrs) (map (map_attrs f) children)
  end.

Definition heavySelectors : list (list byte) :=
  [bs "script"; bs "iframe"; bs "video"; bs "audio"; bs "canvas"; bs "svg"; bs "object"; bs "embed";
   bs "noscript"; bs "template"].
Definition is_heavy (name : list byte) (_ : Attrs) : bool := bool_decide (name ∈ heavySelectors).
Definition is_style (name : list byte) (_ : Attrs) : bool := bool_decide (name = bs "style").

Definition is_handler (kv : list byte * list byte) : bool := starts_with (bs "on") kv.1.
Definition drop_handlers : Attrs -> Attrs := List.filter (fun kv => negb (is_handler kv)).
Definition drop_looks : Attrs -> Attrs :=
  List.filter (fun kv => negb (bool_decide (kv.1 ∈ [bs "class"; bs "id"; bs "style"]))).

Section Scrub.
Context `{Dom}.

(** [link[rel="stylesheet"]]: in an HTML page the selector compares the value of [rel]
    without regard to ASCII case *)
Definition is_stylesheet (name : list byte) (attrs : Attrs) : bool :=
  bool_decide (name = bs "link")
  && match attribute (bs "rel") attrs with
     | Some rel => bool_decide (to_ascii_lowercase rel = bs "stylesheet")
     | None => false
     end.
Definition sheet_text (attrs : Attrs) : option (list byte) :=
  fetch_css (resolve (default [] (attribute (bs "href") attrs))).
(** A link is removed once its text was had. *)
Definition is_inlined (name : list byte) (attrs : Attrs) : bool :=
  is_stylesheet name attrs && match sheet_text attrs with Some _ => true | None => false end.

(** The texts of the stylesheets, in the order of the page *)
Fixpoint css_texts (n : Node) : list (list byte) :=
  match n with
  | TextNode _ => []
  | Element name attrs children =>
      (if is_stylesheet name attrs
       then match sheet_text attrs with Some css => [strip_urls false css] | None => [] end
       else []) ++ concat (map css_texts children)
  end.

(** [img.alt || img.src.split('/').pop() || 'image'] *)
Definition or_else (a b : list byte) : list byte := if bool_decide (a = []) then b else a.
Definition image_text (attrs : Attrs) : list byte :=
  let src := match attribute (bs "src") attrs with Some s => resolve s | None => [] end in
  or_else (default [] (attribute (bs "alt") attrs))
    (or_else (List.last (split_on "/"%byte src) []) (bs "image")).
Fixpoint replace_images (n : Node) : Node :=
  match n with
  | TextNode s => TextNode s
  | Element name attrs children =>
      if bool_decide (name = bs "img") then TextNode (bs "[image: " ++ image_text attrs ++ bs "]")
      else Element name attrs (map replace_images children)
  end.

(** [document.head.appendChild(style)]; [document.head] is the first [head] child *)
Fixpoint append_to_head (new : Node) (children : list Node) : option (list Node) :=
  match children with
  | [] => None
  | Element name attrs cs :: rest =>
      if bool_decide (name = bs "head") then Some (Element name attrs (cs ++ [new]) :: rest)
      else cons (Element name attrs cs) <$> append_to_head new rest
  | n :: rest => cons n <$> append_to_head new rest
  end.
Definition add_style (css : list byte) (doc : Node) : list byte + Node :=
  match doc with
  | Element name attrs children =>
      match append_to_head (Element (bs "style") [] [TextNode css]) children with
      | Some children' => inr (Element name attrs children')
      | None => inl (bs "document.head is null")
      end
  | TextNode _ => inl (bs "document.head is null")
  end.

(** Removal may leave no [document.documentElement]. *)
Definition removing (p : list byte -> Attrs -> bool) (doc : Node) : list byte + Node :=
  match prune p doc with
  | [doc'] => inr doc'
  | _ => inl (bs "document.documentElement is null")
  end.

Definition join_lines (ls : list (list byte)) : list byte :=
  match ls with [] => [] | l :: rest => l ++ concat (map (fun x => [LF] ++ x) rest) end.

Definition then_ {A B} (m : list byte + A) (k : A -> list byte + B) : list byte + B :=
  match m with inl e => inl e | inr a => k a end.

(** The page before its size is looked at *)
Definition light (doc : Node) : list byte + Node :=
  let texts := css_texts doc in
  then_ (removing is_inlined doc) (fun doc =>
  then_ (if bool_decide (texts = []) then inr doc else add_style (join_lines texts) doc) (fun doc =>
  then_ (removing is_heavy doc) (fun doc =>
  inr (map_attrs drop_handlers (replace_images doc))))).

(** A page that is still too long loses its looks. *)
Definition scrub (doc : Node) : list byte + Node :=
  then_ (light doc) (fun doc =>
  if (MAX_SIZE <? js_length (outer_html doc))%Z then
    then_ (removing is_style doc) (fun doc =>
    add_style FALLBACK_CSS (map_attrs drop_looks doc))
  else inr doc).

(** What [execute_async] gives [fetch_page]: the text, or the mark of an error *)
Definition script_value (doc : Node) : list byte :=
  match scrub doc with inr d => outer_html d | inl e => SCRUB_ERROR ++ e end.
End Scrub.

(** ** Properties *)

(** Every element of the page *)
Fixpoint everywhere (P : list byte -> Attrs -> Prop) (n : Node) : Prop :=
  match n with
  | TextNode _ => True
  | Element name attrs children =>
      P name attrs /\ (fix all (l : list Node) : Prop :=
        match l with [] => True | n :: l => everywhere P n /\ all l end) children
  end.

Lemma everywhere_element P name attrs children :
  everywhere P (Element name attrs children) <-> P name attrs /\ Forall (everywhere P) children.
Proof.
  cbn [everywhere].
  assert (Hall : (fix all (l : list Node) : Prop :=
      match l with [] => True | n :: l => everywhere P n /\ all l end) children
    <-> Forall (everywhere P) children).
  { induction children as [|n l IH]; [by split|]. rewrite Forall_cons, <- IH. done. }
  by rewrite Hall.
Qed.

(** Induction over a page *)
Ltac node n :=
  induction n as [s|name attrs children IH] using node_ind'.

Lemma everywhere_prune P p n : everywhere P n -> Forall (everywhere P) (prune p n).
Proof.
  node n; intros Hn; [by constructor|]. apply everywhere_element in Hn as [Hp Hc]. cbn [prune].
  destruct (p name attrs); constructor; [|constructor]. apply everywhere_element. split; [done|].
  clear Hp. induction children as [|n l IHl]; [constructor|]. cbn [map concat].
  apply Forall_cons in IH as [Hn IH]. apply Forall_cons in Hc as [Hnc Hc]. apply Forall_app. auto.
Qed.

Lemma pruned p n : Forall (everywhere (fun name attrs => p name attrs = false)) (prune p n).
Proof.
  node n; [by repeat constructor|]. cbn [prune]. destruct (p name attrs) eqn:E; constructor; [|constructor].
  apply everywhere_element. split; [done|].
  induction children as [|n l IHl]; [constructor|]. apply Forall_cons in IH as [Hn IH].
  cbn [map concat]. apply Forall_app. auto.
Qed.

Lemma everywhere_map_attrs (P Q : list byte -> Attrs -> Prop) f n :
  (forall name attrs, P name attrs -> Q name (f attrs)) -> everywhere P n -> everywhere Q (map_attrs f n).
Proof.
  intros Hf. node n; intros Hn; [done|]. apply everywhere_element in Hn as [Hp Hc].
  cbn [map_attrs]. apply everywhere_element. split; [by apply Hf|].
  clear Hp. induction children as [|n l IHl]; [constructor|].
  apply Forall_cons in IH as [Hn IH]. apply Forall_cons in Hc as [Hnc Hc]. constructor; auto.
Qed.

Lemma map_attrs_id n : map_attrs (fun a => a) n = n.
Proof.
  node n; [done|]. cbn. f_equal. induction IH as [|n l Hn _ IHl]; [done|]. cbn. by rewrite Hn, IHl.
Qed.

Lemma everywhere_mono (P Q : list byte -> Attrs -> Prop) n :
  (forall name attrs, P name attrs -> Q name attrs) -> everywhere P n -> everywhere Q n.
Proof.
  intros HPQ Hn. rewrite <- (map_attrs_id n).
  apply (everywhere_map_attrs P Q (fun a => a)); [exact HPQ|exact Hn].
Qed.

Section Behaviour.
Context `{DomLaws}.

(** *** What each step leaves *)

Lemma removing_spec p doc d P :
  removing p doc = inr d -> everywhere P doc ->
  everywhere P d /\ everywhere (fun name attrs => p name attrs = false) d.
Proof.
  unfold removing. intros Hr Hd. pose proof (everywhere_prune P p doc Hd) as Hp. pose proof (pruned p doc) as Hn.
  destruct (prune p doc) as [|d' [|]]; try done. injection Hr as ->.
  apply Forall_cons in Hp as [Hp _]. by apply Forall_cons in Hn as [Hn _].
Qed.

Lemma everywhere_images P n :
  everywhere P n -> everywhere (fun name attrs => P name attrs /\ name <> bs "img") (replace_images n).
Proof.
  node n; intros Hn; [done|]. apply everywhere_element in Hn as [Hp Hc]. cbn [replace_images].
  case_bool_decide as Hi; [done|]. apply everywhere_element. split; [done|].
  clear Hp. induction children as [|n l IHl]; [constructor|].
  apply Forall_cons in IH as [Hn IH]. apply Forall_cons in Hc as [Hnc Hc]. constructor; auto.
Qed.

Lemma append_to_head_spec P new children children' :
  append_to_head new children = Some children' -> everywhere P new -> Forall (everywhere P) children ->
  Forall (everywhere P) children'.
Proof.
  revert children'. induction children as [|n rest IH]; intros children' Ha Hn Hc; [done|].
  apply Forall_cons in Hc as [Hc Hr]. cbn [append_to_head] in Ha.
  assert (Hrest : forall r, append_to_head new rest = Some r -> Forall (everywhere P) (n :: r)).
  { intros r Hr'. constructor; [done|]. by apply IH. }
  destruct n as [s|name attrs cs].
  - apply fmap_Some in Ha as (r & Hr' & ->). by apply Hrest.
  - case_bool_decide.
    + injection Ha as <-. constructor; [|done]. apply everywhere_element in Hc as [Hp Hcs].
      apply everywhere_element. split; [done|]. apply Forall_app. split; [done|by constructor].
    + apply fmap_Some in Ha as (r & Hr' & ->). by apply Hrest.
Qed.

Lemma add_style_spec P css doc d :
  add_style css doc = inr d -> P (bs "style") [] -> everywhere P doc -> everywhere P d.
Proof.
  unfold add_style. destruct doc as [s|name attrs children]; [done|]. intros Ha Hp Hd.
  apply everywhere_element in Hd as [Hn Hc].
  destruct (append_to_head _ children) as [children'|] eqn:E; [|done]. injection Ha as <-.
  apply everywhere_element. split; [done|]. apply (append_to_head_spec P _ _ _ E); [|done].
  apply everywhere_element. split; [done|]. by repeat constructor.
Qed.

(** An element the script leaves: not of the kinds it names, not an image, and without
    event handlers *)
Definition inert (name : list byte) (attrs : Attrs) : Prop :=
  name ∉ heavySelectors /\ name <> bs "img" /\ Forall (fun kv => is_handler kv = false) attrs.
Definition plain_looks (attrs : Attrs) : Prop :=
  Forall (fun kv => kv.1 ∉ [bs "class"; bs "id"; bs "style"]) attrs.

Lemma drop_handlers_spec attrs : Forall (fun kv => is_handler kv = false) (drop_handlers attrs).
Proof.
  apply List.Forall_forall. intros kv [_ Hk]%filter_In. by apply negb_true_iff in Hk.
Qed.
Lemma drop_looks_spec attrs : plain_looks (drop_looks attrs).
Proof.
  apply List.Forall_forall. intros kv [_ Hk]%filter_In. apply negb_true_iff in Hk.
  by apply bool_decide_eq_false in Hk.
Qed.
Lemma drop_looks_inert name attrs : inert name attrs -> inert name (drop_looks attrs).
Proof.
  intros (Hn & Hi & Ha). split_and!; [done|done|]. apply List.Forall_forall. intros kv [Hk _]%filter_In.
  rewrite List.Forall_forall in Ha. by apply Ha.
Qed.

Lemma everywhere_true n : everywhere (fun _ _ => True) n.
Proof.
  node n; [done|]. by apply everywhere_element.
Qed.

Lemma light_inert doc d : light doc = inr d -> everywhere inert d.
Proof.
  unfold light, then_. destruct (removing is_inlined doc) as [e|d1]; [done|].
  destruct (if bool_decide _ then _ else _) as [e|d2]; [done|].
  destruct (removing is_heavy d2) as [e|d3] eqn:E3; [done|]. intros [= <-].
  destruct (removing_spec _ _ _ _ E3 (everywhere_true d2)) as [_ H3].
  eapply everywhere_map_attrs; [|apply everywhere_images, H3].
  intros name attrs [Hh Hi]. split_and!; [|done|apply drop_handlers_spec].
  by apply bool_decide_eq_false in Hh.
Qed.

(** *** The text is kept *)

(** The text of a page: of what is not removed with what is in it, and of its images *)
Definition hidden (name : list byte) : bool :=
  bool_decide (name ∈ heavySelectors) || bool_decide (name ∈ [bs "style"; bs "link"]).
Fixpoint visible (n : Node) : list (list byte) :=
  match n with
  | TextNode s => [s]
  | Element name attrs children =>
      if hidden name then []
      else if bool_decide (name = bs "img") then [bs "[image: " ++ image_text attrs ++ bs "]"]
      else concat (map visible children)
  end.

Lemma visible_prune p n :
  (forall name attrs, p name attrs = true -> hidden name = true) ->
  concat (map visible (prune p n)) = visible n.
Proof.
  intros Hp. node n; [done|]. cbn [prune visible]. destruct (p name attrs) eqn:E.
  { by rewrite (Hp _ _ E). }
  cbn [map concat visible]. rewrite app_nil_r. destruct (hidden name); [done|].
  case_bool_decide; [done|]. rewrite concat_map, map_map.
  induction IH as [|n l Hn _ IHl]; [done|]. cbn [map concat]. by rewrite concat_app, Hn, IHl.
Qed.

Lemma removing_visible p doc d :
  removing p doc = inr d -> (forall name attrs, p name attrs = true -> hidden name = true) ->
  visible d = visible doc.
Proof.
  unfold removing. intros Hr Hp. rewrite <- (visible_prune p doc Hp).
  destruct (prune p doc) as [|d' [|]]; try done. injection Hr as ->. cbn. by rewrite app_nil_r.
Qed.

Lemma visible_images n : visible (replace_images n) = visible n.
Proof.
  node n; [done|]. cbn [replace_images]. case_bool_decide as Hi.
  { subst name. reflexivity. }
  cbn [visible]. destruct (hidden name); [done|]. rewrite bool_decide_false by done. f_equal.
  induction IH as [|n l Hn _ IHl]; [done|]. cbn [map]. by rewrite Hn, IHl.
Qed.

Lemma visible_map_attrs f n :
  everywhere (fun name _ => name <> bs "img") n -> visible (map_attrs f n) = visible n.
Proof.
  node n; intros Hn; [done|]. apply everywhere_element in Hn as [Hi Hc]. cbn [map_attrs visible].
  destruct (hidden name); [done|]. rewrite bool_decide_false by done. f_equal. clear Hi.
  induction children as [|n l IHl]; [done|]. apply Forall_cons in IH as [Hn IH].
  apply Forall_cons in Hc as [Hnc Hc]. cbn [map]. by rewrite Hn, IHl.
Qed.

Lemma append_to_head_visible css children children' :
  append_to_head (Element (bs "style") [] [TextNode css]) children = Some children' ->
  concat (map visible children') = concat (map visible children).
Proof.
  revert children'. induction children as [|n rest IH]; intros children' Ha; [done|].
  cbn [append_to_head] in Ha. destruct n as [s|name attrs cs].
  - apply fmap_Some in Ha as (r & Hr & ->). cbn. by rewrite (IH r Hr).
  - case_bool_decide as Hh.
    + injection Ha as <-. subst name. cbn [map concat]. f_equal. cbn [visible].
      change (hidden (bs "head")) with false. cbv iota. rewrite bool_decide_false by done.
      rewrite map_app, concat_app. cbn. by rewrite app_nil_r.
    + apply fmap_Some in Ha as (r & Hr & ->). cbn [map concat]. by rewrite (IH r Hr).
Qed.
Lemma add_style_visible css doc d : add_style css doc = inr d -> visible d = visible doc.
Proof.
  unfold add_style. destruct doc as [s|name attrs children]; [done|].
  destruct (append_to_head _ children) as [children'|] eqn:E; [|done]. intros [= <-].
  cbn [visible]. by rewrite (append_to_head_visible _ _ _ E).
Qed.

Lemma light_visible doc d : light doc = inr d -> visible d = visible doc.
Proof.
  unfold light, then_. destruct (removing is_inlined doc) as [e|d1] eqn:E1; [done|].
  assert (H1 : visible d1 = visible doc).
  { apply (removing_visible _ _ _ E1). intros name attrs Hi. unfold is_inlined, is_stylesheet in Hi.
    apply andb_true_iff in Hi as [Hn _]. apply andb_true_iff in Hn as [Hn _].
    apply bool_decide_eq_true in Hn. by subst name. }
  destruct (if bool_decide _ then _ else _) as [e|d2] eqn:E2; [done|].
  assert (H2 : visible d2 = visible d1).
  { case_bool_decide; [by injection E2 as ->|by eapply add_style_visible]. }
  destruct (removing is_heavy d2) as [e|d3] eqn:E3; [done|]. intros [= <-].
  rewrite visible_map_attrs, visible_images.
  - rewrite <- H1, <- H2. apply (removing_visible _ _ _ E3). intros name attrs Hh.
    unfold is_heavy in Hh. unfold hidden. by rewrite Hh.
  - eapply everywhere_mono; [|apply everywhere_images, (everywhere_true d3)]. by intros name attrs [_ Hi].
Qed.

(** *** The stylesheets of a page *)

Fixpoint sheets (n : Node) : list (list Node) :=
  match n with
  | TextNode _ => []
  | Element name attrs children =>
      if bool_decide (name = bs "style") then [children] else concat (map sheets children)
  end.

Lemma sheets_pruned n : concat (map sheets (prune is_style n)) = [].
Proof.
  node n; [done|]. cbn [prune]. unfold is_style at 1. case_bool_decide as Hs; [done|].
  cbn [map concat sheets]. rewrite bool_decide_false, app_nil_r by done. rewrite concat_map, map_map.
  induction IH as [|n l Hn _ IHl]; [done|]. cbn [map concat]. by rewrite concat_app, Hn.
Qed.
Lemma sheets_map_attrs f n : sheets n = [] -> sheets (map_attrs f n) = [].
Proof.
  node n; intros Hn; [done|]. cbn [map_attrs sheets] in *. case_bool_decide; [done|].
  induction IH as [|n l Hl _ IHl]; [done|]. cbn [map concat] in *. apply app_eq_nil in Hn as [Hn Hr].
  by rewrite (Hl Hn), (IHl Hr).
Qed.

Lemma append_to_head_sheets css children children' :
  append_to_head (Element (bs "style") [] [TextNode css]) children = Some children' ->
  concat (map sheets children) = [] -> concat (map sheets children') = [[TextNode css]].
Proof.
  revert children'. induction children as [|n rest IH]; intros children' Ha Hs; [done|].
  cbn [append_to_head map concat] in Ha, Hs. apply app_eq_nil in Hs as [Hn Hr].
  destruct n as [s|name attrs cs].
  - apply fmap_Some in Ha as (r & Ha & ->). cbn. by apply IH.
  - case_bool_decide as Hh.
    + injection Ha as <-. subst name. cbn [map concat]. rewrite Hr, app_nil_r. cbn [sheets] in *.
      rewrite bool_decide_false in Hn |- * by done. by rewrite map_app, concat_app, Hn.
    + apply fmap_Some in Ha as (r & Ha & ->). cbn [map concat]. by rewrite Hn, (IH r Ha Hr).
Qed.

Lemma add_style_sheets css doc d :
  add_style css doc = inr d -> sheets doc = [] -> sheets d = [[TextNode css]].
Proof.
  unfold add_style. destruct doc as [s|name attrs children]; [done|].
  destruct (append_to_head _ children) as [children'|] eqn:E; [|done]. intros [= <-] Hs.
  cbn [sheets] in *. case_bool_decide; [done|]. by apply (append_to_head_sheets _ _ _ E).
Qed.

Lemma removing_sheets doc d : removing is_style doc = inr d -> sheets d = [].
Proof.
  unfold removing. pose proof (sheets_pruned doc) as Hs. destruct (prune is_style doc) as [|d' [|]]; try done.
  intros [= ->]. cbn in Hs. by rewrite app_nil_r in Hs.
Qed.

(** C12: the tree of a page the script hands over has no element of the ten kinds it
    names (scripts, inline frames, plug-ins, embedded media, vector graphics, templates)
    and no image, and none of its elements has an attribute whose name begins with on;
    the text it showed is all there, in order, its images by their names; and when it
    was too long it has lost its classes, identifiers and styles, and its only stylesheet
    is the plain one.  Nothing else is claimed of it: links to other resources, frames of
    a frameset, a refresh and addresses in styles stay ([loads_kept],
    [address_after_removal]), and written out it may hold more than its tree does
    ([stylesheet_adds_script]). *)
Theorem scrub_page doc d :
  scrub doc = inr d ->
  everywhere inert d /\ visible d = visible doc
  /\ exists d0, light doc = inr d0
  /\ if (MAX_SIZE <? js_length (outer_html d0))%Z
     then everywhere (fun _ attrs => plain_looks attrs) d /\ sheets d = [[TextNode FALLBACK_CSS]]
     else d = d0.
Proof.
  unfold scrub, then_. destruct (light doc) as [e|d0] eqn:E0; [done|].
  pose proof (light_inert _ _ E0) as Hi. pose proof (light_visible _ _ E0) as Hv.
  destruct (MAX_SIZE <? _)%Z eqn:Esize.
  2:{ intros [= <-]. split_and!; [done|done|]. exists d0. by rewrite Esize. }
  destruct (removing is_style d0) as [e|d1] eqn:E1; [done|]. intros Ha.
  destruct (removing_spec _ _ _ inert E1 Hi) as [Hi1 _].
  assert (Hi2 : everywhere inert (map_attrs drop_looks d1)).
  { apply (everywhere_map_attrs inert); [apply drop_looks_inert|done]. }
  split_and!.
  - apply (add_style_spec inert _ _ _ Ha); [|done]. split_and!; [apply (bool_decide_unpack _); by vm_compute|done|constructor].
  - rewrite (add_style_visible _ _ _ Ha), visible_map_attrs.
    + rewrite <- Hv. apply (removing_visible _ _ _ E1). intros name attrs Hs. unfold is_style in Hs.
      apply bool_decide_eq_true in Hs. by subst name.
    + eapply everywhere_mono; [|exact Hi1]. by intros name attrs (_ & Hn & _).
  - exists d0. rewrite Esize. split; [done|]. split.
    + apply (add_style_spec (fun _ attrs => plain_looks attrs) _ _ _ Ha); [constructor|].
      apply (everywhere_map_attrs (fun _ _ => True)); [|apply everywhere_true].
      intros name attrs _. apply drop_looks_spec.
    + apply (add_style_sheets _ _ _ Ha), sheets_map_attrs, (removing_sheets _ _ E1).
Qed.

(** *** What the server is given *)

Definition element_name (n : Node) : option (list byte) :=
  match n with TextNode _ => None | Element name _ _ => Some name end.

Lemma removing_name p doc d : removing p doc = inr d -> element_name d = element_name doc.
Proof.
  unfold removing. destruct doc as [s|name attrs children]; cbn [prune]; [by intros [= <-]|].
  destruct (p name attrs); [done|]. by intros [= <-].
Qed.
Lemma add_style_name css doc d : add_style css doc = inr d -> element_name d = element_name doc.
Proof.
  unfold add_style. destruct doc as [s|name attrs children]; [done|].
  destruct (append_to_head _ children); [|done]. by intros [= <-].
Qed.
Lemma map_attrs_name f n : element_name (map_attrs f n) = element_name n.
Proof. by destruct n. Qed.

Lemma scrub_name doc d :
  scrub doc = inr d -> element_name doc = Some (bs "html") -> element_name d = Some (bs "html").
Proof.
  intros Hd Hn. unfold scrub, light, then_ in Hd.
  destruct (removing is_inlined doc) as [e|d1] eqn:E1; [done|]. apply removing_name in E1.
  destruct (if bool_decide _ then _ else _) as [e|d2] eqn:E2; [done|].
  assert (H2 : element_name d2 = Some (bs "html")).
  { case_bool_decide; [injection E2 as ->|apply add_style_name in E2]; congruence. }
  destruct (removing is_heavy d2) as [e|d3] eqn:E3; [done|]. apply removing_name in E3.
  assert (H4 : element_name (map_attrs drop_handlers (replace_images d3)) = Some (bs "html")).
  { rewrite map_attrs_name. rewrite H2 in E3. destruct d3 as [s|name attrs cs]; [done|].
    injection E3 as ->. reflexivity. }
  destruct (MAX_SIZE <? _)%Z; [|by injection Hd as <-].
  destruct (removing is_style _) as [e|d5] eqn:E5; [done|]. apply removing_name in E5.
  apply add_style_name in Hd. by rewrite Hd, map_attrs_name, E5.
Qed.

(** The text of a cleaned page is what [fetch_page] gives the server, and an error of
    the script is an error of the extraction. *)
Theorem scrubbed_page_fetched b doc :
  client b = true -> element_name doc = Some (bs "html") ->
  fetch_page b None (inr (Some (script_value doc))) =
  match scrub doc with
  | inr d => inr (outer_html d)
  | inl e => inl (ExtractionFailed e)
  end.
Proof.
  intros Hb Hn. unfold fetch_page, script_value. rewrite Hb. cbn [negb].
  destruct (scrub doc) as [e|d] eqn:E.
  - unfold strip_prefix. by rewrite starts_with_app, drop_app_length.
  - apply scrub_name in E; [|done]. destruct d as [s|name attrs children]; [done|].
    destruct (outer_html_tag name attrs children) as [rest ->]. reflexivity.
Qed.
End Behaviour.

(** ** A browser that writes a page as it is *)
Module ToyDom.
Definition attr_text (kv : list byte * list byte) : list byte := bs " " ++ kv.1 ++ bs "=" ++ kv.2.
Fixpoint write (n : Node) : list byte :=
  match n with
  | TextNode s => s
  | Element name attrs children =>
      bs "<" ++ name ++ concat (map attr_text attrs) ++ bs ">" ++ concat (map write children)
      ++ bs "</" ++ name ++ bs ">"
  end.
#[export] Instance dom : Dom := {|
  resolve u := u;
  fetch_css u := if bool_decide (u = bs "/a.css") then Some (bs "p{background:url(x.png)}") else
                 if bool_decide (u = bs "/b.css") then Some (bs "p{background:uurl()rl(x.png)}") else
                 if bool_decide (u = bs "/c.css") then Some (bs "</style><script>alert(1)</script>") else None;
  outer_html := write;
  js_length s := Z.of_nat (length s) |}.
#[export] Instance dom_laws : DomLaws.
Proof. intros name attrs children. by eexists. Qed.

Definition page (css : list byte) (body : list Node) : Node :=
  Element (bs "html") [] [Element (bs "head") [] [Element (bs "link") [(bs "rel", bs "stylesheet"); (bs "href", css)] []];
                          Element (bs "body") [] body].
End ToyDom.

#[local] Existing Instances ToyDom.dom ToyDom.dom_laws.

Definition demo_page : Node :=
  ToyDom.page (bs "/a.css")
    [Element (bs "p") [(bs "onclick", bs "run()")] [TextNode (bs "hi")];
     Element (bs "script") [] [TextNode (bs "run()")];
     Element (bs "img") [(bs "src", bs "/i/cat.png")] []].

Example demo_scrubbed :
  script_value demo_page
  = bs "<html><head><style>p{background:}</style></head><body><p>hi</p>[image: cat.png]</body></html>".
Proof. vm_compute. reflexivity. Qed.

Lemma scrub_page_witness :
  exists d, scrub demo_page = inr d
  /\ everywhere inert d /\ visible d = visible demo_page
  /\ exists d0, light demo_page = inr d0
  /\ if (MAX_SIZE <? js_length (outer_html d0))%Z
     then everywhere (fun _ attrs => plain_looks attrs) d /\ sheets d = [[TextNode FALLBACK_CSS]]
     else d = d0.
Proof.
  destruct (scrub demo_page) as [e|d] eqn:E; [vm_compute in E; discriminate E|].
  exists d. split; [reflexivity|]. exact (scrub_page demo_page d E).
Defined.

(** What the script does not name stays: a page with a refresh, a frame, an icon, an
    address in a style and a javascript link is handed over as it is. *)
Definition loading_page : Node :=
  Element (bs "html") []
    [Element (bs "head") []
       [Element (bs "meta") [(bs "http-equiv", bs "refresh"); (bs "content", bs "0;url=/next")] [];
        Element (bs "link") [(bs "rel", bs "icon"); (bs "href", bs "/icon.png")] [];
        Element (bs "style") [] [TextNode (bs "p{background:url(x.png)}")]];
     Element (bs "frameset") [] [Element (bs "frame") [(bs "src", bs "/frame")] []];
     Element (bs "a") [(bs "href", bs "javascript:run()")] [TextNode (bs "run")];
     Element (bs "p") [(bs "style", bs "background:url(x.png)")] []].
Example loads_kept : scrub loading_page = inr loading_page.
Proof. vm_compute. reflexivity. Qed.

(** A stylesheet is recognised whatever the case of its [rel]. *)
Example stylesheet_any_case :
  is_stylesheet (bs "link") [(bs "rel", bs "StyleSheet")] = true
  /\ is_stylesheet (bs "link") [(bs "rel", bs "alternate stylesheet")] = false.
Proof. by vm_compute. Qed.

(** The removal of addresses is a single pass: what it leaves may be one again. *)
Example address_after_removal :
  strip_urls false (bs "p{background:uurl()rl(x.png)}") = bs "p{background:url(x.png)}".
Proof. reflexivity. Qed.

(** The text of a stylesheet is not looked at: one that closes its element puts a script
    into the page that is handed over. *)
Example stylesheet_adds_script :
  script_value (ToyDom.page (bs "/c.css") [])
  = bs "<html><head><style></style><script>alert(1)</script></style></head><body></body></html>".
Proof. vm_compute. reflexivity. Qed.
