(* ===== verification/SocketRead.v ===== *)
(** * Reading from a client socket ([read_bounded_line_until],
    [read_exact_until] and [read_request] of [server/src/main.rs])

    The socket is the list of what its reads will report, each with the time
    it does: bytes, a read-timeout tick, an error; the end of the list (or an
    empty read) is the end of file.  [now] is the clock at the last report, in
    milliseconds. *)
From Stdlib Require Import ZArith Lia Strings.Byte.
From stdpp Require Import base decidable list gmap.
From S2P Require Import Prelude Bytes Numbers External Protocol.

Definition MAX_LINE_LENGTH : nat := 1024.
Definition MAX_BODY_SIZE : Z := 1024 * 1024.

Inductive ReadEvent : Type :=
| Data (d : list byte)
| Tick
| Broken (msg : list byte).

Record Reader : Type := mkReader {
  buffered : list byte;
  incoming : list (Z * ReadEvent);
  now : Z }.

(** [std::io::ErrorKind] with the message *)
Inductive IoError : Type :=
| TimedOut
| UnexpectedEof
| InvalidData (msg : list byte)
| Io (msg : list byte).

(** ** [BufRead::read_until] behind [take] *)

Inductive ReadOutcome : Type :=
| Got (n : nat)
| WouldBlock
| Failed (msg : list byte).

(** [reader.by_ref().take(limit).read_until(b'\n', &mut buf)]: at most [limit]
    bytes, up to and including a line feed; on an error the bytes already
    appended to [buf] stay there. *)
Fixpoint read_until (limit n : nat) (buf avail_buf : list byte)
    (inc : list (Z * ReadEvent)) (t : Z) : ReadOutcome * list byte * Reader :=
  let available := take limit avail_buf in
  match position (Byte.eqb LF) available with
  | Some i =>
      (Got (n + S i), buf ++ take (S i) available, mkReader (drop (S i) avail_buf) inc t)
  | None =>
      let used := length available in
      if (limit - used =? 0)%nat
      then (Got (n + used), buf ++ available, mkReader (drop used avail_buf) inc t)
      else
        match inc with
        | [] => (Got (n + used), buf ++ available, mkReader [] [] t)
        | (t', Data []) :: _ => (Got (n + used), buf ++ available, mkReader [] [] (Z.max t t'))
        | (t', Data d) :: rest =>
            read_until (limit - used) (n + used) (buf ++ available) d rest (Z.max t t')
        | (t', Tick) :: rest => (WouldBlock, buf ++ available, mkReader [] rest (Z.max t t'))
        | (t', Broken e) :: rest => (Failed e, buf ++ available, mkReader [] rest (Z.max t t'))
        end
  end.

Definition ends_line (buf : list byte) : bool := bool_decide (last buf = Some LF).

Definition finish_line (buf : list byte) : Result IoError (option (list byte)) :=
  match from_utf8 buf with
  | Some s => Ok (Some s)
  | None => Err (InvalidData (bs "Invalid UTF-8 in line"))
  end.

Definition line_cap : nat := MAX_LINE_LENGTH + 1.

(** The loop of [read_bounded_line_until] *)
Fixpoint read_line_loop (fuel : nat) (deadline : Z) (buf : list byte) (r : Reader)
    : Result IoError (option (list byte)) * Reader :=
  match fuel with
  | O => (Spin, r)
  | S f =>
      if deadline <=? now r then (Err TimedOut, r)
      else
        let remaining := (line_cap - length buf)%nat in
        if (remaining =? 0)%nat
        then (Err (InvalidData (bs "Line exceeded maximum length")), r)
        else
          match read_until remaining 0 buf (buffered r) (incoming r) (now r) with
          | (Got O, buf', r') =>
              (if bool_decide (buf' = []) then Ok None else Err UnexpectedEof, r')
          | (Got (S _), buf', r') =>
              if ends_line buf' then (finish_line buf', r')
              else if (line_cap <=? length buf')%nat
              then (Err (InvalidData (bs "Line exceeded maximum length")), r')
              else read_line_loop f deadline buf' r'
          | (WouldBlock, buf', r') =>
              if ends_line buf' then (finish_line buf', r')
              else read_line_loop f deadline buf' r'
          | (Failed e, _, r') => (Err (Io e), r')
          end
  end.

(** Each turn of the loop but the last two uses up an event. *)
Definition read_bounded_line_until (deadline : Z) : M Reader IoError (option (list byte)) :=
  fun r => read_line_loop (length (incoming r) + 3) deadline [] r.

(** ** [read_exact_until] *)

(** The bytes still wanted of what is buffered *)
Definition take_buffered (n : nat) (got : list byte) (r : Reader) : list byte * Reader :=
  let chunk := take (n - length got) (buffered r) in
  (got ++ chunk, mkReader (drop (length chunk) (buffered r)) (incoming r) (now r)).

Fixpoint read_exact_loop (fuel : nat) (deadline : Z) (n : nat) (got : list byte) (r : Reader)
    : Result IoError (list byte) * Reader :=
  match fuel with
  | O => (Spin, r)
  | S f =>
      if (n <=? length got)%nat then (Ok got, r)
      else if deadline <=? now r then (Err TimedOut, r)
      else
        match buffered r with
        | _ :: _ =>
            let (got', r') := take_buffered n got r in read_exact_loop f deadline n got' r'
        | [] =>
            match incoming r with
            | [] => (Err UnexpectedEof, r)
            | (t, Data []) :: _ => (Err UnexpectedEof, mkReader [] [] (Z.max (now r) t))
            | (t, Data d) :: rest =>
                let (got', r') := take_buffered n got (mkReader d rest (Z.max (now r) t)) in
                read_exact_loop f deadline n got' r'
            | (t, Tick) :: rest =>
                read_exact_loop f deadline n got (mkReader [] rest (Z.max (now r) t))
            | (t, Broken e) :: rest => (Err (Io e), mkReader [] rest (Z.max (now r) t))
            end
        end
  end.

Definition read_exact_until (n : nat) (deadline : Z) : M Reader IoError (list byte) :=
  fun r => read_exact_loop (length (incoming r) + 3) deadline n [] r.

(** ** [read_request] *)

Definition read_request (deadline : Z) : M Reader IoError (option Request) :=
  line ← read_bounded_line_until deadline;
  match line with
  | None => mret None
  | Some header_line =>
      let trimmed := trim header_line in
      if starts_with GET_ trimmed then
        let rest := drop 4 trimmed in
        if bool_decide (rest = []) then throw (InvalidData (bs "Empty URL"))
        else
          mret (Some (match split_once IF_NONE_MATCH rest with
                      | Some (u, e) => Get u (Some e)
                      | None => Get rest None
                      end))
      else if starts_with POST_ trimmed then
        let url := drop 5 trimmed in
        if bool_decide (url = []) then throw (InvalidData (bs "Empty URL"))
        else
          len_buf ← read_exact_until 4 deadline;
          match len_buf with
          | [b0; b1; b2; b3] =>
              let body_len := from_be_bytes b0 b1 b2 b3 in
              if MAX_BODY_SIZE <? body_len then
                throw (InvalidData (bs "Body too large: " ++ display body_len
                                    ++ bs " bytes (max 1048576)"))
              else
                body ← read_exact_until (Z.to_nat body_len) deadline;
                mret (Some (Post url body))
          | _ => lift Panic
          end
      else throw (InvalidData (bs "Invalid request format"))
  end.

(** ** What is still to be read *)

(** The bytes of the events up to the end of file *)
Fixpoint bytes_of (inc : list (Z * ReadEvent)) : list byte :=
  match inc with
  | [] => []
  | (_, Data []) :: _ => []
  | (_, Data d) :: rest => d ++ bytes_of rest
  | (_, Tick) :: rest => bytes_of rest
  | (_, Broken _) :: _ => []
  end.

Definition pending (r : Reader) : list byte := buffered r ++ bytes_of (incoming r).

(** [r'] is what [r] becomes by reading: its events are among [r]'s, and its
    clock is [r]'s or an event's. *)
Definition later (r r' : Reader) : Prop :=
  (forall x, x ∈ incoming r' -> x ∈ incoming r)
  /\ (now r' = now r \/ exists t e, (t, e) ∈ incoming r /\ now r' = t).

Lemma later_refl r : later r r.
Proof. split; auto. Qed.
Lemma later_consume b b' inc n : later (mkReader b inc n) (mkReader b' inc n).
Proof. split; auto. Qed.
Lemma later_trans r1 r2 r3 : later r1 r2 -> later r2 r3 -> later r1 r3.
Proof.
  intros [H1 H2] [H3 H4]. split; [auto|].
  destruct H4 as [->|(t & e & Hin & ->)]; [done|]. right. eauto.
Qed.
Lemma later_pop b b' t ev inc inc' n n' :
  (forall x, x ∈ inc' -> x ∈ inc) -> n' = Z.max n t ->
  later (mkReader b ((t, ev) :: inc) n) (mkReader b' inc' n').
Proof.
  intros Hi ->. split; simpl; [intros x Hx; right; auto|].
  destruct (Z.max_spec n t) as [[_ ->]|[_ ->]]; [|by left].
  right. exists t, ev. split; [left|done].
Qed.
#[export] Hint Resolve later_refl later_consume later_pop : core.

(** No event is late or broken. *)
Definition quiet (deadline : Z) (r : Reader) : Prop :=
  now r < deadline
  /\ forall t e, (t, e) ∈ incoming r -> t < deadline /\ forall msg, e <> Broken msg.

Lemma quiet_later deadline r r' : quiet deadline r -> later r r' -> quiet deadline r'.
Proof.
  intros [Hn Hq] [Hi Ht]. split.
  - destruct Ht as [->|(t & e & Hin & ->)]; [done|]. by apply (Hq t e).
  - intros t e Hin. by apply Hq, Hi.
Qed.

(** ** [read_until] against the pending bytes *)

Definition line_end (got : list byte) : Prop := exists l, got = l ++ [LF] /\ no_byte LF l = true.

Lemma position_take_none l : position (Byte.eqb LF) l = None <-> no_byte LF l = true.
Proof.
  unfold no_byte. induction l as [|b l IH]; simpl; [done|].
  replace (Byte.eqb b LF) with (Byte.eqb LF b) by (by destruct b).
  destruct (Byte.eqb LF b); simpl; [done|]. rewrite <- IH.
  by destruct (position _ l).
Qed.

Lemma position_line l i :
  position (Byte.eqb LF) l = Some i -> line_end (take (S i) l).
Proof.
  intros H. apply position_Some in H as (a & x & b & -> & <- & Hx & Ha).
  apply byte_eqb_eq in Hx as <-. exists a. split.
  - replace (a ++ LF :: b) with ((a ++ [LF]) ++ b) by (by rewrite <- app_assoc).
    apply take_app_length'. rewrite length_app. simpl. lia.
  - unfold no_byte. apply forallb_forall. intros y Hy.
    rewrite forallb_forall in Ha. specialize (Ha y Hy). by destruct y.
Qed.

Definition until_ok (limit n : nat) (buf : list byte) (r : Reader)
    (res : ReadOutcome * list byte * Reader) : Prop :=
  let '(o, buf', r') := res in
  later r r' /\ exists got, buf' = buf ++ got /\ (length got <= limit)%nat
  /\ match o with
     | Got k => k = (n + length got)%nat /\ pending r = got ++ pending r'
         /\ (line_end got \/ no_byte LF got = true
             /\ (length got = limit \/ buffered r' = [] /\ incoming r' = []))
     | WouldBlock => no_byte LF got = true /\ pending r = got ++ pending r'
         /\ (length got < limit)%nat /\ buffered r' = []
         /\ (length (incoming r') < length (incoming r))%nat
     | Failed e => exists t, (t, Broken e) ∈ incoming r
     end.

(** One more chunk before a run that satisfies [until_ok] *)
Lemma until_ok_chunk limit n buf avail t0 t d inc res :
  no_byte LF (take limit avail) = true -> (length (take limit avail) < limit)%nat ->
  d <> [] ->
  until_ok (limit - length (take limit avail)) (n + length (take limit avail))
    (buf ++ take limit avail) (mkReader d inc (Z.max t0 t)) res ->
  until_ok limit n buf (mkReader avail ((t, Data d) :: inc) t0) res.
Proof.
  intros Hno Hlt Hd. destruct res as [[o buf'] r']. unfold until_ok.
  assert (take limit avail = avail) as Hav.
  { apply take_ge. rewrite length_take in Hlt. lia. }
  rewrite Hav in *. intros [Hlat (got & -> & Hl & Ho)].
  split. { eapply later_trans; [|exact Hlat]. by apply later_pop. }
  exists (avail ++ got). split; [by rewrite app_assoc|]. split; [len|].
  assert (Hp : pending (mkReader avail ((t, Data d) :: inc) t0)
               = avail ++ pending (mkReader d inc (Z.max t0 t))).
  { unfold pending. simpl. destruct d; [done|]. done. }
  rewrite Hp. destruct o as [k| |e].
  - destruct Ho as (-> & Hpend & Hend). rewrite Hpend, <- app_assoc.
    split; [len|]. split; [done|]. destruct Hend as [(l & -> & Hln)|[Hg Hend]].
    + left. exists (avail ++ l). rewrite <- app_assoc, no_byte_app, Hno. done.
    + right. rewrite no_byte_app, Hno, Hg. split; [done|].
      destruct Hend as [Hend|Hend]; [left; len|by right].
  - destruct Ho as (Hg & Hpend & Hgl & Hb & Hi). rewrite Hpend, <- app_assoc.
    rewrite no_byte_app, Hno, Hg. split_and!; [done|done|len|done|simpl in *; lia].
  - destruct Ho as [t' Ht']. exists t'. by right.
Qed.

Lemma read_until_ok inc : forall limit n buf avail t,
  until_ok limit n buf (mkReader avail inc t) (read_until limit n buf avail inc t).
Proof.
  induction inc as [|[t' ev] inc IH]; intros limit n buf avail t; cbn [read_until];
    destruct (position (Byte.eqb LF) (take limit avail)) as [i|] eqn:Hpos.
  1, 3: pose proof (position_line _ _ Hpos) as Hend; pose proof (position_lt _ _ _ Hpos) as Hi;
    unfold until_ok; (split; [auto|]); exists (take (S i) (take limit avail));
    rewrite length_take in Hi;
    assert (Htt : take (S i) (take limit avail) = take (S i) avail)
      by (rewrite take_take; f_equal; lia);
    rewrite Htt in *; (split; [done|]); (split; [rewrite length_take; lia|]);
    (split; [rewrite length_take; lia|]); unfold pending; cbn [buffered incoming];
    rewrite app_assoc, take_drop; auto.
  all: apply position_take_none in Hpos.
  all: destruct (limit - length (take limit avail) =? 0)%nat eqn:El; b2p.
  1, 3: unfold until_ok; (split; [auto|]); exists (take limit avail);
    rewrite length_take in *; (split; [done|]); (split; [lia|]); (split; [lia|]);
    unfold pending; cbn [buffered incoming]; rewrite app_assoc;
    replace (min limit (length avail)) with limit in * by lia; rewrite take_drop; auto with lia.
  all: assert (Hav : take limit avail = avail) by (apply take_ge; rewrite length_take in El; lia).
  all: assert (Hlt : (length (take limit avail) < limit)%nat) by (rewrite Hav in *; lia).
  - unfold until_ok. split; [auto|]. exists (take limit avail). rewrite Hav in *.
    unfold pending. simpl. rewrite app_nil_r. auto 10 with lia.
  - destruct ev as [[|b d]| |e].
    + unfold until_ok. split; [by apply later_pop; [intros ? ?%elem_of_nil|]|].
      exists (take limit avail). rewrite Hav in *. unfold pending. simpl. auto 10 with lia.
    + apply until_ok_chunk; auto.
    + unfold until_ok. split; [by apply later_pop|]. exists (take limit avail).
      rewrite Hav in *. unfold pending. simpl. auto 10 with lia.
    + unfold until_ok. split; [by apply later_pop|]. exists (take limit avail).
      rewrite Hav in *. split_and!; [done|lia|]. exists t'. left.
Qed.

(** ** The line loop against a reference on the pending bytes *)

Definition too_long : IoError := InvalidData (bs "Line exceeded maximum length").

(** The line a byte string starts with, whatever chunks it comes in *)
Definition line_reference (p : list byte) : Result IoError (option (list byte)) :=
  match position (Byte.eqb LF) (take line_cap p) with
  | Some i => finish_line (take (S i) p)
  | None =>
      if (line_cap <=? length p)%nat then Err too_long
      else if bool_decide (p = []) then Ok None else Err UnexpectedEof
  end.

(** The outcomes of a read whose stream may end late, broken, or well *)
Definition reads_as {A} (deadline : Z) (r : Reader) (reference : Result IoError A)
    (res : Result IoError A) (r' : Reader) : Prop :=
  later r r' /\
  (res = Err TimedOut /\ deadline <= now r'
   \/ (exists e t, res = Err (Io e) /\ (t, Broken e) ∈ incoming r)
   \/ res = reference).

Lemma line_reference_line buf l rest :
  no_byte LF (buf ++ l) = true -> (length (buf ++ l) < line_cap)%nat ->
  line_reference (buf ++ (l ++ [LF]) ++ rest) = finish_line (buf ++ l ++ [LF]).
Proof.
  intros Hno Hlen. unfold line_reference.
  replace (buf ++ (l ++ [LF]) ++ rest) with (((buf ++ l) ++ [LF]) ++ rest)
    by (by rewrite <- !app_assoc).
  rewrite take_app_ge by len.
  set (more := take _ rest).
  replace (((buf ++ l) ++ [LF]) ++ more) with ((buf ++ l) ++ LF :: more)
    by (by rewrite <- !app_assoc).
  rewrite position_no_byte by done.
  rewrite take_app_length' by len. by rewrite <- !app_assoc.
Qed.

Lemma line_reference_short buf :
  no_byte LF buf = true -> (length buf < line_cap)%nat ->
  line_reference buf = if bool_decide (buf = []) then Ok None else Err UnexpectedEof.
Proof.
  intros Hno Hlen. unfold line_reference. rewrite take_ge by lia.
  apply position_take_none in Hno as ->. by rewrite (proj2 (Nat.leb_gt _ _)).
Qed.

Lemma line_reference_long buf rest :
  no_byte LF buf = true -> length buf = line_cap -> line_reference (buf ++ rest) = Err too_long.
Proof.
  intros Hno Hlen. unfold line_reference. rewrite take_app_length' by done.
  apply position_take_none in Hno as ->.
  by rewrite (proj2 (Nat.leb_le _ _)) by (rewrite length_app; lia).
Qed.

Lemma ends_line_snoc l : ends_line (l ++ [LF]) = true.
Proof. unfold ends_line. rewrite last_snoc. by apply bool_decide_true. Qed.
Lemma ends_line_none l : no_byte LF l = true -> ends_line l = false.
Proof.
  intros Hno. unfold ends_line. apply bool_decide_false. intros Hl.
  apply last_Some in Hl as [l' ->]. rewrite no_byte_app in Hno.
  apply andb_true_iff in Hno as [_ Hno]. by vm_compute in Hno.
Qed.

Lemma finish_line_Ok buf s : finish_line buf = Ok (Some s) -> s = buf.
Proof. unfold finish_line, from_utf8. destruct (utf8_valid buf); congruence. Qed.

(** Enough fuel: one turn per event and two more, or one at the end of file *)
Definition turns (r : Reader) : nat :=
  match buffered r, incoming r with
  | [], [] => 1
  | _, inc => length inc + 2
  end.

Lemma turns_le r : (turns r <= length (incoming r) + 2)%nat.
Proof. unfold turns. destruct (buffered r), (incoming r); simpl; lia. Qed.

(** What a run of the line reader from [buf] owes its caller *)
Definition line_run deadline buf (r : Reader)
    (out : Result IoError (option (list byte)) * Reader) : Prop :=
  let '(res, r') := out in
  reads_as deadline r (line_reference (buf ++ pending r)) res r'
  /\ forall s, res = Ok (Some s) -> buf ++ pending r = s ++ pending r'.

(** A run that starts later, after more bytes, is a run from here. *)
Lemma line_run_later deadline buf got r r' out :
  later r r' -> pending r = got ++ pending r' ->
  line_run deadline (buf ++ got) r' out -> line_run deadline buf r out.
Proof.
  intros Hlat Hp. destruct out as [res r'']. unfold line_run. rewrite Hp, app_assoc.
  intros [[Hl2 IH] Hs]. split; [|done]. split; [by eapply later_trans|].
  destruct IH as [IH|[(e & t & -> & He)|IH]]; [by left| |by right; right].
  right; left. exists e, t. split; [done|]. by apply Hlat.
Qed.

(** The end of the stream leaves the reference outcome of what was read. *)
Lemma line_run_eof deadline buf r r' :
  later r r' -> pending r = [] -> no_byte LF buf = true -> (length buf < line_cap)%nat ->
  line_run deadline buf r ((if bool_decide (buf = []) then Ok None else Err UnexpectedEof), r').
Proof.
  intros Hl Hp Hno Hlen. unfold line_run. rewrite Hp, app_nil_r.
  split; [split; [done|]; right; right|by case_bool_decide].
  by rewrite line_reference_short.
Qed.

(** A read that ends at a line feed finishes the line. *)
Lemma line_run_done deadline buf l r r' :
  later r r' -> pending r = (l ++ [LF]) ++ pending r' ->
  no_byte LF (buf ++ l) = true -> (length (buf ++ l) < line_cap)%nat ->
  line_run deadline buf r (finish_line (buf ++ l ++ [LF]), r').
Proof.
  intros Hl Hp Hno Hlen. unfold line_run. split; [split; [done|]; right; right|].
  - by rewrite Hp, line_reference_line.
  - intros s Hs%finish_line_Ok. by rewrite Hp, Hs, <- !app_assoc.
Qed.

(** A read that reached the end of the stream used up a turn. *)
Lemma turns_eof r r' got fuel :
  (turns r <= S fuel)%nat -> pending r = got ++ pending r' -> (0 < length got)%nat ->
  buffered r' = [] -> incoming r' = [] -> (turns r' <= fuel)%nat.
Proof.
  intros Hfuel Hp Hg Hb Hi. unfold turns at 1. rewrite Hb, Hi. unfold turns in Hfuel.
  unfold pending in Hp. rewrite Hb, Hi, app_nil_r in Hp.
  destruct (buffered r), (incoming r); simpl in *; try lia. subst. simpl in Hg. lia.
Qed.

Lemma read_line_loop_ok fuel : forall deadline buf r,
  (turns r <= fuel)%nat -> no_byte LF buf = true -> (length buf < line_cap)%nat ->
  line_run deadline buf r (read_line_loop fuel deadline buf r).
Proof.
  induction fuel as [|fuel IH]; intros deadline buf r Hfuel Hno Hlen.
  { unfold turns in Hfuel. destruct (buffered r), (incoming r); simpl in Hfuel; lia. }
  cbn [read_line_loop]. destruct (deadline <=? now r) eqn:Ed; b2p.
  { split; [|done]. split; [done|]. by left. }
  destruct (line_cap - length buf =? 0)%nat eqn:Ec; b2p; [lia|].
  pose proof (read_until_ok (incoming r) (line_cap - length buf) 0 buf (buffered r) (now r)) as H.
  replace (mkReader (buffered r) (incoming r) (now r)) with r in H by (by destruct r).
  destruct (read_until _ _ _ _ _ _) as [[o buf'] r'].
  destruct H as [Hlat (got & -> & Hgl & Ho)].
  destruct o as [k| |e].
  - destruct Ho as (-> & Hp & [(l & -> & Hl)|[Hg Hend]]).
    + replace (0 + length (l ++ [LF]))%nat with (S (length l)) by len.
      rewrite app_assoc, ends_line_snoc, <- app_assoc.
      apply line_run_done; [done..|by rewrite no_byte_app, Hno|].
      rewrite length_app in *. simpl in *. lia.
    + assert (Hbg : no_byte LF (buf ++ got) = true) by (by rewrite no_byte_app, Hno).
      destruct (length got) as [|k] eqn:Eg.
      * destruct Hend as [Hend|[Hb Hi]]; [lia|]. apply length_zero_iff_nil in Eg as ->.
        rewrite app_nil_r. apply line_run_eof; [done| |done..].
        rewrite Hp. unfold pending. by rewrite Hb, Hi.
      * cbn [Nat.add]. rewrite ends_line_none by done.
        destruct (line_cap <=? _)%nat eqn:E2; b2p; rewrite length_app in E2.
        { split; [split; [done|]; right; right|done].
          rewrite Hp, app_assoc, line_reference_long; [done..|]. rewrite length_app. lia. }
        apply (line_run_later _ _ got _ r'); [done..|].
        apply IH; [|done|rewrite length_app; lia].
        destruct Hend as [Hend|[Hb Hi]]; [lia|]. eapply turns_eof; eauto. lia.
  - destruct Ho as (Hg & Hp & Hgl' & Hb & Hi). rewrite ends_line_none by (by rewrite no_byte_app, Hno).
    apply (line_run_later _ _ got _ r'); [done..|].
    apply IH; [|by rewrite no_byte_app, Hno|rewrite length_app; lia].
    pose proof (turns_le r'). unfold turns in Hfuel.
    destruct (buffered r), (incoming r); simpl in *; lia.
  - destruct Ho as [t Ht]. split; [|done]. split; [done|]. right; left. eauto.
Qed.

(** The reader, with the fuel it is given *)
Lemma read_line_ok deadline r :
  let '(res, r') := read_bounded_line_until deadline r in
  reads_as deadline r (line_reference (pending r)) res r'
  /\ forall s, res = Ok (Some s) -> pending r = s ++ pending r'.
Proof.
  apply (read_line_loop_ok _ deadline [] r); [|done|unfold line_cap, MAX_LINE_LENGTH; simpl; lia].
  pose proof (turns_le r). lia.
Qed.

(** On a quiet stream only the reference outcome is left. *)
Lemma reads_as_quiet {A} deadline r (reference res : Result IoError A) r' :
  quiet deadline r -> reads_as deadline r reference res r' -> res = reference /\ quiet deadline r'.
Proof.
  intros Hq [Hl H]. split; [|by eapply quiet_later].
  destruct H as [[_ H]|[(e & t & _ & He)|H]]; [|by apply Hq in He as [_ []%(fun H => H e)]|done].
  destruct (quiet_later _ _ _ Hq Hl). lia.
Qed.

(** ** [read_exact_until] against the pending bytes *)

Definition exact_reference (n : nat) (p : list byte) : Result IoError (list byte) :=
  if (n <=? length p)%nat then Ok (take n p) else Err UnexpectedEof.

Definition exact_ok (deadline : Z) (n : nat) (got : list byte) (r : Reader)
    (out : Result IoError (list byte) * Reader) : Prop :=
  let '(res, r') := out in
  reads_as deadline r (exact_reference n (got ++ pending r)) res r'
  /\ forall s, res = Ok s -> got ++ pending r = s ++ pending r' /\ length s = n.

Lemma exact_reference_full n got p : length got = n -> exact_reference n (got ++ p) = Ok got.
Proof.
  intros <-. unfold exact_reference. rewrite (proj2 (Nat.leb_le _ _)) by len.
  by rewrite take_app_length.
Qed.

Lemma exact_reference_short n got :
  (length got < n)%nat -> exact_reference n got = Err UnexpectedEof.
Proof. intros H. unfold exact_reference. by rewrite (proj2 (Nat.leb_gt _ _)). Qed.

(** A turn that moves bytes or drops an event keeps the outcome. *)
Lemma exact_ok_step deadline n got got' r r1 out :
  later r r1 -> got ++ pending r = got' ++ pending r1 ->
  exact_ok deadline n got' r1 out -> exact_ok deadline n got r out.
Proof.
  destruct out as [res r']. intros Hl Hp [[Hl1 H] Hs]. unfold exact_ok. rewrite Hp.
  split; [split; [by eapply later_trans|]|done].
  destruct H as [H|[(e & t & He & Hin)|H]]; [by left| |by right; right].
  right; left. exists e, t. split; [done|]. by apply Hl.
Qed.

Lemma take_buffered_ok n got r :
  let (got', r') := take_buffered n got r in
  later r r' /\ got ++ pending r = got' ++ pending r' /\ incoming r' = incoming r
  /\ (length got' <= Nat.max n (length got))%nat
  /\ (length got < n -> buffered r <> [] -> n <= length got' \/ buffered r' = [])%nat.
Proof.
  unfold take_buffered, pending. cbn [buffered incoming now].
  split; [by destruct r; apply later_consume|].
  set (c := take (n - length got) (buffered r)).
  assert (Hc : buffered r = c ++ drop (length c) (buffered r)).
  { unfold c at 1 2. rewrite length_take.
    destruct (Nat.le_ge_cases (n - length got) (length (buffered r))).
    - rewrite Nat.min_l by done. by rewrite take_drop.
    - rewrite Nat.min_r, take_ge, drop_all, app_nil_r by done. done. }
  split; [rewrite Hc at 1; by rewrite <- !app_assoc|]. split; [done|].
  split; [unfold c; len|]. intros Hn Hb. unfold c. rewrite length_app, !length_take.
  destruct (Nat.le_ge_cases (n - length got) (length (buffered r))); [left; lia|right].
  rewrite Nat.min_r by done. apply drop_all.
Qed.

(** One turn per event, and one more to use up what is buffered *)
Definition exact_turns (n : nat) (got : list byte) (r : Reader) : nat :=
  length (incoming r) + match buffered r with [] => 1 | _ => 2 end.

Lemma read_exact_loop_ok fuel : forall deadline n got r,
  (exact_turns n got r <= fuel \/ (n <= length got /\ 0 < fuel))%nat ->
  (length got <= n)%nat ->
  exact_ok deadline n got r (read_exact_loop fuel deadline n got r).
Proof.
  induction fuel as [|fuel IH]; intros deadline n got r Hfuel Hlen.
  { unfold exact_turns in Hfuel. destruct (buffered r); lia. }
  cbn [read_exact_loop]. destruct (n <=? length got)%nat eqn:En; b2p.
  { split; [split; [done|]; right; right|].
    - rewrite exact_reference_full; [done|lia].
    - intros s [= <-]. split; [done|lia]. }
  destruct Hfuel as [Hfuel|]; [|lia].
  destruct (deadline <=? now r) eqn:Ed; b2p.
  { split; [split; [done|]; by left|done]. }
  destruct r as [b inc t]. cbn [buffered incoming now] in *.
  unfold exact_turns in Hfuel. cbn [buffered incoming] in Hfuel.
  destruct b as [|x b].
  - destruct inc as [|[t' [[|x d]| |e]] inc].
    + split; [split; [done|]; right; right|done].
      unfold pending. simpl. by rewrite app_nil_r, exact_reference_short.
    + split; [split; [by apply later_pop; [intros ? ?%elem_of_nil|]|]; right; right|done].
      unfold pending. simpl. by rewrite app_nil_r, exact_reference_short.
    + pose proof (take_buffered_ok n got (mkReader (x :: d) inc (Z.max t t'))) as H.
      destruct (take_buffered _ _ _) as [got' r1].
      destruct H as (Hl & Hp & Hi & Hg & Hend). cbn [buffered incoming] in *.
      eapply exact_ok_step; [|exact Hp|].
      { eapply later_trans; [|exact Hl]. by apply later_pop. }
      apply IH; [|lia]. destruct (Hend En) as [?|Hb]; [done|right; simpl in *; lia|].
      left. unfold exact_turns. rewrite Hi, Hb. simpl in *. lia.
    + eapply exact_ok_step; [by apply later_pop|reflexivity|].
      apply IH; [|done]. left. unfold exact_turns. simpl in *. lia.
    + split; [split; [by apply later_pop|]|done]. right; left. exists e, t'. split; [done|left].
  - pose proof (take_buffered_ok n got (mkReader (x :: b) inc t)) as H.
    destruct (take_buffered _ _ _) as [got' r1].
    destruct H as (Hl & Hp & Hi & Hg & Hend). cbn [buffered incoming] in *.
    eapply exact_ok_step; [exact Hl|exact Hp|].
    apply IH; [|lia]. destruct (Hend En) as [?|Hb]; [done|right; lia|].
    left. unfold exact_turns. rewrite Hi, Hb. lia.
Qed.

Lemma read_exact_ok n deadline r :
  exact_ok deadline n [] r (read_exact_until n deadline r).
Proof.
  apply read_exact_loop_ok; [|simpl; lia]. left. unfold exact_turns.
  destruct (buffered r); lia.
Qed.

(** ** [read_request] against the client's encoder *)

(** The header line of a request, without its line feed *)
Definition header_of_request (req : Request) : list byte :=
  match req with
  | Get url None => GET_ ++ url
  | Get url (Some etag) => GET_ ++ url ++ IF_NONE_MATCH ++ etag
  | Post url _ => POST_ ++ url
  end.

(** What the server's reader accepts of a well-formed request: a header line
    within the cap, nothing to trim at its end, a body within the limit *)
Definition sendable (req : Request) : Prop :=
  request_wf req /\ (length (header_of_request req) < line_cap)%nat
  /\ match req with
     | Get url None => url <> [] /\ trim_end url = url
     | Get url (Some etag) => etag <> [] /\ trim_end etag = etag
     | Post url body =>
         url <> [] /\ trim_end url = url /\ Z.of_nat (length body) <= MAX_BODY_SIZE
     end.

Lemma trim_line p c u q l :
  p = q :: l -> is_ascii q = true -> ws1 q = false -> is_ascii c = true ->
  u <> [] -> trim_end u = u ->
  trim ((p ++ c :: u) ++ [LF]) = p ++ c :: u.
Proof.
  intros -> Hq Hw Hc Hu Ht. unfold trim.
  cbn [app]. rewrite trim_start_stop by done.
  change (q :: (l ++ c :: u) ++ [LF]) with ((q :: l ++ c :: u) ++ [LF]).
  rewrite trim_end_ws1 by done. by apply (trim_end_app_ascii (q :: l)).
Qed.

Lemma trim_header_of_request req :
  sendable req -> trim (header_of_request req ++ [LF]) = header_of_request req.
Proof.
  intros (Hwf & _ & H). destruct req as [url [etag|]|url body]; unfold header_of_request.
  - destruct H as [He Ht].
    change (GET_ ++ url ++ IF_NONE_MATCH ++ etag)
      with (bs "GET " ++ url ++ bs " IF-NONE-MATCH" ++ SP :: etag).
    replace (bs "GET " ++ url ++ bs " IF-NONE-MATCH" ++ SP :: etag)
      with ((bs "GET " ++ url ++ bs " IF-NONE-MATCH") ++ SP :: etag)
      by (by rewrite <- !app_assoc).
    by eapply trim_line.
  - destruct H as [He Ht]. change (GET_ ++ url) with (bs "GET" ++ SP :: url).
    by eapply trim_line.
  - destruct H as (He & Ht & _). change (POST_ ++ url) with (bs "POST" ++ SP :: url).
    by eapply trim_line.
Qed.

Lemma header_of_request_line req :
  request_wf req -> utf8_valid (header_of_request req) = true
                    /\ no_byte LF (header_of_request req) = true.
Proof.
  destruct req as [url [etag|]|url body]; unfold header_of_request; intros H.
  - destruct H as (Hu & Hn & _ & He & Hne). rewrite !no_byte_app, Hn, Hne.
    by rewrite !utf8_valid_app by done.
  - destruct H as (Hu & Hn & _). rewrite no_byte_app, Hn. by rewrite utf8_valid_app by done.
  - destruct H as (Hu & Hn & _). rewrite no_byte_app, Hn. by rewrite utf8_valid_app by done.
Qed.

Lemma read_line_quiet deadline r line rest :
  quiet deadline r -> pending r = line ++ [LF] ++ rest ->
  utf8_valid line = true -> no_byte LF line = true -> (length line < line_cap)%nat ->
  exists r', read_bounded_line_until deadline r = (Ok (Some (line ++ [LF])), r')
    /\ pending r' = rest /\ quiet deadline r'.
Proof.
  intros Hq Hp Hu Hn Hl. pose proof (read_line_ok deadline r) as H.
  destruct (read_bounded_line_until deadline r) as [res r'].
  destruct H as [H Hs]. apply (reads_as_quiet _ _ _ _ _ Hq) in H as [-> Hq'].
  rewrite Hp, app_assoc in Hs |- *.
  change ((line ++ [LF]) ++ rest) with (([] ++ line ++ [LF]) ++ rest) in Hs |- *.
  pose proof (line_reference_line [] line rest Hn Hl) as Href. cbn [app] in Hs, Href |- *.
  rewrite Href in Hs |- *. unfold finish_line, from_utf8 in *.
  rewrite utf8_valid_app in Hs |- * by done. change (utf8_valid [LF]) with true in *.
  exists r'. split; [done|]. split; [|done].
  by apply (app_inv_head (line ++ [LF])), symmetry, Hs.
Qed.

Lemma read_exact_quiet n deadline r body rest :
  quiet deadline r -> pending r = body ++ rest -> length body = n ->
  exists r', read_exact_until n deadline r = (Ok body, r')
    /\ pending r' = rest /\ quiet deadline r'.
Proof.
  intros Hq Hp Hn. pose proof (read_exact_ok n deadline r) as H.
  destruct (read_exact_until n deadline r) as [res r'].
  destruct H as [H Hs]. apply (reads_as_quiet _ _ _ _ _ Hq) in H as [-> Hq'].
  cbn [app] in Hs |- *. rewrite Hp in Hs |- *.
  rewrite exact_reference_full in Hs |- * by done.
  exists r'. split; [done|]. split; [|done].
  destruct (Hs body eq_refl) as [Hs' _]. by apply app_inv_head in Hs'.
Qed.

Lemma read_encoded_request deadline r req rest :
  quiet deadline r -> sendable req -> pending r = encode_request req ++ rest ->
  exists r', read_request deadline r = (Ok (Some req), r')
    /\ pending r' = rest /\ quiet deadline r'.
Proof.
  intros Hq Hs Hp. pose proof (trim_header_of_request req Hs) as Htrim.
  destruct Hs as (Hwf & Hlen & Hreq).
  destruct (header_of_request_line req Hwf) as [Hu Hn].
  set (tail := match req with
               | Get _ _ => rest
               | Post _ body => to_be_bytes (as_u32 (Z.of_nat (length body))) ++ body ++ rest
               end).
  assert (Hp' : pending r = header_of_request req ++ [LF] ++ tail).
  { rewrite Hp. unfold tail. destruct req as [url [etag|]|url body];
      unfold encode_request, header_of_request; by rewrite <- !app_assoc. }
  destruct (read_line_quiet deadline r _ tail Hq Hp' Hu Hn Hlen) as (r1 & Hr & Hp1 & Hq1).
  unfold read_request, mbind, M_bind. rewrite Hr, Htrim.
  destruct req as [url [etag|]|url body]; unfold tail in *; cbn [header_of_request].
    rewrite drop_app_length' by done.
    rewrite bool_decide_false by (by destruct url).
    destruct Hwf as (_ & _ & Hc & _). rewrite sentinel_split by done. by exists r1.
  - rewrite starts_with_app, drop_app_length' by done.
    destruct Hreq as [Hne _]. rewrite bool_decide_false by done.
    destruct Hwf as (_ & _ & Hc). rewrite (proj2 (split_once_None _ _)) by done. by exists r1.
  - change (starts_with GET_ (POST_ ++ url)) with false. cbv iota.
    rewrite starts_with_app, drop_app_length' by done.
    destruct Hreq as (Hne & _ & Hb). rewrite bool_decide_false by done.
    destruct Hwf as (_ & _ & Hb32).
    destruct (read_exact_quiet 4 deadline r1 _ _ Hq1 Hp1 eq_refl) as (r2 & Hr2 & Hp2 & Hq2).
    rewrite Hr2. unfold to_be_bytes.
    rewrite as_u32_small by lia. rewrite be_bytes_roundtrip by lia.
    rewrite (proj2 (Z.ltb_ge _ _)) by done. rewrite Nat2Z.id.
    destruct (read_exact_quiet _ deadline r2 _ _ Hq2 Hp2 eq_refl) as (r3 & -> & Hp3 & Hq3).
    by exists r3.
Qed.

(** ** What any input can lead to *)

Lemma trim_while_head w1 w2 w3 l a t : trim_while w1 w2 w3 l = a :: t -> w1 a = false.
Proof.
  induction l as [l IH] using length_ind.
  destruct l as [|x l]; simpl; [done|]. destruct (w1 x) eqn:Ex; [apply IH; simpl; lia|].
  destruct l as [|y l]; [by intros [= <- _]|].
  destruct (w2 x y); [apply IH; simpl; lia|].
  destruct l as [|z l]; [by intros [= <- _]|].
  destruct (w3 x y z); [apply IH; simpl; lia|by intros [= <- _]].
Qed.

Lemma trim_length l : (length (trim l) <= length l)%nat.
Proof.
  unfold trim, trim_end, trim_start. rewrite length_rev.
  etrans; [apply trim_while_length|]. rewrite length_rev. apply trim_while_length.
Qed.

Lemma trim_no_final_space l u : trim l <> u ++ [SP].
Proof.
  unfold trim, trim_end. intros H. apply (f_equal (@rev byte)) in H.
  rewrite rev_involutive, rev_app_distr in H. simpl in H.
  apply trim_while_head in H. by vm_compute in H.
Qed.

Lemma line_reference_bound p s :
  line_reference p = Ok (Some s) -> (length s <= line_cap)%nat.
Proof.
  unfold line_reference. destruct (position _ _) as [i|] eqn:E.
  - intros ->%finish_line_Ok. apply position_lt in E. rewrite length_take in *. lia.
  - destruct (line_cap <=? _)%nat; [done|]. by case_bool_decide.
Qed.

Lemma line_reference_returns p : returns (line_reference p).
Proof.
  unfold line_reference, finish_line, from_utf8. destruct (position _ _); [by case_match|].
  destruct (_ <=? _)%nat; [done|]. by case_bool_decide.
Qed.

Lemma reads_as_returns {A} deadline r (reference res : Result IoError A) r' :
  returns reference -> reads_as deadline r reference res r' -> returns res.
Proof. by intros Hr [_ [[-> _]|[(? & ? & -> & _)| ->]]]. Qed.

(** The outcomes of [read_request] on any stream *)
Definition request_outcome (res : Result IoError (option Request)) : Prop :=
  match res with
  | Ok (Some (Get url _)) => (length url <= line_cap - 4)%nat
  | Ok (Some (Post url body)) =>
      url <> [] /\ (length url <= line_cap - 5)%nat /\ Z.of_nat (length body) <= MAX_BODY_SIZE
  | Ok None => True
  | Err e => e <> InvalidData (bs "Empty URL")
  | Panic | Spin => False
  end.

Lemma reads_as_error {A} deadline r (reference res : Result IoError A) r' e :
  (forall e', reference = Err e' -> e' <> e) -> (forall m, e <> Io m) -> e <> TimedOut ->
  reads_as deadline r reference res r' -> res <> Err e.
Proof.
  intros Hr Hio Ht [_ [[-> _]|[(m & ? & -> & _)| ->]]]; [congruence|naive_solver|].
  intros H. by eapply Hr.
Qed.

Lemma read_line_outcome deadline r :
  let '(res, r') := read_bounded_line_until deadline r in
  later r r' /\ returns res /\ res <> Err (InvalidData (bs "Empty URL"))
  /\ forall s, res = Ok (Some s) -> (length s <= line_cap)%nat.
Proof.
  pose proof (read_line_ok deadline r) as H.
  destruct (read_bounded_line_until deadline r) as [res r']. destruct H as [H _].
  split_and!; [apply H|by eapply reads_as_returns, H; apply line_reference_returns| |].
  - eapply reads_as_error; [|done|done|exact H]. intros e'.
    unfold line_reference, finish_line. repeat case_match; intros; simplify_eq; done.
  - destruct H as [_ [[-> _]|[(? & ? & -> & _)| ->]]]; [done..|]. apply line_reference_bound.
Qed.

Lemma read_exact_outcome n deadline r :
  let '(res, r') := read_exact_until n deadline r in
  later r r' /\ returns res /\ res <> Err (InvalidData (bs "Empty URL"))
  /\ forall s, res = Ok s -> length s = n.
Proof.
  pose proof (read_exact_ok n deadline r) as H.
  destruct (read_exact_until n deadline r) as [res r']. destruct H as [H Hs].
  split_and!; [apply H| | |intros s E; by apply Hs].
  - eapply reads_as_returns, H. unfold exact_reference. by case_match.
  - eapply reads_as_error; [|done|done|exact H]. intros e'. unfold exact_reference.
    by case_match; intros; simplify_eq.
Qed.

Lemma read_request_outcome deadline r :
  let '(res, r') := read_request deadline r in later r r' /\ request_outcome res.
Proof.
  unfold read_request, mbind, M_bind. pose proof (read_line_outcome deadline r) as H.
  destruct (read_bounded_line_until deadline r) as [res r1].
  destruct H as (Hl & Hret & Hne & Hlen).
  destruct res as [[line|]|e| |]; [|done|by split; [|intros ->]|done|done].
  specialize (Hlen line eq_refl). pose proof (trim_length line) as Htl.
  pose proof (trim_no_final_space line) as Hsp.
  destruct (starts_with GET_ (trim line)) eqn:Eg.
  { apply starts_with_spec in Eg as [url Eg]. rewrite Eg in *.
    rewrite drop_app_length' by done.
    case_bool_decide as Eu; [subst; by destruct (Hsp (bs "GET"))|].
    assert (Hu : (length url <= line_cap - 4)%nat)
      by (rewrite length_app in Htl; cbn in Htl; lia).
    split; [done|]. unfold request_outcome. destruct (split_once _ url) as [[u e]|] eqn:Es; [|done].
    apply split_once_Some in Es as ->. rewrite length_app in Hu. lia. }
  destruct (starts_with POST_ (trim line)) eqn:Ep; [|by split].
  apply starts_with_spec in Ep as [url Ep]. rewrite Ep in *.
  rewrite drop_app_length' by done.
  case_bool_decide as Eu; [subst; by destruct (Hsp (bs "POST"))|].
  pose proof (read_exact_outcome 4 deadline r1) as H.
  destruct (read_exact_until 4 deadline r1) as [res r2].
  destruct H as (Hl2 & Hret2 & Hne2 & Hlen2).
  pose proof (later_trans _ _ _ Hl Hl2).
  destruct res as [lb|e| |]; [|by split; [|intros ->]|done|done].
  specialize (Hlen2 lb eq_refl).
  destruct lb as [|b0 [|b1 [|b2 [|b3 [|? ?]]]]]; try done.
  destruct (_ <? _) eqn:Eb; b2p; [by split|].
  pose proof (read_exact_outcome (Z.to_nat (from_be_bytes b0 b1 b2 b3)) deadline r2) as H3.
  destruct (read_exact_until _ deadline r2) as [res r3].
  destruct H3 as (Hl3 & Hret3 & Hne3 & Hlen3).
  pose proof (later_trans _ _ _ H Hl3).
  destruct res as [body|e| |]; [|by split; [|intros ->]|done|done].
  split; [done|]. specialize (Hlen3 body eq_refl).
  pose proof (from_be_bytes_range b0 b1 b2 b3).
  split; [done|]. split; [rewrite length_app in Htl; cbn in Htl; lia|lia].
Qed.

(** A request uses up at least its header line. *)
Lemma read_request_consumes deadline r req r' :
  read_request deadline r = (Ok (Some req), r') ->
  (length (pending r') < length (pending r))%nat.
Proof.
  unfold read_request, mbind, M_bind. pose proof (read_line_ok deadline r) as Hl.
  destruct (read_bounded_line_until deadline r) as [[[line|]|e| |] r1]; try done.
  destruct Hl as [_ Hl]. specialize (Hl line eq_refl).
  pose proof (trim_length line) as Htl.
  assert (Hexact : forall n d ra, match read_exact_until n d ra with
            | (Ok _, rb) => (length (pending rb) <= length (pending ra))%nat | _ => True end).
  { intros n d ra. pose proof (read_exact_ok n d ra) as H.
    destruct (read_exact_until n d ra) as [[s|e| |] rb]; try done.
    destruct H as [_ H]. destruct (H s eq_refl) as [Hp _]. simpl in Hp. rewrite Hp. len. }
  destruct (starts_with GET_ (trim line)) eqn:Eg.
  { apply starts_with_length in Eg. cbn in Eg. case_bool_decide; [done|].
    intros [= _ <-]. rewrite Hl, length_app. lia. }
  destruct (starts_with POST_ (trim line)) eqn:Ep; [|done].
  apply starts_with_length in Ep. cbn in Ep. case_bool_decide; [done|].
  pose proof (Hexact 4%nat deadline r1) as H4.
  destruct (read_exact_until 4 deadline r1) as [[lb|e| |] r2]; try done.
  destruct lb as [|b0 [|b1 [|b2 [|b3 [|? ?]]]]]; try done.
  destruct (_ <? _); [done|].
  pose proof (Hexact (Z.to_nat (from_be_bytes b0 b1 b2 b3)) deadline r2) as H5.
  destruct (read_exact_until _ deadline r2) as [[body|e| |] r3]; try done.
  intros [= _ <-]. rewrite Hl, length_app. lia.
Qed.

(** ** Reading looks no further than it has to *)

(** More will be reported. *)
Definition feed (more : list (Z * ReadEvent)) (r : Reader) : Reader :=
  mkReader (buffered r) (incoming r ++ more) (now r).
(** The clock when the last of [evs] has been reported *)
Definition arrival (t : Z) (evs : list (Z * ReadEvent)) : Z := fold_left (fun t e => Z.max t (fst e)) evs t.
(** Reading has used up some events, and the clock is where they leave it. *)
Definition passed (r r' : Reader) : Prop :=
  exists used, incoming r = used ++ incoming r' /\ now r' = arrival (now r) used.
Lemma arrival_app t es1 es2 : arrival t (es1 ++ es2) = arrival (arrival t es1) es2.
Proof. apply fold_left_app. Qed.
Lemma passed_refl r : passed r r.
Proof. by exists []. Qed.
Lemma passed_buffer b b' inc t : passed (mkReader b inc t) (mkReader b' inc t).
Proof. by exists []. Qed.
Lemma passed_trans r1 r2 r3 : passed r1 r2 -> passed r2 r3 -> passed r1 r3.
Proof.
  intros (u1 & Hi1 & Hn1) (u2 & Hi2 & Hn2). exists (u1 ++ u2).
  by rewrite Hi1, Hi2, arrival_app, <- Hn1, app_assoc.
Qed.
Lemma passed_event b b' e inc t : passed (mkReader b (e :: inc) t) (mkReader b' inc (Z.max t (fst e))).
Proof. by exists [e]. Qed.
#[export] Hint Resolve passed_refl passed_buffer passed_event : core.

(** [read_until] is local, unless it comes to the end of the stream. *)
Lemma read_until_local inc : forall limit n buf avail t,
  no_byte LF buf = true ->
  let '(o, buf', r') := read_until limit n buf avail inc t in
  (passed (mkReader avail inc t) r'
   /\ forall more, read_until limit n buf avail (inc ++ more) t = (o, buf', feed more r'))
  \/ (exists k, o = Got k) /\ no_byte LF buf' = true /\ buffered r' = [] /\ incoming r' = [].
Proof.
  induction inc as [|[t' ev] inc IH]; intros limit n buf avail t Hb; cbn [read_until app].
  all: destruct (position (Byte.eqb LF) (take limit avail)) as [i|] eqn:Hpos; [left; split; [done|];
    intros more; destruct more; cbn [read_until]; by rewrite ?Hpos|].
  all: pose proof (proj1 (position_take_none _) Hpos) as Hno.
  all: destruct (limit - length (take limit avail) =? 0)%nat eqn:El; [left; split; [done|];
    intros more; destruct more; cbn [read_until]; by rewrite ?Hpos, ?El|].
  - right. rewrite no_byte_app, Hb, Hno. split_and!; eauto.
  - destruct ev as [[|b d]| |e].
    + right. rewrite no_byte_app, Hb, Hno. split_and!; eauto.
    + specialize (IH (limit - length (take limit avail))%nat (n + length (take limit avail))%nat
        (buf ++ take limit avail) (b :: d) (Z.max t t')).
      rewrite no_byte_app, Hb, Hno in IH. specialize (IH eq_refl).
      destruct (read_until _ _ _ _ _ _) as [[o buf'] r']. destruct IH as [[Hp Hm]|He]; [|by right].
      left. split; [|done]. eapply passed_trans; [apply passed_event|exact Hp].
    + left. split; [apply passed_event|done].
    + left. split; [apply passed_event|done].
Qed.

(** Nothing is read after the end of the stream. *)
Lemma read_line_loop_ended fuel deadline buf r s r' :
  buffered r = [] -> incoming r = [] -> read_line_loop fuel deadline buf r <> (Ok (Some s), r').
Proof.
  intros Hb Hi. destruct fuel as [|fuel]; [done|]. cbn [read_line_loop]. rewrite Hb, Hi.
  destruct (deadline <=? now r); [done|]. destruct (line_cap - length buf =? 0)%nat eqn:E; [done|].
  cbn [read_until]. rewrite take_nil. cbn [position length]. rewrite Nat.sub_0_r, E. cbn [Nat.add].
  by case_bool_decide.
Qed.

Lemma read_line_loop_local fuel : forall deadline buf r s r',
  no_byte LF buf = true -> read_line_loop fuel deadline buf r = (Ok (Some s), r') ->
  passed r r' /\ forall more fuel', (fuel <= fuel')%nat ->
    read_line_loop fuel' deadline buf (feed more r) = (Ok (Some s), feed more r').
Proof.
  induction fuel as [|fuel IH]; intros deadline buf r s r' Hno Hr; [done|].
  cbn [read_line_loop] in Hr.
  destruct (deadline <=? now r) eqn:Ed; [done|].
  destruct (line_cap - length buf =? 0)%nat eqn:Ec; [done|].
  pose proof (read_until_local (incoming r) (line_cap - length buf) 0 buf (buffered r) (now r) Hno) as Hl.
  pose proof (read_until_ok (incoming r) (line_cap - length buf) 0 buf (buffered r) (now r)) as Hok.
  destruct (read_until _ _ _ _ _ _) as [[o buf'] r1] eqn:Eu.
  destruct Hl as [[Hp Hm]|((k & ->) & Hno' & Hb & Hi)].
  2:{ destruct k as [|k]; [by case_bool_decide|]. rewrite ends_line_none in Hr by done.
      destruct (line_cap <=? length buf')%nat; [done|]. by apply read_line_loop_ended in Hr. }
  replace (mkReader (buffered r) (incoming r) (now r)) with r in Hp by (by destruct r).
  assert (Hgo : forall r2, passed r1 r2 -> passed r r2) by (intros r2; by apply passed_trans).
  destruct o as [[|k]| |e]; [by destruct (bool_decide (buf' = []))| | |done].
  all: destruct (ends_line buf') eqn:Ee.
  1, 3: injection Hr as Hf <-; split; [done|]; intros more [|fuel'] Hle; [lia|];
    cbn [read_line_loop feed now buffered incoming]; by rewrite Ed, Ec, Hm, Ee, Hf.
  all: destruct Hok as (_ & got & -> & _ & Hgot).
  all: assert (Hno' : no_byte LF (buf ++ got) = true) by
    (rewrite no_byte_app, Hno; first [apply Hgot|
       destruct Hgot as (_ & _ & [(l & -> & _)|[-> _]]); [by rewrite app_assoc, ends_line_snoc in Ee|done]]).
  1: destruct (line_cap <=? length (buf ++ got))%nat eqn:E2; [done|].
  all: destruct (IH deadline (buf ++ got) r1 s r' Hno' Hr) as [Hp' Hm']; split; [by apply Hgo|];
    intros more [|fuel'] Hle; [lia|]; cbn [read_line_loop feed now buffered incoming];
    rewrite Ed, Ec, Hm, Ee, ?E2; apply Hm'; lia.
Qed.

Lemma read_line_local deadline r s r' :
  read_bounded_line_until deadline r = (Ok (Some s), r') ->
  passed r r' /\ forall more, read_bounded_line_until deadline (feed more r) = (Ok (Some s), feed more r').
Proof.
  intros Hr. destruct (read_line_loop_local _ deadline [] r s r' eq_refl Hr) as [Hp Hm].
  split; [done|]. intros more. apply Hm. cbn [feed incoming]. rewrite length_app. lia.
Qed.

Lemma read_exact_loop_local fuel : forall deadline n got r s r',
  read_exact_loop fuel deadline n got r = (Ok s, r') ->
  passed r r' /\ forall more fuel', (fuel <= fuel')%nat ->
    read_exact_loop fuel' deadline n got (feed more r) = (Ok s, feed more r').
Proof.
  induction fuel as [|fuel IH]; intros deadline n got [b inc t] s r' Hr; [done|].
  cbn [read_exact_loop buffered incoming now] in Hr.
  destruct (n <=? length got)%nat eqn:En.
  { injection Hr as <- <-. split; [done|]. intros more [|fuel'] Hle; [lia|].
    cbn [read_exact_loop feed buffered incoming now]. by rewrite En. }
  destruct (deadline <=? t) eqn:Ed; [done|].
  assert (Hnext : forall b1 b2 u inc2 got',
    inc = u ++ inc2 -> read_exact_loop fuel deadline n got' (mkReader b2 inc2 (arrival t u)) = (Ok s, r') ->
    passed (mkReader b1 inc t) r' /\ forall more fuel', (fuel <= fuel')%nat ->
      read_exact_loop fuel' deadline n got' (mkReader b2 (inc2 ++ more) (arrival t u)) = (Ok s, feed more r')).
  { intros b1 b2 u inc2 got' -> H. destruct (IH _ _ _ _ _ _ H) as [Hp Hm]. split; [|exact Hm].
    eapply passed_trans; [|exact Hp]. by exists u. }
  destruct b as [|x b].
  - destruct inc as [|[t' [[|y d]| |e]] inc]; [done|done| | |done].
    + destruct (Hnext [] _ [(t', Data (y :: d))] inc _ eq_refl Hr) as [Hp Hm]. split; [exact Hp|].
      intros more [|fuel'] Hle; [lia|]. cbn [read_exact_loop feed buffered incoming now app].
      rewrite En, Ed. apply Hm. lia.
    + destruct (Hnext [] _ [(t', Tick)] inc _ eq_refl Hr) as [Hp Hm]. split; [exact Hp|].
      intros more [|fuel'] Hle; [lia|]. cbn [read_exact_loop feed buffered incoming now app].
      rewrite En, Ed. apply Hm. lia.
  - destruct (Hnext (x :: b) _ [] inc _ eq_refl Hr) as [Hp Hm]. split; [exact Hp|].
    intros more [|fuel'] Hle; [lia|]. cbn [read_exact_loop feed buffered incoming now app].
    rewrite En, Ed. apply Hm. lia.
Qed.

Lemma read_exact_local n deadline r s r' :
  read_exact_until n deadline r = (Ok s, r') ->
  passed r r' /\ forall more, read_exact_until n deadline (feed more r) = (Ok s, feed more r').
Proof.
  intros Hr. destruct (read_exact_loop_local _ deadline n [] r s r' Hr) as [Hp Hm].
  split; [done|]. intros more. apply Hm. cbn [feed incoming]. rewrite length_app. lia.
Qed.

(** A request that could be read is read, and the rest left, whatever comes later. *)
Lemma read_request_local deadline r req r' :
  read_request deadline r = (Ok (Some req), r') ->
  passed r r' /\ forall more, read_request deadline (feed more r) = (Ok (Some req), feed more r').
Proof.
  unfold read_request, mbind, M_bind.
  destruct (read_bounded_line_until deadline r) as [[[line|]|e| |] r1] eqn:El; try done.
  destruct (read_line_local _ _ _ _ El) as [Hp1 Hm1].
  destruct (starts_with GET_ (trim line)) eqn:Eg.
  { case_bool_decide as Hn; [done|]. intros [= <- <-]. split; [done|]. intros more.
    rewrite Hm1, Eg. by rewrite bool_decide_false. }
  destruct (starts_with POST_ (trim line)) eqn:Ep; [|done]. case_bool_decide as Hn; [done|].
  destruct (read_exact_until 4 deadline r1) as [[lb|e| |] r2] eqn:E4; try done.
  destruct (read_exact_local _ _ _ _ _ E4) as [Hp2 Hm2].
  destruct lb as [|b0 [|b1 [|b2 [|b3 [|? ?]]]]]; try done.
  destruct (MAX_BODY_SIZE <? from_be_bytes b0 b1 b2 b3) eqn:Es; [done|].
  destruct (read_exact_until _ deadline r2) as [[body|e| |] r3] eqn:E5; try done.
  destruct (read_exact_local _ _ _ _ _ E5) as [Hp3 Hm3].
  intros [= <- <-]. split; [eapply passed_trans; [|eapply passed_trans]; done|]. intros more.
  rewrite Hm1, Eg, Ep, (bool_decide_false _ Hn), Hm2, Es. by rewrite Hm3.
Qed.

(** ** Properties *)

(** C23: the line reader depends on the bytes only, not on how they are cut into
    chunks or interleaved with timeouts: on a stream with no late or broken
    event it gives the first line of at most 1025 bytes, or the error of the
    reference, and leaves exactly the rest; on any stream the only other
    outcomes are the deadline and the socket's own error. *)
Theorem read_bounded_line_chunking deadline r :
  let '(res, r') := read_bounded_line_until deadline r in
  reads_as deadline r (line_reference (pending r)) res r'
  /\ (quiet deadline r -> res = line_reference (pending r))
  /\ (forall s, res = Ok (Some s) -> pending r = s ++ pending r' /\ (length s <= 1025)%nat).
Proof.
  pose proof (read_line_ok deadline r) as H. pose proof (read_line_outcome deadline r) as Ho.
  destruct (read_bounded_line_until deadline r) as [res r'].
  destruct H as [H Hs], Ho as (_ & _ & _ & Hlen).
  split; [done|]. split; [|by auto].
  intros Hq. by apply (reads_as_quiet _ _ _ _ _ Hq) in H as [-> _].
Qed.

(** C22: what the client's encoder writes, the server reads back: for a sendable
    request followed by any bytes, in any chunking before the deadline,
    [read_request] returns that request and leaves the following bytes. *)
Theorem read_request_roundtrip deadline r req rest :
  quiet deadline r -> sendable req -> pending r = encode_request req ++ rest ->
  exists r', read_request deadline r = (Ok (Some req), r')
    /\ pending r' = rest /\ quiet deadline r'.
Proof. apply read_encoded_request. Qed.

Definition slow_reader : Reader :=
  mkReader (bs "GE") [(10, Tick); (20, Data (bs "T http://a/ ")); (30, Tick);
    (40, Data (bs "IF-NONE-MATCH abc" ++ [LF] ++ bs "GET"))] 0.

Lemma read_request_roundtrip_witness :
  exists r', read_request 100 slow_reader = (Ok (Some (Get (bs "http://a/") (Some (bs "abc")))), r')
    /\ pending r' = bs "GET" /\ quiet 100 r'.
Proof.
  apply (read_request_roundtrip 100 slow_reader (Get (bs "http://a/") (Some (bs "abc"))) (bs "GET")).
  - split; [reflexivity|]. intros t e He. unfold slow_reader in He. simpl in He.
    repeat (apply elem_of_cons in He as [He|He]; [injection He as -> ->; split; [lia|discriminate]|]).
    destruct (not_elem_of_nil _ He).
  - split; [|split].
    + vm_compute. repeat split.
    + apply Nat.ltb_lt. reflexivity.
    + split; [discriminate|reflexivity].
  - reflexivity.
Defined.

(** On any stream whatever, [read_request] returns; an accepted request has
    a URL that fits the line cap and a body of at most 1 MiB, and the
    "Empty URL" error is never the outcome, because the header is trimmed
    before its prefix is tested. *)
Theorem read_request_bounded deadline r :
  let '(res, r') := read_request deadline r in
  returns res /\ request_outcome res /\ later r r'.
Proof.
  pose proof (read_request_outcome deadline r) as H.
  destruct (read_request deadline r) as [res r']. destruct H as [Hl Ho].
  split; [|done]. by destruct res.
Qed.
