(* ===== verification/Admission.v ===== *)
(** * Connection admission ([main] of [server/src/main.rs])

    The accept loop and the connection threads share an atomic counter and a
    map of per-address counts.  Each atomic access or critical section is one
    step, so that the accept loop and the guards of finishing threads
    interleave freely. *)
From Stdlib Require Import ZArith Lia Strings.Byte.
From stdpp Require Import base decidable list gmap.
From S2P Require Import Prelude Bytes Numbers NetAddr.

Definition MAX_CONNECTIONS : Z := 50.
Definition MAX_CONNECTIONS_PER_IP : Z := 5.

(** [PeerCounts] *)
Abbreviation PeerCounts := (gmap IpAddr Z).

(** [map.entry(ip).or_insert(0)], the cap and the increment: [false] when the
    connection is rejected *)
Definition claim_peer (ip : IpAddr) (m : PeerCounts) : bool * PeerCounts :=
  let entry := default 0 (m !! ip) in
  let m := match m !! ip with Some _ => m | None => <[ip := 0]> m end in
  if MAX_CONNECTIONS_PER_IP <=? entry then (false, m) else (true, <[ip := entry + 1]> m).

(** The decrement of [PeerGuard::drop] and of the rejection path *)
Definition release_peer (peer : option IpAddr) (m : PeerCounts) : PeerCounts :=
  match peer with
  | None => m
  | Some ip =>
      match m !! ip with
      | None => m
      | Some c =>
          let c := Z.max 0 (c - 1) in
          if c =? 0 then delete ip m else <[ip := c]> m
      end
  end.

(** [AtomicUsize::fetch_add(1)], [fetch_sub(1)]: they wrap *)
Definition fetch_add (c : Z) : Z := as_u64 (c + 1).
Definition fetch_sub (c : Z) : Z := as_u64 (c - 1).

(** Where the accept loop is: waiting, holding a per-address slot, or backing
    out of a full server before and after it gives the global slot back *)
Inductive Phase : Type :=
| Accepting
| PeerClaimed (peer : option IpAddr)
| Overflowed (peer : option IpAddr)
| BackingOut (peer : option IpAddr).

(** A connection thread: running, or past [PeerGuard::drop] and before
    [ConnGuard::drop] (locals drop in reverse order) *)
Inductive Thread : Type :=
| Serving (peer : option IpAddr)
| PeerDropped (peer : option IpAddr).

#[export] Instance Thread_eq_dec : EqDecision Thread.
Proof. solve_decision. Defined.

Record State : Type := mkState {
  connection_count : Z;
  peer_counts : PeerCounts;
  phase : Phase;
  threads : list Thread }.

Definition init : State := mkState 0 ∅ Accepting [].

Inductive step : State -> State -> Prop :=
(** a connection whose peer is unknown, or whose address still has room *)
| step_unknown_peer c m ts :
    step (mkState c m Accepting ts) (mkState c m (PeerClaimed None) ts)
| step_claim_peer c m ts ip m' :
    claim_peer ip m = (true, m') ->
    step (mkState c m Accepting ts) (mkState c m' (PeerClaimed (Some ip)) ts)
| step_reject_peer c m ts ip m' :
    claim_peer ip m = (false, m') ->
    step (mkState c m Accepting ts) (mkState c m' Accepting ts)
(** [let prev = count.fetch_add(1)] and its test *)
| step_admit c m p ts :
    c < MAX_CONNECTIONS ->
    step (mkState c m (PeerClaimed p) ts)
         (mkState (fetch_add c) m Accepting (Serving p :: ts))
| step_overflow c m p ts :
    MAX_CONNECTIONS <= c ->
    step (mkState c m (PeerClaimed p) ts) (mkState (fetch_add c) m (Overflowed p) ts)
| step_give_back c m p ts :
    step (mkState c m (Overflowed p) ts) (mkState (fetch_sub c) m (BackingOut p) ts)
| step_back_out c m p ts :
    step (mkState c m (BackingOut p) ts) (mkState c (release_peer p m) Accepting ts)
(** [handle_connection] returned or panicked: the guards drop *)
| step_drop_peer c m ph ts1 p ts2 :
    step (mkState c m ph (ts1 ++ Serving p :: ts2))
         (mkState c (release_peer p m) ph (ts1 ++ PeerDropped p :: ts2))
| step_drop_conn c m ph ts1 p ts2 :
    step (mkState c m ph (ts1 ++ PeerDropped p :: ts2))
         (mkState (fetch_sub c) m ph (ts1 ++ ts2)).

Definition reachable : State -> Prop := rtc step init.

(** ** The invariant *)

(** Slots of address [ip] held by a thread and by the accept loop *)
Definition holds (ip : IpAddr) (p : option IpAddr) : Z :=
  if decide (p = Some ip) then 1 else 0.
Definition thread_slots (ip : IpAddr) (t : Thread) : Z :=
  match t with Serving p => holds ip p | PeerDropped _ => 0 end.
Definition phase_slots (ip : IpAddr) (ph : Phase) : Z :=
  match ph with
  | Accepting => 0
  | PeerClaimed p | Overflowed p | BackingOut p => holds ip p
  end.
Fixpoint slots (ip : IpAddr) (ts : list Thread) : Z :=
  match ts with [] => 0 | t :: ts => thread_slots ip t + slots ip ts end.

Definition overflow_slot (ph : Phase) : Z := match ph with Overflowed _ => 1 | _ => 0 end.

Record inv (s : State) : Prop := mkInv {
  (** the counter counts the threads, and the slot being given back *)
  inv_count : connection_count s = Z.of_nat (length (threads s)) + overflow_slot (phase s);
  inv_cap : Z.of_nat (length (threads s)) <= MAX_CONNECTIONS;
  (** each address's entry counts the slots it holds; no entry is 0 *)
  inv_peers ip : default 0 (peer_counts s !! ip)
                 = slots ip (threads s) + phase_slots ip (phase s);
  inv_peer_cap ip : default 0 (peer_counts s !! ip) <= MAX_CONNECTIONS_PER_IP;
  inv_positive ip n : peer_counts s !! ip = Some n -> 0 < n }.

Lemma holds_nonneg ip p : 0 <= holds ip p.
Proof. unfold holds. case_decide; lia. Qed.
Lemma slots_nonneg ip ts : 0 <= slots ip ts.
Proof.
  induction ts as [|[p|p] ts IH]; simpl; [lia| |lia].
  pose proof (holds_nonneg ip p). lia.
Qed.
Lemma slots_app ip ts1 ts2 : slots ip (ts1 ++ ts2) = slots ip ts1 + slots ip ts2.
Proof. induction ts1 as [|t ts1 IH]; simpl; lia. Qed.

Lemma holds_other ip p : p <> Some ip -> holds ip p = 0.
Proof. intros. unfold holds. by case_decide. Qed.

(** Releasing a slot decrements exactly the holder's entry. *)
Lemma release_peer_lookup p m ip :
  (forall i n, m !! i = Some n -> 0 < n) ->
  default 0 (release_peer p m !! ip) = Z.max 0 (default 0 (m !! ip) - holds ip p)
  /\ forall n, release_peer p m !! ip = Some n -> 0 < n.
Proof.
  intros Hpos. assert (0 <= default 0 (m !! ip)) as H0.
  { destruct (m !! ip) eqn:E; simpl; [|lia]. apply Hpos in E. lia. }
  destruct p as [i|]; simpl.
  2: { rewrite holds_other by done. split; [lia|apply Hpos]. }
  destruct (decide (i = ip)) as [->|Hne].
  - unfold holds. rewrite decide_True by done.
    destruct (m !! ip) as [c|] eqn:E.
    + specialize (Hpos _ _ E). destruct (_ =? 0) eqn:Ec; b2p.
      * rewrite lookup_delete_eq. simpl. split; [lia|done].
      * rewrite lookup_insert_eq. simpl. split; [lia|]. intros n [= <-]. lia.
    + rewrite E. simpl. split; [lia|done].
  - rewrite holds_other by congruence.
    assert (release_peer (Some i) m !! ip = m !! ip) as Heq.
    { simpl. destruct (m !! i); [|done]. destruct (_ =? 0);
        [by rewrite lookup_delete_ne|by rewrite lookup_insert_ne]. }
    simpl in Heq. rewrite Heq. split; [lia|apply Hpos].
Qed.

Lemma claim_peer_spec i m b m' ip :
  claim_peer i m = (b, m') -> (forall j n, m !! j = Some n -> 0 < n) ->
  (if b then default 0 (m !! i) < MAX_CONNECTIONS_PER_IP
     /\ default 0 (m' !! ip) = default 0 (m !! ip) + holds ip (Some i)
   else MAX_CONNECTIONS_PER_IP <= default 0 (m !! i) /\ m' = m)
  /\ forall n, m' !! ip = Some n -> 0 < n.
Proof.
  unfold claim_peer. intros H Hpos.
  assert (0 <= default 0 (m !! i)) as H0.
  { destruct (m !! i) eqn:E; simpl; [|lia]. apply Hpos in E. lia. }
  destruct (_ <=? _) eqn:E; b2p; injection H as <- <-.
  - unfold MAX_CONNECTIONS_PER_IP in *. destruct (m !! i) eqn:Ei; simpl in E; [|lia].
    simpl. split; [done|apply Hpos].
  - set (m1 := match m !! i with Some _ => m | None => <[i:=0]> m end).
    destruct (decide (i = ip)) as [->|Hne].
    + rewrite lookup_insert_eq. simpl. unfold holds. rewrite decide_True by done.
      split; [lia|]. intros n [= <-]. lia.
    + assert (m1 !! ip = m !! ip) as Hm1
        by (unfold m1; destruct (m !! i); [done|by rewrite lookup_insert_ne]).
      rewrite lookup_insert_ne, Hm1 by done. rewrite holds_other by congruence.
      split; [lia|apply Hpos].
Qed.

(** ** Preservation *)

Lemma inv_init : inv init.
Proof.
  constructor; simpl; try (by unfold MAX_CONNECTIONS_PER_IP; intros; rewrite ?lookup_empty in *).
Qed.

Lemma fetch_add_small c : 0 <= c <= MAX_CONNECTIONS -> fetch_add c = c + 1.
Proof. unfold fetch_add, MAX_CONNECTIONS. intros. apply as_u64_small. unfold u64_max. lia. Qed.
Lemma fetch_sub_small c : 0 < c <= MAX_CONNECTIONS + 1 -> fetch_sub c = c - 1.
Proof. unfold fetch_sub, MAX_CONNECTIONS. intros. apply as_u64_small. unfold u64_max. lia. Qed.

(** A step that leaves counter, threads and overflow alone and moves slots of
    the accept loop along with the map *)
Lemma inv_phase c m m' ph ph' ts :
  inv (mkState c m ph ts) ->
  overflow_slot ph' = overflow_slot ph ->
  (forall ip, default 0 (m' !! ip) - phase_slots ip ph'
              = default 0 (m !! ip) - phase_slots ip ph) ->
  (forall ip, default 0 (m' !! ip) <= MAX_CONNECTIONS_PER_IP) ->
  (forall ip n, m' !! ip = Some n -> 0 < n) ->
  inv (mkState c m' ph' ts).
Proof.
  intros [Hc Hcap Hp Hpc Hpos] Ho Hm Hle Hpos'. constructor; simpl in *.
  - by rewrite Ho.
  - done.
  - intros ip. specialize (Hm ip). specialize (Hp ip). lia.
  - done.
  - done.
Qed.

Lemma slots_step_bound ip c m p ts :
  inv (mkState c m (BackingOut p) ts) -> 0 <= default 0 (m !! ip) - holds ip p.
Proof.
  intros [_ _ Hp _ _]. specialize (Hp ip). simpl in Hp. pose proof (slots_nonneg ip ts). lia.
Qed.

Lemma step_inv s s' : step s s' -> inv s -> inv s'.
Proof.
  intros Hstep Hinv. destruct Hstep as
    [c m ts|c m ts ip m' Hcl|c m ts ip m' Hcl|c m p ts Hlt|c m p ts Hle|c m p ts|c m p ts
    |c m ph ts1 p ts2|c m ph ts1 p ts2].
  - destruct Hinv as [Hc Hcap Hp Hpc Hpos]. by constructor.
  - pose proof Hinv as [Hc Hcap Hp Hpc Hpos]. simpl in *.
    eapply inv_phase; [exact Hinv|done|..]; intros i;
      destruct (claim_peer_spec ip m true m' i Hcl Hpos) as [[Hroom Hm] Hpos'].
    + rewrite Hm. simpl. lia.
    + rewrite Hm. unfold holds. case_decide; simplify_eq; [lia|]. specialize (Hpc i). lia.
    + exact Hpos'.
  - pose proof Hinv as [Hc Hcap Hp Hpc Hpos]. simpl in *.
    destruct (claim_peer_spec ip m false m' ip Hcl Hpos) as [[_ ->] _]. done.
  - destruct Hinv as [Hc Hcap Hp Hpc Hpos]. simpl in *.
    constructor; simpl; [|lia| |done|done].
    + rewrite fetch_add_small by lia. lia.
    + intros i. rewrite Hp. lia.
  - destruct Hinv as [Hc Hcap Hp Hpc Hpos]. simpl in *.
    constructor; simpl; [|lia|done|done|done]. rewrite fetch_add_small by lia. lia.
  - destruct Hinv as [Hc Hcap Hp Hpc Hpos]. simpl in *.
    constructor; simpl; [|lia|done|done|done]. rewrite fetch_sub_small by lia. lia.
  - pose proof Hinv as [Hc Hcap Hp Hpc Hpos].
    eapply inv_phase; [exact Hinv|done|..]; intros i;
      destruct (release_peer_lookup p m i Hpos) as [Hm Hpos'];
      pose proof (slots_step_bound i _ _ _ _ Hinv).
    + rewrite Hm. simpl. lia.
    + rewrite Hm. specialize (Hpc i). simpl in Hpc. pose proof (holds_nonneg i p). lia.
    + exact Hpos'.
  - destruct Hinv as [Hc Hcap Hp Hpc Hpos]. simpl in *.
    assert (forall i, default 0 (release_peer p m !! i) = default 0 (m !! i) - holds i p) as Hm.
    { intros i. destruct (release_peer_lookup p m i Hpos) as [-> _]. rewrite Hp, slots_app. simpl.
      pose proof (slots_nonneg i ts1). pose proof (slots_nonneg i ts2).
      assert (0 <= phase_slots i ph) by (destruct ph; simpl; auto using holds_nonneg; lia). lia. }
    rewrite length_app in *. simpl in *. constructor; simpl; rewrite ?length_app; simpl; try lia.
    + intros i. rewrite Hm, Hp, !slots_app. simpl. lia.
    + intros i. rewrite Hm. pose proof (holds_nonneg i p). specialize (Hpc i). lia.
    + intros i. by destruct (release_peer_lookup p m i Hpos) as [_ ?].
  - destruct Hinv as [Hc Hcap Hp Hpc Hpos]. simpl in *. rewrite length_app in *. simpl in *.
    constructor; simpl; rewrite ?length_app; simpl; try done.
    + rewrite fetch_sub_small; [lia|]. destruct ph; simpl in *; lia.
    + lia.
    + intros i. rewrite Hp, !slots_app. simpl. lia.
Qed.

Lemma rtc_inv s s' : rtc step s s' -> inv s -> inv s'.
Proof. induction 1; eauto using step_inv. Qed.

(** The threads of an address *)
Lemma slots_threads ip ts : slots ip ts = Z.of_nat (length (List.filter (fun t =>
  bool_decide (t = Serving (Some ip))) ts)).
Proof.
  induction ts as [|t ts IH]; simpl; [done|]. rewrite IH.
  destruct t as [p|p]; simpl; unfold holds.
  - case_decide; case_bool_decide; simplify_eq; simpl; lia.
  - lia.
Qed.

(** C36: in every interleaving of the accept loop with finishing threads, at most
    50 connections are served, at most 5 per address, the counter never drifts
    or wraps from the number of threads (plus the slot being given back), and
    no address keeps an entry of 0. *)
Theorem admission_caps s :
  reachable s ->
  Z.of_nat (length (threads s)) <= 50
  /\ (forall ip, Z.of_nat (length (List.filter
        (fun t => bool_decide (t = Serving (Some ip))) (threads s))) <= 5)
  /\ connection_count s = Z.of_nat (length (threads s)) + overflow_slot (phase s)
  /\ (forall ip n, peer_counts s !! ip = Some n -> 0 < n <= 5).
Proof.
  intros [Hc Hcap Hp Hpc Hpos]%(fun H => rtc_inv _ _ H inv_init).
  split; [done|]. split; [|split; [done|]].
  - intros ip. rewrite <- slots_threads. specialize (Hp ip). specialize (Hpc ip).
    assert (0 <= phase_slots ip (phase s)) by (destruct (phase s); simpl; auto using holds_nonneg; lia).
    unfold MAX_CONNECTIONS_PER_IP in *. lia.
  - intros ip n Hn. specialize (Hpc ip). specialize (Hpos ip n Hn). rewrite Hn in Hpc.
    unfold MAX_CONNECTIONS_PER_IP in *. simpl in Hpc. lia.
Qed.

(** Nothing leaks: once every thread has finished and the accept loop waits,
    the counter is 0 and the map is empty, whatever happened before. *)
Theorem admission_no_leak s :
  reachable s -> threads s = [] -> phase s = Accepting ->
  connection_count s = 0 /\ peer_counts s = ∅.
Proof.
  intros [Hc Hcap Hp Hpc Hpos]%(fun H => rtc_inv _ _ H inv_init) Ht Hph.
  rewrite Ht, Hph in *. split; [done|]. apply map_empty. intros ip.
  specialize (Hp ip). destruct (peer_counts s !! ip) as [n|] eqn:E; [|done].
  specialize (Hpos ip n E). simpl in Hp. lia.
Qed.

(** A connection from 10.0.0.1 is admitted, served and finished. *)
Definition ip1 : IpAddr := V4 x0a x00 x00 x01.

Lemma claim_fresh ip : claim_peer ip ∅ = (true, {[ip := 1]}).
Proof.
  unfold claim_peer. rewrite lookup_empty. simpl. by rewrite insert_insert_eq, insert_empty.
Qed.
Lemma release_last ip : release_peer (Some ip) {[ip := 1]} = ∅.
Proof. simpl. rewrite lookup_singleton_eq. simpl. apply delete_singleton_eq. Qed.

Lemma one_connection ip :
  rtc step init (mkState 1 {[ip := 1]} Accepting [Serving (Some ip)])
  /\ rtc step init (mkState 0 ∅ Accepting []).
Proof.
  assert (H : rtc step init (mkState 1 {[ip := 1]} Accepting [Serving (Some ip)])).
  { eapply rtc_l; [apply (step_claim_peer 0 ∅ [] ip), claim_fresh|].
    eapply rtc_l; [by apply (step_admit 0 {[ip := 1]} (Some ip) [])|]. apply rtc_refl. }
  split; [exact H|]. etransitivity; [exact H|].
  eapply rtc_l; [apply (step_drop_peer 1 {[ip := 1]} Accepting [] (Some ip) [])|].
  rewrite release_last.
  eapply rtc_l; [apply (step_drop_conn 1 ∅ Accepting [] (Some ip) [])|]. apply rtc_refl.
Qed.

Lemma admission_caps_witness :
  let s := mkState 1 {[ip1 := 1]} Accepting [Serving (Some ip1)] in
  Z.of_nat (length (threads s)) <= 50
  /\ (forall ip, Z.of_nat (length (List.filter
        (fun t => bool_decide (t = Serving (Some ip))) (threads s))) <= 5)
  /\ connection_count s = Z.of_nat (length (threads s)) + overflow_slot (phase s)
  /\ (forall ip n, peer_counts s !! ip = Some n -> 0 < n <= 5).
Proof. apply admission_caps. exact (proj1 (one_connection ip1)). Defined.

Lemma admission_no_leak_witness :
  connection_count (mkState 0 ∅ Accepting []) = 0
  /\ peer_counts (mkState 0 ∅ Accepting []) = ∅.
Proof.
  apply (admission_no_leak (mkState 0 ∅ Accepting [])); [|reflexivity..].
  exact (proj2 (one_connection ip1)).
Defined.
