(* ===== verification/Server.v ===== *)
(** * One connection of the server ([handle_connection] and [handle_request] of
    [server/src/main.rs])

    A connection is a computation over the socket, the browser and the clock:
    what the reads, the writes, the browser launches and the page fetches will
    report is listed in the world, and what the server does is appended to
    [trace].  The resolver and the blocklist are functions of the time. *)
From Stdlib Require Import ZArith Lia Strings.Byte.
From stdpp Require Import base decidable list gmap.
From S2P Require Import Browser.
From S2P Require Import Prelude Bytes Numbers External Protocol NetAddr Blocklist Filter.
From S2P Require Import ServerConfig OriginCC Callsign SocketRead.

Definition PRE_AUTH_TIMEOUT_SECS : Z := 300.

(** ** Data *)

(** [LogStatus], [LogEntry] of [server/src/logger.rs] *)
Inductive LogStatus : Type := LogOk | LogBlocked | LogError | LogAgreed.
Record LogEntry : Type := mkLogEntry {
  ts : Z;
  call : list byte;
  log_url : list byte;
  log_status : LogStatus;
  reason : option (list byte) }.

(** What is written to the peer *)
Inductive Out : Type :=
| Text (s : list byte)
| Frame (r : Response).

(** What the server does.  A write that failed after [n] bytes is
    [Wrote out (Some n)]. *)
Inductive Act : Type :=
| Wrote (out : Out) (cut : option nat)
| Logged (entry : LogEntry)
| Launched (ok : bool)
| Fetched (url : list byte) (at_time : Z).

Record World : Type := mkWorld {
  reader : Reader;
  session : Session;
  browser : bool;
  (** delay and cut of the next writes, delay and outcome of the next launches
      and fetches *)
  writes : list (Z * option nat);
  launches : list (Z * bool);
  fetches : list (Z * (BrowserError + list byte));
  (** [stream.try_clone()] succeeds *)
  cloned : bool;
  (** What happens once the lists are used up: with [crash_loop], every launch
      succeeds and every fetch finds the browser's session lost; without it, no
      browser starts and no page loads. *)
  crash_loop : bool;
  trace : list Act }.

Definition set_reader (r : Reader) (w : World) : World :=
  mkWorld r (session w) (browser w) (writes w) (launches w) (fetches w) (cloned w) (crash_loop w) (trace w).
Definition set_session (s : Session) (w : World) : World :=
  mkWorld (reader w) s (browser w) (writes w) (launches w) (fetches w) (cloned w) (crash_loop w) (trace w).
Definition clock (w : World) : Z := now (reader w).
(** Time passes by [d], if [d] is positive. *)
Definition advance (d : Z) (w : World) : World :=
  set_reader (mkReader (buffered (reader w)) (incoming (reader w))
                (now (reader w) + Z.max 0 d)) w.
Definition record (a : Act) (w : World) : World :=
  mkWorld (reader w) (session w) (browser w) (writes w) (launches w) (fetches w) (cloned w) (crash_loop w)
    (trace w ++ [a]).

Definition Srv : Type -> Type := M World IoError.

(** [stream.write_all(..)], [write!], [writeln!] *)
Definition write_out (o : Out) : Srv unit := fun w =>
  match writes w with
  | [] => (Ok tt, record (Wrote o None) w)
  | (d, cut) :: ws =>
      let w' := record (Wrote o cut)
                  (advance d (mkWorld (reader w) (session w) (browser w) ws
                                (launches w) (fetches w) (cloned w) (crash_loop w) (trace w))) in
      (match cut with None => Ok tt | Some _ => Err (Io (bs "write")) end, w')
  end.

(** [let _ = logger.log(&LogEntry::new(..))] *)
Definition log_entry (url : list byte) (st : LogStatus) (why : option (list byte)) : Srv unit :=
  fun w => (Ok tt, record (Logged (mkLogEntry (clock w) (callsign (session w)) url st why)) w).

(** [*browser = BrowserInstance::new(callsign).ok()] *)
Definition launch_browser : Srv bool := fun w =>
  let '(d, ok, ls) := match launches w with
                      | [] => (0, crash_loop w, [])
                      | (d, ok) :: ls => (d, ok, ls)
                      end in
  (Ok ok, record (Launched ok)
    (advance d (mkWorld (reader w) (session w) ok (writes w) ls (fetches w) (cloned w) (crash_loop w) (trace w)))).

(** [b.fetch_page(url)] *)
Definition fetch_page (url : list byte) : Srv (BrowserError + list byte) := fun w =>
  let '(d, o, fs) := match fetches w with
                     | [] => (0, inl (if crash_loop w then BrowserCrashed else NavigationFailed []), [])
                     | (d, o) :: fs => (d, o, fs)
                     end in
  (Ok o, advance d (record (Fetched url (clock w))
    (mkWorld (reader w) (session w) (browser w) (writes w) (launches w) fs (cloned w)
      (crash_loop w) (trace w)))).

(** A computation of the socket reader, in the server's world *)
Definition reading {A} (m : M Reader IoError A) : Srv A := fun w =>
  let (res, r') := m (reader w) in (res, set_reader r' w).

Definition touch_session : Srv unit :=
  modify (fun w => set_session (touch (session w) (clock w)) w).
Definition acknowledge_session : Srv unit :=
  modify (fun w => set_session (acknowledge (session w) (clock w)) w).
Definition set_current_url (url : list byte) : Srv unit :=
  modify (fun w => let s := session w in
    set_session (mkSession (callsign s) (acknowledged s) (Some url) (last_activity s)) w).

Section Connection.
Context `{UnicodeCase} `{Base64} `{Sha256} `{Brotli}.
Variable config : Config.
Variable resolve_at : Z -> list byte -> Z -> option (list IpAddr).
Variable domains_at : Z -> Blocklist.State.
Variable url_parse : list byte -> option Url.
Variable parse_http_date : list byte -> option Z.
Variable prober : Prober.

(** ** Requests *)

Definition send_status_response (st : Status.t) (message : list byte) : Srv unit :=
  let compressed := match brotli_compress message 11 with Ok c => c | _ => message end in
  write_out (Frame (mkResponse st (bs "-") (-1) compressed)).

Definition send_error_response (message : list byte) : Srv unit :=
  send_status_response Status.Err message.

(** The loop that yields the page; [None] once a response has been sent *)
Fixpoint fetch_loop (fuel : nat) (url : list byte) : Srv (option (list byte)) :=
  match fuel with
  | O => diverge
  | S f =>
      have ← gets browser;
      if negb have then
        ok ← launch_browser;
        if negb ok then (_ ← send_error_response (bs "Browser unavailable"); mret None)
        else fetch_loop f url
      else
        o ← fetch_page url;
        match o with
        | inr html => mret (Some html)
        | inl BrowserCrashed =>
            ok ← launch_browser;
            if negb ok then (_ ← send_error_response (bs "Browser unavailable"); mret None)
            else fetch_loop f url
        | inl e =>
            _ ← log_entry url LogError (Some (display_browser_error e));
            _ ← send_error_response (bs "Failed to load page");
            mret None
        end
  end.

(** A launch leads to a fetch; a fetch that goes on uses up its report.  When
    both lists are used up, nothing changes any more ([fetch_loop_stuck]). *)
Definition fetch_fuel (w : World) : nat := length (fetches w) + length (launches w) + 3.

(** [probe_handle.join().unwrap_or_else(..)] *)
Definition joined_max_age (url : list byte) : Z :=
  match probe_origin_cc parse_http_date prober url config with
  | Ok n => n
  | _ => default_max_age_seconds config
  end.

Definition filter_status (e : UrlError) : Status.t * LogStatus :=
  match e with
  | BlockedProtocol _ | BlockedHost _ => (Status.Blocked, LogBlocked)
  | UnresolvableHost _ | InvalidUrl => (Status.Err, LogError)
  end.

Definition validate_at (t : Z) (url : list byte) : Result UrlError unit :=
  validate_url (resolve_at t) (domains_at t) (blocked_ranges config) url_parse url.

Definition handle_request (url : list byte) (if_none_match : option (list byte)) : Srv unit :=
  t ← gets clock;
  match validate_at t url with
  | Err e =>
      let '(st, log_st) := filter_status e in
      let message := display_url_error e in
      _ ← log_entry url log_st (Some message);
      send_status_response st message
  | Ok _ =>
      fuel ← gets fetch_fuel;
      page ← fetch_loop fuel url;
      match page with
      | None => mret tt
      | Some html =>
          let etag := sanitized_html_etag html in
          let max_age := joined_max_age url in
          _ ← log_entry url LogOk None;
          _ ← set_current_url url;
          if bool_decide (if_none_match = Some etag) then
            write_out (Frame (mkResponse Status.NotModified etag max_age []))
          else
            match brotli_compress html (brotli_quality config) with
            | Ok compressed => write_out (Frame (mkResponse Status.Ok etag max_age compressed))
            | _ => send_error_response (bs "Compression error")
            end
      end
  | Panic => lift Panic
  | Spin => diverge
  end.

(** ** The connection *)

Inductive PreAuthLine : Type := DuplicateCallsign | LinbpqStatus | Candidate.

Definition classify_preauth_line (line callsign : list byte) : PreAuthLine :=
  let trimmed := to_uppercase (trim line) in
  if bool_decide (trimmed = callsign) then DuplicateCallsign
  else if starts_with (bs "***") trimmed then LinbpqStatus
  else Candidate.

(** The loop that skips the noise before AGREE; [None] on end of file *)
Fixpoint preauth_loop (fuel : nat) (deadline : Z) (call : list byte)
    : Srv (option (list byte)) :=
  match fuel with
  | O => diverge
  | S f =>
      l ← reading (read_bounded_line_until deadline);
      match l with
      | None => mret None
      | Some line =>
          match classify_preauth_line line call with
          | DuplicateCallsign | LinbpqStatus => preauth_loop f deadline call
          | Candidate => mret (Some line)
          end
      end
  end.

(** [session.last_activity + Duration::from_secs(..)]: the product wraps, the
    addition panics when the clock cannot represent the sum *)
Definition idle_deadline (s : Session) : Result IoError Z :=
  let secs := as_u64 (idle_timeout_minutes config * 60) in
  if i64_max <? last_activity s / 1000 + secs then Panic
  else Ok (last_activity s + secs * 1000).

Fixpoint serve_loop (fuel : nat) : Srv unit :=
  match fuel with
  | O => diverge
  | S f =>
      s ← gets session;
      deadline ← lift (idle_deadline s);
      catch (reading (read_request deadline)) (fun r =>
        match r with
        | inr None => mret tt
        | inl TimedOut =>
            ignore (write_out (Text ([LF] ++ bs "Session timed out due to inactivity." ++ [LF])))
        | inl _ => mret tt
        | inr (Some (Post _ _)) =>
            _ ← touch_session;
            catch (send_error_response (bs "POST requests are not supported")) (fun sent =>
              match sent with
              | inl _ => mret tt
              | inr _ => _ ← touch_session; serve_loop f
              end)
        | inr (Some (Get url if_none_match)) =>
            _ ← touch_session;
            _ ← ignore (handle_request url if_none_match);
            _ ← touch_session;
            serve_loop f
        end)
  end.

(** A read that yields a line or a request uses up at least one byte. *)
Definition stream_fuel (w : World) : nat := S (length (pending (reader w))).

(** [handle_connection] from the AGREE prompt on *)
Definition await_agree (pre_auth_deadline : Z) (call : list byte) : Srv unit :=
  _ ← write_out (Text (bs "All activity is logged including your callsign." ++ [LF]
                       ++ bs "Type AGREE to proceed: "));
  fuel ← gets stream_fuel;
  input ← preauth_loop fuel pre_auth_deadline call;
  match input with
  | None => mret tt
  | Some input =>
      if negb (bool_decide (to_uppercase (trim input) = bs "AGREE")) then
        write_out (Text (bs "Acknowledgment required. Goodbye." ++ [LF]))
      else
        _ ← acknowledge_session;
        _ ← log_entry (bs "AGREED") LogAgreed None;
        ok ← launch_browser;
        if negb ok then send_error_response (bs "Browser initialization failed")
        else fuel ← gets stream_fuel; serve_loop fuel
  end.

Definition handle_connection : Srv unit :=
  can_clone ← gets cloned;
  if negb can_clone then throw (Io (bs "try_clone")) else
  _ ← write_out (Text (bs "Enter your callsign: "));
  t ← gets clock;
  let pre_auth_deadline := t + PRE_AUTH_TIMEOUT_SECS * 1000 in
  l ← reading (read_bounded_line_until pre_auth_deadline);
  match l with
  | None => mret tt
  | Some line =>
      match validate_callsign_with_allowlist (trim line) (allowed_callsigns config) with
      | Ok call =>
          _ ← modify (fun w => set_session (new call (clock w)) w);
          await_agree pre_auth_deadline call
      | Err _ => ignore (write_out (Text (bs "Invalid callsign format. Disconnecting." ++ [LF])))
      | Panic => lift Panic
      | Spin => diverge
      end
  end.
End Connection.

(** ** Bytes of the stream: only reading uses them up *)

Definition left_over (w : World) : list byte := pending (reader w).

Lemma write_out_keeps o : keeps left_over (write_out o).
Proof. intros w. unfold write_out. by destruct (writes w) as [|[d [n|]] ws]. Qed.
Lemma log_entry_keeps url st why : keeps left_over (log_entry url st why).
Proof. done. Qed.
Lemma launch_browser_keeps : keeps left_over launch_browser.
Proof. intros w. unfold launch_browser. by destruct (launches w) as [|[d ok] ls]. Qed.
Lemma fetch_page_keeps url : keeps left_over (fetch_page url).
Proof. intros w. unfold fetch_page. by destruct (fetches w) as [|[d o] fs]. Qed.
Lemma touch_session_keeps : keeps left_over touch_session.
Proof. done. Qed.
Lemma set_current_url_keeps url : keeps left_over (set_current_url url).
Proof. done. Qed.
#[export] Hint Resolve write_out_keeps log_entry_keeps launch_browser_keeps fetch_page_keeps
  touch_session_keeps set_current_url_keeps : keeps.

Section Behaviour.
Context `{UnicodeCase} `{Base64} `{Sha256} `{Brotli}.
Context (config : Config) (resolve_at : Z -> list byte -> Z -> option (list IpAddr)).
Context (domains_at : Z -> Blocklist.State) (url_parse : list byte -> option Url).
Context (parse_http_date : list byte -> option Z) (prober : Prober).

Abbreviation validate_now := (validate_at config resolve_at domains_at url_parse).
Abbreviation request := (handle_request config resolve_at domains_at url_parse
                           parse_http_date prober).
Abbreviation serve := (serve_loop config resolve_at domains_at url_parse
                         parse_http_date prober).
Abbreviation connection := (handle_connection config resolve_at domains_at url_parse
                              parse_http_date prober).
Abbreviation agree := (await_agree config resolve_at domains_at url_parse
                         parse_http_date prober).
Abbreviation max_age_of := (joined_max_age config parse_http_date prober).

Lemma send_error_keeps msg : keeps left_over (send_error_response msg).
Proof. apply write_out_keeps. Qed.

Lemma fetch_loop_keeps fuel url : keeps left_over (fetch_loop fuel url).
Proof.
  induction fuel as [|fuel IH]; [apply keeps_diverge|]. cbn [fetch_loop].
  apply keeps_bind; [auto with keeps|]. intros have. destruct (negb have).
  - apply keeps_bind; [auto with keeps|]. intros ok. destruct (negb ok); [|done].
    apply keeps_bind; auto using send_error_keeps with keeps.
  - apply keeps_bind; [auto with keeps|]. intros [[m|m|m|]|html]; [..|auto with keeps].
    1, 2, 3: apply keeps_bind; [auto with keeps|]; intros _;
      apply keeps_bind; auto using send_error_keeps with keeps.
    apply keeps_bind; [auto with keeps|]. intros ok. destruct (negb ok); [|done].
    apply keeps_bind; auto using send_error_keeps with keeps.
Qed.

Lemma handle_request_keeps url inm : keeps left_over (request url inm).
Proof.
  unfold handle_request. apply keeps_bind; [auto with keeps|]. intros t.
  destruct (validate_now t url) as [[]|e| |]; [| |auto with keeps..].
  - apply keeps_bind; [auto with keeps|]. intros fuel.
    apply keeps_bind; [apply fetch_loop_keeps|]. intros [html|]; [|auto with keeps].
    apply keeps_bind; [auto with keeps|]. intros _.
    apply keeps_bind; [auto with keeps|]. intros _.
    case_bool_decide; [auto with keeps|].
    destruct (brotli_compress _ _); auto using send_error_keeps with keeps.
  - destruct (filter_status e) as [st ls].
    apply keeps_bind; [auto with keeps|]. intros _. apply write_out_keeps.
Qed.

(** ** One request, one response *)

(** Actions that write nothing to the peer and fetch only [url] *)
Definition silent (url : list byte) (a : Act) : Prop :=
  match a with
  | Wrote _ _ => False
  | Fetched u _ => u = url
  | Logged e => log_url e = url
  | Launched _ => True
  end.

Definition error_frame (r : Response) : Prop :=
  status r = Status.Err /\ etag r = bs "-" /\ max_age r = -1.

(** The write of a frame, as the last action *)
Lemma write_frame_spec r w :
  exists c, trace (write_out (Frame r) w).2 = trace w ++ [Wrote (Frame r) c]
  /\ ((write_out (Frame r) w).1 = Ok tt <-> c = None)
  /\ returns (write_out (Frame r) w).1
  /\ session (write_out (Frame r) w).2 = session w.
Proof.
  unfold write_out. destruct (writes w) as [|[d [n|]] ws].
  - exists None. done.
  - exists (Some n). done.
  - exists None. done.
Qed.

Definition fetch_need (w : World) : nat :=
  length (fetches w) + (if browser w then 1 else 2).

(** [fetch_loop] ends with a page and no response, or without a page and
    exactly one error response; when the browser goes on crashing it may not
    end, and nothing is written. *)
Definition fetch_result (url : list byte) (w : World) (res : Result IoError (option (list byte)))
    (w' : World) : Prop :=
  session w' = session w /\ exists tail, trace w' = trace w ++ tail
  /\ match res with
     | Ok (Some html) => Forall (silent url) tail /\ exists d, (d, inr html) ∈ fetches w
     | Ok None => exists q r, tail = q ++ [Wrote (Frame r) None]
         /\ Forall (silent url) q /\ error_frame r
     | Err _ => exists q r n, tail = q ++ [Wrote (Frame r) (Some n)]
         /\ Forall (silent url) q /\ error_frame r
     | Panic => False
     | Spin => crash_loop w = true /\ Forall (silent url) tail
     end.

(** An error response, after silent actions *)
Lemma fetch_result_error url msg w w1 acts :
  session w1 = session w -> trace w1 = trace w ++ acts -> Forall (silent url) acts ->
  let '(res, w') := (_ ← send_error_response msg; mret None) w1 in
  fetch_result url w res w'.
Proof.
  intros Hs Ht Ha. unfold mbind, M_bind, send_error_response, send_status_response.
  set (r := mkResponse _ _ _ _).
  destruct (write_frame_spec r w1) as (c & Htr & Hok & Hret & Hse).
  destruct (write_out (Frame r) w1) as [[[]|e| |] w']; simpl in *; [| |done..].
  - assert (c = None) as -> by (by apply Hok).
    split; [congruence|]. exists (acts ++ [Wrote (Frame r) None]).
    rewrite Htr, Ht, <- app_assoc. split; [done|]. exists acts, r. done.
  - destruct c as [n|]; [|by destruct Hok as [_ Hok]; discriminate Hok].
    split; [congruence|]. exists (acts ++ [Wrote (Frame r) (Some n)]).
    rewrite Htr, Ht, <- app_assoc. split; [done|]. exists acts, r, n. done.
Qed.

Lemma fetch_result_later url w w1 acts res w' :
  session w1 = session w -> trace w1 = trace w ++ acts -> Forall (silent url) acts ->
  (forall x, x ∈ fetches w1 -> x ∈ fetches w) -> crash_loop w1 = crash_loop w ->
  fetch_result url w1 res w' -> fetch_result url w res w'.
Proof.
  intros Hs Ht Ha Hf Hcl [Hs1 (tail & Htl & Hres)]. split; [congruence|].
  exists (acts ++ tail). rewrite Htl, Ht, app_assoc. split; [done|].
  destruct res as [[html|]|e| |]; [| | |done|].
  - destruct Hres as (Hsil & d & Hin). split; [by apply Forall_app|]. eauto.
  - destruct Hres as (q & r & -> & Hq & Hr). exists (acts ++ q), r.
    rewrite <- app_assoc. split; [done|]. split; [by apply Forall_app|done].
  - destruct Hres as (q & r & n & -> & Hq & Hr). exists (acts ++ q), r, n.
    rewrite <- app_assoc. split; [done|]. split; [by apply Forall_app|done].
  - destruct Hres as [Hc Hq]. split; [congruence|]. by apply Forall_app.
Qed.

(** A launch, as the loop uses it *)
Lemma launch_spec w :
  exists ok w1, launch_browser w = (Ok ok, w1) /\ session w1 = session w
  /\ trace w1 = trace w ++ [Launched ok] /\ fetches w1 = fetches w /\ browser w1 = ok
  /\ crash_loop w1 = crash_loop w.
Proof.
  unfold launch_browser. destruct (launches w) as [|[d ok] ls]; do 2 eexists; by split_and!.
Qed.

Lemma fetch_loop_spec fuel : forall url w,
  crash_loop w = true \/ (fetch_need w <= fuel)%nat ->
  let '(res, w') := fetch_loop fuel url w in fetch_result url w res w'.
Proof.
  induction fuel as [|fuel IH]; intros url w Hfuel.
  { destruct Hfuel as [Hc|Hfuel]; [|unfold fetch_need in Hfuel; destruct (browser w); lia].
    split; [done|]. exists []. rewrite app_nil_r. repeat split; [done|constructor]. }
  (* a launch, then an error response or the loop again *)
  assert (Hlaunch : forall w1 acts,
    session w1 = session w -> trace w1 = trace w ++ acts -> Forall (silent url) acts ->
    (forall x, x ∈ fetches w1 -> x ∈ fetches w) -> crash_loop w1 = crash_loop w ->
    crash_loop w = true \/ (length (fetches w1) + 1 <= fuel)%nat ->
    let '(res, w') := (ok ← launch_browser;
       if negb ok then (_ ← send_error_response (bs "Browser unavailable"); mret None)
       else fetch_loop fuel url) w1 in
    fetch_result url w res w').
  { intros w1 acts Hs Ht Ha Hf Hcl Hn.
    destruct (launch_spec w1) as (ok & w2 & Hl & Hs2 & Ht2 & Hf2 & Hb2 & Hc2).
    bind1. rewrite Hl.
    assert (Ht' : trace w2 = trace w ++ (acts ++ [Launched ok]))
      by (by rewrite Ht2, Ht, app_assoc).
    assert (Ha' : Forall (silent url) (acts ++ [Launched ok]))
      by (apply Forall_app; split; [done|by repeat constructor]).
    destruct ok; cbn [negb].
    - specialize (IH url w2).
      assert (crash_loop w2 = true \/ fetch_need w2 <= fuel)%nat as Hn2
        by (unfold fetch_need; rewrite Hf2, Hb2, Hc2, Hcl; destruct Hn; [by left|right; lia]).
      specialize (IH Hn2). destruct (fetch_loop fuel url w2) as [res w'].
      eapply fetch_result_later; [|exact Ht'|exact Ha'| | |exact IH]; [congruence| |congruence].
      by rewrite Hf2.
    - eapply fetch_result_error; [congruence|exact Ht'|exact Ha']. }
  cbn [fetch_loop]. bind1; unfold gets at 1.
  unfold fetch_need in Hfuel. destruct (browser w) eqn:Hb; cbn [negb].
  2: { apply (Hlaunch w []); [done|by rewrite app_nil_r|by apply Forall_nil|done|done|].
       destruct Hfuel; [by left|right; lia]. }
  assert (Hpage : exists o w1, fetch_page url w = (Ok o, w1) /\ session w1 = session w
    /\ trace w1 = trace w ++ [Fetched url (clock w)]
    /\ (forall x, x ∈ fetches w1 -> x ∈ fetches w)
    /\ crash_loop w1 = crash_loop w
    /\ (o = inl BrowserCrashed ->
        crash_loop w = true \/ length (fetches w1) + 1 <= length (fetches w))%nat
    /\ (forall html, o = inr html -> exists d, (d, inr html) ∈ fetches w)).
  { unfold fetch_page. destruct (fetches w) as [|[d o] fs] eqn:Ef; do 2 eexists;
      (split; [reflexivity|]); (split; [done|]); (split; [done|]).
    - split_and!; [done..|by destruct (crash_loop w); left|by destruct (crash_loop w)].
    - split_and!; [by intros x ?; right|done|right; simpl; lia|].
      intros html ->. exists d. left. }
  destruct Hpage as (o & w1 & Hpage & Hs1 & Ht1 & Hf1 & Hcl1 & Hcr & Hhtml).
  bind1. rewrite Hpage.
  assert (Ha1 : Forall (silent url) [Fetched url (clock w)]) by (by repeat constructor).
  destruct o as [[m|m|m|]|html].
  1, 2, 3: bind1; unfold log_entry;
    eapply fetch_result_error; [exact Hs1|cbn; rewrite Ht1, <- app_assoc; reflexivity|];
    by repeat constructor.
  - apply (Hlaunch w1 [Fetched url (clock w)]); auto. specialize (Hcr eq_refl).
    destruct Hfuel, Hcr; [by left..|right; lia].
  - split; [done|]. exists [Fetched url (clock w)]. split; [done|]. split; [done|]. auto.
Qed.

(** What the answer to a request says: the filter's verdict, a page with its
    etag and lifetime, [NotModified] for the etag the client has, or an error *)
Definition answers (t : Z) (url : list byte) (inm : option (list byte)) (w w' : World)
    (r : Response) : Prop :=
  match validate_now t url with
  | Err e => status r = (filter_status e).1 /\ etag r = bs "-" /\ max_age r = -1
  | _ => error_frame r \/
      exists html d, (d, inr html) ∈ fetches w /\ current_url (session w') = Some url
        /\ etag r = sanitized_html_etag html /\ max_age r = max_age_of url
        /\ (status r = Status.NotModified /\ inm = Some (etag r) /\ payload r = []
            \/ status r = Status.Ok /\ inm <> Some (etag r)
               /\ brotli_compress html (brotli_quality config) = Ok (payload r))
  end.

Definition request_result (url : list byte) (inm : option (list byte)) (w : World)
    (out : Result IoError unit * World) : Prop :=
  let '(res, w') := out in
  (exists r q c, trace w' = trace w ++ q ++ [Wrote (Frame r) c] /\ Forall (silent url) q
    /\ (res = Ok tt <-> c = None) /\ returns res
    /\ answers (clock w) url inm w w' r
    /\ (validate_now (clock w) url <> Ok tt -> forall t, Fetched url t ∉ q))
  \/ (res = Spin /\ crash_loop w = true /\ validate_now (clock w) url = Ok tt
      /\ exists q, trace w' = trace w ++ q /\ Forall (silent url) q).

(** A branch that ends in a frame answers the request with it. *)
Lemma frame_answers r w w1 acts url inm :
  trace w1 = trace w ++ acts -> Forall (silent url) acts ->
  (forall w', session w' = session w1 -> answers (clock w) url inm w w' r) ->
  (validate_now (clock w) url <> Ok tt -> forall t, Fetched url t ∉ acts) ->
  request_result url inm w (write_out (Frame r) w1).
Proof.
  intros Ht Ha HQ Hf. destruct (write_frame_spec r w1) as (c & Htr & Hok & Hret & Hs).
  unfold request_result. destruct (write_out (Frame r) w1) as [res w']. cbn in *.
  left. exists r, acts, c.
  rewrite Htr, Ht, <- app_assoc. split_and!; auto; apply Hok.
Qed.

(** The answer made of a fetched page: the etag comparison, the compression *)
Lemma page_answers url inm html d w w1 acts :
  validate_now (clock w) url = Ok tt -> (d, inr html) ∈ fetches w ->
  trace w1 = trace w ++ acts -> Forall (silent url) acts ->
  current_url (session w1) = Some url ->
  request_result url inm w
    ((if bool_decide (inm = Some (sanitized_html_etag html)) then
        write_out (Frame (mkResponse Status.NotModified (sanitized_html_etag html)
                            (max_age_of url) []))
      else
        match brotli_compress html (brotli_quality config) with
        | Ok z => write_out (Frame (mkResponse Status.Ok (sanitized_html_etag html)
                                      (max_age_of url) z))
        | _ => send_error_response (bs "Compression error")
        end) w1).
Proof.
  intros Hv Hd Ht Ha Hcur.
  assert (Hframe : forall r, (forall w', session w' = session w1 -> answers (clock w) url inm w w' r) ->
            request_result url inm w (write_out (Frame r) w1))
    by (intros r Hr; by eapply frame_answers).
  unfold answers in Hframe. rewrite Hv in Hframe.
  case_bool_decide as Hinm.
  - apply Hframe. intros w' Hw. right. exists html, d. rewrite Hw. split_and!; [done..|by left].
  - destruct (brotli_compress html _) as [z|e| |] eqn:Hz;
      [|apply Hframe; by left..].
    apply Hframe. intros w' Hw. right. exists html, d. rewrite Hw. split_and!; [done..|by right].
Qed.

Lemma handle_request_ok url inm w : request_result url inm w (request url inm w).
Proof.
  unfold handle_request. bind1; unfold gets at 1.
  pose proof (validate_url_returns (resolve_at (clock w)) (domains_at (clock w))
    (blocked_ranges config) url_parse url) as Hret.
  change (validate_url _ _ _ _ url) with (validate_now (clock w) url) in *.
  destruct (validate_now (clock w) url) as [[]|e| |] eqn:Hv; try done.
  - bind1; unfold gets at 1. bind1.
    assert (Hneed : crash_loop w = true \/ (fetch_need w <= fetch_fuel w)%nat)
      by (unfold fetch_need, fetch_fuel; destruct (browser w); lia).
    pose proof (fetch_loop_spec (fetch_fuel w) url w Hneed) as Hf.
    destruct (fetch_loop (fetch_fuel w) url w) as [[[html|]|e| |] w1];
      destruct Hf as [Hs (tail & Ht & Hf)]; [| | |done|].
    4: { right. destruct Hf as [Hc Hq]. split_and!; [done..|by exists tail]. }
    + destruct Hf as [Hsil [d Hd]].
      bind1; unfold log_entry. bind1; unfold set_current_url, modify.
      eapply page_answers; [done..| | |done].
      * simpl. by rewrite Ht, <- app_assoc.
      * apply Forall_app. split; [done|by repeat constructor].
    + unfold request_result, answers. rewrite Hv. destruct Hf as (q & r & -> & Hq & Hr).
      left. exists r, q, None. split_and!; [done..|by left|done].
    + unfold request_result, answers. rewrite Hv. destruct Hf as (q & r & n & -> & Hq & Hr).
      left. exists r, q, (Some n). split_and!; [done..|by left|done].
  - destruct (filter_status e) as [st ls] eqn:Hst.
    bind1; unfold log_entry, send_status_response.
    eapply frame_answers; [done|by repeat constructor| |].
    + intros w' _. unfold answers. by rewrite Hv, Hst.
    + intros _ t Hin. by apply list_elem_of_singleton in Hin.
Qed.

(** ** The whole connection *)

(** What may follow AGREE: frames the client can decode, fetches of URLs the
    filter accepted, and the texts of the protocol *)
Definition served (a : Act) : Prop :=
  match a with
  | Wrote (Frame r) _ => valid_etag (etag r) = true /\ i32_min <= max_age r <= i32_max
  | Fetched url _ => exists t, validate_now t url = Ok tt
  | _ => True
  end.

(** What may precede it: plain text *)
Definition pre_auth (a : Act) : Prop := exists s c, a = Wrote (Text s) c.

Lemma dash_served r c :
  etag r = bs "-" -> max_age r = -1 -> served (Wrote (Frame r) c).
Proof. intros He Hm. unfold served. rewrite He, Hm. by vm_compute. Qed.

Lemma as_i32_range z : i32_min <= as_i32 z <= i32_max.
Proof. unfold as_i32, i32_min, i32_max. pose proof (Z.mod_pos_bound (z + 2 ^ 31) (2 ^ 32)). lia. Qed.

Lemma parse_cache_control_range cc ex dt defaults n :
  i32_min <= default_max_age defaults <= i32_max ->
  parse_cache_control parse_http_date cc ex dt defaults = Ok n -> i32_min <= n <= i32_max.
Proof.
  intros Hd. unfold parse_cache_control, from_cache_control, clamp.
  repeat case_match; intros; simplify_eq/=; auto using as_i32_range; by vm_compute.
Qed.

Lemma joined_max_age_range url :
  i32_min <= default_max_age_seconds config <= i32_max ->
  i32_min <= max_age_of url <= i32_max.
Proof.
  intros Hd. unfold joined_max_age. destruct (probe_origin_cc _ _ _ _) as [n|e| |] eqn:E; auto.
  revert E. unfold probe_origin_cc.
  destruct (proxy_port prober); [|by intros [= <-]].
  destruct (negb _); [by intros [= <-]|].
  destruct (probe_headers prober url); [|by intros [= <-]].
  by apply parse_cache_control_range.
Qed.

Lemma write_out_emits P o : (forall c, P (Wrote o c)) -> emits trace P (write_out o).
Proof.
  intros HP w. unfold write_out. destruct (writes w) as [|[d c] ws].
  - exists [Wrote o None]. by repeat constructor.
  - exists [Wrote o c]. by repeat constructor.
Qed.

Lemma reading_emits P {A} (m : M Reader IoError A) : emits trace P (reading m).
Proof. apply emits_silent. intros w. unfold reading. by destruct (m (reader w)). Qed.
Lemma modify_session_emits P f :
  emits trace P (modify (fun w => set_session (f w) w) : Srv unit).
Proof. by apply emits_silent. Qed.
Lemma log_entry_emits P url st why :
  (forall e, log_status e = st -> P (Logged e)) -> emits trace P (log_entry url st why).
Proof. intros HP w. eexists [_]. split; [done|]. repeat constructor. by apply HP. Qed.
Lemma launch_browser_emits P : (forall ok, P (Launched ok)) -> emits trace P launch_browser.
Proof.
  intros HP w. unfold launch_browser. destruct (launches w) as [|[d ok] ls];
    eexists [_]; (split; [done|]); by repeat constructor.
Qed.

(** Reading a line consumes it. *)
Lemma reading_line_spec deadline w :
  let '(res, w') := reading (read_bounded_line_until deadline) w in
  trace w' = trace w /\ session w' = session w /\ returns res
  /\ forall s, res = Ok (Some s) -> left_over w = s ++ left_over w' /\ s <> [].
Proof.
  unfold reading. pose proof (read_line_ok deadline (reader w)) as Hl.
  pose proof (read_line_outcome deadline (reader w)) as Ho.
  destruct (read_bounded_line_until deadline (reader w)) as [res r'].
  destruct Ho as (_ & Hret & _), Hl as [Hl Hs]. split_and!; [done..|].
  intros s ->. split; [by apply Hs|]. intros ->.
  destruct Hl as [_ [[Hl _]|[(? & ? & Hl & _)|Hl]]]; [done..|].
  symmetry in Hl. revert Hl. unfold line_reference.
  destruct (position _ _) as [i|] eqn:Ep.
  - intros E%finish_line_Ok. apply position_lt in Ep. rewrite length_take in Ep.
    destruct (pending (reader w)); [simpl in Ep; lia|done].
  - destruct (_ <=? _)%nat; [done|]. by case_bool_decide.
Qed.

(** The loop before AGREE writes nothing, and hands on a line of the stream. *)
Lemma preauth_loop_spec fuel : forall deadline call w,
  let '(res, w') := preauth_loop fuel deadline call w in
  trace w' = trace w /\ session w' = session w
  /\ ((length (left_over w) < fuel)%nat -> returns res)
  /\ forall line, res = Ok (Some line) ->
       exists before, left_over w = before ++ line ++ left_over w'.
Proof.
  induction fuel as [|fuel IH]; intros deadline call w.
  { split_and!; [done..|lia|done]. }
  cbn [preauth_loop]. unfold mbind, M_bind. pose proof (reading_line_spec deadline w) as Hr.
  destruct (reading (read_bounded_line_until deadline) w) as [[[line|]|e| |] w1];
    destruct Hr as (Ht & Hs & Hret & Hl); try (by split_and!).
  destruct (Hl line eq_refl) as [Hline Hne].
  assert (Hskip : let '(res, w') := preauth_loop fuel deadline call w1 in
    trace w' = trace w /\ session w' = session w
    /\ ((length (left_over w) < S fuel)%nat -> returns res)
    /\ forall line, res = Ok (Some line) ->
         exists before, left_over w = before ++ line ++ left_over w').
  { specialize (IH deadline call w1). destruct (preauth_loop fuel deadline call w1) as [res w'].
    destruct IH as (Ht1 & Hs1 & Hret1 & Hl1). split_and!; [congruence..| |].
    - intros Hlen. apply Hret1. rewrite Hline, length_app in Hlen. destruct line; [done|].
      simpl in Hlen. lia.
    - intros l Hl2. destruct (Hl1 l Hl2) as [before Hb]. exists (line ++ before).
      by rewrite Hline, Hb, <- app_assoc. }
  destruct (classify_preauth_line line call); [exact Hskip..|].
  split_and!; [done..|]. intros l [= <-]. by exists [].
Qed.

(** A text write adds one pre-authentication action and keeps the stream. *)
Lemma write_text_spec t w :
  let '(res, w') := write_out (Text t) w in
  exists a, trace w' = trace w ++ [a] /\ pre_auth a /\ left_over w' = left_over w
  /\ returns res /\ session w' = session w.
Proof.
  unfold write_out. destruct (writes w) as [|[d c] ws]; eexists; split_and!; try done.
  - by eexists _, _.
  - by eexists _, _.
  - by destruct c.
Qed.

Context (Hdefault : i32_min <= default_max_age_seconds config <= i32_max).
Context `{!Base64Laws} `{!Sha256Laws}.

Lemma silent_served t url a :
  validate_now t url = Ok tt -> silent url a -> served a.
Proof. intros Hv. destruct a; try done. intros ->. by exists t. Qed.

Lemma handle_request_emits url inm : emits trace served (request url inm).
Proof.
  intros w. pose proof (handle_request_ok url inm w) as Hr3. unfold request_result in Hr3.
  destruct (request url inm w) as [res w'].
  destruct Hr3 as [(r & q & c & Ht & Hq & _ & _ & Ha & Hf)|(-> & _ & Hv & q & Ht & Hq)].
  2: { exists q. split; [done|]. eapply Forall_impl; [exact Hq|]. intros a. by eapply silent_served. }
  exists (q ++ [Wrote (Frame r) c]). split; [done|]. apply Forall_app. split.
  - apply Forall_forall. intros a Hin. rewrite Forall_forall in Hq. specialize (Hq a Hin).
    destruct (validate_now (clock w) url) as [[]|e| |] eqn:Hv; [by eapply silent_served|..];
      (destruct a as [[]| | |u t]; try done; simpl in Hq; subst u;
       by destruct (Hf ltac:(discriminate) t)).
  - constructor; [|constructor]. unfold answers in Ha.
    assert (He : error_frame r -> served (Wrote (Frame r) c))
      by (intros (_ & ? & ?); by apply dash_served).
    assert (Hpage : (exists html, etag r = sanitized_html_etag html) -> max_age r = max_age_of url ->
              served (Wrote (Frame r) c)).
    { intros [html Hh] Hm. unfold served. rewrite Hh, Hm. split; [|by apply joined_max_age_range].
      apply sanitized_html_etag_valid. }
    destruct (validate_now (clock w) url) as [[]|e| |];
      [|destruct Ha as (_ & ? & ?); by apply dash_served|..];
      (destruct Ha as [Ha|(html & d & _ & _ & Het & Hma & _)]; [by apply He|eauto]).
Qed.

Lemma serve_loop_emits fuel : emits trace served (serve fuel).
Proof.
  induction fuel as [|fuel IH]; [apply emits_diverge|]. cbn [serve_loop].
  apply emits_bind; [apply emits_gets|]. intros _ s _.
  apply emits_bind; [apply emits_lift|]. intros _ deadline _.
  apply emits_catch; [apply reading_emits|]. intros [[]|[[url inm|url body]|]];
    try apply emits_ret.
  - apply emits_ignore. by apply write_out_emits.
  - apply emits_bind; [apply modify_session_emits|]. intros _ _ _.
    apply emits_bind; [apply emits_ignore, handle_request_emits|]. intros _ _ _.
    apply emits_bind; [apply modify_session_emits|]. done.
  - apply emits_bind; [apply modify_session_emits|]. intros _ _ _.
    apply emits_catch.
    + apply write_out_emits. intros c. by apply dash_served.
    + intros [e|[]]; [apply emits_ret|].
      apply emits_bind; [apply modify_session_emits|]. done.
Qed.

(** What the trace of a connection looks like *)
Definition gated (w : World) (tail : list Act) : Prop :=
  Forall pre_auth tail
  \/ exists pre e post before line after,
       tail = pre ++ Logged e :: post /\ Forall pre_auth pre /\ Forall served post
       /\ log_status e = LogAgreed
       /\ (exists said, validate_callsign_with_allowlist said (allowed_callsigns config)
                        = Ok (call e))
       /\ left_over w = before ++ line ++ after /\ to_uppercase (trim line) = bs "AGREE".

Lemma after_agree_emits :
  emits trace served
    (ok ← launch_browser;
     if negb ok then send_error_response (bs "Browser initialization failed")
     else fuel ← gets stream_fuel; serve fuel).
Proof.
  apply emits_bind; [by apply launch_browser_emits|]. intros _ ok _. destruct (negb ok).
  - apply write_out_emits. intros c. by apply dash_served.
  - apply emits_bind; [apply emits_gets|]. intros _ fuel _. apply serve_loop_emits.
Qed.

Lemma one_text_gated w a : pre_auth a -> gated w [a].
Proof. intros Ha. left. by repeat constructor. Qed.

Lemma await_agree_gated said deadline w :
  validate_callsign_with_allowlist said (allowed_callsigns config) = Ok (callsign (session w)) ->
  let '(res, w') := agree deadline (callsign (session w)) w in
  exists tail, trace w' = trace w ++ tail /\ gated w tail.
Proof.
  intros Hv. unfold await_agree. bind1.
  match goal with |- context [write_out (Text ?t)] => pose proof (write_text_spec t w) as Hw end.
  destruct (write_out _ w) as [[[]|e| |] w1]; destruct Hw as (a & Ht & Ha & Hp & _ & Hs);
    try (by exists [a]; split; [|by apply one_text_gated]).
  bind1; unfold gets at 1. bind1.
  pose proof (preauth_loop_spec (stream_fuel w1) deadline (callsign (session w)) w1) as Hl.
  destruct (preauth_loop _ _ _ w1) as [[[line|]|e| |] w2]; destruct Hl as (Ht2 & Hs2 & _ & Hl);
    try (exists [a]; split; [simpl; congruence|by apply one_text_gated]).
  destruct (Hl line eq_refl) as [before Hb].
  case_bool_decide as Hagree; cbn [negb].
  2: { match goal with |- context [write_out (Text ?t)] => pose proof (write_text_spec t w2) as Hw end.
       destruct (write_out _ w2) as [res w3]. destruct Hw as (b & Ht3 & Hb3 & _).
       exists [a; b]. split; [by rewrite Ht3, Ht2, Ht, <- app_assoc|left; by repeat constructor]. }
  bind1; unfold acknowledge_session, modify.
  bind1; unfold log_entry. set (w3 := record _ _).
  destruct (after_agree_emits w3) as (post & Hpost & Hserved).
  match type of Hpost with trace (?m w3).2 = _ => set (served_part := m) in * end.
  change (let '(_, w') := served_part w3 in exists tail, trace w' = trace w ++ tail /\ gated w tail).
  destruct (served_part w3) as [res w4]. cbn [snd] in Hpost.
  eexists ([a] ++ Logged _ :: post). split.
  { rewrite Hpost. unfold w3, record. simpl. rewrite Ht2, Ht, <- !app_assoc. reflexivity. }
  right. eexists [a], _, post, before, line, (left_over w2). split; [done|].
  split; [by repeat constructor|]. split; [done|]. split; [done|]. split.
  - exists said. rewrite Hv. cbn. by rewrite Hs2, Hs.
  - split; [by rewrite <- Hp|done].
Qed.

Lemma connection_gated w :
  let '(res, w') := connection w in
  exists tail, trace w' = trace w ++ tail /\ gated w tail.
Proof.
  unfold handle_connection. bind1; unfold gets at 1.
  destruct (cloned w); cbn [negb]; [|exists []; rewrite app_nil_r; split; [done|by left]].
  bind1.
  pose proof (write_text_spec (bs "Enter your callsign: ") w) as Hw.
  destruct (write_out _ w) as [[[]|e| |] w1]; destruct Hw as (a & Ht & Ha & Hp & _ & Hs);
    try (by exists [a]; split; [|by apply one_text_gated]).
  bind1; unfold gets at 1. set (deadline := clock w1 + _).
  bind1. pose proof (reading_line_spec deadline w1) as Hl.
  destruct (reading _ w1) as [[[line|]|e| |] w2]; destruct Hl as (Ht2 & _ & Hr2 & Hl); try done;
    try (exists [a]; split; [congruence|by apply one_text_gated]).
  destruct (Hl line eq_refl) as [Hline _].
  destruct (validate_callsign_with_allowlist (trim line) _) as [cs|e| |] eqn:Hcs;
    try (exists [a]; split; [simpl; congruence|by apply one_text_gated]).
  - bind1; unfold modify at 1. set (w3 := set_session _ w2).
    pose proof (await_agree_gated (trim line) deadline w3 Hcs) as Hg.
    change (callsign (session w3)) with cs in Hg.
    destruct (agree deadline cs w3) as [res w4]. destruct Hg as (tail & Ht4 & Hg).
    exists (a :: tail). split.
    { rewrite Ht4. unfold w3. simpl. by rewrite Ht2, Ht, <- app_assoc. }
    destruct Hg as [Hg|(pre & e & post & before & l & after & -> & Hpre & Hpost & He & Hc & Hlo & Hag)].
    + left. by constructor.
    + right. exists (a :: pre), e, post, (line ++ before), l, after.
      split; [done|]. split; [by constructor|]. split_and!; [done..| |done].
      rewrite <- Hp, Hline, <- app_assoc. by f_equal.
  - unfold ignore, catch.
    match goal with |- context [write_out (Text ?t)] => pose proof (write_text_spec t w2) as Hw end.
    destruct (write_out _ w2) as [[[]|?| |] w3]; destruct Hw as (b & Ht3 & Hb & _);
      (exists [a; b]; split; [simpl; by rewrite Ht3, Ht2, Ht, <- app_assoc|]);
      left; by repeat constructor.
Qed.

(** ** Termination *)

Lemma reading_request_spec deadline w :
  let '(res, w') := reading (read_request deadline) w in
  returns res /\ forall req, res = Ok (Some req) -> (length (left_over w') < length (left_over w))%nat.
Proof.
  unfold reading. pose proof (read_request_outcome deadline (reader w)) as Ho.
  pose proof (read_request_consumes deadline (reader w)) as Hc.
  destruct (read_request deadline (reader w)) as [res r']. destruct Ho as [_ Ho].
  split; [by destruct res|]. intros req ->. by apply (Hc req r').
Qed.

(** What the lists of the world end in does not change. *)
Lemma write_out_ending o : keeps crash_loop (write_out o).
Proof. intros w. unfold write_out. by destruct (writes w) as [|[d [n|]] ws]. Qed.
Lemma log_entry_ending url st why : keeps crash_loop (log_entry url st why).
Proof. done. Qed.
Lemma launch_browser_ending : keeps crash_loop launch_browser.
Proof. intros w. unfold launch_browser. by destruct (launches w) as [|[d ok] ls]. Qed.
Lemma fetch_page_ending url : keeps crash_loop (fetch_page url).
Proof. intros w. unfold fetch_page. by destruct (fetches w) as [|[d o] fs]. Qed.
Lemma set_current_url_ending url : keeps crash_loop (set_current_url url).
Proof. done. Qed.
Lemma touch_session_ending : keeps crash_loop touch_session.
Proof. done. Qed.
#[local] Hint Resolve write_out_ending log_entry_ending launch_browser_ending
  fetch_page_ending set_current_url_ending touch_session_ending : keeps.

Lemma send_error_ending msg : keeps crash_loop (send_error_response msg).
Proof. apply write_out_ending. Qed.
#[local] Hint Resolve send_error_ending : keeps.

Lemma fetch_loop_ending fuel url : keeps crash_loop (fetch_loop fuel url).
Proof.
  induction fuel as [|fuel IH]; [apply keeps_diverge|]. cbn [fetch_loop].
  apply keeps_bind; [auto with keeps|]. intros have. destruct (negb have).
  - apply keeps_bind; [auto with keeps|]. intros ok. destruct (negb ok); auto with keeps.
  - apply keeps_bind; [auto with keeps|]. intros [[m|m|m|]|html]; [..|auto with keeps].
    1, 2, 3: apply keeps_bind; [auto with keeps|]; intros _; auto with keeps.
    apply keeps_bind; [auto with keeps|]. intros ok. destruct (negb ok); auto with keeps.
Qed.

Lemma handle_request_ending url inm : keeps crash_loop (request url inm).
Proof.
  unfold handle_request. apply keeps_bind; [auto with keeps|]. intros t.
  destruct (validate_now t url) as [[]|e| |]; [| |auto with keeps..].
  - apply keeps_bind; [auto with keeps|]. intros fuel.
    apply keeps_bind; [apply fetch_loop_ending|]. intros [html|]; [|auto with keeps].
    apply keeps_bind; [auto with keeps|]. intros _.
    apply keeps_bind; [auto with keeps|]. intros _.
    case_bool_decide; [auto with keeps|].
    destruct (brotli_compress _ _); auto with keeps.
  - destruct (filter_status e) as [st ls].
    apply keeps_bind; [auto with keeps|]. intros _. apply write_out_ending.
Qed.

Lemma handle_request_returns url inm w :
  crash_loop w = false -> returns (request url inm w).1.
Proof.
  intros Hc. pose proof (handle_request_ok url inm w) as Hr. unfold request_result in Hr.
  destruct (request url inm w) as [res w'].
  destruct Hr as [(r & q & c & _ & _ & _ & Hr & _)|(_ & Hc' & _)]; [done|congruence].
Qed.

(** A browser that crashes whenever it is used and can always be restarted *)
Definition stuck (w : World) : Prop :=
  crash_loop w = true /\ browser w = true
  /\ length (launches w) = 0%nat /\ length (fetches w) = 0%nat.
#[local] Instance stuck_dec w : Decision (stuck w) := _.

(** keeps the loop going: no number of rounds is enough, and each one fetches
    the page again. *)
Lemma fetch_loop_stuck url fuel : forall w, stuck w ->
  let '(res, w') := fetch_loop fuel url w in
  res = Spin /\ trace w' = trace w ++ concat (repeat [Fetched url (clock w); Launched true] fuel).
Proof.
  induction fuel as [|fuel IH]; intros w (Hc & Hb & Hl%nil_length_inv & Hf%nil_length_inv).
  { by rewrite app_nil_r. }
  cbn [fetch_loop]. bind1; unfold gets at 1. rewrite Hb; cbn [negb].
  bind1; unfold fetch_page at 1. rewrite Hf, Hc; cbn.
  bind1; unfold launch_browser at 1. cbn. rewrite Hl; cbn.
  match goal with |- context [fetch_loop fuel url ?w1] =>
    specialize (IH w1 ltac:(by repeat split)); destruct (fetch_loop fuel url w1) as [res w'] end.
  destruct IH as [-> ->]. split; [done|]. cbn. rewrite <- !app_assoc. cbn.
  repeat f_equal; unfold clock; cbn; lia.
Qed.

Lemma write_out_returns o w : returns (write_out o w).1.
Proof. unfold write_out. by destruct (writes w) as [|[d [n|]] ws]. Qed.

(** The fuel is enough: a loop that runs out of it never ends. *)
Definition reports_left (w : World) : nat :=
  length (fetches w) + length (launches w) + (if browser w then 1 else 2).

Lemma error_response_returns {A} msg (x : A) w :
  ((_ ← send_error_response msg; mret x) w : Result IoError A * World).1 <> Spin.
Proof.
  bind1. unfold send_error_response, send_status_response. cbv zeta.
  match goal with |- context [write_out ?o w] => pose proof (write_out_returns o w) end.
  by destruct (write_out _ w) as [[| | |] ?].
Qed.

(** What a restart and a fetch leave of the lists *)
Lemma launch_left w :
  exists ok w1, launch_browser w = (Ok ok, w1) /\ browser w1 = ok
  /\ length (fetches w1) = length (fetches w)
  /\ (ok = true -> (length (launches w1) < length (launches w))%nat
        \/ crash_loop w = true /\ length (launches w) = 0%nat /\ length (launches w1) = 0%nat).
Proof.
  unfold launch_browser. destruct (launches w) as [|[d ok] ls] eqn:El;
    do 2 eexists; (split; [reflexivity|]); split_and!; try done; [by right|left; simpl; lia].
Qed.

Lemma fetch_left url w :
  exists o w1, fetch_page url w = (Ok o, w1) /\ launches w1 = launches w
  /\ crash_loop w1 = crash_loop w
  /\ (o = inl BrowserCrashed -> (length (fetches w1) < length (fetches w))%nat
        \/ crash_loop w = true /\ length (fetches w) = 0%nat /\ length (fetches w1) = 0%nat).
Proof.
  unfold fetch_page. destruct (fetches w) as [|[d o] fs] eqn:Ef;
    do 2 eexists; (split; [reflexivity|]); split_and!; try done.
  - destruct (crash_loop w) eqn:Hc; [by right|done].
  - left; simpl; lia.
Qed.

Lemma step_ok {A B} (m : Srv A) (k : A -> Srv B) w a w' :
  m w = (Ok a, w') -> ((m ≫= k : Srv B) w) = k a w'.
Proof. apply bind_ok. Qed.

Lemma fetch_loop_fuel_enough url fuel : forall w,
  (reports_left w <= fuel)%nat -> (fetch_loop fuel url w).1 = Spin ->
  forall more, (fetch_loop more url w).1 = Spin.
Proof.
  induction fuel as [|fuel IH]; intros w Hn HS [|more]; try done.
  { unfold reports_left in Hn. destruct (browser w); lia. }
  destruct (decide (stuck w)) as [Hst|Hst].
  { pose proof (fetch_loop_stuck url (S more) w Hst) as Hf.
    by destruct (fetch_loop (S more) url w) as [res w'], Hf as [-> _]. }
  revert HS. cbn [fetch_loop].
  rewrite !(step_ok (gets browser) _ w (browser w) w) by done.
  unfold reports_left in Hn. destruct (browser w) eqn:Hb; cbn [negb].
  - destruct (fetch_left url w) as (o & w1 & Hfp & Hl1 & Hc1 & Ho).
    rewrite !(step_ok _ _ _ _ _ Hfp).
    destruct o as [[m|m|m|]|html]; try done;
      try (rewrite (step_ok (log_entry _ _ _) _ w1 tt _ eq_refl);
           by intros []%error_response_returns).
    specialize (Ho eq_refl). destruct (launch_left w1) as (ok & w2 & Hlb & Hb2 & Hf2 & Hok).
    rewrite !(step_ok _ _ _ _ _ Hlb).
    destruct ok; cbn [negb]; [|by intros []%error_response_returns].
    specialize (Hok eq_refl). intros HS. apply IH; [|exact HS]. unfold reports_left.
    rewrite Hb2, Hf2. rewrite Hl1, Hc1 in Hok.
    destruct Ho as [?|(? & ? & ?)], Hok as [?|(? & ? & ?)]; [lia..|by destruct Hst].
  - destruct (launch_left w) as (ok & w2 & Hlb & Hb2 & Hf2 & Hok).
    rewrite !(step_ok _ _ _ _ _ Hlb).
    destruct ok; cbn [negb]; [|by intros []%error_response_returns].
    specialize (Hok eq_refl). intros HS. apply IH; [|exact HS]. unfold reports_left.
    rewrite Hb2, Hf2. lia.
Qed.

Lemma reading_ending {A} (m : M Reader IoError A) : keeps crash_loop (reading m).
Proof. intros w. unfold reading. by destruct (m (reader w)). Qed.

Lemma preauth_loop_ending fuel deadline call : keeps crash_loop (preauth_loop fuel deadline call).
Proof.
  induction fuel as [|fuel IH]; [apply keeps_diverge|]. cbn [preauth_loop].
  apply keeps_bind; [apply reading_ending|]. intros [line|]; [|auto with keeps].
  destruct (classify_preauth_line line call); auto with keeps.
Qed.

Lemma serve_loop_ends fuel : forall w,
  crash_loop w = false -> (length (left_over w) < fuel)%nat -> (serve fuel w).1 <> Spin.
Proof.
  induction fuel as [|fuel IH]; intros w Hcl Hfuel; [lia|]. cbn [serve_loop].
  bind1; unfold gets at 1. bind1; unfold lift.
  unfold idle_deadline. destruct (_ <? _); [done|]. unfold catch at 1.
  match goal with |- context [read_request ?d] => pose proof (reading_request_spec d w) as Hr;
    pose proof (reading_ending (read_request d) w) as Hcl1 end.
  destruct (reading _ w) as [[[req|]|e| |] w1]; destruct Hr as [Hret Hlen]; try done.
  2: { destruct e; try done. unfold ignore, catch.
       match goal with |- context [write_out ?o w1] => pose proof (write_out_returns o w1) end.
       by destruct (write_out _ w1) as [[| | |] ?]. }
  specialize (Hlen req eq_refl). destruct req as [url inm|url body].
  - bind1; unfold touch_session at 1, modify at 1. set (w2 := set_session _ w1).
    bind1; unfold ignore, catch.
    assert (Hcl2 : crash_loop w2 = false) by (by cbn in *; congruence).
    pose proof (handle_request_returns url inm w2 Hcl2) as Hreq.
    pose proof (handle_request_keeps url inm w2) as Hk.
    pose proof (handle_request_ending url inm w2) as Hk2.
    destruct (request url inm w2) as [[[]|e| |] w3]; try done;
      (bind1; unfold touch_session, modify; cbn; apply IH; [cbn in *; congruence|];
       cbn [snd] in Hk; unfold left_over in *; unfold w2 in Hk; cbn in Hk |- *; rewrite Hk; lia).
  - bind1; unfold touch_session at 1, modify at 1. set (w2 := set_session _ w1).
    unfold catch, send_error_response, send_status_response. cbv zeta.
    match goal with |- context [write_out ?o w2] =>
      pose proof (write_out_returns o w2) as Hreq; pose proof (write_out_keeps o w2) as Hk;
      pose proof (write_out_ending o w2) as Hk2 end.
    destruct (write_out _ w2) as [[[]|e| |] w3]; try done.
    bind1; unfold touch_session, modify. apply IH; [cbn in *; congruence|].
    cbn [snd] in Hk. unfold left_over in *. unfold w2 in Hk. cbn in Hk |- *. rewrite Hk. lia.
Qed.

Lemma connection_ends w : crash_loop w = false -> (connection w).1 <> Spin.
Proof.
  intros Hcl. unfold handle_connection. bind1; unfold gets at 1.
  destruct (cloned w); [cbn [negb]|done]. bind1.
  match goal with |- context [write_out ?o w] => pose proof (write_out_returns o w) as H1r;
    pose proof (write_out_ending o w) as Hcl1 end.
  destruct (write_out _ w) as [[[]|e| |] w1]; try done.
  bind1; unfold gets at 1. bind1.
  match goal with |- context [read_bounded_line_until ?d] =>
    pose proof (reading_line_spec d w1) as Hl;
    pose proof (reading_ending (read_bounded_line_until d) w1) as Hcl2 end.
  destruct (reading _ w1) as [[[line|]|e| |] w2]; destruct Hl as (_ & _ & Hr2 & _); try done.
  unfold validate_callsign_with_allowlist.
  match goal with |- context [match ?c with Ok _ => _ | _ => _ end] => destruct c as [cs|e| |] eqn:Ec end.
  - bind1; unfold modify at 1. unfold await_agree. set (w3 := set_session _ w2).
    bind1.
    match goal with |- context [write_out ?o w3] => pose proof (write_out_returns o w3) as H3r;
      pose proof (write_out_ending o w3) as Hcl3 end.
    destruct (write_out _ w3) as [[[]|e| |] w4]; try done.
    bind1; unfold gets at 1. bind1.
    match goal with |- context [preauth_loop ?f ?d ?c w4] =>
      pose proof (preauth_loop_spec f d c w4) as Hp;
      pose proof (preauth_loop_ending f d c w4) as Hcl4 end.
    destruct (preauth_loop _ _ _ w4) as [[[input|]|e| |] w5];
      destruct Hp as (_ & _ & Hp & _); try done;
      try (by exfalso; apply Hp; unfold stream_fuel, left_over; lia).
    case_bool_decide; cbn [negb].
    2: { match goal with |- context [write_out ?o w5] => pose proof (write_out_returns o w5) end.
         by destruct (write_out _ w5) as [[| | |] ?]. }
    bind1; unfold acknowledge_session, modify.
    bind1; unfold log_entry. bind1.
    match goal with |- context [launch_browser ?x] => destruct (launch_spec x) as (ok & w6 & -> & _ & _ & _ & _ & Hcl5) end.
    destruct ok; cbn [negb].
    + bind1; unfold gets at 1. apply serve_loop_ends; [cbn in *; congruence|].
      unfold stream_fuel, left_over. lia.
    + unfold send_error_response, send_status_response. cbv zeta.
      match goal with |- context [write_out ?o w6] => pose proof (write_out_returns o w6) end.
      by destruct (write_out _ w6) as [[| | |] ?].
  - unfold ignore, catch.
    match goal with |- context [write_out ?o w2] => pose proof (write_out_returns o w2) end.
    by destruct (write_out _ w2) as [[| | |] ?].
  - revert Ec. by repeat case_match.
  - revert Ec. by repeat case_match.
Qed.

(** ** Properties *)

(** C1: nothing but plain text leaves the server, no browser starts and no page
    is fetched, unless the station gave a valid callsign and then a line of its
    own stream that is AGREE up to case and spacing; the agreement is logged
    under that callsign first, and what follows are decodable frames and
    fetches of URLs the filter accepted. *)
Theorem agree_gate w :
  let '(res, w') := handle_connection config resolve_at domains_at url_parse
    parse_http_date prober w in
  exists tail, trace w' = trace w ++ tail /\ gated w tail.
Proof. apply connection_gated. Qed.


(** C38: a connection ends, on any stream, unless the browser crashes for ever:
    when it is not the case that from some point on every fetch finds the
    browser's session lost and every restart succeeds, neither the loop before
    AGREE nor the request loop nor the browser restart loop runs forever. *)
Theorem handle_connection_terminates w :
  crash_loop w = false ->
  (handle_connection config resolve_at domains_at url_parse parse_http_date prober w).1 <> Spin.
Proof. apply connection_ends. Qed.

(** A browser that crashes for ever keeps a request from being answered: the
    loop restarts it without bound, and nothing stops it. *)
Theorem crash_loop_never_answers url inm w :
  stuck w -> validate_now (clock w) url = Ok tt ->
  (request url inm w).1 = Spin
  /\ forall fuel, exists w', fetch_loop fuel url w = (Spin, w')
       /\ trace w' = trace w ++ concat (repeat [Fetched url (clock w); Launched true] fuel).
Proof.
  intros Hs Hv. split.
  - unfold handle_request. bind1; unfold gets at 1. rewrite Hv. bind1; unfold gets at 1. bind1.
    pose proof (fetch_loop_stuck url (fetch_fuel w) w Hs) as Hf.
    by destruct (fetch_loop _ url w) as [res w'], Hf as [-> _].
  - intros fuel. pose proof (fetch_loop_stuck url fuel w Hs) as Hf.
    destruct (fetch_loop fuel url w) as [res w'], Hf as [-> Ht]. by exists w'.
Qed.
End Behaviour.

(** A station that agrees and asks for one page *)
Definition demo_config : Config := @from_env Toy.unicode (fun _ => None).
Definition demo_world : World :=
  mkWorld (mkReader [] [(10, Data (bs "W1AW" ++ [LF])); (20, Data (bs "*** Connected" ++ [LF]));
             (30, Data (bs "agree" ++ [LF])); (40, Data (bs "GET http://a.org/" ++ [LF]))] 0)
    (new [] 0) false [] [(1000, true)] [(5000, inr (bs "<p>hi</p>"))]
    true false [].
Definition demo_connection : Srv unit :=
  @handle_connection Toy.unicode rfc4648 Toy.sha256 Toy.brotli demo_config
    (fun _ _ _ => Some [V4 x08 x08 x08 x08]) (fun _ => Some ∅)
    (fun _ => Some (mkUrl (bs "http") (Some (Domain (bs "a.org"))) (Some 80)))
    (fun _ => None) (mkProber None false (fun _ => None) (fun _ => None)).

Example demo_run :
  map (fun a => match a with
                | Fetched u _ => u
                | Wrote (Frame r) _ => payload r
                | Logged e => log_url e
                | _ => []
                end) (trace (demo_connection demo_world).2)
  = [[]; []; bs "AGREED"; []; bs "http://a.org/"; bs "http://a.org/"; bs "<p>hi</p>"].
Proof. by vm_compute. Qed.

Lemma agree_gate_witness :
  let '(res, w') := demo_connection demo_world in
  exists tail, trace w' = trace demo_world ++ tail
    /\ @gated Toy.unicode demo_config (fun _ _ _ => Some [V4 x08 x08 x08 x08]) (fun _ => Some ∅)
         (fun _ => Some (mkUrl (bs "http") (Some (Domain (bs "a.org"))) (Some 80))) demo_world tail.
Proof.
  apply (@agree_gate Toy.unicode rfc4648 Toy.sha256 Toy.brotli). 
  - vm_compute. split; discriminate.
  - exact rfc4648_laws.
  - exact Toy.sha256_laws.
Defined.

Lemma handle_connection_terminates_witness :
  crash_loop demo_world = false /\ (demo_connection demo_world).1 <> Spin.
Proof.
  split; [reflexivity|].
  by apply (@handle_connection_terminates Toy.unicode rfc4648 Toy.sha256 Toy.brotli).
Defined.
