(* ===== verification/Logger.v ===== *)
(** * The access log ([server/src/logger.rs])

    Each entry is one line of JSON appended to a file.  [serde_json] is an
    interface; the file is the bytes it holds, and what opening it and writing to
    it will report is listed in the disk. *)
From Stdlib Require Import ZArith Lia Strings.Byte.
From stdpp Require Import base decidable list gmap strings.
From S2P Require Import Prelude Bytes Numbers Server.

(** [serde_json::to_string(self)] *)
Class LogJson : Type := log_to_json : LogEntry -> option (list byte).
(** JSON escapes the control characters and the compact form puts none between
    its tokens. *)
Class LogJsonLaws `{LogJson} : Prop :=
  log_json_printable : forall e j, log_to_json e = Some j -> Forall (fun b => 32 <= u8 b) j.

Inductive DiskError : Type := OpenFailed (msg : list byte) | WriteFailed (msg : list byte).

(** The file, none before the first entry, and the outcomes to come: an error of
    [open], and the place and error of a write that is cut *)
Record Disk : Type := mkDisk {
  content : option (list byte);
  opens : list (option (list byte));
  cuts : list (option (nat * list byte)) }.

Section Logger.
Context `{LogJson}.

Definition to_json (e : LogEntry) : list byte := default (bs "{}") (log_to_json e).

(** [OpenOptions::new().create(true).append(true).open(&self.log_path)?] *)
Definition open_append : M Disk DiskError unit := fun d =>
  match opens d with
  | Some e :: rest => (Err (OpenFailed e), mkDisk (content d) rest (cuts d))
  | _ => (Ok tt, mkDisk (Some (default [] (content d))) (tail (opens d)) (cuts d))
  end.

(** A write to the file opened for appending *)
Definition append (data : list byte) : M Disk DiskError unit := fun d =>
  let old := default [] (content d) in
  match cuts d with
  | Some (n, e) :: rest => (Err (WriteFailed e), mkDisk (Some (old ++ take n data)) (opens d) rest)
  | _ => (Ok tt, mkDisk (Some (old ++ data)) (opens d) (tail (cuts d)))
  end.

(** [Logger::log]: [writeln!] to a [File], which has no buffer, writes the text and
    then the newline *)
Definition log (e : LogEntry) : M Disk DiskError unit :=
  _ ← open_append;
  _ ← append (to_json e);
  append [LF].

(** [let _ = logger.log(..)], for each entry of a connection *)
Fixpoint log_all (es : list LogEntry) : M Disk DiskError unit :=
  match es with
  | [] => mret tt
  | e :: rest => _ ← ignore (log e); log_all rest
  end.
End Logger.

(** The entries a connection logs *)
Definition logged (t : list Act) : list LogEntry :=
  omap (fun a => match a with Logged e => Some e | _ => None end) t.

(** ** Properties *)

Section Behaviour.
Context `{LogJsonLaws}.

Definition line_of (e : LogEntry) : list byte := to_json e ++ [LF].

Lemma to_json_printable e : Forall (fun b => 32 <= u8 b) (to_json e).
Proof.
  unfold to_json. destruct (log_to_json e) as [j|] eqn:E; cbn [default].
  - by apply (log_json_printable e).
  - repeat constructor; by vm_compute.
Qed.

(** Printable texts, each ended by a newline, are the lines. *)
Lemma lines_concat js :
  Forall (Forall (fun b => 32 <= u8 b)) js -> lines (concat (map (fun j => j ++ [LF]) js)) = js.
Proof.
  unfold lines. induction 1 as [|j js Hj _ IH]; [done|]. cbn [map concat].
  rewrite <- app_assoc. cbn [Datatypes.app]. rewrite split_on_app.
  2: { apply forallb_forall. intros b Hb%list_elem_of_In. rewrite Forall_forall in Hj. apply Hj in Hb.
       destruct (Byte.eqb b LF) eqn:E; [|done]. apply Byte.byte_dec_bl in E. subst b. by vm_compute in Hb. }
  pose proof (split_on_nonempty LF (concat (map (fun j => j ++ [LF]) js))) as Hne.
  destruct (split_on LF _) as [|p ps]; [done|].
  change (strip_cr j :: drop_last_empty (p :: ps) = j :: js). rewrite IH. f_equal.
  unfold strip_cr, strip_suffix. destruct (starts_with _ (rev j)) eqn:Es; [|done]. exfalso.
  apply starts_with_spec in Es as [r Hr]. apply Forall_rev in Hj.
  rewrite Hr in Hj. apply Forall_cons in Hj as [Hj _]. by vm_compute in Hj.
Qed.

(** The opens that succeed, the entries that are then written *)
Fixpoint written (os : list (option (list byte))) (es : list LogEntry) : list LogEntry :=
  match es with
  | [] => []
  | e :: rest => match os with
                 | Some _ :: os => written os rest
                 | os => e :: written (tail os) rest
                 end
  end.

Lemma log_content e c os :
  log e (mkDisk c os []) =
  match os with
  | Some m :: rest => (Err (OpenFailed m), mkDisk c rest [])
  | _ => (Ok tt, mkDisk (Some (default [] c ++ line_of e)) (tail os) [])
  end.
Proof.
  unfold line_of. destruct os as [|[m|] os]; unfold log, mbind, M_bind, open_append, append; cbn;
    by rewrite <- ?app_assoc.
Qed.

Lemma log_all_content es : forall old os,
  default [] (content (log_all es (mkDisk old os [])).2)
    = default [] old ++ concat (map line_of (written os es)).
Proof.
  induction es as [|e es IH]; intros old os; cbn [log_all written]; [cbn; by rewrite app_nil_r|].
  unfold mbind, M_bind, ignore, catch. rewrite log_content.
  destruct os as [|[m|] os]; cbv beta iota; cbn [mret M_ret]; rewrite IH; [|done|];
    cbn; by rewrite <- ?app_assoc.
Qed.

(** The access log has one line for each entry a server logged, in order, with
    the entry's JSON text and nothing else, after the lines it had: when nothing else
    writes to it, an entry is missing only if its own [open] failed. *)
Theorem access_log_lines prior es os :
  let d := mkDisk (Some (concat (map line_of prior))) os [] in
  lines (default [] (content (log_all es d).2)) = map to_json (prior ++ written os es)
  /\ written os es `sublist_of` es
  /\ (Forall (fun o => o = None) os -> written os es = es).
Proof.
  intros d. unfold d. rewrite log_all_content. split_and!.
  - change (lines (concat (map line_of prior) ++ concat (map line_of (written os es)))
            = map to_json (prior ++ written os es)).
    rewrite <- concat_app, <- map_app. unfold line_of.
    rewrite <- (map_map to_json (fun j => j ++ [LF])). apply lines_concat.
    induction (prior ++ written os es) as [|e l IH]; constructor; [apply to_json_printable|done].
  - clear. revert os. induction es as [|e es IH]; intros os; [done|]. cbn.
    destruct os as [|[m|] os]; cbn; [by constructor|by constructor|by constructor].
  - clear. revert os. induction es as [|e es IH]; intros os Ho; [done|]. cbn.
    destruct Ho as [|o os -> Ho]; cbn; by rewrite IH.
Qed.
End Behaviour.

(** ** Two connections log at once *)

Module ToyJson.
#[export] Instance json : LogJson := fun e => Some (filter (fun b => 32 <= u8 b) (call e)).
#[export] Instance json_laws : LogJsonLaws.
Proof. intros e j [= <-]. rewrite Forall_forall. by intros b [Hb _]%list_elem_of_filter. Qed.
End ToyJson.

#[local] Existing Instances ToyJson.json ToyJson.json_laws.

Definition demo_log_entry (call : list byte) : LogEntry := mkLogEntry 0 call (bs "AGREED") LogAgreed None.

Example access_log_lines_demo :
  default [] (content (log_all [demo_log_entry (bs "W1AW"); demo_log_entry (bs "N0CALL")]
    (mkDisk None [] [])).2) = bs "W1AW" ++ [LF] ++ bs "N0CALL" ++ [LF].
Proof. vm_compute. reflexivity. Qed.

(** The text and the newline of an entry are two writes: those of another
    connection may come between, and a line then holds two entries. *)
Example entries_share_a_line :
  let first := demo_log_entry (bs "W1AW") in
  let second := demo_log_entry (bs "N0CALL") in
  let d := (_ ← append (to_json first); _ ← append (to_json second);
            _ ← append [LF]; append [LF]) (mkDisk (Some []) [] []) in
  lines (default [] (content d.2)) = [to_json first ++ to_json second; []].
Proof. vm_compute. reflexivity. Qed.
