(* ===== verification/ServerMain.v ===== *)
(** * The server's start and its accept loop ([main] of [server/src/main.rs],
    [start_proxy], [serve_conn] of [server/src/proxy.rs])

    The parts together: the start-up reads the configuration, brings up the domain
    list, the filtering proxy and the block list updates in this order, and only then
    accepts connections; each one admitted runs [handle_connection] with browsers that
    [BrowserInstance::new] launches. *)
From Stdlib Require Import ZArith Lia Strings.Byte.
From stdpp Require Import base decidable list gmap relations sets.
From S2P Require Import Prelude Bytes Numbers External NetAddr Filter.
From S2P Require Blocklist ServerProxy Browser Admission OriginCC.
From S2P Require Import ServerConfig Server.

Definition READ_POLL_SECS : Z := 30.
Definition WRITE_TIMEOUT_SECS : Z := 300.

(** What the system calls of the start-up will report: an error message, or success *)
Record Os : Type := mkOs {
  arguments : list (list byte);
  environment : Env;
  (** [TcpStream::connect] to a port of 127.0.0.1 *)
  connects : Z -> bool;
  build_runtime : option (list byte);
  (** the port given for 127.0.0.1:0, and whether [local_addr] tells it *)
  bind_loopback : list byte + Z;
  local_addr : option (list byte);
  spawn_thread : option (list byte);
  bind_any : Z -> option (list byte) }.

(** What the start-up does, in order *)
Inductive Started : Type :=
| DomainListReady
| ProxyServing (port : Z) (blocked : list (list byte))
| ProxyPortSet (port : Z)
| BlocklistManager (urls : list (list byte)) (refresh_hours : Z)
| Listening (port : Z).

(** How [main] ends before it accepts: [std::process::exit] *)
Inductive Exit : Type := Exited (code : Z).

Abbreviation Start := (M (list Started) Exit).
Definition starts (a : Started) : Start unit := modify (fun t => t ++ [a]).

Record Running : Type := mkRunning {
  config : Config;
  domains : Blocklist.State;
  proxy : Z * list (list byte);
  proxy_cell : option Z;
  manager : option (list (list byte) * Z) }.

Section Main.
Context `{UnicodeCase}.

(** [start_proxy] *)
Definition start_proxy (os : Os) (blocked_ranges : list (list byte)) : list byte + Z :=
  match build_runtime os with
  | Some e => inl e
  | None =>
      match bind_loopback os with
      | inl e => inl e
      | inr port =>
          match local_addr os, spawn_thread os with
          | Some e, _ | None, Some e => inl e
          | None, None => inr port
          end
      end
  end.

(** The port of the health check *)
Definition healthcheck_port (env : Env) : Z :=
  default 63004 (v ← env (bs "LISTEN_PORT"); parse_unsigned 65535 v).

(** [main] after the health check *)
Definition start (os : Os) (config : Config) : Start Running :=
  let domains := Blocklist.init_domain_blocklist None in
  _ ← starts DomainListReady;
  match start_proxy os (blocked_ranges config) with
  | inl _ => throw (Exited 1)
  | inr port =>
      _ ← starts (ProxyServing port (blocked_ranges config));
      let cell := Browser.set_proxy_port port None in
      _ ← starts (ProxyPortSet port);
      let managed := blocklist_enabled config && negb (bool_decide (blocklist_urls config = [])) in
      let updates := (blocklist_urls config, blocklist_refresh_hours config) in
      _ ← (if managed then starts (BlocklistManager updates.1 updates.2) else mret tt);
      match bind_any os (listen_port config) with
      (* [expect("Failed to bind to port")] *)
      | Some _ => lift Panic
      | None =>
          _ ← starts (Listening (listen_port config));
          mret (mkRunning config domains (port, blocked_ranges config) cell
                  (if managed then Some updates else None))
      end
  end.

Definition main (os : Os) : Start Running :=
  if bool_decide (bs "--healthcheck" ∈ arguments os) then
    throw (Exited (if connects os (healthcheck_port (environment os)) then 0 else 1))
  else start os (from_env (environment os)).

(** The wait between two updates of the block list, in seconds: the product wraps *)
Definition refresh_period (refresh_hours : Z) : Z := as_u64 (refresh_hours * 3600).

(** [serve_conn]: the service of each request of a connection *)
Fixpoint serve_conn (net : ServerProxy.Net) (resolve : list byte -> Z -> option (list IpAddr))
    (domains : Blocklist.State) (blocked : list (list byte)) (reqs : list ServerProxy.HttpRequest)
    : M (list ServerProxy.Action) (list byte) (list ServerProxy.HttpResponse) :=
  match reqs with
  | [] => mret []
  | req :: rest =>
      resp ← ServerProxy.handle net resolve domains blocked req;
      resps ← serve_conn net resolve domains blocked rest;
      mret (resp :: resps)
  end.
End Main.

(** ** The accept loop *)

(** One update of the domain list: whether the client is built, what downloads give *)
Abbreviation Update := (Result (list byte) unit * (list byte -> Result (list byte) Blocklist.HttpBody))%type.

(** The domain list once the manager, if it was started, has run these updates *)
Definition domains_after (srv : Running) (initial : Update) (ticks : list Update) : Blocklist.State :=
  match manager srv with
  | None => domains srv
  | Some (urls, _) => Blocklist.start_blocklist_manager urls initial ticks (domains srv)
  end.

(** A connection admitted: its peer, its socket and clock, and the browsers its
    launches made, each for a callsign and from a state of the system *)
Record Connection : Type := mkConnection {
  peer : option IpAddr;
  socket : World;
  browsers : list (list byte * Browser.World) }.

(** How long a launch takes, and whether it gives a browser *)
Definition launched (b : list byte * Browser.World) : Z * bool :=
  let (r, w') := Browser.new b.1 b.2 in
  (Browser.clock w' - Browser.clock b.2, match r with Ok _ => true | _ => false end).

(** A connection at its start: its launches are those of [BrowserInstance::new], which
    reads the port in the server's cell *)
Record starts_clean (srv : Running) (c : Connection) : Prop := {
  clean_trace : trace (socket c) = [];
  clean_browser : browser (socket c) = false;
  clean_launches : launches (socket c) = map launched (browsers c);
  clean_cell : Forall (fun b => Browser.proxy_port b.2 = Browser.current_proxy_port (proxy_cell srv)
                        /\ Browser.trace b.2 = []) (browsers c) }.

Record Serving : Type := mkServing {
  admission : Admission.State;
  admitted : list Connection }.

Definition no_connection : Serving := mkServing Admission.init [].

Inductive serves (srv : Running) : Serving -> Serving -> Prop :=
(** [accept], [set_read_timeout] or [set_write_timeout] failed: [continue] *)
| serves_dropped s : serves srv s s
(** a step of the counters that admits nobody *)
| serves_counts a a' cs :
    Admission.step a a' ->
    (length (Admission.threads a') <= length (Admission.threads a))%nat ->
    serves srv (mkServing a cs) (mkServing a' cs)
(** the slot is claimed and the thread spawned *)
| serves_admit n m p ts c cs :
    n < Admission.MAX_CONNECTIONS -> starts_clean srv c -> peer c = p ->
    serves srv (mkServing (Admission.mkState n m (Admission.PeerClaimed p) ts) cs)
      (mkServing (Admission.mkState (Admission.fetch_add n) m Admission.Accepting
                    (Admission.Serving p :: ts)) (cs ++ [c])).

(** ** Properties *)

Section Startup.
Context `{UnicodeCase}.

(** The updates of the block list are run exactly when they are enabled and there is
    something to download. *)
Definition managed (c : Config) : bool :=
  blocklist_enabled c && negb (bool_decide (blocklist_urls c = [])).

(** A server that runs, by what its configuration says *)
Definition running_as (os : Os) (c : Config) (srv : Running) (t : list Started) : Prop :=
  exists port, start_proxy os (blocked_ranges c) = inr port
  /\ bind_any os (listen_port c) = None
  /\ srv = mkRunning c (Some ∅) (port, blocked_ranges c) (Some port)
             (if managed c then Some (blocklist_urls c, blocklist_refresh_hours c) else None)
  /\ t = [DomainListReady; ProxyServing port (blocked_ranges c); ProxyPortSet port]
         ++ (if managed c then [BlocklistManager (blocklist_urls c) (blocklist_refresh_hours c)] else [])
         ++ [Listening (listen_port c)].

(** What the start comes to *)
Definition started_as (os : Os) (c : Config) (r : Result Exit Running) (t : list Started) : Prop :=
  match r with
  | Ok srv => running_as os c srv t
  | Err (Exited code) => (forall port, Listening port ∉ t)
      /\ code = 1 /\ exists e, start_proxy os (blocked_ranges c) = inl e
  | Panic => (forall port, Listening port ∉ t) /\ exists e, bind_any os (listen_port c) = Some e
  | Spin => False
  end.

Lemma start_outcome os c : let (r, t) := start os c [] in started_as os c r t.
Proof.
  unfold start, mbind, M_bind, starts, modify, throw. cbn.
  destruct (start_proxy os (blocked_ranges c)) as [e|port] eqn:Ep.
  { cbn. split; [set_solver|]. split; [done|by exists e]. }
  fold (managed c).
  destruct (managed c) eqn:Em; destruct (bind_any os (listen_port c)) as [e|] eqn:Eb; cbn; rewrite ?Eb; cbn.
  - split; [set_solver|by exists e].
  - exists port. by rewrite Em.
  - split; [set_solver|by exists e].
  - exists port. by rewrite Em.
Qed.

Lemma main_runs os srv t :
  main os [] = (Ok srv, t) -> running_as os (from_env (environment os)) srv t.
Proof.
  unfold main. case_bool_decide; [done|]. intros Hm.
  pose proof (start_outcome os (from_env (environment os))) as Hs. by rewrite Hm in Hs.
Qed.

(** C39: the start-up brings up the domain list, the filtering proxy and the port the
    browsers are given before it listens, and runs with the configuration the
    environment gives, its blocked ranges enforced by the proxy; when the proxy or the
    server's port cannot be had it ends without ever listening; and the health check
    asks the very port the server listens on. *)
Theorem main_starts_filtered os :
  let c := from_env (environment os) in
  let '(r, t) := main os [] in
  if bool_decide (bs "--healthcheck" ∈ arguments os)
  then r = Err (Exited (if connects os (listen_port c) then 0 else 1)) /\ t = []
  else started_as os c r t.
Proof.
  intros c. unfold main. case_bool_decide; [done|]. apply (start_outcome os c).
Qed.

End Startup.

Section Behaviour.
Context `{UnicodeCase} `{Base64Laws} `{Sha256Laws} `{Brotli} `{Browser.FirefoxLaws}.

(** *** The proxy's connections *)

Lemma serve_conn_runs net resolve domains blocked reqs t :
  let '(r, t') := serve_conn net resolve domains blocked reqs t in
  (exists resps, r = Ok resps /\ length resps = length reqs)
  /\ exists tail, t' = t ++ tail
  /\ Forall (fun a => exists req, req ∈ reqs /\ ServerProxy.permitted net resolve domains blocked req a) tail.
Proof.
  revert t. induction reqs as [|req reqs IH]; intros t.
  { cbn. split; [by exists []|]. exists []. by rewrite app_nil_r. }
  cbn [serve_conn]. unfold mbind at 1, M_bind at 1.
  pose proof (ServerProxy.handle_succeeds net resolve domains blocked req t) as [resp Hs].
  pose proof (ServerProxy.handle_emits net resolve domains blocked req t) as (tl & Ht & Hp).
  destruct (ServerProxy.handle net resolve domains blocked req t) as [r t1]. cbn in Hs, Ht. subst r t1.
  unfold mbind, M_bind. specialize (IH (t ++ tl)).
  destruct (serve_conn net resolve domains blocked reqs (t ++ tl)) as [r t2].
  destruct IH as ((resps & -> & Hl) & tl2 & -> & Hp2). cbn. split.
  - exists (resp :: resps). by rewrite <- Hl.
  - exists (tl ++ tl2). rewrite app_assoc. split; [done|]. apply Forall_app. split.
    + eapply Forall_impl; [exact Hp|]. intros a Ha. exists req. split; [by left|done].
    + eapply Forall_impl; [exact Hp2|]. intros a (q & Hq & Ha). exists q. split; [by right|done].
Qed.

(** *** The accept loop *)

Lemma serves_admission srv s : rtc (serves srv) no_connection s -> Admission.reachable (admission s).
Proof.
  assert (Hgen : forall s1 s2, rtc (serves srv) s1 s2 -> rtc Admission.step (admission s1) (admission s2)).
  { induction 1 as [|s1 s2 s3 Hs _ IH]; [done|].
    destruct Hs as [s4|a a' cs Ha _|n m p ts c cs Hn _ _]; [done|..].
    - by eapply rtc_l; [exact Ha|].
    - eapply rtc_l; [|exact IH]. by apply Admission.step_admit. }
  intros Hr. exact (Hgen _ _ Hr).
Qed.

Lemma serves_clean srv s :
  rtc (serves srv) no_connection s -> Forall (starts_clean srv) (admitted s).
Proof.
  intros Hr. apply (rtc_ind_r (R:=serves srv) (fun s => Forall (starts_clean srv) (admitted s)) no_connection); [|..|exact Hr].
  - constructor.
  - intros s1 s2 _ Hs IH. destruct Hs; [done|done|]. cbn. apply Forall_app. by split; [|constructor].
Qed.
(** *** What runs is filtered *)

Lemma browsers_filtered srv c port b bin prefs :
  starts_clean srv c -> proxy_cell srv = Some port -> b ∈ browsers c ->
  Browser.Opened bin prefs ∈ Browser.trace (Browser.new b.1 b.2).2 -> Browser.filtered port prefs.
Proof.
  intros [_ _ _ Hcell] Hp Hb Hin. rewrite Forall_forall in Hcell. destruct (Hcell b Hb) as [Hc Ht].
  destruct (Browser.launch_runs b.1 b.2) as (tl & Htl & Hl). rewrite Htl, Ht in Hin.
  destruct (Browser.trace_filtered _ _ _ _ _ Hl Hin) as (port' & Hp' & Hf).
  rewrite Hc, Hp in Hp'. by injection Hp' as ->.
Qed.

(** With the ranges of the default configuration, no connection goes to an internal
    address. *)
Lemma permitted_public net resolve domains req ip port :
  ServerProxy.permitted net resolve domains DEFAULT_BLOCKED_RANGES req (ServerProxy.Connect ip port) ->
  match ip with V4 a b c d => internal_v4 a b c d = false | V6 _ => True end.
Proof. destruct ip as [a b c d|]; [|done]. intros [Hb _]. by rewrite <- default_ranges_ipv4. Qed.

Lemma updates_keep updates urls : forall st : Blocklist.State, is_Some st ->
  is_Some (fold_left (fun st '(build, get) => (Blocklist.update_blocklist build get urls st).2) updates st).
Proof.
  induction updates as [|[build get] updates IH]; intros st Hst; [done|]. cbn. apply IH.
  unfold Blocklist.update_blocklist. destruct Hst as [d ->].
  destruct (mbind _ _) as [d'|e| |]; by eexists.
Qed.

(** The domain list is there from the start, whatever the updates come to. *)
Lemma domains_kept os c srv t initial ticks :
  running_as os c srv t -> is_Some (domains_after srv initial ticks).
Proof.
  intros (port & _ & _ & -> & _). unfold domains_after. cbn [manager domains].
  destruct (managed c); [|by eexists]. unfold Blocklist.start_blocklist_manager.
  case_bool_decide; [by eexists|]. apply updates_keep. by eexists.
Qed.

(** C2: the pieces together: in a server that runs, whatever connections come and in
    whatever order their threads finish, at most 50 run at once; no connection does
    anything but talk plain text before an allowed callsign and AGREE, and every one
    ends unless its browser crashes for ever; every browser it launches sends its
    requests, plain or encrypted, for hosts other than the machine itself to the
    server's proxy; and whatever reaches the proxy, it answers each request and connects
    only to addresses outside the configured ranges and under names that are not listed;
    with the default configuration none of them is an internal IPv4 address.  Requests a
    page makes to the machine itself do not go through the proxy
    ([Browser.loopback_bypasses_proxy]). *)
Theorem server_filters os srv t s :
  main os [] = (Ok srv, t) -> rtc (serves srv) no_connection s ->
  (length (Admission.threads (admission s)) <= 50)%nat
  /\ (forall c resolve_at domains_at url_parse parse_http_date prober, c ∈ admitted s ->
        let '(r, w') := handle_connection (config srv) resolve_at domains_at url_parse parse_http_date
                          prober (socket c) in
        (crash_loop (socket c) = false -> r <> Spin)
        /\ gated (config srv) resolve_at domains_at url_parse (socket c) (trace w')
        /\ forall b bin prefs, b ∈ browsers c ->
             Browser.Opened bin prefs ∈ Browser.trace (Browser.new b.1 b.2).2 ->
             forall encrypted host, Browser.is_loopback host = false ->
               Browser.route prefs encrypted host = Browser.Via Browser.LOOPBACK (proxy srv).1)
  /\ (forall net resolve initial ticks reqs,
        let domains := domains_after srv initial ticks in
        let '(r, acts) := serve_conn net resolve domains (proxy srv).2 reqs [] in
        is_Some domains /\ (exists resps, r = Ok resps /\ length resps = length reqs)
        /\ Forall (fun a => exists req, req ∈ reqs
             /\ ServerProxy.permitted net resolve domains (blocked_ranges (config srv)) req a) acts
        /\ (environment os (bs "BLOCKED_RANGES") = None ->
             forall a b c d port, ServerProxy.Connect (V4 a b c d) port ∈ acts ->
               internal_v4 a b c d = false)).
Proof.
  intros Hmain Hs. apply main_runs in Hmain as Hrun. pose proof Hrun as (port & _ & _ & Hsrv & _).
  assert (Hd : i32_min <= default_max_age_seconds (config srv) <= i32_max).
  { rewrite Hsrv. cbn [config]. by apply parsed_signed_bound. }
  split_and!.
  - destruct (Admission.rtc_inv _ _ (serves_admission _ _ Hs) Admission.inv_init) as [_ Hcap _ _ _].
    change 50%nat with (Z.to_nat 50). apply Nat2Z.inj_le. rewrite Z2Nat.id by done. exact Hcap.
  - intros c resolve_at domains_at url_parse parse_http_date prober Hc.
    pose proof (serves_clean _ _ Hs) as Hclean. rewrite Forall_forall in Hclean. specialize (Hclean c Hc).
    pose proof (connection_ends (config srv) resolve_at domains_at url_parse parse_http_date prober (socket c)) as He.
    pose proof (connection_gated (config srv) resolve_at domains_at url_parse parse_http_date prober Hd (socket c)) as Hg.
    destruct (handle_connection _ _ _ _ _ _ _) as [r w']. destruct Hg as (tl & Ht & Hg).
    rewrite (clean_trace _ _ Hclean) in Ht. cbn [Datatypes.app] in Ht. subst tl. split_and!; [done|done|].
    intros b bin prefs Hb Hin encrypted host. apply Browser.filtered_route.
    apply (browsers_filtered srv c _ b bin); [done|by rewrite Hsrv|done..].
  - intros net resolve initial ticks reqs domains.
    pose proof (serve_conn_runs net resolve domains (proxy srv).2 reqs []) as Hc.
    destruct (serve_conn _ _ _ _ _ _) as [r acts]. destruct Hc as (Hr & tl & -> & Hp).
    cbn [Datatypes.app]. split_and!; [by eapply domains_kept|done|by rewrite Hsrv in Hp |- *|].
    intros He a b c d p Hin. rewrite Forall_forall in Hp. destruct (Hp _ Hin) as (req & _ & Ha).
    apply (permitted_public net resolve domains req (V4 a b c d) p).
    rewrite Hsrv in Ha. cbn [proxy snd] in Ha. unfold from_env, blocked_ranges, parse_env_vec in Ha.
    by rewrite He in Ha.
Qed.
End Behaviour.

(** ** A server with the default configuration, and one connection *)

#[local] Existing Instances Toy.unicode rfc4648 rfc4648_laws Toy.sha256 Toy.sha256_laws Toy.brotli
  Browser.ToyFirefox.firefox Browser.ToyFirefox.firefox_laws.

Module Demo.
Definition os : Os :=
  mkOs [] (fun _ => None) (fun _ => true) None (inr 40000) None None (fun _ => None).
Definition browser_world : Browser.World :=
  Browser.mkWorld (Some 40000) (fun _ => None) 0 (inr (bs "/tmp")) None (inr 4444) None [(5, true)]
    None None [].
Definition running : Running :=
  mkRunning (from_env (fun _ => None)) (Some ∅) (40000, DEFAULT_BLOCKED_RANGES) (Some 40000) None.
Definition connection : Connection :=
  mkConnection (Some Admission.ip1)
    (mkWorld (reader demo_world) (session demo_world) false (writes demo_world) [(5, true)]
       (fetches demo_world) true false [])
    [(bs "W1AW", browser_world)].
Definition serving : Serving :=
  mkServing (Admission.mkState 1 {[Admission.ip1 := 1]} Admission.Accepting
               [Admission.Serving (Some Admission.ip1)]) [connection].

Lemma clean : starts_clean running connection.
Proof. split; [reflexivity..|by repeat constructor]. Qed.

Lemma serving_reached : rtc (serves running) no_connection serving.
Proof.
  eapply rtc_l; [apply serves_counts; [apply (Admission.step_claim_peer 0 ∅ [] Admission.ip1),
    Admission.claim_fresh|cbn; lia]|].
  eapply rtc_l; [by apply (serves_admit running 0 {[Admission.ip1 := 1]} (Some Admission.ip1) []
    connection []); [|apply clean|]|]. apply rtc_refl.
Qed.
End Demo.

Lemma server_filters_witness :
  main Demo.os [] = (Ok Demo.running, [DomainListReady; ProxyServing 40000 DEFAULT_BLOCKED_RANGES;
                                       ProxyPortSet 40000; Listening 63004])
  /\ (forall bin prefs, Browser.Opened bin prefs
        ∈ Browser.trace (Browser.new (bs "W1AW") Demo.browser_world).2 ->
        Browser.route prefs true (bs "example.org") = Browser.Via Browser.LOOPBACK 40000)
  /\ forall net resolve reqs a b c d port,
       ServerProxy.Connect (V4 a b c d) port
         ∈ (serve_conn net resolve (Some ∅) DEFAULT_BLOCKED_RANGES reqs []).2 ->
       internal_v4 a b c d = false.
Proof.
  assert (Hm : main Demo.os [] = (Ok Demo.running, [DomainListReady;
    ProxyServing 40000 DEFAULT_BLOCKED_RANGES; ProxyPortSet 40000; Listening 63004])) by reflexivity.
  destruct (server_filters Demo.os Demo.running _ Demo.serving Hm Demo.serving_reached) as (_ & Hc & Hp).
  split; [exact Hm|]. split.
  - intros bin prefs. specialize (Hc Demo.connection (fun _ _ _ => None) (fun _ => None) (fun _ => None)
      (fun _ => None) (OriginCC.mkProber None false (fun _ => None) (fun _ => None))
      (list_elem_of_here _ _)).
    destruct (handle_connection _ _ _ _ _ _ _) as [r w'].
    intros Hin. exact (proj2 (proj2 Hc) (bs "W1AW", Demo.browser_world) bin prefs
      (list_elem_of_here _ _) Hin true (bs "example.org") eq_refl).
  - intros net resolve reqs a b c d port.
    specialize (Hp net resolve (Ok tt, fun _ => Err []) [] reqs). cbv zeta in Hp.
    change (domains_after Demo.running (Ok tt, fun _ => Err []) []) with (Some (∅ : gset (list byte))) in Hp.
    change (proxy Demo.running).2 with DEFAULT_BLOCKED_RANGES in Hp.
    destruct (serve_conn net resolve (Some ∅) DEFAULT_BLOCKED_RANGES reqs []) as [r acts].
    intros Hin. exact (proj2 (proj2 (proj2 Hp)) eq_refl a b c d port Hin).
Defined.

(** The port is taken: the server panics before it listens. *)
Example port_taken :
  main (mkOs [] (fun _ => None) (fun _ => true) None (inr 40000) None None (fun _ => Some (bs "in use"))) []
  = (Panic, [DomainListReady; ProxyServing 40000 DEFAULT_BLOCKED_RANGES; ProxyPortSet 40000]).
Proof. reflexivity. Qed.

(** With a refresh period of 0 hours, or one whose seconds wrap to 0, the updates
    follow each other without a pause. *)
Example refresh_without_pause : refresh_period 0 = 0 /\ refresh_period (2 ^ 60) = 0.
Proof. split; reflexivity. Qed.
