(* ===== verification/TransportTypes.v ===== *)
(** * Transport data ([client/src/transport/mod.rs])

    The kinds of modem the client drives, their parameters, the events and the
    errors of the [Transport] trait. *)
From Stdlib Require Import ZArith Lia Strings.Byte.
From stdpp Require Import base decidable list.
From S2P Require Import Prelude Bytes Numbers.

Inductive TransportError : Type :=
| NotConnected
| TrIo (msg : list byte)
| ModemError (msg : list byte)
| SessionRejected (msg : list byte)
| TrTimeout.

(** [impl Display for TransportError] *)
Definition display_transport_error (e : TransportError) : list byte :=
  match e with
  | NotConnected => bs "transport not connected"
  | TrIo m => bs "io: " ++ m
  | ModemError m => bs "modem error: " ++ m
  | SessionRejected m => bs "session rejected: " ++ m
  | TrTimeout => bs "timed out"
  end.

Inductive TransportEvent : Type :=
| EvData (d : list byte)
| EvDisconnected (why : list byte).

Inductive TransportKind : Type := Ax25 | VaraFm | VaraHf.
Inductive VaraMode : Type := Fm | Hf.
Inductive VaraBandwidth : Type := VNarrow | VWide | Bw250 | Bw500 | Bw2300 | Bw2750.

#[export] Instance TransportKind_eq_dec : EqDecision TransportKind.
Proof. solve_decision. Defined.

(** [TransportKind::from_str] and [Display] *)
Definition kind_from_str (s : list byte) : option TransportKind :=
  if bool_decide (s = bs "ax25") then Some Ax25
  else if bool_decide (s = bs "vara_fm") then Some VaraFm
  else if bool_decide (s = bs "vara_hf") then Some VaraHf
  else None.
Definition display_kind (k : TransportKind) : list byte :=
  match k with Ax25 => bs "ax25" | VaraFm => bs "vara_fm" | VaraHf => bs "vara_hf" end.
Definition display_mode (m : VaraMode) : list byte :=
  match m with Fm => bs "fm" | Hf => bs "hf" end.
Definition display_bandwidth (b : VaraBandwidth) : list byte :=
  match b with
  | VNarrow => bs "vnarrow"
  | VWide => bs "vwide"
  | Bw250 => bs "bw250"
  | Bw500 => bs "bw500"
  | Bw2300 => bs "bw2300"
  | Bw2750 => bs "bw2750"
  end.

Lemma kind_roundtrip k : kind_from_str (display_kind k) = Some k.
Proof. by destruct k. Qed.

Record AgwpeParams : Type := mkAgwpeParams { agwpe_param_host : list byte; agwpe_param_port : Z }.

Record VaraParams : Type := mkVaraParams {
  cmd_host : list byte;
  cmd_port : Z;
  data_host : list byte;
  data_port : Z;
  vara_mode : VaraMode;
  bandwidth : VaraBandwidth }.

Record TransportConfig : Type := mkTransportConfig {
  kind : TransportKind;
  agwpe : AgwpeParams;
  vara : VaraParams;
  tr_local_callsign : list byte }.

Record SessionConfig : Type := mkSessionConfig {
  local_callsign : list byte;
  remote_callsign : list byte;
  sess_bpq_command : list byte;
  sess_skip_bpq_app : bool;
  sess_agwpe_port : Z }.
