(* ===== verification/ClientConfig.v ===== *)
(** * Client configuration ([client/src/config.rs])

    The INI file is the [configparser] crate's: what the client keeps in it is
    the map from section and key to value; the text it writes and the values it
    reads from a text are an interface, with what the crate documents of them: a
    value ends at a comment sign and is trimmed. *)
From Stdlib Require Import ZArith Lia Strings.Byte.
From stdpp Require Import base decidable list gmap strings.
From S2P Require Import Prelude Bytes Numbers External TransportTypes.

Record ConnectionConfig : Type := mkConnectionConfig {
  response_timeout_secs : Z;
  auto_reconnect : bool }.

Record CacheSection : Type := mkCacheSection {
  cache_enabled : bool;
  max_bytes : Z;
  max_ttl_seconds : Z;
  cache_dir : option (list byte) }.

Record FileConfig : Type := mkFileConfig {
  agwpe_host : list byte;
  agwpe_port : Z;
  my_callsign : list byte;
  target_callsign : list byte;
  bpq_command : list byte;
  skip_bpq_app : bool;
  cache : CacheSection;
  connection : ConnectionConfig;
  transport_default : TransportKind;
  vara_section : VaraParams }.

(** [impl Default] of the sections *)
Definition default_connection : ConnectionConfig := mkConnectionConfig 30 true.
Definition default_cache : CacheSection := mkCacheSection true 209715200 86400 None.
Definition default_vara : VaraParams :=
  mkVaraParams (bs "127.0.0.1") 8300 (bs "127.0.0.1") 8301 Fm VWide.
Definition default_config : FileConfig :=
  mkFileConfig (bs "127.0.0.1") 8000 [] [] (bs "WEB") false
    default_cache default_connection Ax25 default_vara.

Inductive ConfigError : Type := CfgIo (msg : list byte) | CfgParse (msg : list byte) | NoConfigDir.

(** [CacheSection::effective_dir]; [cache_root] is [dirs::cache_dir()] *)
Definition effective_dir (cache_root : option (list byte)) (c : CacheSection)
    : Result ConfigError (list byte) :=
  match cache_dir c with
  | Some d => Ok d
  | None => root ← ok_or NoConfigDir cache_root; Ok (root ++ bs "/packet-browser")
  end.

Definition parse_vara_mode (s : list byte) : VaraMode :=
  if bool_decide (s = bs "hf") then Hf else Fm.
Definition parse_vara_bandwidth (s : list byte) : VaraBandwidth :=
  if bool_decide (s = bs "vnarrow") then VNarrow
  else if bool_decide (s = bs "vwide") then VWide
  else if bool_decide (s = bs "bw250") then Bw250
  else if bool_decide (s = bs "bw500") then Bw500
  else if bool_decide (s = bs "bw2300") then Bw2300
  else if bool_decide (s = bs "bw2750") then Bw2750
  else VWide.

(** ** The INI store *)

Definition key (s k : string) : list byte * list byte := (bs s, bs k).
Arguments key s%_string k%_string.

(** The [Ini] type of the crate: its values, [new], [get] and [set] with
    [Some] value; the text [write] puts into a file and what [load] makes of
    one.  The crate folds the case of sections and keys. *)
Class IniStore : Type := {
  Ini : Type;
  ini_new : Ini;
  ini_get : Ini -> list byte * list byte -> option (list byte);
  ini_set : list byte * list byte -> list byte -> Ini -> Ini;
  IniFile : Type;
  ini_text : Ini -> IniFile;
  ini_parse : IniFile -> list byte + Ini }.

Definition lower_key (k : list byte * list byte) : Prop :=
  to_ascii_lowercase k.1 = k.1 /\ to_ascii_lowercase k.2 = k.2.

(** Sections and keys that are words, and values on a line of their own *)
Definition word (s : list byte) : bool :=
  negb (bool_decide (s = [])) && forallb (fun b => in_range 0x61 0x7a b || Byte.eqb b "_"%byte) s.
Definition single_line (v : list byte) : Prop := no_byte LF v = true.

(** What the crate reads of a value it wrote: up to the first comment sign, trimmed *)
Definition comment_sign (b : byte) : bool := Byte.eqb b ";"%byte || Byte.eqb b "#"%byte.
Definition ini_value (v : list byte) : list byte :=
  trim (match position comment_sign v with Some i => take i v | None => v end).

Definition set_all `{IniStore} (kvs : list ((list byte * list byte) * list byte)) : Ini :=
  fold_left (fun m kv => ini_set kv.1 kv.2 m) kvs ini_new.

Class IniLaws `{IniStore} : Prop := {
  ini_get_new : forall k, ini_get ini_new k = None;
  ini_get_set : forall k v m, ini_get (ini_set k v m) k = Some v;
  ini_get_set_ne : forall k k' v m, lower_key k -> lower_key k' -> k <> k' ->
    ini_get (ini_set k' v m) k = ini_get m k;
  ini_text_read : forall kvs,
    Forall (fun kv => word kv.1.1 = true /\ word kv.1.2 = true /\ single_line kv.2) kvs ->
    exists m, ini_parse (ini_text (set_all kvs)) = inr m
    /\ forall k, lower_key k -> ini_get m k = ini_value <$> ini_get (set_all kvs) k }.

Module ToyIni.
#[global] Instance store : IniStore := {|
  Ini := gmap (list byte * list byte) (list byte);
  ini_new := ∅;
  ini_get := fun m k => m !! k;
  ini_set := fun k v m => <[k := v]> m;
  IniFile := gmap (list byte * list byte) (list byte);
  ini_text := fmap ini_value;
  ini_parse := inr |}.
#[global] Instance laws : IniLaws.
Proof.
  split; simpl; intros.
  - apply lookup_empty.
  - apply lookup_insert_eq.
  - by apply lookup_insert_ne.
  - eexists. split; [reflexivity|]. intros k _. apply lookup_fmap.
Qed.
End ToyIni.

Definition display_bool (b : bool) : list byte := if b then bs "true" else bs "false".

Section Ini.
Context `{UnicodeCase} `{IniStore}.

Definition truthy (v : list byte) : bool :=
  bool_decide (to_lowercase v ∈ [bs "true"; bs "1"; bs "yes"; bs "on"]).

(** The part of [FileConfig::load] after [ini.load] *)
Definition from_ini (ini : Ini) : FileConfig :=
  {| agwpe_host := default (bs "127.0.0.1") (ini_get ini (key "server" "agwpe_host"));
     agwpe_port := default 8000 (v ← ini_get ini (key "server" "agwpe_port"); parse_unsigned 65535 v);
     my_callsign := default [] (ini_get ini (key "session" "my_callsign"));
     target_callsign := default [] (ini_get ini (key "session" "target_callsign"));
     bpq_command := default (bs "WEB") (ini_get ini (key "session" "bpq_command"));
     skip_bpq_app := default false
       ((fun v => bool_decide (to_lowercase v = bs "true")) <$> ini_get ini (key "session" "skip_bpq_app"));
     cache := {|
       cache_enabled := default true (truthy <$> ini_get ini (key "cache" "enabled"));
       max_bytes := default 209715200
         (v ← ini_get ini (key "cache" "max_bytes"); parse_unsigned u64_max v);
       max_ttl_seconds := default 86400
         (v ← ini_get ini (key "cache" "max_ttl_seconds"); parse_unsigned u64_max v);
       cache_dir :=
         (v ← ini_get ini (key "cache" "dir"); if bool_decide (trim v = []) then None else Some v) |};
     connection := {|
       response_timeout_secs := default 30
         (v ← ini_get ini (key "connection" "response_timeout_secs"); parse_unsigned u64_max v);
       auto_reconnect := default true (truthy <$> ini_get ini (key "connection" "auto_reconnect")) |};
     transport_default := default Ax25
       (v ← ini_get ini (key "transport" "default"); kind_from_str v);
     vara_section := {|
       cmd_host := default (bs "127.0.0.1") (ini_get ini (key "vara" "cmd_host"));
       cmd_port := default 8300 (v ← ini_get ini (key "vara" "cmd_port"); parse_unsigned 65535 v);
       data_host := default (bs "127.0.0.1") (ini_get ini (key "vara" "data_host"));
       data_port := default 8301 (v ← ini_get ini (key "vara" "data_port"); parse_unsigned 65535 v);
       vara_mode := default Fm (parse_vara_mode <$> ini_get ini (key "vara" "mode"));
       bandwidth := default VWide (parse_vara_bandwidth <$> ini_get ini (key "vara" "bandwidth")) |} |}.

(** The [ini.set] calls of [FileConfig::save], in order *)
Definition settings (c : FileConfig) : list ((list byte * list byte) * list byte) :=
  [ (key "server" "agwpe_host", agwpe_host c);
    (key "server" "agwpe_port", display (agwpe_port c));
    (key "session" "my_callsign", my_callsign c);
    (key "session" "target_callsign", target_callsign c);
    (key "session" "bpq_command", bpq_command c);
    (key "session" "skip_bpq_app", display_bool (skip_bpq_app c));
    (key "cache" "enabled", display_bool (cache_enabled (cache c)));
    (key "cache" "max_bytes", display (max_bytes (cache c)));
    (key "cache" "max_ttl_seconds", display (max_ttl_seconds (cache c)))]
  ++ match cache_dir (cache c) with
     | Some d => [(key "cache" "dir", from_utf8_lossy d)]
     | None => []
     end
  ++ [ (key "connection" "response_timeout_secs", display (response_timeout_secs (connection c)));
       (key "connection" "auto_reconnect", display_bool (auto_reconnect (connection c)));
       (key "transport" "default", display_kind (transport_default c));
       (key "vara" "cmd_host", cmd_host (vara_section c));
       (key "vara" "cmd_port", display (cmd_port (vara_section c)));
       (key "vara" "data_host", data_host (vara_section c));
       (key "vara" "data_port", display (data_port (vara_section c)));
       (key "vara" "mode", display_mode (vara_mode (vara_section c)));
       (key "vara" "bandwidth", display_bandwidth (bandwidth (vara_section c))) ].

Definition to_ini (c : FileConfig) : Ini := set_all (settings c).

(** ** Files *)

(** The file system *)
Record ConfigFiles : Type := mkConfigFiles {
  exists_ : list byte -> bool;
  read_file : list byte -> list byte + IniFile;
  config_dir : option (list byte) }.

(** [ini.load(path)] *)
Definition ini_load (files : ConfigFiles) (path : list byte) : list byte + Ini :=
  match read_file files path with inl e => inl e | inr text => ini_parse text end.

(** The files once a text was written to a path *)
Definition written (path : list byte) (text : IniFile) (files : ConfigFiles) : ConfigFiles :=
  mkConfigFiles (fun p => bool_decide (p = path) || exists_ files p)
    (fun p => if bool_decide (p = path) then inr text else read_file files p) (config_dir files).

Definition load (files : ConfigFiles) (path : list byte) : Result ConfigError FileConfig :=
  if negb (exists_ files path) then Ok default_config
  else ini ← map_err CfgParse (of_sum (ini_load files path)); Ok (from_ini ini).

(** [FileConfig::save]: [mkdir] and [write] say whether making the directory and
    writing this text fail; the result is the text that is in the file then *)
Definition save (mkdir : option (list byte)) (write : IniFile -> option (list byte)) (c : FileConfig)
    : Result ConfigError IniFile :=
  match mkdir with
  | Some e => Err (CfgIo e)
  | None =>
      let text := ini_text (to_ini c) in
      match write text with Some e => Err (CfgParse e) | None => Ok text end
  end.

Definition update_target (target : list byte) (c : FileConfig) : FileConfig :=
  mkFileConfig (agwpe_host c) (agwpe_port c) (my_callsign c) target (bpq_command c)
    (skip_bpq_app c) (cache c) (connection c) (transport_default c) (vara_section c).

(** ** Command line *)

Record CliArgs : Type := mkCliArgs {
  config_path : option (list byte);
  cli_agwpe_host : option (list byte);
  cli_agwpe_port : option Z;
  listen_addr : list byte;
  cli_bpq_command : option (list byte);
  verbosity : Z;
  allowed_hosts : list (list byte) }.

(** What clap hands over: the command has a default value *)
Record RawArgs : Type := mkRawArgs {
  raw_config : option (list byte);
  raw_agwpe_host : option (list byte);
  raw_agwpe_port : option Z;
  raw_listen_addr : option (list byte);
  raw_bpq_command : option (list byte);
  raw_verbose : Z;
  raw_allowed_hosts : list (list byte) }.

(** [CliArgs::parse] *)
Definition parse_args (a : RawArgs) : CliArgs := {|
  config_path := raw_config a;
  cli_agwpe_host := raw_agwpe_host a;
  cli_agwpe_port := raw_agwpe_port a;
  listen_addr := default (bs "127.0.0.1:8080") (raw_listen_addr a);
  cli_bpq_command := Some (default (bs "WEB") (raw_bpq_command a));
  verbosity := raw_verbose a;
  allowed_hosts :=
    List.filter (fun s => negb (bool_decide (s = [])))
      (map (fun s => to_ascii_lowercase (trim s)) (raw_allowed_hosts a)) |}.

(** [FileConfig::default_path] *)
Definition default_path (files : ConfigFiles) : Result ConfigError (list byte) :=
  d ← ok_or NoConfigDir (config_dir files);
  Ok (d ++ bs "/packet-browser/config.ini").

Definition resolve_config (files : ConfigFiles) (a : CliArgs) : Result ConfigError FileConfig :=
  path ← (match config_path a with
          | Some p => Ok p
          | None => default_path files
          end : Result ConfigError (list byte));
  c ← load files path;
  Ok (mkFileConfig (default (agwpe_host c) (cli_agwpe_host a))
        (default (agwpe_port c) (cli_agwpe_port a)) (my_callsign c) (target_callsign c)
        (default (bpq_command c) (cli_bpq_command a)) (skip_bpq_app c) (cache c) (connection c)
        (transport_default c) (vara_section c)).
End Ini.

(** ** Round trip through the store *)

(** A configuration the program can hold: integers in their types, a cache
    directory that is a non-blank string *)
Definition config_wf (c : FileConfig) : Prop :=
  0 <= agwpe_port c <= 65535 /\ 0 <= cmd_port (vara_section c) <= 65535
  /\ 0 <= data_port (vara_section c) <= 65535
  /\ 0 <= max_bytes (cache c) <= u64_max /\ 0 <= max_ttl_seconds (cache c) <= u64_max
  /\ 0 <= response_timeout_secs (connection c) <= u64_max
  /\ forall d, cache_dir (cache c) = Some d -> utf8_valid d = true /\ trim d <> [].

Section RoundTrip.
Context `{UnicodeCaseLaws} `{IniLaws}.

(** The value [to_ini] keeps for a key: the last one set *)
Fixpoint last_value (k : list byte * list byte) (l : list ((list byte * list byte) * list byte))
    : option (list byte) :=
  match l with
  | [] => None
  | (k', v) :: rest =>
      match last_value k rest with
      | Some v' => Some v'
      | None => if bool_decide (k' = k) then Some v else None
      end
  end.

Lemma fold_set_get (k : list byte * list byte) l :
  lower_key k -> Forall (fun kv => lower_key kv.1) l -> forall m : Ini,
  ini_get (fold_left (fun m kv => ini_set kv.1 kv.2 m) l m) k
  = match last_value k l with Some v => Some v | None => ini_get m k end.
Proof.
  intros Hk. induction l as [|[k' v] l IH]; intros Hl m; simpl; [done|].
  apply Forall_cons in Hl as [Hk' Hl]. rewrite IH by done. simpl.
  destruct (last_value k l); [done|]. case_bool_decide as Heq.
  - subst. by rewrite ini_get_set.
  - by rewrite ini_get_set_ne by (done || congruence).
Qed.

Lemma settings_lower c : Forall (fun kv => lower_key kv.1) (settings c).
Proof. unfold settings. destruct (cache_dir (cache c)); repeat constructor. Qed.

Lemma to_ini_get c k : lower_key k -> ini_get (to_ini c) k = last_value k (settings c).
Proof.
  intros Hk. unfold to_ini, set_all. rewrite fold_set_get, ini_get_new by eauto using settings_lower.
  by destruct (last_value _ _).
Qed.

Lemma display_bool_ascii b : to_lowercase (display_bool b) = display_bool b.
Proof. rewrite to_lowercase_ascii by (by destruct b). by destruct b. Qed.

Lemma truthy_display b : truthy (display_bool b) = b.
Proof. unfold truthy. rewrite display_bool_ascii. by destruct b. Qed.

Lemma display_bool_true b : bool_decide (display_bool b = bs "true") = b.
Proof. by destruct b. Qed.

Lemma mode_roundtrip m : parse_vara_mode (display_mode m) = m.
Proof. by destruct m. Qed.
Lemma bandwidth_roundtrip b : parse_vara_bandwidth (display_bandwidth b) = b.
Proof. by destruct b. Qed.

Lemma parse_display hi n : 0 <= n <= hi -> parse_unsigned hi (display n) = Some n.
Proof. intros. by apply parse_unsigned_display. Qed.

(** What the store holds under each key *)
Definition stored (c : FileConfig) : list ((list byte * list byte) * list byte) :=
  [(key "server" "agwpe_host", agwpe_host c);
   (key "server" "agwpe_port", display (agwpe_port c));
   (key "session" "my_callsign", my_callsign c);
   (key "session" "target_callsign", target_callsign c);
   (key "session" "bpq_command", bpq_command c);
   (key "session" "skip_bpq_app", display_bool (skip_bpq_app c));
   (key "cache" "enabled", display_bool (cache_enabled (cache c)));
   (key "cache" "max_bytes", display (max_bytes (cache c)));
   (key "cache" "max_ttl_seconds", display (max_ttl_seconds (cache c)));
   (key "connection" "response_timeout_secs", display (response_timeout_secs (connection c)));
   (key "connection" "auto_reconnect", display_bool (auto_reconnect (connection c)));
   (key "transport" "default", display_kind (transport_default c));
   (key "vara" "cmd_host", cmd_host (vara_section c));
   (key "vara" "cmd_port", display (cmd_port (vara_section c)));
   (key "vara" "data_host", data_host (vara_section c));
   (key "vara" "data_port", display (data_port (vara_section c)));
   (key "vara" "mode", display_mode (vara_mode (vara_section c)));
   (key "vara" "bandwidth", display_bandwidth (bandwidth (vara_section c)))].

Lemma stored_values c :
  Forall (fun kv => ini_get (to_ini c) kv.1 = Some kv.2) (stored c)
  /\ ini_get (to_ini c) (key "cache" "dir") = from_utf8_lossy <$> cache_dir (cache c).
Proof.
  split.
  - unfold stored. repeat constructor; simpl; rewrite to_ini_get by done; unfold settings;
      by destruct (cache_dir (cache c)).
  - rewrite to_ini_get by done. unfold settings. by destruct (cache_dir (cache c)).
Qed.

(** Taking a configuration from the INI store it was put into gives the
    configuration back, every section included. *)
Theorem ini_roundtrip c : config_wf c -> from_ini (to_ini c) = c.
Proof.
  intros (B1 & B2 & B3 & B4 & B5 & B6 & Hd).
  destruct (stored_values c) as [Hs Hdir]. unfold stored in Hs.
  repeat (apply Forall_cons in Hs as [? Hs]). clear Hs. cbn [fst snd] in *.
  assert (Hcd : (v ← ini_get (to_ini c) (key "cache" "dir");
                 if bool_decide (trim v = []) then None else Some v) = cache_dir (cache c)).
  { rewrite Hdir. destruct (cache_dir (cache c)) as [d|]; [|done].
    destruct (Hd d eq_refl) as [Hu Ht]. cbn.
    by rewrite from_utf8_lossy_valid, bool_decide_false by done. }
  unfold from_ini. rewrite Hcd.
  repeat match goal with H : ini_get (to_ini c) _ = _ |- _ => rewrite H; clear H end.
  cbn [mbind option_bind fmap option_fmap option_map default from_option id].
  rewrite !parse_display, !truthy_display, mode_roundtrip, bandwidth_roundtrip, kind_roundtrip,
    display_bool_ascii, display_bool_true by done.
  by destruct c as [ah ap mc tc bc sk [] [] td []].
Qed.

(** *** Through the file *)

(** The settings that are texts of the operator's *)
Definition texts (c : FileConfig) : list (list byte) :=
  [agwpe_host c; my_callsign c; target_callsign c; bpq_command c;
   cmd_host (vara_section c); data_host (vara_section c)]
  ++ match cache_dir (cache c) with Some d => [d] | None => [] end.

(** A configuration as the file keeps it: its texts cut and trimmed *)
Definition as_read (c : FileConfig) : FileConfig :=
  mkFileConfig (ini_value (agwpe_host c)) (agwpe_port c) (ini_value (my_callsign c))
    (ini_value (target_callsign c)) (ini_value (bpq_command c)) (skip_bpq_app c)
    (mkCacheSection (cache_enabled (cache c)) (max_bytes (cache c)) (max_ttl_seconds (cache c))
       (d ← cache_dir (cache c); if bool_decide (trim (ini_value d) = []) then None else Some (ini_value d)))
    (connection c) (transport_default c)
    (mkVaraParams (ini_value (cmd_host (vara_section c))) (cmd_port (vara_section c))
       (ini_value (data_host (vara_section c))) (data_port (vara_section c))
       (vara_mode (vara_section c)) (bandwidth (vara_section c))).

Lemma ini_value_digits s : forallb (in_range 0x2d 0x39) s = true -> ini_value s = s.
Proof.
  intros Hs. unfold ini_value. rewrite (proj2 (position_None comment_sign s)).
  2: { apply forallb_forall. intros b Hb. rewrite forallb_forall in Hs. specialize (Hs b Hb).
       by destruct b. }
  destruct s as [|c t]; [done|]. unfold trim.
  assert (Hp : forall b, in_range 0x2d 0x39 b = true -> is_ascii b = true /\ ws1 b = false)
    by (intros b Hb; by destruct b).
  pose proof Hs as Hs'. cbn [forallb] in Hs. apply andb_true_iff in Hs as [Hc _].
  destruct (Hp c Hc). rewrite trim_start_stop by done.
  destruct (exists_last (l:=c :: t) ltac:(done)) as (l & x & E). rewrite E in *.
  rewrite forallb_app in Hs'. apply andb_true_iff in Hs' as [_ Hx]. cbn [forallb] in Hx.
  rewrite andb_true_r in Hx. destruct (Hp x Hx). by apply trim_end_stop.
Qed.
Lemma ini_value_display n : ini_value (display n) = display n.
Proof. apply ini_value_digits, display_ascii. Qed.
Lemma ini_value_bool b : ini_value (display_bool b) = display_bool b.
Proof. destruct b; by vm_compute. Qed.
Lemma ini_value_kind k : ini_value (display_kind k) = display_kind k.
Proof. destruct k; by vm_compute. Qed.
Lemma ini_value_mode m : ini_value (display_mode m) = display_mode m.
Proof. destruct m; by vm_compute. Qed.
Lemma ini_value_bandwidth b : ini_value (display_bandwidth b) = display_bandwidth b.
Proof. destruct b; by vm_compute. Qed.

Lemma digits_single_line s : forallb (in_range 0x2d 0x39) s = true -> single_line s.
Proof.
  intros Hs. apply forallb_forall. intros b Hb. rewrite forallb_forall in Hs. specialize (Hs b Hb).
  by destruct b.
Qed.

Lemma settings_lines c :
  (forall d, cache_dir (cache c) = Some d -> utf8_valid d = true) ->
  Forall single_line (texts c) ->
  Forall (fun kv => word kv.1.1 = true /\ word kv.1.2 = true /\ single_line kv.2) (settings c).
Proof.
  intros Hd Ht. unfold texts in Ht. unfold settings.
  assert (Hn : forall n, single_line (display n)) by (intros n; apply digits_single_line, display_ascii).
  assert (Hb : forall b, single_line (display_bool b)) by (by intros []).
  destruct (cache_dir (cache c)) as [d|]; cbn [app] in *;
    repeat (apply Forall_cons in Ht as [? Ht]);
    repeat (apply Forall_cons; split); try apply Forall_nil; try done;
    cbn [fst snd]; (split; [by vm_compute|]); (split; [by vm_compute|]); try done;
    try (by rewrite from_utf8_lossy_valid by auto).
  all: by destruct (transport_default c), (vara_mode (vara_section c)), (bandwidth (vara_section c)).
Qed.

(** What is saved is read back with its texts cut and trimmed; *)
Lemma saved_is_read mkdir write c text path files :
  config_wf c -> Forall single_line (texts c) -> save mkdir write c = Ok text ->
  load (written path text files) path = Ok (as_read c).
Proof.
  intros Hwf Hlines Hsave.
  assert (Htext : text = ini_text (to_ini c)).
  { revert Hsave. unfold save. destruct mkdir; [done|]. by destruct (write _); [|intros [= <-]]. }
  subst text. pose proof Hwf as (_ & _ & _ & _ & _ & _ & Hd).
  destruct (ini_text_read (settings c)) as (m & Hm & Hget).
  { apply settings_lines; [|done]. intros d E. by destruct (Hd d E). }
  change (set_all (settings c)) with (to_ini c) in *.
  unfold load, ini_load, written. cbn [exists_ read_file].
  rewrite !(bool_decide_true (path = path)) by done. cbn [orb negb]. rewrite Hm. cbn. f_equal.
  destruct Hwf as (B1 & B2 & B3 & B4 & B5 & B6 & _). destruct (stored_values c) as [Hs Hdir].
  assert (Hs' : Forall (fun kv => ini_get m kv.1 = Some (ini_value kv.2)) (stored c)).
  { assert (Hlow : Forall (fun kv => lower_key kv.1) (stored c)) by repeat constructor.
    rewrite List.Forall_forall in Hs, Hlow |- *. intros kv Hin.
    by rewrite Hget, (Hs kv Hin) by auto. }
  assert (Hdir' : ini_get m (key "cache" "dir") = ini_value <$> cache_dir (cache c)).
  { rewrite Hget, Hdir by done. destruct (cache_dir (cache c)) as [d|]; [|done]. cbn.
    by rewrite from_utf8_lossy_valid by (by destruct (Hd d)). }
  clear Hs Hdir Hget Hm. unfold stored in Hs'.
  repeat (apply Forall_cons in Hs' as [? Hs']). clear Hs'. cbn [fst snd] in *.
  unfold from_ini, as_read. rewrite Hdir'.
  repeat match goal with H : ini_get m _ = Some _ |- _ => rewrite H; clear H end.
  cbn [mbind option_bind fmap option_fmap option_map default from_option id].
  rewrite !ini_value_display, !ini_value_bool, ini_value_kind, ini_value_mode, ini_value_bandwidth.
  rewrite !parse_display, !truthy_display, mode_roundtrip, bandwidth_roundtrip, kind_roundtrip,
    display_bool_ascii, display_bool_true by done.
  by destruct c as [ah ap mc tc bc sk [ce mb mt [d|]] [] td []].
Qed.

(** and so as it was if and only if there is nothing to cut or to trim. *)
Lemma as_read_same c :
  config_wf c -> as_read c = c <-> Forall (fun s => ini_value s = s) (texts c).
Proof.
  intros (_ & _ & _ & _ & _ & _ & Hd). unfold texts, as_read.
  destruct c as [ah ap mc tc bc sk [ce mb mt dir] co td [ch cp dh dp vm bw]]. cbn in *. split.
  - intros E. injection E as E1 E2 E3 E4 E5 E6 E7. repeat (apply Forall_cons; split); try done.
    destruct dir as [d|]; cbn in *; [|constructor]. constructor; [|constructor].
    case_bool_decide; [done|]. congruence.
  - intros Ht. repeat (apply Forall_cons in Ht as [? Ht]). repeat f_equal; try done.
    destruct dir as [d|]; [|done]. apply Forall_cons in Ht as [Ht _]. cbn. rewrite Ht.
    destruct (Hd d eq_refl) as [_ Hne]. by rewrite bool_decide_false.
Qed.
End RoundTrip.

(** A command with a comment sign in it does not survive a save, and one with spaces
    around it loses them. *)
Example comment_sign_cuts :
  ini_value (bs "WEB;x") = bs "WEB" /\ ini_value (bs " C 1 #2") = bs "C 1".
Proof. by vm_compute. Qed.

Lemma ini_roundtrip_witness :
  @from_ini Toy.unicode ToyIni.store (@to_ini ToyIni.store default_config) = default_config.
Proof.
  apply (@ini_roundtrip Toy.unicode Toy.unicode_laws ToyIni.store ToyIni.laws).
  unfold config_wf, u64_max. cbn. repeat split; try lia; discriminate.
Defined.

(** Without [--bpq-command] on the command line the client uses WEB, whatever
    command its configuration file names: the option's default overrides the
    file. *)
Theorem resolve_config_ignores_file_command `{UnicodeCase} `{IniStore} files a c :
  raw_bpq_command a = None ->
  resolve_config files (parse_args a) = Ok c -> bpq_command c = bs "WEB".
Proof.
  intros Hraw. unfold resolve_config, parse_args. cbn [config_path cli_bpq_command].
  rewrite Hraw. destruct (match raw_config a with Some _ => _ | None => _ end); try done.
  cbn. destruct (load files _); cbn; try done. by intros [= <-].
Qed.

Lemma resolve_config_ignores_file_command_witness :
  let files := @mkConfigFiles ToyIni.store (fun _ => true)
                 (fun _ => inr (ini_set (key "session" "bpq_command") (bs "BROWSE") ini_new))
                 (Some (bs "/home/op/.config")) in
  let a := mkRawArgs None None None None None 0 [] in
  bpq_command (default default_config
    (match @resolve_config Toy.unicode ToyIni.store files (parse_args a) with
     | Ok c => Some c
     | _ => None
     end))
  = bs "WEB".
Proof.
  intros files a.
  apply (@resolve_config_ignores_file_command Toy.unicode ToyIni.store files a); reflexivity.
Defined.
