(* ===== verification/ClientState.v ===== *)
(** * The client's shared state ([client/src/state.rs])

    The connection state shown to the operator, the debug log with its bounded
    ring buffer, the modem's ports and the consent the operator has given. *)
From Stdlib Require Import ZArith Lia Strings.Byte.
From stdpp Require Import base decidable list.
From S2P Require Import Prelude Bytes Numbers TransportTypes ClientConfig.

Inductive ConnectionState : Type :=
| CsDisconnected
| AgwpeConnected
| Connecting
| AwaitingConsent (disclaimer : list byte)
| CsConnected
| Reconnecting (reason : list byte)
| CsError (msg : list byte).

(** [impl Display for ConnectionState]: the disclaimer itself is not shown *)
Definition display_connection_state (s : ConnectionState) : list byte :=
  match s with
  | CsDisconnected => bs "Disconnected"
  | AgwpeConnected => bs "AGWPE Connected"
  | Connecting => bs "Connecting"
  | AwaitingConsent _ => bs "Awaiting consent"
  | CsConnected => bs "Connected"
  | Reconnecting reason => bs "Reconnecting: " ++ reason
  | CsError msg => bs "Error: " ++ msg
  end.

(** The derived order of [LogLevel] is that of its constructors *)
Inductive LogLevel : Type := Info | Debug | Trace.
Definition level_rank (l : LogLevel) : nat :=
  match l with Info => 0 | Debug => 1 | Trace => 2 end%nat.
Definition level_le (a b : LogLevel) : bool := (level_rank a <=? level_rank b)%nat.
Definition display_level (l : LogLevel) : list byte :=
  match l with Info => bs "INFO" | Debug => bs "DEBUG" | Trace => bs "TRACE" end.

Inductive Direction : Type := Tx | Rx.
Definition display_direction (d : Direction) : list byte :=
  match d with Tx => bs "TX" | Rx => bs "RX" end.

Record DebugLogEntry : Type := mkDebugLogEntry {
  timestamp : Z;
  level : LogLevel;
  direction : option Direction;
  category : list byte;
  message : list byte;
  details : option (list byte) }.

(** [DebugLogEntry::new]; [now] is the clock's reading *)
Definition new_entry (now : Z) (l : LogLevel) (category message : list byte) : DebugLogEntry :=
  mkDebugLogEntry now l None category message None.
Definition with_direction (d : Direction) (e : DebugLogEntry) : DebugLogEntry :=
  mkDebugLogEntry (timestamp e) (level e) (Some d) (category e) (message e) (details e).
Definition with_details (d : list byte) (e : DebugLogEntry) : DebugLogEntry :=
  mkDebugLogEntry (timestamp e) (level e) (direction e) (category e) (message e) (Some d).

Record PortInfo : Type := mkPortInfo { port_num : Z; description : list byte }.

(** [pending_consent] is the one-shot channel the handshake waits on, by its
    identity. *)
Record AppState : Type := mkAppState {
  config : FileConfig;
  connection_state : ConnectionState;
  debug_log : list DebugLogEntry;
  available_ports : list PortInfo;
  agwpe_port_num : option Z;
  pending_consent : option nat;
  last_agreed_disclaimer : option (list byte);
  log_capacity : nat }.

(** [AppState::new] *)
Definition new_state (c : FileConfig) : AppState :=
  mkAppState c CsDisconnected [] [] None None None 1000.

(** [AppState::add_log]: a full buffer loses its oldest entry *)
Definition add_log (e : DebugLogEntry) (s : AppState) : AppState :=
  let kept := if (log_capacity s <=? length (debug_log s))%nat
              then tail (debug_log s) else debug_log s in
  mkAppState (config s) (connection_state s) (kept ++ [e]) (available_ports s)
    (agwpe_port_num s) (pending_consent s) (last_agreed_disclaimer s) (log_capacity s).

Definition put_connection_state (c : ConnectionState) (s : AppState) : AppState :=
  mkAppState (config s) c (debug_log s) (available_ports s)
    (agwpe_port_num s) (pending_consent s) (last_agreed_disclaimer s) (log_capacity s).

(** [AppState::set_connection_state]: the new entry is returned for the event
    stream *)
Definition set_connection_state (now : Z) (c : ConnectionState) (s : AppState)
    : DebugLogEntry * AppState :=
  let e := new_entry now Info (bs "STATE") (bs "State changed to: " ++ display_connection_state c) in
  (e, add_log e (put_connection_state c s)).

Definition set_error (now : Z) (error : list byte) (s : AppState) : AppState :=
  add_log (new_entry now Info (bs "ERROR") (bs "Error: " ++ error))
    (put_connection_state (CsError error) s).

Definition get_logs (min_level : option LogLevel) (s : AppState) : list DebugLogEntry :=
  match min_level with
  | None => debug_log s
  | Some l => List.filter (fun e => level_le (level e) l) (debug_log s)
  end.

Definition set_config (c : FileConfig) (s : AppState) : AppState :=
  mkAppState c (connection_state s) (debug_log s) (available_ports s)
    (agwpe_port_num s) (pending_consent s) (last_agreed_disclaimer s) (log_capacity s).
Definition set_ports (ports : list PortInfo) (s : AppState) : AppState :=
  mkAppState (config s) (connection_state s) (debug_log s) ports
    (agwpe_port_num s) (pending_consent s) (last_agreed_disclaimer s) (log_capacity s).
Definition set_agwpe_port (p : Z) (s : AppState) : AppState :=
  mkAppState (config s) (connection_state s) (debug_log s) (available_ports s)
    (Some p) (pending_consent s) (last_agreed_disclaimer s) (log_capacity s).
Definition clear_ports (s : AppState) : AppState :=
  mkAppState (config s) (connection_state s) (debug_log s) []
    None (pending_consent s) (last_agreed_disclaimer s) (log_capacity s).
Definition set_pending_consent (p : option nat) (s : AppState) : AppState :=
  mkAppState (config s) (connection_state s) (debug_log s) (available_ports s)
    (agwpe_port_num s) p (last_agreed_disclaimer s) (log_capacity s).
Definition put_disclaimer (d : option (list byte)) (s : AppState) : AppState :=
  mkAppState (config s) (connection_state s) (debug_log s) (available_ports s)
    (agwpe_port_num s) (pending_consent s) d (log_capacity s).
Definition record_agreed_disclaimer (text : list byte) : AppState -> AppState :=
  put_disclaimer (Some text).
Definition clear_agreed_disclaimer : AppState -> AppState := put_disclaimer None.

(** The text the operator is asked about, as [api_consent_get] and the consent page
    show it *)
Definition awaited_disclaimer (s : AppState) : option (list byte) :=
  match connection_state s with AwaitingConsent d => Some d | _ => None end.

(** ** The ring buffer *)

Definition log_wf (s : AppState) : Prop := (length (debug_log s) <= log_capacity s)%nat.

Lemma add_log_spec e s :
  (0 < log_capacity s)%nat -> log_wf s ->
  debug_log (add_log e s)
  = drop (length (debug_log s ++ [e]) - log_capacity s) (debug_log s ++ [e])
  /\ log_wf (add_log e s) /\ log_capacity (add_log e s) = log_capacity s.
Proof.
  unfold log_wf, add_log. cbn. intros Hc Hw. rewrite length_app. simpl.
  destruct (Nat.leb_spec (log_capacity s) (length (debug_log s))).
  - replace (length (debug_log s) + 1 - log_capacity s)%nat with 1%nat by lia.
    destruct (debug_log s) as [|x l]; simpl in *; [lia|]. rewrite length_app. simpl.
    split_and!; [done|lia|done].
  - replace (length (debug_log s) + 1 - log_capacity s)%nat with 0%nat by lia.
    split_and!; [done|rewrite length_app; simpl; lia|done].
Qed.

Definition log_all (es : list DebugLogEntry) (s : AppState) : AppState :=
  fold_left (fun s e => add_log e s) es s.

(** Whatever is logged, the debug log holds the most recent entries, in
    order and without a gap: as many as were logged, up to the capacity of
    1000. *)
Theorem log_keeps_last es c :
  debug_log (log_all es (new_state c)) = drop (length es - 1000) es
  /\ (length (debug_log (log_all es (new_state c))) <= 1000)%nat.
Proof.
  assert (Hgen : forall es s, (0 < log_capacity s)%nat -> log_wf s ->
    debug_log (log_all es s)
    = drop (length (debug_log s ++ es) - log_capacity s) (debug_log s ++ es)).
  { clear. unfold log_all. induction es as [|e es IH]; intros s Hc Hw; simpl.
    - rewrite app_nil_r. unfold log_wf in Hw.
      by replace (length (debug_log s) - log_capacity s)%nat with 0%nat by lia.
    - destruct (add_log_spec e s Hc Hw) as (Hd & Hw' & Hcap).
      rewrite IH, Hd, Hcap by (rewrite ?Hcap; done).
      set (l := debug_log s) in *. set (cap := log_capacity s) in *.
      unfold log_wf in Hw. fold l cap in Hw.
      replace (l ++ e :: es) with ((l ++ [e]) ++ es) by (by rewrite <- app_assoc).
      rewrite <- drop_app_le by (rewrite length_app; simpl; lia).
      rewrite drop_drop. f_equal. rewrite length_drop, !length_app. simpl. lia. }
  rewrite (Hgen es (new_state c)); [|cbn; lia|unfold log_wf; cbn; lia].
  cbn [debug_log new_state log_capacity app]. split; [done|]. rewrite length_drop. lia.
Qed.

(** [set_connection_state] and [set_error] put one entry in the log *)
Lemma set_connection_state_spec now c s :
  let '(e, s') := set_connection_state now c s in
  connection_state s' = c /\ last (debug_log s') = Some e /\ config s' = config s
  /\ pending_consent s' = pending_consent s
  /\ last_agreed_disclaimer s' = last_agreed_disclaimer s.
Proof. cbn. by rewrite last_snoc. Qed.
