(* ===== verification/Events.v ===== *)
(** * The event stream of the debug log ([events_handler] of [client/src/proxy.rs])

    A page of the interface gets the entries there are, then each entry as it is
    broadcast.  The broadcast channel is tokio's: an interface, with the laws its
    documentation states; a receiver that falls behind by more than the capacity
    loses the oldest entries and is told how many. *)
From Stdlib Require Import ZArith Lia Strings.Byte.
From stdpp Require Import base decidable list.
From S2P Require Import Prelude Bytes Numbers ClientConfig ClientState.

(** [broadcast::channel::<DebugLogEntry>(256)] of [main.rs] *)
Definition LOG_CHANNEL_CAPACITY : nat := 256.

(** ** The interface of the channel *)

(** What [rx.recv().await] gives, [Pending] while it would wait *)
Inductive Received : Type :=
| Entry (e : DebugLogEntry)
| Lagged (n : nat)
| Closed
| Pending.

Class Broadcast (C R : Type) : Type := {
  (** [log_tx.send(..)], and the end of the last sender *)
  send_entry : DebugLogEntry -> C -> C;
  close : C -> C;
  subscribe : C -> R;
  recv_entry : C -> R -> Received * R;
  (** the entries sent since the channel was made; whether the senders are gone;
      how many of them a receiver has passed *)
  sent_log : C -> list DebugLogEntry;
  closed : C -> bool;
  cursor : R -> nat }.

Class BroadcastLaws (C R : Type) `{Broadcast C R} : Prop := {
  send_log e (c : C) : sent_log (send_entry e c) = sent_log c ++ [e];
  send_closed e (c : C) : closed (send_entry e c) = closed c;
  close_log (c : C) : sent_log (close c) = sent_log c;
  close_closed (c : C) : closed (close c) = true;
  (** a receiver gets what is sent after it subscribed *)
  subscribe_cursor (c : C) : cursor (subscribe c) = length (sent_log c);
  (** nothing new *)
  recv_none (c : C) (r : R) : cursor r = length (sent_log c) ->
    recv_entry c r = (if closed c then Closed else Pending, r);
  (** the oldest value the receiver has not seen, if it is still held *)
  recv_next (c : C) (r : R) e : sent_log c !! cursor r = Some e ->
    (length (sent_log c) <= cursor r + LOG_CHANNEL_CAPACITY)%nat ->
    (recv_entry c r).1 = Entry e /\ cursor (recv_entry c r).2 = S (cursor r);
  (** if not, how many were skipped to get to the oldest that is held *)
  recv_lagged (c : C) (r : R) : (cursor r + LOG_CHANNEL_CAPACITY < length (sent_log c))%nat ->
    let n := (length (sent_log c) - LOG_CHANNEL_CAPACITY - cursor r)%nat in
    (recv_entry c r).1 = Lagged n /\ cursor (recv_entry c r).2 = (cursor r + n)%nat }.

(** [serde_json::to_string(&entry)] *)
Class EntryJson : Type := entry_to_json : DebugLogEntry -> option (list byte).

(** ** The stream *)

Section Stream.
Context {C R : Type} `{Broadcast C R} `{EntryJson}.

(** The entries to replay, the subscription, whether the stream has ended, the
    events sent, and how many entries the warnings have counted as missed *)
Record Stream : Type := mkStream {
  existing : list DebugLogEntry;
  rx : R;
  ended : bool;
  shown : list (list byte);
  missed : nat }.

(** [if let Ok(json) = .. { yield .. }] *)
Definition yield_entry (e : DebugLogEntry) (out : list (list byte)) : list (list byte) :=
  match entry_to_json e with Some j => out ++ [j] | None => out end.

(** The entries were read under the lock; the subscription follows. *)
Definition open_stream (entries : list DebugLogEntry) (c : C) : Stream :=
  mkStream entries (subscribe c) false [] 0.

(** A turn of one of the two loops; nothing while the receiver waits *)
Definition poll (c : C) (s : Stream) : Stream :=
  if ended s then s
  else match existing s with
  | e :: rest => mkStream rest (rx s) false (yield_entry e (shown s)) (missed s)
  | [] =>
      let (got, r) := recv_entry c (rx s) in
      match got with
      | Entry e => mkStream [] r false (yield_entry e (shown s)) (missed s)
      | Lagged n => mkStream [] r false (shown s) (missed s + n)
      | Closed => mkStream [] r true (shown s) (missed s)
      | Pending => s
      end
  end.

(** What happens to the channel and the stream, in any order *)
Inductive Op : Type :=
| Broadcasts (e : DebugLogEntry)
| Closes
| Polls.

Definition op_step (o : Op) (x : C * Stream) : C * Stream :=
  match o with
  (* no sender is left on a closed channel *)
  | Broadcasts e => (if closed x.1 then x.1 else send_entry e x.1, x.2)
  | Closes => (close x.1, x.2)
  | Polls => (x.1, poll x.1 x.2)
  end.
Definition serve_stream (ops : list Op) (x : C * Stream) : C * Stream :=
  fold_left (fun x o => op_step o x) ops x.

(** *** The handler among the writers of the log *)

(** [push_log] adds the entry under the lock, then broadcasts it; the other steps may
    come in between. *)
Inductive LogOp : Type :=
| Adds (e : DebugLogEntry)
| Sends (e : DebugLogEntry).

Definition log_step (o : LogOp) (x : AppState * C) : AppState * C :=
  match o with
  | Adds e => (add_log e x.1, x.2)
  | Sends e => (x.1, send_entry e x.2)
  end.
Definition log_steps (ops : list LogOp) (x : AppState * C) : AppState * C :=
  fold_left (fun x o => log_step o x) ops x.

(** [events_handler]: the log is read, the lock released, and [between] is what the
    writers do before the subscription *)
Definition events_stream (between : list LogOp) (x : AppState * C) : (AppState * C) * Stream :=
  let entries := get_logs None x.1 in
  let x' := log_steps between x in
  (x', open_stream entries x'.2).
End Stream.
Arguments Stream R : clear implicits.
Arguments mkStream {R}.
Arguments existing {R}.
Arguments rx {R}.
Arguments ended {R}.
Arguments shown {R}.
Arguments missed {R}.

(** ** Properties *)

Section Behaviour.
Context {C R : Type} `{BroadcastLaws C R} `{EntryJson}.

(** The events of these entries *)
Definition events_of (es : list DebugLogEntry) : list (list byte) := omap entry_to_json es.

Lemma yield_events e es : yield_entry e (events_of es) = events_of (es ++ [e]).
Proof.
  unfold yield_entry, events_of. rewrite omap_app. cbn.
  destruct (entry_to_json e); [done|by rewrite app_nil_r].
Qed.

(** What a stream opened at [start] over [entries] has shown: the first of the
    entries, and, once these are over, [kept] of the broadcasts it has passed *)
Record faithful (entries : list DebugLogEntry) (start : nat) (c : C) (s : Stream R)
    (replayed kept : list DebugLogEntry) : Prop := {
  faithful_split : entries = replayed ++ existing s;
  faithful_shown : shown s = events_of (replayed ++ kept);
  faithful_kept : kept `sublist_of` take (cursor (rx s) - start) (drop start (sent_log c));
  faithful_missed : (length kept + missed s = cursor (rx s) - start)%nat;
  faithful_cursor : (start <= cursor (rx s) <= length (sent_log c))%nat;
  faithful_lag : missed s = 0%nat \/ (start + LOG_CHANNEL_CAPACITY < length (sent_log c))%nat;
  faithful_order : existing s <> [] -> kept = [] /\ missed s = 0%nat;
  faithful_ended : ended s = true ->
    existing s = [] /\ closed c = true /\ cursor (rx s) = length (sent_log c) }.

Lemma faithful_open entries (c : C) :
  faithful entries (length (sent_log c)) c (open_stream entries c) [] [].
Proof.
  split; cbn; rewrite ?subscribe_cursor; try done; try lia; try by left. apply sublist_nil_l.
Qed.

Lemma faithful_send entries start c e s replayed kept :
  closed c = false -> faithful entries start c s replayed kept ->
  faithful entries start (send_entry e c) s replayed kept.
Proof.
  intros Hc [Hs Hsh Hk Hm Hcur Hg Ho He].
  split; rewrite ?send_log, ?send_closed, ?length_app; try done; simpl; try lia.
  - rewrite drop_app_le by lia. rewrite take_app_le by (rewrite length_drop; lia). done.
  - intros Hx. destruct (He Hx) as (_ & Hcl & _). congruence.
Qed.

Lemma faithful_close entries start c s replayed kept :
  faithful entries start c s replayed kept -> faithful entries start (close c) s replayed kept.
Proof.
  intros [Hs Hsh Hk Hm Hcur Hg Ho He]. split; rewrite ?close_log, ?close_closed; try done.
  intros Hx. destruct (He Hx) as (? & _ & ?). auto.
Qed.

Lemma sublist_take_mono {A} (l : list A) n m :
  (n <= m)%nat -> take n l `sublist_of` take m l.
Proof.
  intros Hnm. replace (take n l) with (take n (take m l)); [apply sublist_take|].
  rewrite take_take. f_equal. lia.
Qed.
Lemma sublist_length_eq {A} (l k : list A) :
  l `sublist_of` k -> (length k <= length l)%nat -> l = k.
Proof.
  intros Hs. induction Hs as [|x l k Hs IH|x l k Hs IH]; cbn; intros Hl; [done| |].
  - rewrite IH; [done|lia].
  - apply sublist_length in Hs. lia.
Qed.

Lemma faithful_poll entries start c s replayed kept :
  faithful entries start c s replayed kept ->
  exists replayed' kept', faithful entries start c (poll c s) replayed' kept'.
Proof.
  intros Hf. pose proof Hf as [Hs Hsh Hk Hm Hcur Hg Ho He]. unfold poll. destruct (ended s) eqn:Een; [eauto|].
  destruct (existing s) as [|e rest] eqn:Eex.
  2:{ destruct Ho as [-> Hz]; [done|]. exists (replayed ++ [e]), []. rewrite app_nil_r in Hsh. cbn in Hm.
      split; cbn; [by rewrite <- app_assoc| |apply sublist_nil_l|lia|lia|auto|auto|done].
      by rewrite app_nil_r, Hsh, yield_events. }
  destruct (recv_entry c (rx s)) as [got r] eqn:Er.
  destruct (lt_eq_lt_dec (length (sent_log c)) (cursor (rx s))) as [[Hlt|Heq]|Hlt]; [lia| |].
  - rewrite recv_none in Er by done. injection Er as <- <-. exists replayed, kept.
    destruct (closed c) eqn:Ecl; [|done]. split; cbn; auto; congruence.
  - destruct (decide (length (sent_log c) <= cursor (rx s) + LOG_CHANNEL_CAPACITY)%nat) as [Hle|Hgt].
    + destruct (lookup_lt_is_Some_2 _ _ Hlt) as [e Hl].
      destruct (recv_next c (rx s) e Hl Hle) as [H1' H2']. rewrite Er in H1', H2'. cbn in H1', H2'. subst got.
      exists replayed, (kept ++ [e]). split; cbn; rewrite ?H2'; [done| | | | |done|done|done].
      * by rewrite Hsh, yield_events, app_assoc.
      * replace (S (cursor (rx s)) - start)%nat with (S (cursor (rx s) - start)) by lia.
        rewrite (take_S_r _ _ e).
        -- by apply sublist_app.
        -- rewrite lookup_drop. rewrite <- Hl. f_equal. lia.
      * rewrite length_app. cbn. lia.
      * lia.
    + destruct (recv_lagged c (rx s)) as [H1' H2']; [lia|]. rewrite Er in H1', H2'. cbn in H1', H2'. subst got.
      exists replayed, kept. split; cbn; rewrite ?H2'; [done|done| | | | |done|done].
      * etransitivity; [exact Hk|]. apply sublist_take_mono. lia.
      * lia.
      * lia.
      * right. lia.
Qed.
Lemma faithful_run entries start ops : forall c s replayed kept,
  faithful entries start c s replayed kept ->
  let x := serve_stream ops (c, s) in
  exists replayed' kept', faithful entries start x.1 x.2 replayed' kept'.
Proof.
  induction ops as [|o ops IH]; intros c s replayed kept Hf; [by exists replayed, kept|].
  change (serve_stream (o :: ops) (c, s)) with (serve_stream ops (op_step o (c, s))).
  destruct o as [e| |]; cbn [op_step fst snd].
  - destruct (closed c) eqn:Ec; [by eapply IH|]. by eapply IH, faithful_send.
  - by eapply IH, faithful_close.
  - apply faithful_poll in Hf as (r & k & Hf). by eapply IH.
Qed.

(** *** Reading to the end *)

Definition unread (c : C) (s : Stream R) : nat :=
  length (existing s) + (length (sent_log c) - cursor (rx s)).

Lemma poll_unread entries start c s replayed kept :
  faithful entries start c s replayed kept -> unread c s <> 0%nat ->
  (unread c (poll c s) < unread c s)%nat.
Proof.
  intros [_ _ _ _ Hcur _ _ He] Hn. unfold unread, poll in *. destruct (ended s) eqn:Een.
  { destruct (He eq_refl) as (Hx & _ & Hl). rewrite Hx, Hl in Hn. cbn in Hn. lia. }
  destruct (existing s) as [|e rest] eqn:Eex; [|cbn; lia].
  destruct (decide (length (sent_log c) <= cursor (rx s) + LOG_CHANNEL_CAPACITY)%nat) as [Hle|Hgt].
  - destruct (lookup_lt_is_Some_2 (sent_log c) (cursor (rx s))) as [e Hl]; [cbn in Hn; lia|].
    destruct (recv_next c (rx s) e Hl Hle) as [Hg Hc]. destruct (recv_entry c (rx s)) as [got r].
    cbn in Hg, Hc. subst got. cbn. rewrite Hc. cbn in Hn. lia.
  - destruct (recv_lagged c (rx s)) as [Hg Hc]; [lia|]. destruct (recv_entry c (rx s)) as [got r].
    cbn in Hg, Hc. subst got. cbn. rewrite Hc. lia.
Qed.

Lemma polls_drain entries start c k : forall s replayed kept,
  faithful entries start c s replayed kept -> (unread c s <= k)%nat ->
  let s' := Nat.iter k (poll c) s in
  unread c s' = 0%nat /\ exists replayed' kept', faithful entries start c s' replayed' kept'.
Proof.
  induction k as [|k IH]; intros s replayed kept Hf Hk; [split; [cbn; lia|eauto]|].
  rewrite Nat.iter_succ_r. pose proof (faithful_poll _ _ _ _ _ _ Hf) as (r & kp & Hf').
  apply (IH _ _ _ Hf'). destruct (decide (unread c s = 0%nat)) as [Hz|Hn].
  - cut (unread c (poll c s) = 0%nat); [lia|]. unfold poll, unread in *.
    destruct (ended s); [done|]. destruct (existing s) eqn:E; [|cbn in Hz; lia].
    pose proof (faithful_cursor _ _ _ _ _ _ Hf) as Hc. cbn in Hz.
    rewrite recv_none by lia. destruct (closed c); cbn; rewrite ?E; cbn; lia.
  - pose proof (poll_unread _ _ _ _ _ _ Hf Hn). lia.
Qed.

(** C10: a page is sent the entries there were, then what is broadcast, in order and
    each once: however the broadcasts come between its reads, once it has read as
    often as there are entries left it has been sent all it was given to replay and,
    of the entries broadcast since it subscribed, all but those its warnings counted;
    that is all of them if they were at most 256; and the stream ends only with the
    channel. *)
Theorem events_complete entries (c : C) ops k :
  let x := serve_stream ops (c, open_stream entries c) in
  let since := drop (length (sent_log c)) (sent_log x.1) in
  (unread x.1 x.2 <= k)%nat ->
  let s := Nat.iter k (poll x.1) x.2 in
  exists kept, shown s = events_of (entries ++ kept)
  /\ kept `sublist_of` since
  /\ (length kept + missed s = length since)%nat
  /\ ((length since <= 256)%nat -> kept = since)
  /\ (ended s = true -> closed x.1 = true).
Proof.
  intros x since Hk s. pose proof (faithful_run _ _ ops _ _ _ _ (faithful_open entries c)) as (r & kp & Hf).
  destruct (polls_drain _ _ _ k _ _ _ Hf Hk) as (Hu & r' & kp' & [Hs Hsh Hkp Hm Hcur Hg Ho He]).
  fold x in Hu, Hs, Hsh, Hkp, Hm, Hcur, Hg, Ho, He. fold s in Hu, Hs, Hsh, Hkp, Hm, Hcur, Hg, Ho, He.
  unfold unread in Hu. destruct (existing s) eqn:Eex; [|cbn in Hu; lia]. cbn in Hu.
  rewrite app_nil_r in Hs. subst r'. exists kp'.
  assert (Hlen : length since = (length (sent_log x.1) - length (sent_log c))%nat) by apply length_drop.
  assert (Hsub : kp' `sublist_of` since).
  { etransitivity; [exact Hkp|]. apply sublist_take. }
  split_and!; [done|done|lia| |].
  - intros H256. apply sublist_length_eq; [done|]. unfold LOG_CHANNEL_CAPACITY in Hg. lia.
  - intros Hx. apply (He Hx).
Qed.
End Behaviour.

(** ** A channel that keeps the whole log *)
Module ToyChannel.
#[export] Instance broadcast : Broadcast (list DebugLogEntry * bool) nat := {|
  send_entry e c := (c.1 ++ [e], c.2);
  close c := (c.1, true);
  subscribe c := length c.1;
  recv_entry c r :=
    if decide (r + LOG_CHANNEL_CAPACITY < length c.1)%nat
    then (Lagged (length c.1 - LOG_CHANNEL_CAPACITY - r), (r + (length c.1 - LOG_CHANNEL_CAPACITY - r))%nat)
    else match c.1 !! r with
         | Some e => (Entry e, S r)
         | None => (if c.2 then Closed else Pending, r)
         end;
  sent_log := fst;
  closed := snd;
  cursor r := r |}.

#[export] Instance broadcast_laws : BroadcastLaws (list DebugLogEntry * bool) nat.
Proof.
  split; try done.
  - intros c r Hr. cbn in *. subst r. rewrite decide_False by lia. by rewrite lookup_ge_None_2.
  - intros c r e He Hle. cbn in *. rewrite decide_False by lia. by rewrite He.
  - intros c r Hlt n. cbn in *. by rewrite decide_True by lia.
Qed.

(** The message is the text of an entry. *)
#[export] Instance json : EntryJson := fun e => Some (message e).
End ToyChannel.

#[local] Existing Instances ToyChannel.broadcast ToyChannel.broadcast_laws ToyChannel.json.

Definition demo_entry (m : list byte) : DebugLogEntry := new_entry 0 Info (bs "STATE") m.

Lemma events_complete_witness :
  let c := ([demo_entry (bs "old")], false) in
  let x := serve_stream [Polls; Broadcasts (demo_entry (bs "a")); Polls; Broadcasts (demo_entry (bs "b"))]
             (c, open_stream [demo_entry (bs "old")] c) in
  let since := drop (length (sent_log c)) (sent_log x.1) in
  (unread x.1 x.2 <= 1)%nat /\
  exists kept, shown (Nat.iter 1 (poll x.1) x.2) = events_of ([demo_entry (bs "old")] ++ kept)
  /\ kept `sublist_of` since
  /\ (length kept + missed (Nat.iter 1 (poll x.1) x.2) = length since)%nat
  /\ ((length since <= 256)%nat -> kept = since)
  /\ (ended (Nat.iter 1 (poll x.1) x.2) = true -> closed x.1 = true).
Proof.
  intros c x since.
  assert (Hk : (unread x.1 x.2 <= 1)%nat) by (vm_compute; lia).
  split; [exact Hk|].
  exact (events_complete [demo_entry (bs "old")] c
    [Polls; Broadcasts (demo_entry (bs "a")); Polls; Broadcasts (demo_entry (bs "b"))] 1 Hk).
Defined.

(** The log is read before the subscription is made: an entry added and broadcast
    in between is in neither, and the page is never sent it. *)
Example entry_between_is_lost :
  let e := demo_entry (bs "State changed to: Awaiting consent") in
  let '((st, c), s) := events_stream [Adds e; Sends e] (new_state default_config, ([], false)) in
  get_logs None st = [e] /\ forall k, Nat.iter k (poll c) s = s /\ shown s = [].
Proof.
  split; [reflexivity|]. intros k. split; [|reflexivity].
  induction k as [|k IH]; [reflexivity|]. rewrite Nat.iter_succ, IH. reflexivity.
Qed.

(** An entry added before the log is read and broadcast after the subscription is
    sent twice. *)
Example entry_around_is_sent_twice :
  let e := demo_entry (bs "Modem disconnected") in
  let '(_, s) := events_stream [] (add_log e (new_state default_config), ([], false)) in
  shown (Nat.iter 2 (poll (send_entry e ([], false))) s)
    = [bs "Modem disconnected"; bs "Modem disconnected"].
Proof. vm_compute. reflexivity. Qed.
