(* ===== verification/Cache.v ===== *)
(** * The page cache ([client/src/cache.rs])

    The [entries] table of the SQLite file, keyed by URL, with the least
    recently used rows evicted when the bodies exceed the cap.  The row order
    of [ORDER BY last_used] among equal times is SQLite's; the failures of its
    statements are inputs. *)
From Stdlib Require Import ZArith Lia Strings.Byte Sorted.
From stdpp Require Import base decidable list countable gmap sorting strings.
From S2P Require Import Prelude Bytes Numbers.

Record Row : Type := mkRow {
  etag : list byte;
  brotli_body : list byte;
  fetched_at : Z;
  last_used : Z;
  size : Z;
  max_age : Z }.

Abbreviation Table := (gmap (list byte) Row).

Record Cache : Type := mkCache {
  entries : Table;
  cap_bytes : Z;
  max_ttl : Z }.

Definition with_entries (t : Table) (c : Cache) : Cache := mkCache t (cap_bytes c) (max_ttl c).

(** Times as [SystemTime] has them, in nanoseconds since the epoch *)
Definition nanos (secs : Z) : Z := secs * 1000000000.

Record Hit : Type := mkHit {
  hit_etag : list byte;
  hit_body : list byte;
  hit_fetched_at : Z;
  hit_max_age : Z }.

Definition is_fresh (now : Z) (h : Hit) : bool :=
  let age := now - hit_fetched_at h in (0 <=? age) && (age <? hit_max_age h).

Record CacheEntry : Type := mkCacheEntry {
  entry_url : list byte;
  entry_etag : list byte;
  entry_fetched_at : Z;
  entry_last_used : Z;
  entry_size : Z;
  entry_max_age : Z }.

(** The rows in the order of a query's [ORDER BY] *)
Class Sqlite : Type := {
  by_last_used_asc : Table -> list (list byte * Row);
  by_last_used_desc : Table -> list (list byte * Row) }.

Class SqliteLaws `{Sqlite} : Prop := {
  asc_rows : forall t, by_last_used_asc t ≡ₚ map_to_list t;
  asc_sorted : forall t,
    StronglySorted (fun a b => last_used a.2 <= last_used b.2) (by_last_used_asc t);
  desc_rows : forall t, by_last_used_desc t ≡ₚ map_to_list t;
  desc_sorted : forall t,
    StronglySorted (fun a b => last_used b.2 <= last_used a.2) (by_last_used_desc t) }.

(** Which statements of [insert] fail *)
Record SqlFaults : Type := mkSqlFaults {
  begin_fails : bool;
  upsert_fails : bool;
  sum_fails : bool;
  scan_fails : bool;
  delete_fails : list byte -> bool;
  commit_fails : bool }.
Definition no_faults : SqlFaults := mkSqlFaults false false false false (fun _ => false) false.

(** [SELECT COALESCE(SUM(size), 0)]: SQLite's integer sum errs on overflow *)
Definition total_size (t : Table) : Z := map_fold (fun _ r acc => size r + acc) 0 t.
Definition sum_sizes (t : Table) : option Z :=
  if (total_size t <=? i64_max) && (i64_min <=? total_size t) then Some (total_size t) else None.

Section Ops.
Context `{Sqlite}.

Definition lookup_url (poisoned : bool) (url : list byte) (c : Cache) : option Hit :=
  if poisoned then None
  else
    r ← entries c !! url;
    Some (mkHit (etag r) (brotli_body r)
            (nanos (Z.max (fetched_at r) 0)) (nanos (Z.max (max_age r) 0))).

(** The eviction loop: [over] is the number of bytes still to free *)
Fixpoint evict (fails : list byte -> bool) (url : list byte) (over : Z)
    (victims : list (list byte * Row)) (t : Table) : Table :=
  match victims with
  | [] => t
  | (v_url, r) :: rest =>
      if over <=? 0 then t
      else if bool_decide (v_url = url) then evict fails url over rest t
      else if fails v_url then evict fails url over rest t
      else evict fails url (over - size r) rest (delete v_url t)
  end.

(** The row [insert] writes; [now] is the clock in seconds *)
Definition new_row (now : Z) (tag body : list byte) (server_max_age_secs : Z) (c : Cache) : Row :=
  mkRow tag body (as_i64 now) (as_i64 now) (Z.of_nat (length body))
    (as_i64 (Z.min (as_u64 server_max_age_secs) (max_ttl c))).

(** [Cache::insert]: a transaction; an early return drops it, which rolls it
    back *)
Definition insert_page (faults : SqlFaults) (now : Z) (url tag body : list byte)
    (server_max_age_secs : Z) (c : Cache) : Cache :=
  if server_max_age_secs <? 0 then c
  else if begin_fails faults then c
  else if upsert_fails faults then c
  else
    let cap := as_i64 (cap_bytes c) in
    let t := <[url := new_row now tag body server_max_age_secs c]> (entries c) in
    let total := if sum_fails faults then 0 else default 0 (sum_sizes t) in
    let t' :=
      if cap <? total then
        let over := as_i64 (total - cap) in
        let victims := if scan_fails faults then [] else by_last_used_asc t in
        evict (delete_fails faults) url over victims t
      else t in
    if commit_fails faults then c else with_entries t' c.

Definition set_fetched (now : Z) (r : Row) : Row :=
  mkRow (etag r) (brotli_body r) now now (size r) (max_age r).
Definition set_last_used (now : Z) (r : Row) : Row :=
  mkRow (etag r) (brotli_body r) (fetched_at r) now (size r) (max_age r).

(** The single-statement operations; [fails] when the statement does *)
Definition touch_fresh (fails : bool) (now : Z) (url : list byte) (c : Cache) : Cache :=
  if fails then c else with_entries (alter (set_fetched (as_i64 now)) url (entries c)) c.
Definition touch_last_used (fails : bool) (now : Z) (url : list byte) (c : Cache) : Cache :=
  if fails then c else with_entries (alter (set_last_used (as_i64 now)) url (entries c)) c.
Definition delete_url (fails : bool) (url : list byte) (c : Cache) : Cache :=
  if fails then c else with_entries (delete url (entries c)) c.
Definition clear (fails : bool) (c : Cache) : Cache :=
  if fails then c else with_entries ∅ c.

Definition list_entries (fails : bool) (c : Cache) : list CacheEntry :=
  if fails then []
  else map (fun ur => mkCacheEntry ur.1 (etag ur.2) (nanos (Z.max (fetched_at ur.2) 0))
                        (nanos (Z.max (last_used ur.2) 0)) (Z.max (size ur.2) 0)
                        (nanos (Z.max (max_age ur.2) 0)))
         (take 200 (by_last_used_desc (entries c))).
End Ops.

(** ** Eviction *)

(** Every row's size is its body's length *)
Definition table_wf (t : Table) : Prop :=
  map_Forall (fun _ r => size r = Z.of_nat (length (brotli_body r))) t.

(** A cache whose cap and lifetime are in range and whose bodies can be
    summed *)
Definition cache_wf (c : Cache) : Prop :=
  table_wf (entries c) /\ 0 <= cap_bytes c <= i64_max /\ 0 <= max_ttl c <= u64_max.

Lemma total_size_insert t k r :
  t !! k = None -> total_size (<[k := r]> t) = size r + total_size t.
Proof.
  intros Hk. unfold total_size. rewrite map_fold_insert_L; [done| |done].
  intros. lia.
Qed.

Lemma total_size_delete t k r : t !! k = Some r -> total_size t = size r + total_size (delete k t).
Proof.
  intros Hk. rewrite <- (total_size_insert (delete k t) k r) by apply lookup_delete_eq.
  by rewrite insert_delete_id.
Qed.

Lemma total_size_nonneg t : table_wf t -> 0 <= total_size t.
Proof.
  induction t as [|k r t Hk IH] using map_ind; intros Hw; [done|].
  apply map_Forall_insert in Hw as [Hr Hw]; [|done].
  rewrite total_size_insert by done. specialize (IH Hw). lia.
Qed.

Lemma table_wf_delete t k : table_wf t -> table_wf (delete k t).
Proof. apply map_Forall_delete. Qed.

(** The row just written is never a victim *)
Lemma evict_keeps_url fails url victims : forall over t,
  evict fails url over victims t !! url = t !! url.
Proof.
  induction victims as [|[v r] rest IH]; intros over t; simpl; [done|].
  destruct (over <=? 0); [done|]. case_bool_decide as Hv; [apply IH|].
  destruct (fails v); rewrite IH; [done|]. by rewrite lookup_delete_ne.
Qed.

Lemma none_victim (url : list byte) (t : Table) k :
  t !! k = if bool_decide (k ∈ ([] : list (list byte * Row)).*1 /\ k <> url) then None else t !! k.
Proof. rewrite bool_decide_false; [done|]. intros [Hk _]. by apply not_elem_of_nil in Hk. Qed.

(** Without failures the loop deletes a prefix of the victims, the new row
    apart, and stops as soon as enough is freed. *)
Lemma evict_spec url victims : forall over t,
  NoDup victims.*1 ->
  (forall k r, (k, r) ∈ victims -> t !! k = Some r) ->
  let t' := evict (fun _ => false) url over victims t in
  exists pre post, victims = pre ++ post
    /\ (forall k, t' !! k = if bool_decide (k ∈ pre.*1 /\ k <> url) then None else t !! k)
    /\ (post = [] \/ total_size t' <= total_size t - over)
    /\ (table_wf t -> table_wf t').
Proof.
  induction victims as [|[v r] rest IH]; intros over t Hnd Hin; cbn [evict].
  { exists [], []. split_and!; [done| |by left|done]. apply none_victim. }
  rewrite fmap_cons in Hnd. apply NoDup_cons in Hnd as [Hv Hnd].
  destruct (Z.leb_spec over 0).
  { exists [], ((v, r) :: rest). split_and!; [done| |right; lia|done]. apply none_victim. }
  case_bool_decide as Hurl.
  - destruct (IH over t Hnd) as (pre & post & -> & Hl & Ht & Hw).
    { intros k r' Hk. apply Hin. by constructor. }
    exists ((v, r) :: pre), post. split_and!; auto. intros k. rewrite Hl, fmap_cons.
    erewrite bool_decide_ext; [done|]. rewrite elem_of_cons. naive_solver.
  - assert (Hr : t !! v = Some r) by (apply Hin; constructor).
    destruct (IH (over - size r) (delete v t) Hnd) as (pre & post & -> & Hl & Ht & Hw).
    { intros k r' Hk. rewrite lookup_delete_ne; [apply Hin; by constructor|].
      intros ->. apply Hv. apply list_elem_of_fmap. by exists (k, r'). }
    exists ((v, r) :: pre), post. split_and!; [done| | |].
    + intros k. rewrite Hl, fmap_cons. destruct (decide (k = v)) as [->|Hk].
      * rewrite (bool_decide_true (v ∈ v :: pre.*1 /\ _)) by (split; [constructor|done]).
        rewrite lookup_delete_eq. by destruct (bool_decide _).
      * rewrite lookup_delete_ne by done.
        erewrite bool_decide_ext; [done|]. rewrite elem_of_cons. naive_solver.
    + destruct Ht as [Ht|Ht]; [by left|right].
      rewrite (total_size_delete t v r Hr). lia.
    + intros Hwf. by apply Hw, table_wf_delete.
Qed.

Section Laws.
Context `{SqliteLaws}.

Lemma victims_rows t k r : (k, r) ∈ by_last_used_asc t <-> t !! k = Some r.
Proof. by rewrite asc_rows, elem_of_map_to_list. Qed.

Lemma victims_nodup t : NoDup (by_last_used_asc t).*1.
Proof. rewrite asc_rows. apply NoDup_fst_map_to_list. Qed.

Lemma sorted_app {A} (R : A -> A -> Prop) l1 l2 a b :
  StronglySorted R (l1 ++ l2) -> a ∈ l1 -> b ∈ l2 -> R a b.
Proof.
  induction l1 as [|x l1 IH]; intros Hs Ha Hb; [by apply not_elem_of_nil in Ha|].
  apply StronglySorted_inv in Hs as [Hs Hx].
  apply elem_of_cons in Ha as [->|Ha]; [|by apply IH].
  rewrite Forall_forall in Hx. apply Hx, elem_of_app. by right.
Qed.

(** The eviction of the least recently used rows of a whole table *)
Lemma evict_table url over t :
  table_wf t ->
  let t' := evict (fun _ => false) url over (by_last_used_asc t) t in
  (total_size t' <= total_size t - over \/ forall k, is_Some (t' !! k) -> k = url)
  /\ (forall k, t' !! k = None \/ t' !! k = t !! k)
  /\ (forall k r k' r', t !! k = Some r -> t' !! k = None -> t' !! k' = Some r' -> k' <> url ->
        last_used r <= last_used r')
  /\ table_wf t'.
Proof.
  intros Hw t'.
  destruct (evict_spec url (by_last_used_asc t) over t (victims_nodup t))
    as (pre & post & Hpp & Hl & Ht & Hwf); [apply victims_rows|]. fold t' in Hl, Ht, Hwf.
  split_and!; [| | |auto].
  - destruct Ht as [->|Ht]; [right|by left]. rewrite app_nil_r in Hpp. intros k.
    rewrite Hl. case_bool_decide as Hk; [by intros []|]. intros [r Hr].
    destruct (decide (k = url)) as [|Hne]; [done|]. contradict Hk. split; [|done].
    apply victims_rows in Hr. rewrite Hpp in Hr. apply list_elem_of_fmap. by exists (k, r).
  - intros k. rewrite Hl. case_bool_decide; auto.
  - intros k r k' r' Hk Hn Hk' Hne. rewrite Hl in Hn.
    case_bool_decide as Hd; [clear Hn|congruence]. destruct Hd as [Hd _]. rewrite Hl in Hk'.
    case_bool_decide as Hd'; [done|].
    apply list_elem_of_fmap in Hd as ([k0 r0] & -> & Hin).
    assert (Heq : t !! k0 = Some r0).
    { apply victims_rows. rewrite Hpp. apply elem_of_app. by left. }
    simpl in Hk. rewrite Heq in Hk. injection Hk as ->.
    apply victims_rows in Hk'. rewrite Hpp in Hk'. apply elem_of_app in Hk' as [Hk'|Hk'].
    { contradict Hd'. split; [|done]. apply list_elem_of_fmap. by exists (k', r'). }
    pose proof (asc_sorted t) as Hs. rewrite Hpp in Hs. by apply (sorted_app _ _ _ _ _ Hs Hin Hk').
Qed.

(** C35: inserting a page keeps the cache within its cap, or leaves only that
    page when the page alone exceeds the cap; the page is there afterwards; other
    pages are left as they were or evicted whole, none when there was room, and
    no page kept was used less recently than one evicted. *)
Theorem insert_page_lru now url tag body age c :
  cache_wf c -> 0 <= age ->
  let t := <[url := new_row now tag body age c]> (entries c) in
  let c' := insert_page no_faults now url tag body age c in
  total_size t <= i64_max ->
  entries c' !! url = Some (new_row now tag body age c)
  /\ (total_size (entries c') <= cap_bytes c \/ forall k, is_Some (entries c' !! k) -> k = url)
  /\ (forall k, k <> url -> entries c' !! k = None \/ entries c' !! k = entries c !! k)
  /\ (total_size t <= cap_bytes c -> entries c' = t)
  /\ (forall k r k' r', k <> url -> entries c !! k = Some r -> entries c' !! k = None ->
        k' <> url -> entries c' !! k' = Some r' -> last_used r <= last_used r')
  /\ cache_wf c'.
Proof.
  intros (Hw & Hcap & Httl) Hage t c' Hsum.
  assert (Htw : table_wf t) by (apply map_Forall_insert_2; [done|apply Hw]).
  pose proof (total_size_nonneg t Htw) as Hnn.
  subst c'. unfold insert_page. rewrite (proj2 (Z.ltb_ge age 0)) by lia.
  cbn [begin_fails upsert_fails sum_fails scan_fails commit_fails delete_fails no_faults].
  fold t. unfold sum_sizes.
  rewrite (proj2 (Z.leb_le (total_size t) i64_max)) by done.
  rewrite (proj2 (Z.leb_le i64_min (total_size t))) by (unfold i64_min; lia).
  cbn [andb default from_option id]. rewrite (as_i64_small (cap_bytes c)) by (unfold i64_min; lia).
  assert (Hother : forall k, k <> url -> t !! k = entries c !! k).
  { intros. by apply lookup_insert_ne. }
  destruct (Z.ltb_spec (cap_bytes c) (total_size t)).
  - rewrite as_i64_small by (unfold i64_min in *; lia).
    destruct (evict_table url (total_size t - cap_bytes c) t Htw) as (Ht & Hk & Hlru & Hw').
    cbn [entries with_entries cap_bytes]. set (t' := evict _ _ _ _ _) in *.
    split_and!; try done.
    + unfold t'. rewrite evict_keeps_url. apply lookup_insert_eq.
    + destruct Ht as [Ht|Ht]; [left; lia|by right].
    + intros k Hne. rewrite <- Hother by done. apply Hk.
    + lia.
    + intros k r k' r' Hne Hk1 Hk2 Hne' Hk3. rewrite <- Hother in Hk1 by done.
      by apply (Hlru k r k' r').
  - cbn [entries with_entries cap_bytes]. split_and!; try done.
    + apply lookup_insert_eq.
    + by left.
    + intros k Hne. right. by apply Hother.
    + intros k r k' r' Hne Hk1 Hk2. rewrite Hother in Hk2 by done. congruence.
Qed.
End Laws.

(** Whatever statements fail, an insertion is all or nothing: the cache is as it
    was, which a refused age or a failed [BEGIN], upsert or [COMMIT] alone
    causes, or a lookup of the URL gives back the tag and the body stored, fresh
    exactly until the server's age, capped by the configured lifetime, has
    passed. *)
Theorem insert_page_lookup `{Sqlite} faults now url tag body age c :
  age <= i32_max -> 0 <= now <= i64_max -> 0 <= max_ttl c <= u64_max ->
  let c' := insert_page faults now url tag body age c in
  ((age < 0 \/ begin_fails faults || upsert_fails faults || commit_fails faults = true) /\ c' = c)
  \/ exists h, lookup_url false url c' = Some h
       /\ hit_etag h = tag /\ hit_body h = body
       /\ forall d, 0 <= d ->
            is_fresh (nanos now + d) h = (d <? nanos (Z.min age (max_ttl c))).
Proof.
  intros Hage Hnow Httl c'. subst c'. unfold insert_page.
  destruct (Z.ltb_spec age 0); [left; auto|].
  destruct (begin_fails faults); [left; auto|].
  destruct (upsert_fails faults); [left; auto|].
  destruct (commit_fails faults); [left; auto|]. right.
  set (t := <[url := _]> (entries c)).
  assert (Ht : t !! url = Some (new_row now tag body age c)) by apply lookup_insert_eq.
  match goal with |- context [with_entries ?x c] => set (t' := x) end.
  assert (Ht' : t' !! url = Some (new_row now tag body age c)).
  { unfold t'. case_match; by rewrite ?evict_keeps_url. }
  eexists. split; [unfold lookup_url; cbn [entries with_entries]; by rewrite Ht'|].
  cbn [hit_etag hit_body etag brotli_body new_row fetched_at max_age].
  split_and!; [done..|]. intros d Hd. unfold is_fresh.
  cbn [hit_fetched_at hit_max_age].
  unfold i32_max, i64_max in *.
  rewrite (as_u64_small age) by (unfold u64_max; lia).
  rewrite !as_i64_small by (unfold i64_min, i64_max; lia).
  rewrite !Z.max_l by lia. unfold nanos.
  replace (now * 1000000000 + d - now * 1000000000) with d by lia.
  by rewrite (proj2 (Z.leb_le 0 d) Hd).
Qed.

(** ** A concrete row order *)

Module ToySqlite.
Definition asc (a b : list byte * Row) : Prop := last_used a.2 <= last_used b.2.
#[local] Instance asc_dec a b : Decision (asc a b) := Z_le_dec _ _.
#[local] Instance asc_trans : Transitive asc.
Proof. intros a b c. unfold asc. lia. Qed.
#[local] Instance asc_total : Total asc.
Proof. intros a b. unfold asc. lia. Qed.
#[local] Instance desc_dec a b : Decision (flip asc a b) := Z_le_dec _ _.
#[local] Instance desc_trans : Transitive (flip asc).
Proof. intros a b c. unfold flip, asc. lia. Qed.
#[local] Instance desc_total : Total (flip asc).
Proof. intros a b. unfold flip, asc. lia. Qed.

#[global] Instance sqlite : Sqlite := {|
  by_last_used_asc := fun t => merge_sort asc (map_to_list t);
  by_last_used_desc := fun t => merge_sort (flip asc) (map_to_list t) |}.
#[global] Instance laws : SqliteLaws.
Proof.
  split; intros t; simpl; auto using merge_sort_Permutation.
  - exact (StronglySorted_merge_sort asc (map_to_list t)).
  - exact (StronglySorted_merge_sort (flip asc) (map_to_list t)).
Qed.
End ToySqlite.

Definition small_cache : Cache :=
  mkCache {[bs "a" := mkRow (bs "t") [x01; x02; x03] 10 10 3 60]} 4 3600.

Lemma small_cache_wf : cache_wf small_cache.
Proof.
  unfold cache_wf, i64_max, u64_max. cbn [entries cap_bytes max_ttl small_cache].
  split_and!; try lia. apply map_Forall_singleton. reflexivity.
Qed.

Lemma insert_page_lru_witness :
  entries (@insert_page ToySqlite.sqlite no_faults 20 (bs "b") (bs "u") [x05; x06] 60 small_cache)
    !! bs "b"
  = Some (new_row 20 (bs "u") [x05; x06] 60 small_cache).
Proof.
  apply (@insert_page_lru ToySqlite.sqlite ToySqlite.laws 20 (bs "b") (bs "u") [x05; x06] 60
    small_cache small_cache_wf); [lia|].
  cbn [entries small_cache]. rewrite total_size_insert by (by apply lookup_singleton_ne).
  unfold total_size. rewrite map_fold_singleton. unfold i64_max. cbn. lia.
Defined.

Lemma insert_page_lookup_witness :
  exists h, @lookup_url false (bs "b")
    (@insert_page ToySqlite.sqlite no_faults 20 (bs "b") (bs "u") [x05; x06] 60 small_cache) = Some h
    /\ hit_body h = [x05; x06].
Proof.
  pose proof (@insert_page_lookup ToySqlite.sqlite no_faults 20 (bs "b") (bs "u") [x05; x06] 60
    small_cache ltac:(unfold i32_max; lia) ltac:(unfold i64_max; lia)
    ltac:(unfold u64_max; cbn; lia)) as Hi. cbv zeta in Hi. revert Hi.
  generalize (@insert_page ToySqlite.sqlite no_faults 20 (bs "b") (bs "u") [x05; x06] 60 small_cache).
  intros c' [[[Hn|Hn] _]|(h & Hh & _ & Hb & _)]; [lia|discriminate|].
  exists h. split; assumption.
Defined.
