(* ===== verification/Transport.v ===== *)
(** * The [Transport] trait and the world its users share
    ([client/src/transport/mod.rs], [session.rs])

    The session code drives a modem through the trait while other tasks (the
    web interface) take the lock of the shared state in between.  The world
    holds the modem's state, the shared state, and what the other tasks will
    do before each of the accesses to come. *)
From Stdlib Require Import ZArith Lia Strings.Byte.
From stdpp Require Import base decidable list.
From S2P Require Import Prelude Bytes Numbers TransportTypes ClientConfig ClientState.

Inductive AgwpeError : Type :=
| AgIo (msg : list byte)
| ConnectionFailed (msg : list byte)
| RegistrationFailed (msg : list byte)
| AgNotConnected
| InvalidFrame (msg : list byte)
| AgTimeout
| TaskStopped
| SessionDied (reason : list byte)
| NeedsReconsent
| DisconnectedByOperator.

Definition display_agwpe_error (e : AgwpeError) : list byte :=
  match e with
  | AgIo m => bs "IO error: " ++ m
  | ConnectionFailed m => bs "Connection failed: " ++ m
  | RegistrationFailed m => bs "Registration failed: " ++ m
  | AgNotConnected => bs "Not connected"
  | InvalidFrame m => bs "Invalid frame: " ++ m
  | AgTimeout => bs "Timeout"
  | TaskStopped => bs "Background task stopped"
  | SessionDied reason => bs "Session died: " ++ reason
  | NeedsReconsent => bs "Session dropped and requires re-consent"
  | DisconnectedByOperator => bs "Disconnected by operator"
  end.

(** [transport_err_to_agwpe] *)
Definition transport_err_to_agwpe (e : TransportError) : AgwpeError :=
  match e with
  | NotConnected => AgNotConnected
  | TrTimeout => AgTimeout
  | TrIo m => AgIo m
  | ModemError m => ConnectionFailed m
  | SessionRejected m => ConnectionFailed m
  end.

(** ** The world *)

(** What another task does: set the abort flag, or anything to the shared
    state *)
Inductive Interference : Type :=
| SetAbort
| Update (f : AppState -> AppState).

(** What the consent channel will report: a decision, that its sender is gone, or
    nothing in time *)
Inductive ConsentOutcome : Type :=
| Answered (accepted : bool)
| SenderDropped
| NoAnswer.

(** What the session code does, as the operator's side observes it.  [Asked shown o]
    is the wait for consent: the texts the operator was shown from its start to its end,
    each as the consent page has it, and the outcome. *)
Inductive Act : Type :=
| Sent (data : list byte)
| Received (ev : TransportEvent)
| Reopened
| Opened
| Asked (shown : list (option (list byte))) (answer : ConsentOutcome)
| ReadStored (stored : option (list byte)).

Record World (T : Type) : Type := mkWorld {
  modem : T;
  app : AppState;
  abort_flag : bool;
  clock : Z;
  broadcast : list DebugLogEntry;
  interference : list (list Interference);
  (** when the next waits for consent end, counted from their start, and how *)
  answers : list (Z * ConsentOutcome);
  trace : list Act }.
Arguments mkWorld {T}.
Arguments modem {T}.
Arguments app {T}.
Arguments abort_flag {T}.
Arguments clock {T}.
Arguments broadcast {T}.
Arguments interference {T}.
Arguments answers {T}.
Arguments trace {T}.

Section World.
Context {T : Type}.

Definition set_modem (m : T) (w : World T) : World T :=
  mkWorld m (app w) (abort_flag w) (clock w) (broadcast w) (interference w) (answers w) (trace w).
Definition set_app (a : AppState) (w : World T) : World T :=
  mkWorld (modem w) a (abort_flag w) (clock w) (broadcast w) (interference w) (answers w) (trace w).
Definition set_abort (b : bool) (w : World T) : World T :=
  mkWorld (modem w) (app w) b (clock w) (broadcast w) (interference w) (answers w) (trace w).
Definition set_clock (t : Z) (w : World T) : World T :=
  mkWorld (modem w) (app w) (abort_flag w) t (broadcast w) (interference w) (answers w) (trace w).
Definition send_entry (e : DebugLogEntry) (w : World T) : World T :=
  mkWorld (modem w) (app w) (abort_flag w) (clock w) (broadcast w ++ [e]) (interference w)
    (answers w) (trace w).
Definition note (a : Act) (w : World T) : World T :=
  mkWorld (modem w) (app w) (abort_flag w) (clock w) (broadcast w) (interference w)
    (answers w) (trace w ++ [a]).

Definition interfere1 (i : Interference) (w : World T) : World T :=
  match i with
  | SetAbort => set_abort true w
  | Update f => set_app (f (app w)) w
  end.

(** The other tasks run before an access to what they share. *)
Definition sync (w : World T) : World T :=
  match interference w with
  | [] => w
  | es :: rest =>
      let w' := fold_left (fun w i => interfere1 i w) es w in
      mkWorld (modem w') (app w') (abort_flag w') (clock w') (broadcast w') rest
        (answers w') (trace w')
  end.

(** What the operator is shown while the other tasks run: one text at a time *)
Fixpoint displays (batch : list Interference) (a : AppState) : list (option (list byte)) :=
  match batch with
  | [] => []
  | i :: rest =>
      let a' := match i with SetAbort => a | Update f => f a end in
      awaited_disclaimer a' :: displays rest a'
  end.
(** The tasks that run before the next access *)
Definition next_batch (w : World T) : list Interference := default [] (head (interference w)).

Definition Task (E : Type) : Type -> Type := M (World T) E.

(** [state.lock_or_poisoned()] to read, and to update *)
Definition lock_read {E A} (f : AppState -> A) : Task E A := fun w =>
  let w' := sync w in (Ok (f (app w')), w').
Definition lock_update {E} (f : AppState -> AppState) : Task E unit := fun w =>
  let w' := sync w in (Ok tt, set_app (f (app w')) w').

(** [session_state.is_aborted()], [reset_abort] and [abort] *)
Definition is_aborted {E} : Task E bool := fun w => let w' := sync w in (Ok (abort_flag w'), w').
Definition reset_abort {E} : Task E unit := fun w => (Ok tt, set_abort false (sync w)).
Definition abort {E} : Task E unit := fun w => (Ok tt, set_abort true (sync w)).

(** [push_log] *)
Definition push_log {E} (entry : Z -> DebugLogEntry) : Task E unit := fun w =>
  let e := entry (clock w) in
  let w' := sync w in
  (Ok tt, send_entry e (set_app (add_log e (app w')) w')).

(** [let _ = log_tx.send(..)] *)
Definition broadcast_entry {E} (entry : Z -> DebugLogEntry) : Task E unit := fun w =>
  (Ok tt, send_entry (entry (clock w)) w).

(** [set_connection_state] under the lock, its entry broadcast; [f] is what is
    done under the same lock before it *)
Definition set_state_with {E} (f : AppState -> AppState) (cs : ConnectionState) : Task E unit :=
  fun w =>
    let w' := sync w in
    let (e, a) := set_connection_state (clock w') cs (f (app w')) in
    (Ok tt, send_entry e (set_app a w')).
(** [set_state] *)
Definition set_state {E} : ConnectionState -> Task E unit := set_state_with (fun a => a).

Definition act {E} (a : Act) : Task E unit := fun w => (Ok tt, note a w).
End World.

Definition info (category msg : list byte) (t : Z) : DebugLogEntry :=
  new_entry t Info category msg.
Definition debug (category msg : list byte) (t : Z) : DebugLogEntry :=
  new_entry t Debug category msg.
Definition trace_entry (category msg : list byte) (t : Z) : DebugLogEntry :=
  new_entry t Trace category msg.
Definition tx (entry : Z -> DebugLogEntry) (t : Z) : DebugLogEntry := with_direction Tx (entry t).
Definition rx (entry : Z -> DebugLogEntry) (t : Z) : DebugLogEntry := with_direction Rx (entry t).

(** ** The trait *)

Class Transport (T : Type) : Type := {
  connect_modem : TransportConfig -> @Task T TransportError unit;
  disconnect_modem : @Task T TransportError unit;
  open_session : SessionConfig -> @Task T TransportError unit;
  close_session : @Task T TransportError unit;
  send : list byte -> @Task T TransportError unit;
  (** the deadline, in milliseconds *)
  recv : Z -> @Task T TransportError TransportEvent;
  port_query_supported : T -> bool;
  open_ax25_link : @Task T TransportError unit;
  reopen_modem_connection : @Task T TransportError unit;
  query_ports : @Task T TransportError unit;
  (** what is left to receive, as a number that each event lowers *)
  supply : T -> nat }.

(** What other tasks own: a computation of the modem leaves it alone *)
Definition session_part {T} (w : World T) : list (Z * ConsentOutcome) * list Act :=
  (answers w, trace w).
(** When no other task interferes, the modem leaves the abort flag, the
    operator's consent and configuration alone too. *)
Definition operator_part (a : AppState) : option (list byte) * option nat * FileConfig :=
  (last_agreed_disclaimer a, pending_consent a, ClientState.config a).
Definition alone {T E A} (m : @Task T E A) : Prop := forall w,
  interference w = [] ->
  interference (m w).2 = [] /\ abort_flag (m w).2 = abort_flag w
  /\ operator_part (app (m w).2) = operator_part (app w).

(** A raised flag stays up: only the actor lowers it. *)
Definition stays {T E A} (P : World T -> Prop) (m : @Task T E A) : Prop := forall w,
  P w -> P (m w).2.
Definition flag_up {T} (w : World T) : Prop := abort_flag w = true.
(** The flag is up, or another task will raise it. *)
Definition will_stop {T} (w : World T) : Prop :=
  abort_flag w = true \/ SetAbort ∈ concat (interference w).

(** A task of the modem: it keeps to its part of the world, and it ends *)
Record polite {T E A} (m : @Task T E A) : Prop := {
  task_session : keeps session_part m;
  task_alone : alone m;
  task_flag : forall w, flag_up w -> flag_up (m w).2;
  task_stop : forall w, will_stop w -> will_stop (m w).2 }.
Record modem_task {T E A} (m : @Task T E A) : Prop := {
  task_total : total m;
  task_polite : polite m }.

(** What the session code relies on *)
Class TransportLaws (T : Type) `{Transport T} : Prop := {
  connect_modem_task : forall cfg, modem_task (connect_modem cfg);
  disconnect_modem_task : modem_task disconnect_modem;
  open_session_task : forall cfg, modem_task (open_session cfg);
  close_session_task : modem_task close_session;
  send_task : forall data, modem_task (send data);
  recv_task : forall deadline, modem_task (recv deadline);
  open_ax25_link_task : modem_task open_ax25_link;
  reopen_modem_connection_task : modem_task reopen_modem_connection;
  query_ports_task : modem_task query_ports;
  recv_supply : forall deadline w ev w',
    recv deadline w = (Ok ev, w') -> (supply (modem w') < supply (modem w))%nat }.

(** ** Composing tasks *)

Section Tasks.
Context {T : Type}.

Lemma alone_ret {E A} (a : A) : alone (mret a : @Task T E A).
Proof. done. Qed.
Lemma alone_throw {E A} (e : E) : alone (throw e : @Task T E A).
Proof. done. Qed.
Lemma alone_lift {E A} (r : Result E A) : alone (lift r : @Task T E A).
Proof. done. Qed.
Lemma alone_gets {E A} (f : World T -> A) : alone (gets f : @Task T E A).
Proof. done. Qed.
Lemma alone_bind {E A B} (m : @Task T E A) (f : A -> @Task T E B) :
  alone m -> (forall a, alone (f a)) -> alone (m ≫= f).
Proof.
  intros Hm Hf w Hw. destruct (Hm w Hw) as (Hi & Ha & Ho). unfold mbind, M_bind.
  destruct (m w) as [[a|e| |] w']; simpl in *; [|done..].
  destruct (Hf a w' Hi) as (Hi' & Ha' & Ho'). by rewrite Hi', Ha', Ho'.
Qed.
Lemma alone_mapE {E F A} (f : E -> F) (m : @Task T E A) : alone m -> alone (mapE f m).
Proof. intros Hm w Hw. specialize (Hm w Hw). unfold mapE. by destruct (m w). Qed.
Lemma alone_catch {E F A B} (m : @Task T E A) (k : E + A -> @Task T F B) :
  alone m -> (forall x, alone (k x)) -> alone (catch m k).
Proof.
  intros Hm Hk w Hw. destruct (Hm w Hw) as (Hi & Ha & Ho). unfold catch.
  destruct (m w) as [[a|e| |] w']; simpl in *; [| |done..].
  - destruct (Hk (inr a) w' Hi) as (Hi' & Ha' & Ho'). by rewrite Hi', Ha', Ho'.
  - destruct (Hk (inl e) w' Hi) as (Hi' & Ha' & Ho'). by rewrite Hi', Ha', Ho'.
Qed.

Lemma sync_session (w : World T) : session_part (sync w) = session_part w.
Proof.
  unfold sync. destruct (interference w) as [|es rest]; [done|].
  change (session_part (fold_left (fun w i => interfere1 i w) es w) = session_part w).
  clear rest. revert w. induction es as [|i es IH]; intros w; [done|]. simpl.
  rewrite IH. by destruct i.
Qed.
Lemma sync_trace (w : World T) : trace (sync w) = trace w.
Proof. pose proof (sync_session w) as Hs. by injection Hs. Qed.
Lemma sync_modem (w : World T) : modem (sync w) = modem w.
Proof.
  unfold sync. destruct (interference w) as [|es rest]; [done|].
  change (modem (fold_left (fun w i => interfere1 i w) es w) = modem w).
  clear rest. revert w. induction es as [|i es IH]; intros w; [done|]. simpl.
  rewrite IH. by destruct i.
Qed.
Lemma sync_alone (w : World T) : interference w = [] -> sync w = w.
Proof. unfold sync. by intros ->. Qed.

Lemma polite_ret {E A} (a : A) : polite (mret a : @Task T E A).
Proof. by split. Qed.
Lemma polite_throw {E A} (e : E) : polite (throw e : @Task T E A).
Proof. by split. Qed.
Lemma polite_diverge {E A} : polite (diverge : @Task T E A).
Proof. by split. Qed.
Lemma polite_gets {E A} (f : World T -> A) : polite (gets f : @Task T E A).
Proof. by split. Qed.
Lemma polite_lift {E A} (r : Result E A) : polite (lift r : @Task T E A).
Proof. by split. Qed.
Lemma stays_bind {E A B} P (m : @Task T E A) (f : A -> @Task T E B) :
  stays P m -> (forall a, stays P (f a)) -> stays P (m ≫= f).
Proof.
  intros Hm Hf w Hw. specialize (Hm w Hw). unfold mbind, M_bind.
  destruct (m w) as [[a|e| |] w']; [by apply Hf|done..].
Qed.
Lemma stays_mapE {E F A} P (f : E -> F) (m : @Task T E A) : stays P m -> stays P (mapE f m).
Proof. intros Hm w Hw. specialize (Hm w Hw). unfold mapE. by destruct (m w). Qed.
Lemma stays_catch {E F A B} P (m : @Task T E A) (k : E + A -> @Task T F B) :
  stays P m -> (forall x, stays P (k x)) -> stays P (catch m k).
Proof.
  intros Hm Hk w Hw. specialize (Hm w Hw). unfold catch.
  destruct (m w) as [[a|e| |] w']; [by apply Hk|by apply Hk|done..].
Qed.
Lemma sync_flag (w : World T) : abort_flag w = true -> abort_flag (sync w) = true.
Proof.
  unfold sync. intros Hw. destruct (interference w) as [|es rest]; [done|]. cbn [abort_flag].
  clear rest. revert w Hw. induction es as [|[|f] es IH]; intros w Hw; [done|..]; by apply IH.
Qed.

Lemma disturbed_flag (es : list Interference) : forall w : World T,
  SetAbort ∈ es -> abort_flag (fold_left (fun w i => interfere1 i w) es w) = true.
Proof.
  induction es as [|i es IH]; intros w He; [by apply elem_of_nil in He|].
  destruct i as [|f]; cbn [fold_left interfere1].
  - clear IH He. assert (Hup : forall w : World T, abort_flag w = true ->
      abort_flag (fold_left (fun w i => interfere1 i w) es w) = true); [|by apply Hup].
    induction es as [|[|f] es IH]; intros w1 Hw1; [done|..]; by apply IH.
  - apply IH. by apply elem_of_cons in He as [|].
Qed.
Lemma sync_stop (w : World T) : will_stop w -> will_stop (sync w).
Proof.
  intros [Hw|Hw]; [left; by apply sync_flag|]. unfold sync.
  destruct (interference w) as [|es rest] eqn:E; [by right; rewrite E|].
  cbn [concat] in Hw. apply elem_of_app in Hw as [Hw|Hw]; [left|right; done]. by apply disturbed_flag.
Qed.

Lemma polite_bind {E A B} (m : @Task T E A) (f : A -> @Task T E B) :
  polite m -> (forall a, polite (f a)) -> polite (m ≫= f).
Proof.
  intros [] Hf. split.
  - apply keeps_bind; [done|]. intros. apply Hf.
  - apply alone_bind; [done|]. intros. apply Hf.
  - apply stays_bind; [done|]. intros a. exact (task_flag _ (Hf a)).
  - apply stays_bind; [done|]. intros a. exact (task_stop _ (Hf a)).
Qed.
Lemma polite_mapE {E F A} (f : E -> F) (m : @Task T E A) : polite m -> polite (mapE f m).
Proof. intros []. split; [by apply keeps_mapE|by apply alone_mapE|by apply stays_mapE..]. Qed.
Lemma polite_catch {E F A B} (m : @Task T E A) (k : E + A -> @Task T F B) :
  polite m -> (forall x, polite (k x)) -> polite (catch m k).
Proof.
  intros [] Hk. split.
  - apply keeps_catch; [done|]. intros. apply Hk.
  - apply alone_catch; [done|]. intros. apply Hk.
  - apply stays_catch; [done|]. intros x. exact (task_flag _ (Hk x)).
  - apply stays_catch; [done|]. intros x. exact (task_stop _ (Hk x)).
Qed.
Lemma polite_ignore {E F A} (m : @Task T E A) : polite m -> polite (ignore m : @Task T F unit).
Proof. intros. apply polite_catch; [done|]. intros. apply polite_ret. Qed.

Lemma polite_lock_read {E A} (f : AppState -> A) : polite (lock_read f : @Task T E A).
Proof.
  split; [intros w; apply sync_session| |intros w Hw; by apply sync_flag|intros w Hw; by apply sync_stop]. intros w Hw.
  unfold lock_read. cbn [snd]. by rewrite sync_alone.
Qed.
Lemma polite_lock_update {E} (f : AppState -> AppState) :
  (forall a, operator_part (f a) = operator_part a) -> polite (lock_update f : @Task T E unit).
Proof.
  intros Hf. split; [intros w; apply sync_session| |intros w Hw; by apply sync_flag|intros w Hw; by apply sync_stop]. intros w Hw.
  unfold lock_update. cbn [snd]. rewrite sync_alone by done. cbn [app set_app]. by rewrite Hf.
Qed.
Lemma polite_push_log {E} (e : Z -> DebugLogEntry) : polite (push_log e : @Task T E unit).
Proof.
  split; [intros w; apply sync_session| |intros w Hw; by apply sync_flag|intros w Hw; by apply sync_stop]. intros w Hw.
  unfold push_log. cbn [snd]. by rewrite sync_alone.
Qed.
Lemma polite_broadcast {E} (e : Z -> DebugLogEntry) :
  polite (broadcast_entry e : @Task T E unit).
Proof. by split. Qed.
Lemma polite_set_state_with {E} (f : AppState -> AppState) cs :
  (forall a, operator_part (f a) = operator_part a) ->
  polite (set_state_with f cs : @Task T E unit).
Proof.
  intros Hf. split; [intros w; apply sync_session| |intros w Hw; by apply sync_flag|intros w Hw; by apply sync_stop]. intros w Hw.
  unfold set_state_with. cbn [snd set_connection_state].
  rewrite sync_alone by done. split_and!; [done..|]. apply (Hf (app w)).
Qed.
Lemma polite_set_state {E} cs : polite (set_state cs : @Task T E unit).
Proof. by apply polite_set_state_with. Qed.

(** The steps that leave the modem alone *)
Lemma keeps_modem_push_log {E} (e : Z -> DebugLogEntry) :
  keeps modem (push_log e : @Task T E unit).
Proof. intros w. apply sync_modem. Qed.
Lemma keeps_modem_set_state {E} cs : keeps modem (set_state cs : @Task T E unit).
Proof. intros w. apply sync_modem. Qed.
End Tasks.

(** What only adds to the trace or looks at the flag keeps it coming, too. *)
Section Stops.
Context {T : Type}.

Lemma stops_polite {E A} (m : @Task T E A) : polite m -> stays will_stop m.
Proof. intros Hm w. apply (task_stop _ Hm). Qed.
Lemma stops_task {E A} (m : @Task T E A) : modem_task m -> stays will_stop m.
Proof. intros Hm. apply stops_polite, Hm. Qed.
Lemma stops_act {E} a : stays will_stop (act a : @Task T E unit).
Proof. by intros w Hw. Qed.
Lemma stops_is_aborted {E} : stays will_stop (is_aborted : @Task T E bool).
Proof. intros w Hw. by apply sync_stop. Qed.
Lemma stops_abort {E} : stays will_stop (abort : @Task T E unit).
Proof. intros w Hw. by left. Qed.
End Stops.

Create HintDb polite.
Create HintDb stops.
#[export] Hint Resolve stops_task stops_act stops_is_aborted stops_abort : stops.
#[export] Hint Resolve polite_ret polite_throw polite_diverge polite_gets polite_lift polite_bind
  polite_mapE polite_catch polite_ignore polite_lock_read polite_push_log
  polite_broadcast polite_set_state : polite.
#[export] Hint Resolve keeps_modem_push_log keeps_modem_set_state : keeps.

Lemma total_push_log {T E} (e : Z -> DebugLogEntry) : total (push_log e : @Task T E unit).
Proof. done. Qed.
Lemma total_set_state {T E} cs : total (set_state cs : @Task T E unit).
Proof. done. Qed.
Lemma total_lock_read {T E A} (f : AppState -> A) : total (lock_read f : @Task T E A).
Proof. done. Qed.
#[export] Hint Resolve total_push_log total_set_state total_lock_read : total.

(** Go through a task, a case at a time *)
Ltac polite :=
  repeat first
    [ solve [auto with polite]
    | apply polite_bind; [|intros ?]
    | apply polite_catch; [|intros ?]
    | apply polite_mapE
    | match goal with |- polite (match ?x with _ => _ end) => destruct x end
    | match goal with |- polite (let _ := _ in _) => cbv zeta end ].

Ltac stops :=
  repeat first
    [ solve [auto with stops]
    | solve [apply stops_polite; auto with polite]
    | apply stays_bind; [|intros ?]
    | apply stays_catch; [|intros ?]
    | apply stays_mapE
    | match goal with |- stays _ (match ?x with _ => _ end) => destruct x end
    | match goal with |- stays _ (let _ := _ in _) => cbv zeta end ].

(** Go through a task whose steps all end, a case at a time *)
Ltac total :=
  repeat first
    [ solve [auto with total]
    | apply total_bind; [|intros ?]
    | apply total_catch; [|intros ?]
    | apply total_mapE
    | match goal with |- total (match ?x with _ => _ end) => destruct x end
    | match goal with |- total (let _ := _ in _) => cbv zeta end ].

(** ** What a task does

    [does m R]: from every state [m] ends with a value or an error, and adds to the
    trace a tail that [R] relates to it. *)
Definition does_at {T E A} (w : World T) (m : @Task T E A) (R : E + A -> list Act -> Prop) : Prop :=
  exists tl, trace (m w).2 = trace w ++ tl
  /\ match (m w).1 with
     | Ok a => R (inr a) tl
     | Err e => R (inl e) tl
     | Panic | Spin => False
     end.
Definition does {T E A} (m : @Task T E A) (R : E + A -> list Act -> Prop) : Prop :=
  forall w, does_at w m R.

Definition silently {X E A} (x : E + A) (tl : list X) : Prop := tl = [].
(** First [R1], then, if it gave a value, [R2] of it *)
Definition then_does {X E A B} (R1 : E + A -> list X -> Prop) (R2 : A -> E + B -> list X -> Prop)
    (x : E + B) (tl : list X) : Prop :=
  (exists e, x = inl e /\ R1 (inl e) tl)
  \/ exists a t1 t2, tl = t1 ++ t2 /\ R1 (inr a) t1 /\ R2 a x t2.

Section Does.
Context {T : Type}.

Lemma does_returns {E A} (m : @Task T E A) R w : does_at w m R -> returns (m w).1.
Proof. intros (tl & _ & Hm). by destruct (m w).1. Qed.

Lemma does_mono {E A} (m : @Task T E A) (R R' : E + A -> list Act -> Prop) w :
  does_at w m R -> (forall x tl, R x tl -> R' x tl) -> does_at w m R'.
Proof.
  intros (tl & Ht & Hm) HR. exists tl. split; [done|]. destruct (m w).1; auto.
Qed.

Lemma does_silent {E A} (m : @Task T E A) w :
  returns (m w).1 -> session_part (m w).2 = session_part w -> does_at w m silently.
Proof.
  intros Hr Hs. exists []. injection Hs as _ Hs. rewrite app_nil_r. split; [done|].
  by destruct (m w).1.
Qed.
Lemma does_task {E A} (m : @Task T E A) : modem_task m -> does m silently.
Proof. intros [Ht [Hs _]] w. apply does_silent; [apply Ht|apply Hs]. Qed.
Lemma does_polite {E A} (m : @Task T E A) : total m -> polite m -> does m silently.
Proof. intros. by apply does_task. Qed.

Lemma does_ret {E A} (a : A) : does (mret a : @Task T E A) (fun x tl => x = inr a /\ tl = []).
Proof. intros w. exists []. by rewrite app_nil_r. Qed.
Lemma does_throw {E A} (e : E) : does (throw e : @Task T E A) (fun x tl => x = inl e /\ tl = []).
Proof. intros w. exists []. by rewrite app_nil_r. Qed.
Lemma does_act {E} (a : Act) : does (act a : @Task T E unit) (fun x tl => x = inr tt /\ tl = [a]).
Proof. intros w. by exists [a]. Qed.

Lemma does_bind_at {E A B} w (m : @Task T E A) (f : A -> @Task T E B) R1 R2 :
  does_at w m R1 -> (forall a w', m w = (Ok a, w') -> does_at w' (f a) (R2 a)) ->
  does_at w (m ≫= f) (then_does R1 R2).
Proof.
  intros (tl & Ht & Hm) Hf. unfold does_at. unfold mbind, M_bind.
  destruct (m w) as [[a|e| |] w'] eqn:Em; simpl in *; try done.
  - destruct (Hf a w' eq_refl) as (tl2 & Ht2 & Hm2). exists (tl ++ tl2).
    rewrite Ht2, Ht, app_assoc. split; [done|].
    destruct (f a w').1; try done; right; by exists a, tl, tl2.
  - exists tl. split; [done|]. left. by exists e.
Qed.
Lemma does_bind {E A B} (m : @Task T E A) (f : A -> @Task T E B) R1 R2 :
  does m R1 -> (forall a, does (f a) (R2 a)) -> does (m ≫= f) (then_does R1 R2).
Proof. intros Hm Hf w. apply does_bind_at; [apply Hm|]. intros a w' _. apply Hf. Qed.

(** A silent step first *)
Lemma does_after {E A B} (m : @Task T E A) (f : A -> @Task T E B) (R : E + B -> list Act -> Prop) :
  does m silently -> (forall e, R (inl e) []) -> (forall a, does (f a) R) -> does (m ≫= f) R.
Proof.
  intros Hm He Hf w. eapply does_mono; [apply (does_bind m f silently (fun _ => R)); done|].
  intros x tl [(e & -> & ->)|(a & t1 & t2 & -> & -> & H)]; [apply He|done].
Qed.

Lemma does_mapE {E F A} (g : E -> F) (m : @Task T E A) (R : F + A -> list Act -> Prop) w :
  does_at w m (fun x tl => R (match x with inl e => inl (g e) | inr a => inr a end) tl) ->
  does_at w (mapE g m) R.
Proof.
  intros (tl & Ht & Hm). exists tl. unfold mapE. destruct (m w) as [[a|e| |] w']; done.
Qed.

Lemma does_catch_at {E F A B} w (m : @Task T E A) (k : E + A -> @Task T F B) R1 R2
    (R : F + B -> list Act -> Prop) :
  does_at w m R1 ->
  (forall x w', (match x with inr a => m w = (Ok a, w') | inl e => m w = (Err e, w') end) ->
     does_at w' (k x) (R2 x)) ->
  (forall x y t1 t2, R1 x t1 -> R2 x y t2 -> R y (t1 ++ t2)) ->
  does_at w (catch m k) R.
Proof.
  intros (tl & Ht & Hm) Hk HR. unfold does_at, catch.
  destruct (m w) as [[a|e| |] w'] eqn:Em; simpl in *; try done.
  - destruct (Hk (inr a) w' eq_refl) as (tl2 & Ht2 & Hm2). exists (tl ++ tl2).
    rewrite Ht2, Ht, app_assoc. split; [done|]. destruct (k (inr a) w').1; eauto.
  - destruct (Hk (inl e) w' eq_refl) as (tl2 & Ht2 & Hm2). exists (tl ++ tl2).
    rewrite Ht2, Ht, app_assoc. split; [done|]. destruct (k (inl e) w').1; eauto.
Qed.
End Does.

(** ** Steps that only touch the shared state: they succeed, and leave the modem
    and the trace alone *)
Record mild {T E A} (m : @Task T E A) : Prop := {
  mild_session : keeps session_part m;
  mild_modem : keeps modem m;
  mild_succeeds : succeeds m }.

Section Mild.
Context {T : Type}.

Lemma mild_ret {E A} (a : A) : mild (mret a : @Task T E A).
Proof. split; [done|done|]. intros w. by exists a. Qed.
Lemma mild_lock_read {E A} (f : AppState -> A) : mild (lock_read f : @Task T E A).
Proof.
  split; [intros w; apply sync_session|intros w; apply sync_modem|]. intros w. by eexists.
Qed.
Lemma mild_lock_update {E} (f : AppState -> AppState) : mild (lock_update f : @Task T E unit).
Proof.
  split; [intros w; apply sync_session|intros w; apply sync_modem|]. intros w. by eexists.
Qed.
Lemma mild_is_aborted {E} : mild (is_aborted : @Task T E bool).
Proof.
  split; [intros w; apply sync_session|intros w; apply sync_modem|]. intros w. by eexists.
Qed.
Lemma mild_reset_abort {E} : mild (reset_abort : @Task T E unit).
Proof.
  split; [intros w; apply sync_session|intros w; apply sync_modem|]. intros w. by eexists.
Qed.
Lemma mild_abort {E} : mild (abort : @Task T E unit).
Proof.
  split; [intros w; apply sync_session|intros w; apply sync_modem|]. intros w. by eexists.
Qed.
Lemma mild_push_log {E} e : mild (push_log e : @Task T E unit).
Proof.
  split; [intros w; apply sync_session|intros w; apply sync_modem|]. intros w. by eexists.
Qed.
Lemma mild_broadcast {E} e : mild (broadcast_entry e : @Task T E unit).
Proof. split; [done|done|]. intros w. by eexists. Qed.
Lemma mild_set_state_with {E} f cs : mild (set_state_with f cs : @Task T E unit).
Proof.
  split; [intros w; apply sync_session|intros w; apply sync_modem|]. intros w. by eexists.
Qed.
Lemma mild_set_state {E} cs : mild (set_state cs : @Task T E unit).
Proof. apply mild_set_state_with. Qed.
Lemma mild_gets {E A} (f : World T -> A) : mild (gets f : @Task T E A).
Proof. split; [done|done|]. intros w. by eexists. Qed.

Lemma mild_bind_at {E A B} w (m : @Task T E A) (k : A -> @Task T E B) R :
  mild m ->
  (forall a w', m w = (Ok a, w') -> modem w' = modem w -> does_at w' (k a) R) ->
  does_at w (m ≫= k) R.
Proof.
  intros [Hs Hm Hok] Hk. specialize (Hs w). specialize (Hm w). destruct (Hok w) as [a Ha].
  unfold does_at, mbind, M_bind. destruct (m w) as [r w'] eqn:Em. simpl in *. subst r.
  injection Hs as _ Hs. rewrite <- Hs. by apply Hk.
Qed.

Lemma mild_end {E A} w (m : @Task T E A) (R : E + A -> list Act -> Prop) :
  mild m -> (forall a, R (inr a) []) -> does_at w m R.
Proof.
  intros [Hs Hm Hok] HR. specialize (Hs w). destruct (Hok w) as [a Ha]. exists [].
  injection Hs as _ Hs. by rewrite app_nil_r, Ha.
Qed.

Lemma throw_end {E A} (w : World T) (e : E) (R : E + A -> list Act -> Prop) :
  R (inl e) [] -> does_at w (throw e) R.
Proof. intros HR. exists []. by rewrite app_nil_r. Qed.

Lemma ret_end {E A} (w : World T) (a : A) (R : E + A -> list Act -> Prop) :
  R (inr a) [] -> does_at w (mret a) R.
Proof. intros HR. exists []. by rewrite app_nil_r. Qed.

Lemma act_bind_at {E A} w a (k : unit -> @Task T E A) (R : E + A -> list Act -> Prop) :
  (forall w', modem w' = modem w -> does_at w' (k tt) (fun x tl => R x (a :: tl))) ->
  does_at w (act a ≫= k) R.
Proof.
  intros Hk. destruct (Hk (note a w) eq_refl) as (tl & Ht & Hr). exists (a :: tl).
  unfold mbind, M_bind. cbn [act]. split; [|done]. rewrite Ht. cbn [trace note].
  by rewrite <- app_assoc.
Qed.

(** A task of the modem first *)
Lemma task_bind_at {E A B} w (m : @Task T E A) (k : A -> @Task T E B) (R : E + B -> list Act -> Prop) :
  modem_task m -> (forall e, R (inl e) []) ->
  (forall a w', m w = (Ok a, w') -> does_at w' (k a) R) ->
  does_at w (m ≫= k) R.
Proof.
  intros Hm He Hk. destruct (does_task m Hm w) as (tl & Ht & Hr). unfold does_at, mbind, M_bind.
  destruct (m w) as [[a|e| |] w'] eqn:Em; simpl in *; try done.
  - unfold silently in Hr. subst tl. rewrite app_nil_r in Ht. rewrite <- Ht. by apply Hk.
  - unfold silently in Hr. subst tl. exists []. by split.
Qed.
End Mild.

Create HintDb mild.
#[export] Hint Resolve mild_ret mild_lock_read mild_lock_update mild_is_aborted mild_reset_abort
  mild_abort mild_push_log mild_broadcast mild_set_state_with mild_set_state mild_gets : mild.

(** ** A scripted modem, for concrete runs *)

Module ToyModem.
Abbreviation Script := (list TransportEvent).

Definition scripted_recv (deadline : Z) : @Task Script TransportError TransportEvent := fun w =>
  match modem w with
  | [] => (Err TrTimeout, set_clock (Z.max (clock w) deadline) w)
  | ev :: rest => (Ok ev, set_modem rest w)
  end.

#[export] Instance modem : Transport Script := {|
  connect_modem := fun _ => mret tt;
  disconnect_modem := mret tt;
  open_session := fun _ => mret tt;
  close_session := mret tt;
  send := fun _ => mret tt;
  recv := scripted_recv;
  port_query_supported := fun _ => false;
  open_ax25_link := mret tt;
  reopen_modem_connection := mret tt;
  query_ports := mret tt;
  supply := @length TransportEvent |}.

#[export] Instance modem_laws : TransportLaws Script.
Proof.
  split; intros; cbn; try (by repeat split).
  - split; [|split]; intros w; unfold scripted_recv; by destruct (Transport.modem w).
  - cbn in H. unfold scripted_recv in H. destruct (Transport.modem w) eqn:E; [done|].
    injection H as _ <-. cbn. lia.
Qed.

(** A world at the start of a session, with what the peer will send and the
    operator answer *)
Definition world (stored : option (list byte)) (script : Script) (answers : list (Z * ConsentOutcome))
    : World Script :=
  mkWorld script (put_disclaimer stored (new_state default_config)) false 0 [] [] answers [].
End ToyModem.
