(* ===== verification/AgwpeFrame.v ===== *)
(** * AGWPE frames ([client/src/transport/agwpe.rs], lines 34-232)

    The 36-byte header with its little-endian lengths, the callsign fields,
    and the texts that announce a dead session. *)
From Stdlib Require Import ZArith Lia Strings.Byte.
From stdpp Require Import base decidable list.
From S2P Require Import Prelude Bytes Numbers External Protocol Transport.

Definition MAX_FRAME_DATA_SIZE : Z := 64 * 1024.
Definition HEADER_SIZE : nat := 36.

Inductive FrameType : Type :=
| RegisterCallsign
| RegistrationResponse
| Connect
| Connected
| Disconnect
| SendData
| ConnectionRejected
| QueryPorts
| FtPortInfo.

#[export] Instance FrameType_eq_dec : EqDecision FrameType.
Proof. solve_decision. Defined.

(** [frame_type as u8] *)
Definition frame_code (t : FrameType) : byte :=
  match t with
  | RegisterCallsign => x58
  | RegistrationResponse => x78
  | Connect => x43
  | Connected => x63
  | Disconnect => x64
  | SendData => x44
  | ConnectionRejected => x52
  | QueryPorts => x47
  | FtPortInfo => x67
  end.

(** [{:?}] of a frame type *)
Definition debug_frame_type (t : FrameType) : list byte :=
  match t with
  | RegisterCallsign => bs "RegisterCallsign"
  | RegistrationResponse => bs "RegistrationResponse"
  | Connect => bs "Connect"
  | Connected => bs "Connected"
  | Disconnect => bs "Disconnect"
  | SendData => bs "SendData"
  | ConnectionRejected => bs "ConnectionRejected"
  | QueryPorts => bs "QueryPorts"
  | FtPortInfo => bs "PortInfo"
  end.

(** [{:X}] of one digit, [{:02X}] of a byte, [{:?}] of a byte vector *)
Definition hex_digit (z : Z) : byte := u8_of (if z <? 10 then 48 + z else 55 + z).
Definition hex2 (b : byte) : list byte := [hex_digit (u8 b / 16); hex_digit (u8 b mod 16)].
Fixpoint join (sep : list byte) (l : list (list byte)) : list byte :=
  match l with
  | [] => []
  | [x] => x
  | x :: rest => x ++ sep ++ join sep rest
  end.
Definition debug_bytes (l : list byte) : list byte :=
  bs "[" ++ join (bs ", ") (map (fun b => display (u8 b)) l) ++ bs "]".

(** [FrameType::try_from] *)
Definition frame_type_of (value : byte) : Result AgwpeError FrameType :=
  match value with
  | x58 => Ok RegisterCallsign
  | x78 => Ok RegistrationResponse
  | x43 => Ok Connect
  | x63 => Ok Connected
  | x64 => Ok Disconnect
  | x44 => Ok SendData
  | x52 => Ok ConnectionRejected
  | x47 => Ok QueryPorts
  | x67 => Ok FtPortInfo
  | _ => Err (InvalidFrame (bs "Unknown frame type: 0x" ++ hex2 value))
  end.

Record AgwpeFrame : Type := mkAgwpeFrame {
  port : Z;
  frame_type : FrameType;
  pid : Z;
  call_from : list byte;
  call_to : list byte;
  data_len : Z;
  user_data : Z;
  data : list byte }.

(** [AgwpeFrame::new] *)
Definition new_frame (port : Z) (t : FrameType) (call_from call_to data : list byte) : AgwpeFrame :=
  mkAgwpeFrame port t 0 call_from call_to (as_u32 (Z.of_nat (length data))) 0 data.

(** A callsign field: nine bytes at most, zeros up to ten *)
Definition pack_call (s : list byte) : list byte :=
  let len := Nat.min (length s) 9 in take len s ++ replicate (10 - len) NUL.

(** [AgwpeFrame::encode] *)
Definition encode (f : AgwpeFrame) : list byte :=
  [u8_of (port f)] ++ [NUL; NUL; NUL] ++ [frame_code (frame_type f)] ++ [NUL; NUL; NUL]
  ++ pack_call (call_from f) ++ pack_call (call_to f)
  ++ to_le_bytes (data_len f) ++ to_le_bytes (user_data f) ++ data f.

Definition extract_callsign (bytes : list byte) : Result AgwpeError (list byte) :=
  let len := default (length bytes) (position (Byte.eqb NUL) bytes) in
  ok_or (InvalidFrame (bs "Invalid callsign encoding")) (from_utf8 (take len bytes)).

(** The little-endian integer at an offset *)
Definition read_le (off : nat) (data : list byte) : Result AgwpeError Z :=
  a ← index off data;
  b ← index (off + 1) data;
  c ← index (off + 2) data;
  d ← index (off + 3) data;
  Ok (from_le_bytes a b c d).

(** [AgwpeFrame::decode] *)
Definition decode (bytes : list byte) : Result AgwpeError AgwpeFrame :=
  if (length bytes <? HEADER_SIZE)%nat then Err (InvalidFrame (bs "Frame too short"))
  else
    p ← index 0 bytes;
    k ← index 4 bytes;
    t ← frame_type_of k;
    from ← slice 8 18 bytes;
    call_from ← extract_callsign from;
    to ← slice 18 28 bytes;
    call_to ← extract_callsign to;
    len ← read_le 28 bytes;
    user ← read_le 32 bytes;
    if MAX_FRAME_DATA_SIZE <? len then
      Err (InvalidFrame (bs "Frame data_len " ++ display len ++ bs " exceeds maximum "
                         ++ display MAX_FRAME_DATA_SIZE))
    else if (length bytes <? HEADER_SIZE + Z.to_nat len)%nat then
      Err (InvalidFrame (bs "Frame data truncated"))
    else
      payload ← slice HEADER_SIZE (HEADER_SIZE + Z.to_nat len) bytes;
      Ok (mkAgwpeFrame (u8 p) t 0 call_from call_to len user payload).

(** [is_session_dead_payload]; [contains_slice] is [contains] for the
    non-empty needles used *)
Definition is_session_dead_payload (d : list byte) : bool :=
  contains (bs "*** DISCONNECTED") d || contains (bs "Returned to Node") d.

(** The front of the read buffer in [read_frame_from_stream]: a complete frame and
    its length, or none yet *)
Definition take_frame (buf : list byte) : Result AgwpeError (option (AgwpeFrame * nat)) :=
  if (HEADER_SIZE <=? length buf)%nat then
    len ← read_le 28 buf;
    if MAX_FRAME_DATA_SIZE <? len then
      Err (InvalidFrame (bs "Peer announced frame data_len " ++ display len
                         ++ bs " exceeds maximum " ++ display MAX_FRAME_DATA_SIZE))
    else
      let total := (HEADER_SIZE + Z.to_nat len)%nat in
      if (total <=? length buf)%nat then
        piece ← slice 0 total buf;
        f ← decode piece;
        Ok (Some (f, total))
      else Ok None
  else Ok None.

(** ** Round trip *)

Definition call_wf (s : list byte) : Prop :=
  (length s <= 9)%nat /\ no_byte NUL s = true /\ utf8_valid s = true.

(** A frame the client builds or a modem sends *)
Definition frame_wf (f : AgwpeFrame) : Prop :=
  0 <= port f < 256 /\ pid f = 0 /\ call_wf (call_from f) /\ call_wf (call_to f)
  /\ data_len f = Z.of_nat (length (data f)) /\ data_len f <= MAX_FRAME_DATA_SIZE
  /\ 0 <= user_data f < 2 ^ 32.

Lemma frame_type_roundtrip t : frame_type_of (frame_code t) = Ok t.
Proof. by destruct t. Qed.

Lemma pack_call_length s : length (pack_call s) = 10%nat.
Proof. unfold pack_call. rewrite length_app, length_take, length_replicate. lia. Qed.

Lemma extract_pack s : call_wf s -> extract_callsign (pack_call s) = Ok s.
Proof.
  intros (Hl & Hn & Hu). unfold pack_call.
  rewrite Nat.min_l, take_ge by lia.
  replace (10 - length s)%nat with (S (9 - length s)) by lia. cbn [replicate].
  unfold extract_callsign.
  rewrite (position_app_first (Byte.eqb NUL) s NUL _) by done.
  cbn [default from_option id]. rewrite take_app_le, take_ge by lia.
  unfold from_utf8. by rewrite Hu.
Qed.

(** The fixed fields of an encoded frame, and its total length *)
Definition fixed (f : AgwpeFrame) : list byte :=
  [u8_of (port f); NUL; NUL; NUL; frame_code (frame_type f); NUL; NUL; NUL].
Definition header (f : AgwpeFrame) : list byte :=
  fixed f ++ pack_call (call_from f) ++ pack_call (call_to f)
  ++ to_le_bytes (data_len f) ++ to_le_bytes (user_data f).

Lemma to_le_bytes_length z : length (to_le_bytes z) = 4%nat.
Proof. done. Qed.

Lemma header_length f : length (header f) = HEADER_SIZE.
Proof. unfold header. by rewrite !length_app, !pack_call_length. Qed.

Lemma encode_header f : encode f = header f ++ data f.
Proof. unfold encode, header. by rewrite <- !app_assoc. Qed.

Lemma encode_length f : length (encode f) = (HEADER_SIZE + length (data f))%nat.
Proof. by rewrite encode_header, length_app, header_length. Qed.

Lemma read_le_spec off bytes z pre post :
  bytes = pre ++ to_le_bytes z ++ post -> length pre = off -> 0 <= z < 2 ^ 32 ->
  read_le off bytes = Ok z.
Proof.
  intros -> <- Hz.
  assert (Hi : forall k x, (to_le_bytes z ++ post) !! k = Some x ->
    index (E:=AgwpeError) (length pre + k) (pre ++ to_le_bytes z ++ post) = Ok x).
  { intros k x Hk. unfold index. rewrite lookup_app_r by lia.
    replace (length pre + k - length pre)%nat with k by lia. by rewrite Hk. }
  unfold read_le. rewrite <- (Nat.add_0_r (length pre)) at 1.
  rewrite (Hi 0%nat (u8_of z)) by done. cbn [mbind Result_bind].
  rewrite (Hi 1%nat (u8_of (Z.shiftr z 8))) by done. cbn [mbind Result_bind].
  rewrite (Hi 2%nat (u8_of (Z.shiftr z 16))) by done. cbn [mbind Result_bind].
  rewrite (Hi 3%nat (u8_of (Z.shiftr z 24))) by done. cbn [mbind Result_bind].
  unfold from_le_bytes. f_equal. by apply be_bytes_roundtrip.
Qed.

Lemma data_len_range f : frame_wf f -> 0 <= data_len f < 2 ^ 32.
Proof. intros (_ & _ & _ & _ & Hl & Hm & _). unfold MAX_FRAME_DATA_SIZE in Hm. lia. Qed.

Lemma read_data_len f rest : frame_wf f -> read_le 28 (encode f ++ rest) = Ok (data_len f).
Proof.
  intros Hf. eapply (read_le_spec 28 _ (data_len f)
    (fixed f ++ pack_call (call_from f) ++ pack_call (call_to f))).
  - rewrite encode_header. unfold header. by rewrite <- !app_assoc.
  - by rewrite !length_app, !pack_call_length.
  - by apply data_len_range.
Qed.

Lemma read_user_data f rest : frame_wf f -> read_le 32 (encode f ++ rest) = Ok (user_data f).
Proof.
  intros Hf. eapply (read_le_spec 32 _ (user_data f)
    (fixed f ++ pack_call (call_from f) ++ pack_call (call_to f) ++ to_le_bytes (data_len f))).
  - rewrite encode_header. unfold header. by rewrite <- !app_assoc.
  - by rewrite !length_app, !pack_call_length.
  - apply Hf.
Qed.

Lemma decode_encode f rest : frame_wf f -> decode (encode f ++ rest) = Ok f.
Proof.
  intros Hf. pose proof (read_data_len f rest Hf) as Hlen.
  pose proof (read_user_data f rest Hf) as Huser.
  destruct Hf as (Hp & Hpid & Hfrom & Hto & Hl & Hm & Hu). unfold decode.
  rewrite length_app, encode_length.
  rewrite (proj2 (Nat.ltb_ge _ _)) by lia.
  change (index 0 (encode f ++ rest)) with (@Ok AgwpeError byte (u8_of (port f))).
  change (index 4 (encode f ++ rest)) with (@Ok AgwpeError byte (frame_code (frame_type f))).
  cbn [mbind Result_bind]. rewrite frame_type_roundtrip. cbn [mbind Result_bind].
  assert (Hs1 : slice (E:=AgwpeError) 8 18 (encode f ++ rest) = Ok (pack_call (call_from f))).
  { rewrite encode_header. unfold header. rewrite <- !app_assoc.
    apply (slice_mid_eq 8 18 (fixed f)); by rewrite ?pack_call_length. }
  assert (Hs2 : slice (E:=AgwpeError) 18 28 (encode f ++ rest) = Ok (pack_call (call_to f))).
  { rewrite encode_header. unfold header. rewrite <- !app_assoc, (app_assoc (fixed f)).
    apply (slice_mid_eq 18 28 (fixed f ++ pack_call (call_from f)));
      by rewrite ?length_app, ?pack_call_length. }
  rewrite Hs1, Hs2. cbn [mbind Result_bind]. rewrite !extract_pack by done.
  cbn [mbind Result_bind]. rewrite Hlen, Huser. cbn [mbind Result_bind].
  rewrite (proj2 (Z.ltb_ge _ _)) by lia.
  rewrite Hl, Nat2Z.id, (proj2 (Nat.ltb_ge _ _)) by lia.
  rewrite encode_header, <- app_assoc, slice_mid_eq by (by rewrite ?header_length).
  cbn [mbind Result_bind]. rewrite u8_u8_of, Z.mod_small by done.
  destruct f; simpl in *; congruence.
Qed.

(** ** The read buffer *)

(** A complete frame at the front is taken, whatever follows *)
Lemma take_frame_encode f rest :
  frame_wf f -> take_frame (encode f ++ rest) = Ok (Some (f, length (encode f))).
Proof.
  intros Hf. unfold take_frame. rewrite length_app, encode_length.
  rewrite (proj2 (Nat.leb_le _ _)) by lia.
  rewrite read_data_len by done. cbn [mbind Result_bind].
  pose proof Hf as (_ & _ & _ & _ & Hl & Hm & _).
  rewrite (proj2 (Z.ltb_ge _ _)) by lia. rewrite Hl, Nat2Z.id.
  rewrite (proj2 (Nat.leb_le _ _)) by lia.
  rewrite <- encode_length, slice_ok by (rewrite ?length_app; lia).
  cbn [mbind Result_bind]. rewrite drop_0, Nat.sub_0_r, take_app_length.
  rewrite <- (app_nil_r (encode f)) at 1. by rewrite decode_encode.
Qed.

(** A frame that has not all arrived is waited for *)
Lemma take_frame_partial f buf more rest :
  frame_wf f -> buf ++ more = encode f ++ rest -> (length buf < length (encode f))%nat ->
  take_frame buf = Ok None.
Proof.
  intros Hf Heq Hlt. unfold take_frame.
  destruct (Nat.leb_spec HEADER_SIZE (length buf)) as [Hle|]; [|done].
  destruct (take_app_prefix _ _ _ _ Heq) as (e & He & _); [lia|].
  assert (Hlen : read_le 28 buf = Ok (data_len f)).
  { pose proof (read_data_len f [] Hf) as Hr. rewrite app_nil_r, He in Hr.
    unfold read_le in *. unfold HEADER_SIZE in Hle. by rewrite !index_app in Hr by lia. }
  rewrite Hlen. cbn [mbind Result_bind]. pose proof Hf as (_ & _ & _ & _ & Hl & Hm & _).
  rewrite (proj2 (Z.ltb_ge _ _)) by lia. rewrite Hl, Nat2Z.id, <- encode_length.
  by rewrite (proj2 (Nat.leb_gt _ _)).
Qed.

Lemma read_le_returns off bytes : (off + 4 <= length bytes)%nat -> exists z, read_le off bytes = Ok z.
Proof.
  intros H. unfold read_le.
  destruct (index_lt (E:=AgwpeError) off bytes) as (a & _ & ->); [lia|].
  destruct (index_lt (E:=AgwpeError) (off + 1) bytes) as (b & _ & ->); [lia|].
  destruct (index_lt (E:=AgwpeError) (off + 2) bytes) as (c & _ & ->); [lia|].
  destruct (index_lt (E:=AgwpeError) (off + 3) bytes) as (d & _ & ->); [lia|].
  cbn. eauto.
Qed.

Lemma extract_callsign_returns l : returns (extract_callsign l).
Proof. apply returns_ok_or. Qed.

Lemma decode_returns bytes : returns (decode bytes).
Proof.
  unfold decode. destruct (Nat.ltb_spec (length bytes) HEADER_SIZE) as [|Hl]; [done|].
  unfold HEADER_SIZE in Hl.
  destruct (index_lt (E:=AgwpeError) 0 bytes) as (p & _ & ->); [lia|].
  destruct (index_lt (E:=AgwpeError) 4 bytes) as (k & _ & ->); [lia|].
  cbn [mbind Result_bind]. apply returns_bind; [by destruct k|]. intros t _.
  rewrite (slice_ok 8 18) by lia. cbn [mbind Result_bind].
  apply returns_bind; [apply extract_callsign_returns|]. intros cf _.
  rewrite (slice_ok 18 28) by lia. cbn [mbind Result_bind].
  apply returns_bind; [apply extract_callsign_returns|]. intros ct _.
  destruct (read_le_returns 28 bytes) as [len ->]; [lia|].
  destruct (read_le_returns 32 bytes) as [user ->]; [lia|]. cbn [mbind Result_bind].
  destruct (_ <? len); [done|]. destruct (Nat.ltb_spec (length bytes) (HEADER_SIZE + Z.to_nat len));
    [done|]. by rewrite slice_ok by lia.
Qed.

Lemma take_frame_returns buf : returns (take_frame buf).
Proof.
  unfold take_frame. destruct (Nat.leb_spec HEADER_SIZE (length buf)) as [Hl|]; [|done].
  unfold HEADER_SIZE in Hl. destruct (read_le_returns 28 buf) as [len ->]; [lia|].
  cbn [mbind Result_bind]. destruct (_ <? len); [done|].
  destruct (Nat.leb_spec (HEADER_SIZE + Z.to_nat len) (length buf)); [|done].
  rewrite slice_ok by lia. cbn [mbind Result_bind].
  apply returns_bind; [apply decode_returns|]. done.
Qed.

(** A frame taken uses up at least a header, and no more than is there *)
Lemma take_frame_bounds buf f n :
  take_frame buf = Ok (Some (f, n)) -> (HEADER_SIZE <= n <= length buf)%nat.
Proof.
  unfold take_frame. destruct (_ <=? length buf)%nat; [|done].
  destruct (read_le 28 buf) as [len| | |]; [|done..]. cbn [mbind Result_bind].
  destruct (_ <? len); [done|].
  destruct (Nat.leb_spec (HEADER_SIZE + Z.to_nat len) (length buf)); [|done].
  destruct (slice _ _ buf) as [piece| | |]; [|done..]. cbn [mbind Result_bind].
  destruct (decode piece); [|done..]. unfold HEADER_SIZE in *. cbn. intros [= _ <-]. lia.
Qed.

(** Every frame survives encoding and decoding, whatever bytes follow it;
    no input, however malformed, makes the decoder panic. *)
Theorem frame_roundtrip f rest :
  frame_wf f -> decode (encode f ++ rest) = Ok f /\ forall bytes, returns (decode bytes).
Proof. split; [by apply decode_encode|apply decode_returns]. Qed.

Lemma frame_roundtrip_witness :
  let f := new_frame 1 SendData (bs "N0CALL-1") (bs "N0CALL-8") (bs "GET http://a/") in
  decode (encode f ++ [x00; xff]) = Ok f.
Proof.
  intros f. apply (frame_roundtrip f [x00; xff]). unfold frame_wf, call_wf, MAX_FRAME_DATA_SIZE.
  split_and!; try reflexivity; try (vm_compute; discriminate); vm_compute; lia.
Defined.

(** ** Session-death texts *)

Section Death.
Context `{Base64Laws}.

Lemma contains_infix n a b c : contains n b = true -> contains n (a ++ b ++ c) = true.
Proof.
  rewrite !contains_spec. intros (x & y & ->). exists (a ++ x), (y ++ c).
  by rewrite <- !app_assoc.
Qed.

Definition not_byte (c b : byte) : bool := negb (Byte.eqb b c).

Lemma contains_needs c n l :
  forallb (not_byte c) l = true -> forallb (not_byte c) n = false -> contains n l = false.
Proof.
  intros Hl Hn. apply not_true_is_false. rewrite contains_spec. intros (a & b & ->).
  rewrite !forallb_app in Hl. rewrite Hn in Hl. by destruct (forallb _ a).
Qed.

Lemma response_fields_not c r :
  response_wf r ->
  (forall b, in_range 0x2d 0x39 b || is_alnum b || b64url_char b || b64_char b = true ->
     not_byte c b = true) ->
  forallb (not_byte c) (display (Z.of_nat (length (b64_encode (payload r))))) = true
  /\ forallb (not_byte c) (etag r) = true
  /\ forallb (not_byte c) (display (max_age r)) = true
  /\ forallb (not_byte c) (b64_encode (payload r)) = true
  /\ not_byte c (status_digit (status r)) = true.
Proof.
  intros (Hv & _) Hc. split_and!.
  - eapply forallb_imp; [|apply display_ascii]. intros x Hx. apply Hc. by rewrite Hx.
  - unfold valid_etag in Hv. apply orb_true_iff in Hv as [Hv|Hv].
    + apply bool_decide_eq_true in Hv as ->. cbn. by rewrite Hc.
    + apply andb_true_iff in Hv as [_ Hv]. eapply forallb_imp; [|exact Hv].
      intros x Hx. apply Hc. unfold b64url_char.
      change (is_alnum x || Byte.eqb x x2d || Byte.eqb x x5f = true) in Hx.
      rewrite Hx. by rewrite orb_true_r.
  - eapply forallb_imp; [|apply display_ascii]. intros x Hx. apply Hc. by rewrite Hx.
  - eapply forallb_imp; [|apply b64_alphabet]. intros x Hx. apply Hc. by rewrite Hx, orb_true_r.
  - apply Hc. by destruct (status r).
Qed.

Lemma response_no_star r : response_wf r -> forallb (not_byte x2a) (encode_response r) = true.
Proof.
  intros Hr. destruct (response_fields_not x2a r Hr) as (H1' & H2' & H3' & H4' & H5');
    [by intros []|].
  unfold encode_response. rewrite !forallb_app, H1', H2', H3', H4'. cbn [forallb]. by rewrite H5'.
Qed.

Lemma split_on_sep c a b :
  forallb (not_byte c) a = true -> split_on c (a ++ [c] ++ b) = a :: split_on c b.
Proof. apply split_on_app. Qed.

(** The pieces of a response between its spaces *)
Lemma response_pieces r :
  response_wf r ->
  split_on SP (encode_response r)
  = [MAGIC ++ [status_digit (status r)]; display (Z.of_nat (length (b64_encode (payload r))));
     etag r; display (max_age r) ++ [LF] ++ b64_encode (payload r) ++ [LF]].
Proof.
  intros Hr. destruct (response_fields_not SP r Hr) as (H1' & H2' & H3' & H4' & H5');
    [by intros []|].
  unfold encode_response. rewrite (app_assoc MAGIC).
  rewrite (split_on_sep SP (MAGIC ++ [status_digit (status r)]))
    by (rewrite forallb_app; cbn [forallb]; by rewrite H5').
  rewrite !split_on_sep by done.
  rewrite split_on_none; [done|].
  change (forallb (not_byte SP) (display (max_age r) ++ [LF] ++ b64_encode (payload r) ++ [LF]) = true).
  by rewrite !forallb_app, H3', H4'.
Qed.

Lemma response_no_node r :
  response_wf r -> contains (bs "Returned to Node") (encode_response r) = false.
Proof.
  intros Hr. apply not_true_is_false. rewrite contains_spec. intros (a & b & Heq).
  pose proof (response_pieces r Hr) as Hp. rewrite Heq in Hp.
  change (bs "Returned to Node") with (bs "Returned" ++ SP :: bs "to" ++ SP :: bs "Node") in Hp.
  replace (a ++ (bs "Returned" ++ SP :: bs "to" ++ SP :: bs "Node") ++ b)
    with ((a ++ bs "Returned") ++ SP :: (bs "to" ++ SP :: (bs "Node" ++ b))) in Hp
    by (by rewrite <- !app_assoc).
  rewrite split_on_cat, split_on_app in Hp by done.
  pose proof (split_on_nonempty SP (a ++ bs "Returned")) as Hl.
  pose proof (split_on_nonempty SP (bs "Node" ++ b)) as Hr'.
  destruct (split_on SP (a ++ bs "Returned")) as [|p0 [|p1 [|p2 l]]]; [done|..].
  - injection Hp as _ Hto _. pose proof (display_ascii (Z.of_nat (length (b64_encode (payload r))))) as Hd.
    by rewrite <- Hto in Hd.
  - injection Hp as _ _ Hto _. destruct Hr as [Hv _]. by rewrite <- Hto in Hv.
  - apply (f_equal length) in Hp. rewrite length_app in Hp.
    destruct (split_on SP (bs "Node" ++ b)) as [|p3 l']; [done|]. cbn [length] in Hp. lia.
Qed.

(** No part of an encoded response is taken for the end of the session: the
    texts that a node sends when it closes the link cannot occur in one. *)
Theorem response_not_session_death r before part after :
  response_wf r -> encode_response r = before ++ part ++ after ->
  is_session_dead_payload part = false.
Proof.
  intros Hr Heq. unfold is_session_dead_payload. apply orb_false_iff. split.
  - apply not_true_is_false. intros Hc. apply (contains_infix _ before part after) in Hc.
    rewrite <- Heq in Hc. rewrite (contains_needs x2a) in Hc; [done| |done].
    by apply response_no_star.
  - apply not_true_is_false. intros Hc. apply (contains_infix _ before part after) in Hc.
    rewrite <- Heq in Hc. by rewrite response_no_node in Hc.
Qed.
End Death.

Lemma response_not_session_death_witness :
  let r := mkResponse Status.Ok (bs "-") 0 (bs "Returned to Node") in
  is_session_dead_payload (encode_response r) = false.
Proof.
  intros r. apply (@response_not_session_death rfc4648 rfc4648_laws r [] _ []).
  - unfold response_wf, i32_min, i32_max, u32_max. split; [done|]. vm_compute. by repeat split.
  - by rewrite app_nil_r.
Defined.
