(* ===== verification/Agwpe.v ===== *)
(** * The AGWPE modem ([AgwpeTransport] of [client/src/transport/agwpe.rs])

    The TCP stream to the modem is the list of what its reads will report,
    each with the time it does, and of what its writes will; what is written
    is appended to [wire]. *)
From Stdlib Require Import ZArith Lia Strings.Byte.
From stdpp Require Import base decidable list.
From S2P Require Import Prelude Bytes Numbers TransportTypes ClientConfig ClientState.
From S2P Require Import Transport AgwpeFrame.

Inductive ReadEvent : Type :=
| RdData (d : list byte)
| RdError (msg : list byte).

Record Stream : Type := mkStream {
  incoming : list (Z * ReadEvent);
  (** the error of the next writes, if they fail *)
  writes : list (option (list byte)) }.

Record AgwpeTransport : Type := mkAgwpeTransport {
  stream : option Stream;
  read_buf : list byte;
  my_call : list byte;
  peer_call : list byte;
  radio_port : Z;
  (** [attach_state] has been called *)
  attached : bool;
  (** the outcomes of the next TCP connections *)
  connects : list (list byte + Stream);
  wire : list (list byte) }.

Definition set_stream (s : option Stream) (t : AgwpeTransport) : AgwpeTransport :=
  mkAgwpeTransport s (read_buf t) (my_call t) (peer_call t) (radio_port t) (attached t)
    (connects t) (wire t).
Definition set_read_buf (b : list byte) (t : AgwpeTransport) : AgwpeTransport :=
  mkAgwpeTransport (stream t) b (my_call t) (peer_call t) (radio_port t) (attached t)
    (connects t) (wire t).
Definition set_my_call (c : list byte) (t : AgwpeTransport) : AgwpeTransport :=
  mkAgwpeTransport (stream t) (read_buf t) c (peer_call t) (radio_port t) (attached t)
    (connects t) (wire t).
Definition set_peer (c : SessionConfig) (t : AgwpeTransport) : AgwpeTransport :=
  mkAgwpeTransport (stream t) (read_buf t) (local_callsign c) (remote_callsign c)
    (sess_agwpe_port c) (attached t) (connects t) (wire t).
Definition set_connects (c : list (list byte + Stream)) (t : AgwpeTransport) : AgwpeTransport :=
  mkAgwpeTransport (stream t) (read_buf t) (my_call t) (peer_call t) (radio_port t) (attached t)
    c (wire t).
Definition add_wire (b : list byte) (t : AgwpeTransport) : AgwpeTransport :=
  mkAgwpeTransport (stream t) (read_buf t) (my_call t) (peer_call t) (radio_port t) (attached t)
    (connects t) (wire t ++ [b]).
(** [AgwpeTransport::new], with the network it will meet, and [attach_state] *)
Definition new_transport (net : list (list byte + Stream)) : AgwpeTransport :=
  mkAgwpeTransport None [] [] [] 0 false net [].
Definition attach_state (t : AgwpeTransport) : AgwpeTransport :=
  mkAgwpeTransport (stream t) (read_buf t) (my_call t) (peer_call t) (radio_port t) true
    (connects t) (wire t).

Abbreviation Agw := (@Task AgwpeTransport AgwpeError).

Definition update {E} (f : AgwpeTransport -> AgwpeTransport) : @Task AgwpeTransport E unit :=
  modify (fun w => set_modem (f (modem w)) w).
Definition this {E A} (f : AgwpeTransport -> A) : @Task AgwpeTransport E A :=
  gets (fun w => f (modem w)).

Definition is_connected (t : AgwpeTransport) : bool := bool_decide (is_Some (stream t)).

Definition log_to {E} (e : Z -> DebugLogEntry) : @Task AgwpeTransport E unit :=
  a ← this attached; if (a : bool) then push_log e else mret tt.
Definition state_to {E} (cs : ConnectionState) : @Task AgwpeTransport E unit :=
  a ← this attached; if (a : bool) then set_state cs else mret tt.

(** ** The stream *)

(** [stream.write_all(..)] *)
Definition write_all (bytes : list byte) : @Task AgwpeTransport (list byte) unit := fun w =>
  let t := modem w in
  match stream t with
  | None => (Panic, w)
  | Some s =>
      match writes s with
      | [] => (Ok tt, set_modem (add_wire bytes t) w)
      | None :: ws =>
          (Ok tt, set_modem (add_wire bytes (set_stream (Some (mkStream (incoming s) ws)) t)) w)
      | Some e :: ws => (Err e, set_modem (set_stream (Some (mkStream (incoming s) ws)) t) w)
      end
  end.

(** [send_frame_internal]; flushing a TCP stream does nothing *)
Definition send_frame_internal (f : AgwpeFrame) : Agw unit :=
  up ← this is_connected;
  if negb up then throw AgNotConnected else mapE AgIo (write_all (encode f)).

(** [let mut tmp = [0u8; 4096]] *)
Definition READ_SIZE : nat := 4096.

(** One read of at most 4096 bytes under a timeout; [None] when the deadline comes
    first *)
Definition read_chunk (deadline : Z) : Agw (option (list byte)) := fun w =>
  let t := modem w in
  match stream t with
  | None => (Err AgNotConnected, w)
  | Some s =>
      match incoming s with
      | [] => (Ok None, set_clock (Z.max (clock w) deadline) w)
      | (at_time, ev) :: rest =>
          if at_time <? deadline then
            let w' := set_clock (Z.max (clock w) at_time) w in
            match ev with
            | RdError e =>
                (Err (AgIo e), set_modem (set_stream (Some (mkStream rest (writes s))) t) w')
            | RdData d =>
                let rest' := match drop READ_SIZE d with [] => rest | d' => (at_time, RdData d') :: rest end in
                (Ok (Some (take READ_SIZE d)),
                 set_modem (set_stream (Some (mkStream rest' (writes s))) t) w')
            end
          else (Ok None, set_clock (Z.max (clock w) deadline) w)
      end
  end.

(** The loop of [read_frame_from_stream] under a timeout *)
Fixpoint read_frame_loop (fuel : nat) (deadline : Z) : Agw (option AgwpeFrame) :=
  match fuel with
  | O => diverge
  | S k =>
      buf ← this read_buf;
      r ← lift (take_frame buf);
      match r with
      | Some (f, total) =>
          _ ← update (set_read_buf (drop total buf));
          mret (Some f)
      | None =>
          c ← read_chunk deadline;
          match c with
          | None => mret None
          | Some [] => throw (ConnectionFailed (bs "Connection closed"))
          | Some d =>
              _ ← update (fun t => set_read_buf (read_buf t ++ d) t);
              read_frame_loop k deadline
          end
      end
  end.

Definition event_size (e : Z * ReadEvent) : nat :=
  match e.2 with RdData d => S (length d) | RdError _ => 1 end.
Definition incoming_size (t : AgwpeTransport) : nat :=
  match stream t with Some s => sum_list_with event_size (incoming s) | None => 0 end.
(** What is left to receive: buffered bytes and events *)
Definition pending_size (t : AgwpeTransport) : nat := length (read_buf t) + incoming_size t.

Definition read_frame_from_stream (deadline : Z) : Agw (option AgwpeFrame) :=
  n ← this incoming_size; read_frame_loop (S n) deadline.

Definition or_timeout (r : option AgwpeFrame) : Agw AgwpeFrame :=
  match r with Some f => mret f | None => throw AgTimeout end.
Definition read_frame_with_timeout_deadline (deadline : Z) : Agw AgwpeFrame :=
  now ← gets clock;
  if deadline <=? now then throw AgTimeout
  else r ← read_frame_from_stream deadline; or_timeout r.
Definition read_frame_with_timeout (secs : Z) : Agw AgwpeFrame :=
  now ← gets clock; r ← read_frame_from_stream (now + secs * 1000); or_timeout r.

(** ** Connecting and registering *)

Definition tcp_connect : @Task AgwpeTransport (list byte) Stream := fun w =>
  let t := modem w in
  match connects t with
  | [] => (Err [], w)
  | inl e :: rest => (Err e, set_modem (set_connects rest t) w)
  | inr s :: rest => (Ok s, set_modem (set_connects rest t) w)
  end.

Definition unexpected_registration (f : AgwpeFrame) : list byte :=
  bs "Unexpected response to registration: " ++ debug_frame_type (frame_type f)
  ++ bs " (port=" ++ display (port f) ++ bs ", call_from=" ++ call_from f
  ++ bs ", call_to=" ++ call_to f ++ bs ", data=" ++ debug_bytes (data f) ++ bs ")".

Definition connect_modem_internal (host : list byte) (tcp_port : Z) (callsign : list byte)
    : Agw unit :=
  _ ← log_to (info (bs "AGWPE")
        (bs "Connecting to AGWPE at " ++ host ++ bs ":" ++ display tcp_port));
  catch tcp_connect (fun r =>
    match r with
    | inl e =>
        let msg := bs "TCP connection failed: " ++ e in
        _ ← log_to (info (bs "ERROR") msg);
        _ ← state_to (CsError msg);
        throw (ConnectionFailed msg)
    | inr s =>
        _ ← log_to (info (bs "AGWPE") (bs "TCP connection established"));
        _ ← update (fun t => set_read_buf [] (set_my_call callsign (set_stream (Some s) t)));
        _ ← log_to (tx (debug (bs "AGWPE") (bs "Sending registration for " ++ callsign)));
        catch (write_all (encode (new_frame 0 RegisterCallsign callsign [] []))) (fun sent =>
          match sent with
          | inl e =>
              let msg := bs "Registration send failed: " ++ e in
              _ ← update (set_stream None);
              _ ← state_to (CsError msg);
              throw (RegistrationFailed msg)
          | inr _ =>
              catch (read_frame_with_timeout 5) (fun r =>
                match r with
                | inr f =>
                    if bool_decide (frame_type f = RegisterCallsign)
                       && bool_decide (data f = [x01]) then
                      _ ← log_to (rx (debug (bs "AGWPE") (bs "Registration successful")));
                      state_to AgwpeConnected
                    else
                      let msg := unexpected_registration f in
                      _ ← update (set_stream None);
                      _ ← log_to (debug (bs "AGWPE") msg);
                      _ ← state_to (CsError msg);
                      throw (RegistrationFailed msg)
                | inl e =>
                    let msg := bs "Registration timeout: " ++ display_agwpe_error e in
                    _ ← update (set_stream None);
                    _ ← state_to (CsError msg);
                    throw (RegistrationFailed msg)
                end)
          end)
    end).

(** ** Ports *)

(** The ports of the answer, from the names after the count *)
Fixpoint list_ports (i : nat) (names : list (list byte)) : list PortInfo :=
  match names with
  | [] => []
  | [] :: rest => list_ports (S i) rest
  | name :: rest => mkPortInfo (Z.of_nat i mod 256) name :: list_ports (S i) rest
  end.
Fixpoint log_ports (i : nat) (names : list (list byte)) : Agw unit :=
  match names with
  | [] => mret tt
  | [] :: rest => log_ports (S i) rest
  | name :: rest =>
      _ ← log_to (rx (debug (bs "AGWPE")
            (bs "Port " ++ display (Z.of_nat i) ++ bs ": " ++ name)));
      log_ports (S i) rest
  end.
Definition port_names (answer : list byte) : list (list byte) :=
  let text := trim_end_matches (Byte.eqb NUL) (from_utf8_lossy answer) in
  match split_on x3b text with
  | count :: (_ :: _) as names =>
      match parse_unsigned u64_max count with Some _ => tail names | None => [] end
  | _ => []
  end.

Fixpoint query_loop (fuel : nat) : Agw (list PortInfo) :=
  match fuel with
  | O => diverge
  | S k =>
      f ← read_frame_with_timeout 5;
      _ ← log_to (rx (debug (bs "AGWPE")
            (bs "Port query response: frame_type=" ++ debug_frame_type (frame_type f)
             ++ bs ", data_len=" ++ display (data_len f) ++ bs ", data=" ++ debug_bytes (data f))));
      if bool_decide (frame_type f = QueryPorts) || bool_decide (frame_type f = FtPortInfo) then
        if data_len f =? 0 then mret []
        else if bool_decide (data f = []) then mret []
        else
          let names := port_names (data f) in
          _ ← log_ports 0 names;
          mret (list_ports 0 names)
      else query_loop k
  end.

Definition query_ports_internal : Agw unit :=
  up ← this is_connected;
  if negb up then throw AgNotConnected
  else
    call ← this my_call;
    _ ← log_to (tx (debug (bs "AGWPE") (bs "Querying ports")));
    _ ← send_frame_internal (new_frame 0 QueryPorts call [] []);
    n ← this pending_size;
    ports ← query_loop (S n);
    _ ← log_to (info (bs "AGWPE")
          (bs "Discovered " ++ display (Z.of_nat (length ports)) ++ bs " port(s)"));
    a ← this attached;
    if (a : bool) then lock_update (set_ports ports) else mret tt.

(** ** Tearing the link down *)

Fixpoint drain_loop (fuel : nat) (deadline : Z) : Agw unit :=
  match fuel with
  | O => diverge
  | S k =>
      catch (read_frame_from_stream deadline) (fun r =>
        match r with
        | inr (Some f) =>
            if bool_decide (frame_type f = Disconnect) then
              log_to (rx (debug (bs "PROTOCOL") (bs "Received AX.25 disconnect confirmation")))
            else drain_loop k deadline
        | _ => mret tt
        end)
  end.

Definition send_disconnect_and_drain : Agw unit :=
  t ← this id;
  let disc := new_frame (radio_port t) Disconnect (my_call t) (peer_call t) [] in
  _ ← log_to (tx (info (bs "PROTOCOL") (bs "AX.25 disconnect (AGWPE 'd')")));
  up ← this is_connected;
  if negb up then mret tt
  else
    _ ← ignore (send_frame_internal disc);
    now ← gets clock;
    n ← this pending_size;
    drain_loop (S n) (now + 3 * 1000).

(** ** The trait *)

(** [agwpe_to_transport_err] *)
Definition agwpe_to_transport_err (e : AgwpeError) : TransportError :=
  match e with
  | AgTimeout => TrTimeout
  | AgNotConnected => NotConnected
  | AgIo m => TrIo m
  | other => ModemError (display_agwpe_error other)
  end.

Abbreviation Trait := (@Task AgwpeTransport TransportError).

Definition agwpe_disconnect_modem : Trait unit :=
  _ ← update (fun t => set_read_buf [] (set_stream None t));
  a ← this attached;
  _ ← (if (a : bool) then set_state_with clear_ports CsDisconnected else mret tt);
  log_to (info (bs "AGWPE") (bs "Disconnected from AGWPE")).

Definition agwpe_close_session : Trait unit :=
  up ← this is_connected;
  if negb up then throw NotConnected
  else mapE agwpe_to_transport_err send_disconnect_and_drain.

(** [data.chunks(256)] *)
Fixpoint chunks (fuel : nat) (l : list byte) : list (list byte) :=
  match fuel, l with
  | S k, _ :: _ => take 256 l :: chunks k (drop 256 l)
  | _, _ => []
  end.
Definition data_frame (t : AgwpeTransport) (chunk : list byte) : AgwpeFrame :=
  new_frame (radio_port t) SendData (my_call t) (peer_call t) chunk.
Fixpoint send_chunks (l : list (list byte)) : Trait unit :=
  match l with
  | [] => mret tt
  | chunk :: rest =>
      t ← this id;
      _ ← mapE TrIo (write_all (encode (data_frame t chunk)));
      send_chunks rest
  end.
Definition agwpe_send (data : list byte) : Trait unit :=
  up ← this is_connected;
  if negb up then throw NotConnected else send_chunks (chunks (length data) data).

(** The event a received frame gives *)
Definition frame_event (f : AgwpeFrame) : TransportEvent :=
  match frame_type f with
  | Disconnect => EvDisconnected (from_utf8_lossy (data f))
  | SendData =>
      if is_session_dead_payload (data f) then EvDisconnected (from_utf8_lossy (data f))
      else EvData (data f)
  | Connected => EvData []
  | Connect => EvData (data f)
  | ConnectionRejected =>
      EvDisconnected (bs "connection rejected by peer: " ++ from_utf8_lossy (data f))
  | _ => EvData []
  end.
Definition agwpe_recv (deadline : Z) : Trait TransportEvent :=
  f ← mapE agwpe_to_transport_err (read_frame_with_timeout_deadline deadline);
  mret (frame_event f).

Fixpoint link_loop (fuel : nat) (deadline : Z) : Trait unit :=
  match fuel with
  | O => diverge
  | S k =>
      f ← mapE agwpe_to_transport_err (read_frame_with_timeout_deadline deadline);
      match frame_type f with
      | Connected =>
          log_to (rx (info (bs "PROTOCOL") (bs "AX.25 connected (AGWPE 'c')")))
      | ConnectionRejected =>
          let why := bs "connection rejected by peer: " ++ from_utf8_lossy (data f) in
          _ ← log_to (rx (info (bs "ERROR") why));
          throw (SessionRejected why)
      | t =>
          if bool_decide (t = Connect) && starts_with (bs "***") (data f)
             && contains (bs "CONNECTED") (data f) then
            log_to (rx (info (bs "PROTOCOL") (bs "AX.25 connected (LinBPQ '*** CONNECTED')")))
          else
            _ ← log_to (debug (bs "PROTOCOL")
                  (bs "Ignoring " ++ debug_frame_type t
                   ++ bs " frame while awaiting AX.25 connect confirmation"));
            link_loop k deadline
      end
  end.
Definition agwpe_open_ax25_link : Trait unit :=
  t ← this id;
  if negb (is_connected t) then throw NotConnected
  else
    _ ← log_to (tx (info (bs "PROTOCOL")
          (bs "AX.25 connect to " ++ peer_call t ++ bs " on port " ++ display (radio_port t))));
    _ ← mapE agwpe_to_transport_err
          (send_frame_internal (new_frame (radio_port t) Connect (my_call t) (peer_call t) []));
    now ← gets clock;
    n ← this pending_size;
    link_loop (S n) (now + 30 * 1000).

Definition agwpe_reopen_modem_connection : Trait unit :=
  a ← this attached;
  if negb a then
    throw (ModemError (bs "reopen_modem_connection called without attached state"))
  else
    c ← lock_read ClientState.config;
    call ← this my_call;
    up ← this is_connected;
    _ ← (if (up : bool) then mapE agwpe_to_transport_err send_disconnect_and_drain else mret tt);
    _ ← update (fun t => set_read_buf [] (set_stream None t));
    mapE agwpe_to_transport_err
      (connect_modem_internal (agwpe_host c) (ClientConfig.agwpe_port c) call).

#[export] Instance agwpe : Transport AgwpeTransport := {|
  connect_modem := fun cfg => mapE agwpe_to_transport_err
    (connect_modem_internal (agwpe_param_host (TransportTypes.agwpe cfg))
       (agwpe_param_port (TransportTypes.agwpe cfg)) (tr_local_callsign cfg));
  disconnect_modem := agwpe_disconnect_modem;
  open_session := fun cfg => update (set_peer cfg);
  close_session := agwpe_close_session;
  send := agwpe_send;
  recv := agwpe_recv;
  port_query_supported := fun _ => true;
  open_ax25_link := agwpe_open_ax25_link;
  reopen_modem_connection := agwpe_reopen_modem_connection;
  query_ports := mapE agwpe_to_transport_err query_ports_internal;
  supply := pending_size |}.

Lemma READ_SIZE_pos : (0 < READ_SIZE)%nat.
Proof. unfold READ_SIZE. lia. Qed.
#[local] Opaque READ_SIZE.

(** ** The modem keeps to its part of the world *)

Lemma polite_update {E} f : polite (update f : @Task AgwpeTransport E unit).
Proof. by split. Qed.
Lemma polite_this {E A} (f : AgwpeTransport -> A) : polite (this f : @Task _ E A).
Proof. by split. Qed.
#[export] Hint Resolve polite_update polite_this : polite.

Lemma polite_log_to {E} e : polite (log_to e : @Task _ E unit).
Proof. apply polite_bind; [auto with polite|]. intros []; auto with polite. Qed.
Lemma polite_state_to {E} cs : polite (state_to cs : @Task _ E unit).
Proof. apply polite_bind; [auto with polite|]. intros []; auto with polite. Qed.
Lemma polite_write_all bytes : polite (write_all bytes).
Proof.
  split; intros w; unfold write_all; destruct (stream (modem w)) as [s|]; try done;
    destruct (writes s) as [|[e|] ws]; done.
Qed.
Lemma polite_tcp_connect : polite tcp_connect.
Proof.
  split; intros w; unfold tcp_connect; destruct (connects (modem w)) as [|[e|s] rest]; done.
Qed.
Lemma polite_read_chunk deadline : polite (read_chunk deadline).
Proof.
  split; intros w; unfold read_chunk; destruct (stream (modem w)) as [s|]; try done;
    destruct (incoming s) as [|[t ev] rest]; try done; destruct (t <? deadline); try done;
    by destruct ev.
Qed.
#[export] Hint Resolve polite_log_to polite_state_to polite_write_all polite_tcp_connect
  polite_read_chunk : polite.

Lemma polite_read_frame_loop fuel deadline : polite (read_frame_loop fuel deadline).
Proof. induction fuel as [|k IH]; cbn [read_frame_loop]; polite; done. Qed.
Lemma polite_read_frame deadline : polite (read_frame_from_stream deadline).
Proof. unfold read_frame_from_stream. polite. apply polite_read_frame_loop. Qed.
#[export] Hint Resolve polite_read_frame : polite.
Lemma polite_or_timeout r : polite (or_timeout r).
Proof. destruct r; simpl; auto with polite. Qed.
#[export] Hint Resolve polite_or_timeout : polite.
Lemma polite_read_deadline deadline : polite (read_frame_with_timeout_deadline deadline).
Proof. unfold read_frame_with_timeout_deadline. polite. Qed.
Lemma polite_read_timeout secs : polite (read_frame_with_timeout secs).
Proof. unfold read_frame_with_timeout. polite. Qed.
Lemma polite_send_frame f : polite (send_frame_internal f).
Proof. unfold send_frame_internal. polite. Qed.
#[export] Hint Resolve polite_read_deadline polite_read_timeout polite_send_frame : polite.
Lemma polite_connect host p call : polite (connect_modem_internal host p call).
Proof. unfold connect_modem_internal. polite. Qed.
Lemma polite_log_ports names : forall i, polite (log_ports i names).
Proof. induction names as [|[|x n] rest IH]; intros i; cbn [log_ports]; polite; done. Qed.
#[export] Hint Resolve polite_connect polite_log_ports : polite.
Lemma polite_query_loop fuel : polite (query_loop fuel).
Proof. induction fuel as [|k IH]; cbn [query_loop]; polite; done. Qed.
#[export] Hint Resolve polite_query_loop : polite.
Lemma polite_query_ports : polite query_ports_internal.
Proof. unfold query_ports_internal. polite. by apply polite_lock_update. Qed.
Lemma polite_drain_loop fuel deadline : polite (drain_loop fuel deadline).
Proof. induction fuel as [|k IH]; cbn [drain_loop]; polite; done. Qed.
#[export] Hint Resolve polite_query_ports polite_drain_loop : polite.
Lemma polite_drain : polite send_disconnect_and_drain.
Proof. unfold send_disconnect_and_drain. polite. Qed.
Lemma polite_send_chunks l : polite (send_chunks l).
Proof. induction l as [|c l IH]; cbn [send_chunks]; polite; done. Qed.
Lemma polite_link_loop fuel deadline : polite (link_loop fuel deadline).
Proof. induction fuel as [|k IH]; cbn [link_loop]; polite; done. Qed.
#[export] Hint Resolve polite_drain polite_send_chunks polite_link_loop : polite.

(** ** Every operation ends *)

Lemma keeps_modem_log_to {E} e : keeps modem (log_to e : @Task _ E unit).
Proof. apply keeps_bind; [done|]. intros []; auto with keeps. Qed.
Lemma keeps_modem_state_to {E} cs : keeps modem (state_to cs : @Task _ E unit).
Proof. apply keeps_bind; [done|]. intros []; auto with keeps. Qed.
Lemma total_log_to {E} e : total (log_to e : @Task _ E unit).
Proof. apply total_bind; [done|]. by intros []. Qed.
Lemma total_state_to {E} cs : total (state_to cs : @Task _ E unit).
Proof. apply total_bind; [done|]. by intros []. Qed.
Lemma total_update {E} f : total (update f : @Task AgwpeTransport E unit).
Proof. done. Qed.
Lemma total_this {E A} (f : AgwpeTransport -> A) : total (this f : @Task _ E A).
Proof. done. Qed.
Lemma total_tcp_connect : total tcp_connect.
Proof. intros w. unfold tcp_connect. by destruct (connects (modem w)) as [|[e|s] rest]. Qed.
Lemma total_read_chunk deadline : total (read_chunk deadline).
Proof.
  intros w. unfold read_chunk. destruct (stream (modem w)) as [s|]; [|done].
  destruct (incoming s) as [|[t ev] rest]; [done|]. destruct (t <? deadline); [|done].
  by destruct ev.
Qed.
#[export] Hint Resolve total_log_to total_state_to total_update total_this total_tcp_connect
  total_read_chunk : total.

(** A chunk read moves its bytes from the stream to the buffer *)
Lemma read_chunk_spec deadline w :
  let (r, w') := read_chunk deadline w in
  read_buf (modem w') = read_buf (modem w)
  /\ (incoming_size (modem w') <= incoming_size (modem w))%nat
  /\ forall d, r = Ok (Some d) ->
       (incoming_size (modem w') + length d <= incoming_size (modem w))%nat
       /\ (incoming_size (modem w') < incoming_size (modem w))%nat.
Proof.
  unfold read_chunk. destruct (stream (modem w)) as [s|] eqn:Hs; [|done].
  destruct (incoming s) as [|[t ev] rest] eqn:Hi; [done|].
  destruct (t <? deadline); [|done].
  assert (Hz : incoming_size (modem w) = (event_size (t, ev) + sum_list_with event_size rest)%nat)
    by (unfold incoming_size; by rewrite Hs, Hi).
  destruct ev as [d|e]; cbn [modem set_modem read_buf set_stream]; rewrite Hz.
  - pose proof READ_SIZE_pos. pose proof (length_drop d READ_SIZE) as Hd. unfold incoming_size. cbn [stream set_stream incoming].
    split_and!; [done| |].
    + destruct (drop READ_SIZE d) as [|y d']; cbn [sum_list_with event_size snd length] in *; lia.
    + intros d0 [= <-]. rewrite length_take.
      destruct (drop READ_SIZE d) as [|y d']; cbn [sum_list_with event_size snd length] in *; lia.
  - unfold incoming_size. cbn [stream set_stream incoming event_size snd].
    split_and!; [done|lia|done].
Qed.

Lemma read_frame_loop_spec fuel deadline : forall w,
  (incoming_size (modem w) < fuel)%nat ->
  let (r, w') := read_frame_loop fuel deadline w in
  returns r /\ (pending_size (modem w') <= pending_size (modem w))%nat
  /\ forall f, r = Ok (Some f) -> (pending_size (modem w') < pending_size (modem w))%nat.
Proof.
  induction fuel as [|k IH]; intros w Hw; [lia|]. cbn [read_frame_loop].
  bind1. cbn [this gets]. bind1. cbn [lift].
  pose proof (take_frame_returns (read_buf (modem w))) as Hret.
  destruct (take_frame (read_buf (modem w))) as [[[f n]|]|e| |] eqn:Ht; try done.
  - apply take_frame_bounds in Ht. bind1. cbn [update modify mret M_ret].
    unfold HEADER_SIZE in Ht. unfold pending_size.
    cbn [modem set_modem read_buf set_read_buf]. rewrite length_drop.
    change (incoming_size (set_read_buf ?b ?t)) with (incoming_size t).
    split_and!; [done|lia|intros; lia].
  - bind1. pose proof (read_chunk_spec deadline w) as Hc.
    pose proof (total_read_chunk deadline w) as Hct.
    destruct (read_chunk deadline w) as [[[[|x d]|]|e| |] w1]; cbn [fst] in Hct; try done.
    + destruct Hc as (Hb & Hle & _). unfold throw, pending_size. rewrite Hb.
      split_and!; [done|lia|done].
    + destruct Hc as (Hb & Hle & Hd). destruct (Hd (x :: d) eq_refl) as [Hd1 Hd2].
      bind1. cbn [update modify].
      set (w2 := set_modem (set_read_buf (read_buf (modem w1) ++ x :: d) (modem w1)) w1).
      assert (Hi2 : incoming_size (modem w2) = incoming_size (modem w1)) by done.
      assert (Hp2 : (pending_size (modem w2) <= pending_size (modem w))%nat).
      { unfold pending_size. rewrite Hi2. cbn [w2 modem set_modem read_buf set_read_buf].
        rewrite length_app, Hb. lia. }
      specialize (IH w2 ltac:(lia)). destruct (read_frame_loop k deadline w2) as [r w'].
      destruct IH as (Hr & Hp & Hf). split_and!; [done|lia|]. intros f Hok. specialize (Hf f Hok). lia.
    + destruct Hc as (Hb & Hle & _). unfold pending_size. cbn. rewrite Hb.
      split_and!; [done|lia|done].
    + destruct Hc as (Hb & Hle & _). unfold pending_size. rewrite Hb.
      split_and!; [done|lia|done].
Qed.

Lemma read_frame_spec deadline w :
  let (r, w') := read_frame_from_stream deadline w in
  returns r /\ (pending_size (modem w') <= pending_size (modem w))%nat
  /\ forall f, r = Ok (Some f) -> (pending_size (modem w') < pending_size (modem w))%nat.
Proof.
  unfold read_frame_from_stream. bind1. cbn [this gets]. apply read_frame_loop_spec. lia.
Qed.

Lemma read_deadline_spec deadline w :
  let (r, w') := read_frame_with_timeout_deadline deadline w in
  returns r /\ forall f, r = Ok f -> (pending_size (modem w') < pending_size (modem w))%nat.
Proof.
  unfold read_frame_with_timeout_deadline. bind1. cbn [gets].
  destruct (deadline <=? clock w); [done|]. bind1. pose proof (read_frame_spec deadline w) as Hs.
  destruct (read_frame_from_stream deadline w) as [[[f|]|e| |] w']; destruct Hs as (Hr & _ & Hf);
    try done; split; try done.
  intros f' _. by apply (Hf f).
Qed.

Lemma read_timeout_spec secs w :
  let (r, w') := read_frame_with_timeout secs w in
  returns r /\ forall f, r = Ok f -> (pending_size (modem w') < pending_size (modem w))%nat.
Proof.
  unfold read_frame_with_timeout. bind1. cbn [gets]. bind1.
  pose proof (read_frame_spec (clock w + secs * 1000) w) as Hs.
  destruct (read_frame_from_stream _ w) as [[[f|]|e| |] w']; destruct Hs as (Hr & _ & Hf);
    try done; split; try done.
  intros f' _. by apply (Hf f).
Qed.

Definition connected (w : World AgwpeTransport) : Prop := is_Some (stream (modem w)).

Lemma write_all_connected bytes w :
  connected w -> returns (write_all bytes w).1 /\ connected (write_all bytes w).2.
Proof.
  unfold connected, write_all. intros [s Hs]. rewrite Hs.
  destruct (writes s) as [|[e|] ws]; cbn; rewrite ?Hs; by split.
Qed.

Lemma total_send_frame f : total (send_frame_internal f).
Proof.
  intros w. unfold send_frame_internal. bind1. cbn [this gets].
  destruct (is_connected (modem w)) eqn:Hc; [|done]. apply returns_mapE_at, write_all_connected.
  by apply bool_decide_eq_true in Hc.
Qed.
Lemma total_read_frame deadline : total (read_frame_from_stream deadline).
Proof.
  intros w. pose proof (read_frame_spec deadline w) as Hs.
  destruct (read_frame_from_stream deadline w). apply Hs.
Qed.
Lemma total_read_deadline deadline : total (read_frame_with_timeout_deadline deadline).
Proof.
  intros w. pose proof (read_deadline_spec deadline w) as Hs.
  destruct (read_frame_with_timeout_deadline deadline w). apply Hs.
Qed.
Lemma total_read_timeout secs : total (read_frame_with_timeout secs).
Proof.
  intros w. pose proof (read_timeout_spec secs w) as Hs.
  destruct (read_frame_with_timeout secs w). apply Hs.
Qed.
#[export] Hint Resolve total_send_frame total_read_frame total_read_deadline total_read_timeout
  : total.

Lemma total_connect host p call : total (connect_modem_internal host p call).
Proof.
  unfold connect_modem_internal. apply total_bind; [auto with total|]. intros _.
  apply total_catch; [auto with total|]. intros [e|s]; [total|].
  apply total_bind; [auto with total|]. intros _ w. apply returns_bind_at; [done|].
  intros [] w1 [= <-]. apply returns_bind_at; [apply total_log_to|]. intros [] w2 H2.
  assert (connected w2) as Hc.
  { apply (f_equal snd) in H2. cbn [snd] in H2. subst w2. unfold connected.
    rewrite keeps_modem_log_to. by eexists. }
  apply returns_catch_at; [by apply write_all_connected|]. intros x w3 _. apply total_run. total.
Qed.
#[export] Hint Resolve total_connect : total.

Lemma total_log_ports names : forall i, total (log_ports i names).
Proof. induction names as [|[|x n] rest IH]; intros i; cbn [log_ports]; total; done. Qed.
#[export] Hint Resolve total_log_ports : total.

Lemma query_loop_returns fuel : forall w,
  (pending_size (modem w) < fuel)%nat -> returns (query_loop fuel w).1.
Proof.
  induction fuel as [|k IH]; intros w Hw; [lia|]. cbn [query_loop].
  apply returns_bind_at; [apply total_read_timeout|]. intros f w1 H1.
  pose proof (read_timeout_spec 5 w) as Hs. rewrite H1 in Hs. destruct Hs as [_ Hs].
  specialize (Hs f eq_refl).
  apply returns_bind_at; [apply total_log_to|]. intros [] w2 H2.
  apply (f_equal snd) in H2. cbn [snd] in H2. subst w2.
  destruct (_ || _).
  - apply total_run. total.
  - apply IH. rewrite keeps_modem_log_to. lia.
Qed.

Lemma total_query_ports : total query_ports_internal.
Proof.
  unfold query_ports_internal. apply total_bind; [done|]. intros up. destruct (negb up); [done|].
  do 3 (apply total_bind; [auto with total|]; intros ?).
  intros w. apply returns_bind_at; [done|].
  intros n w1 [= <- <-]. apply returns_bind_at; [apply query_loop_returns; lia|].
  intros ports w2 _.
  apply total_run. by total.
Qed.

Lemma drain_loop_returns fuel deadline : forall w,
  (pending_size (modem w) < fuel)%nat -> returns (drain_loop fuel deadline w).1.
Proof.
  induction fuel as [|k IH]; intros w Hw; [lia|]. cbn [drain_loop].
  apply returns_catch_at; [apply total_read_frame|]. intros [e|[f|]] w1 H1; [done| |done].
  destruct (bool_decide _); [apply total_log_to|]. apply IH.
  pose proof (read_frame_spec deadline w) as Hs. rewrite H1 in Hs.
  destruct Hs as (_ & _ & Hs). specialize (Hs f eq_refl). lia.
Qed.

Lemma total_drain : total send_disconnect_and_drain.
Proof.
  unfold send_disconnect_and_drain. do 3 (apply total_bind; [auto with total|]; intros ?).
  destruct (negb _); [done|]. do 2 (apply total_bind; [auto with total|]; intros ?).
  intros w. apply returns_bind_at; [done|].
  intros n w1 [= <- <-]. apply drain_loop_returns. lia.
Qed.
#[export] Hint Resolve total_query_ports total_drain : total.

Lemma send_chunks_returns l : forall w, connected w -> returns (send_chunks l w).1.
Proof.
  induction l as [|c l IH]; intros w Hw; cbn [send_chunks]; [done|].
  apply returns_bind_at; [done|]. intros t w1 [= <- <-].
  destruct (write_all_connected (encode (data_frame (modem w) c)) w Hw) as [Hr Hc].
  apply returns_bind_at; [by apply returns_mapE_at|]. intros [] w2 H2. apply IH.
  unfold mapE in H2. destruct (write_all _ w) as [r w3]. by injection H2 as _ <-.
Qed.

Lemma total_send data : total (agwpe_send data).
Proof.
  intros w. unfold agwpe_send. bind1. cbn [this gets].
  destruct (is_connected (modem w)) eqn:Hc; [|done]. apply send_chunks_returns.
  by apply bool_decide_eq_true in Hc.
Qed.

Lemma link_loop_returns fuel deadline : forall w,
  (pending_size (modem w) < fuel)%nat -> returns (link_loop fuel deadline w).1.
Proof.
  induction fuel as [|k IH]; intros w Hw; [lia|]. cbn [link_loop].
  apply returns_bind_at; [apply returns_mapE_at, total_read_deadline|]. intros f w1 H1.
  pose proof (read_deadline_spec deadline w) as Hs. unfold mapE in H1.
  destruct (read_frame_with_timeout_deadline deadline w) as [r w0].
  destruct r; simplify_eq/=. destruct Hs as [_ Hs]. specialize (Hs f eq_refl).
  assert (Hnext : forall e, returns ((_ ← log_to e; link_loop k deadline) w1).1).
  { intros e. apply returns_bind_at; [apply total_log_to|]. intros [] w2 H2.
    apply (f_equal snd) in H2. cbn [snd] in H2. subst w2. apply IH.
    rewrite keeps_modem_log_to. lia. }
  assert (Hlog : forall e, returns ((log_to e : Trait unit) w1).1) by (intros; apply total_log_to).
  destruct (frame_type f); try apply Hnext; try apply Hlog.
  - by destruct (_ && _).
  - apply returns_bind_at; [apply total_log_to|done].
Qed.

Lemma total_link : total agwpe_open_ax25_link.
Proof.
  unfold agwpe_open_ax25_link. apply total_bind; [done|]. intros t. destruct (negb _); [done|].
  do 3 (apply total_bind; [auto with total|]; intros ?). intros w. apply returns_bind_at; [done|].
  intros n w1 [= <- <-]. apply link_loop_returns. lia.
Qed.

(** The implementation keeps what the session code relies on. *)
#[export] Instance agwpe_laws : TransportLaws AgwpeTransport.
Proof.
  split; cbn [connect_modem disconnect_modem open_session close_session send recv open_ax25_link
    reopen_modem_connection query_ports agwpe]; intros; try split.
  - total.
  - polite.
  - unfold agwpe_disconnect_modem. by total.
  - unfold agwpe_disconnect_modem. polite. by apply polite_set_state_with.
  - done.
  - auto with polite.
  - unfold agwpe_close_session. total.
  - unfold agwpe_close_session. polite.
  - apply total_send.
  - unfold agwpe_send. polite.
  - unfold agwpe_recv. total.
  - unfold agwpe_recv. polite.
  - apply total_link.
  - unfold agwpe_open_ax25_link. polite.
  - unfold agwpe_reopen_modem_connection. total.
  - unfold agwpe_reopen_modem_connection. polite.
  - total.
  - polite.
  - unfold agwpe_recv in *. cbn [supply agwpe].
    pose proof (read_deadline_spec deadline w) as Hs.
    revert H. bind1. unfold mapE.
    destruct (read_frame_with_timeout_deadline deadline w) as [[f|e| |] w1]; try done.
    intros [= _ <-]. destruct Hs as [_ Hs]. by apply (Hs f).
Qed.

(** ** Reassembly *)

(** The bytes an event brings, and one that brings some before the deadline *)
Definition event_bytes (e : Z * ReadEvent) : list byte :=
  match e.2 with RdData d => d | RdError _ => [] end.
Definition timely (deadline : Z) (e : Z * ReadEvent) : Prop :=
  e.1 < deadline /\ event_bytes e <> [].
Definition bytes_of (es : list (Z * ReadEvent)) : list byte := concat (map event_bytes es).

(** The bytes still to come to the modem, up to what [later] brings, are [l]. *)
Definition awaits (deadline : Z) (later : list (Z * ReadEvent)) (w : World AgwpeTransport)
    (l : list byte) : Prop :=
  exists good ws, stream (modem w) = Some (mkStream (good ++ later) ws)
    /\ Forall (timely deadline) good /\ read_buf (modem w) ++ bytes_of good = l.

Lemma read_chunk_timely deadline until later good ws w : deadline <= until ->
  stream (modem w) = Some (mkStream (good ++ later) ws) -> Forall (timely deadline) good ->
  good <> [] ->
  exists d good' w', read_chunk until w = (Ok (Some d), w') /\ d <> []
    /\ read_buf (modem w') = read_buf (modem w)
    /\ stream (modem w') = Some (mkStream (good' ++ later) ws)
    /\ Forall (timely deadline) good' /\ bytes_of good = d ++ bytes_of good'.
Proof.
  intros Hu Hs Hg Hne. destruct good as [|[t ev] good]; [done|].
  apply Forall_cons in Hg as [[Ht Hd] Hg]. cbn [fst] in Ht.
  destruct ev as [d|e]; [|by destruct Hd]. unfold event_bytes in Hd. cbn [snd] in Hd.
  unfold read_chunk. rewrite Hs. cbn [incoming writes Datatypes.app].
  rewrite (proj2 (Z.ltb_lt t until)) by lia.
  exists (take READ_SIZE d),
    (match drop READ_SIZE d with [] => good | d' => (t, RdData d') :: good end).
  eexists. split; [done|]. cbn [modem set_modem read_buf set_stream stream].
  pose proof READ_SIZE_pos. pose proof (take_drop READ_SIZE d) as Htd.
  unfold bytes_of. cbn [map concat event_bytes snd].
  split_and!; [by destruct d, READ_SIZE; simpl; (done || lia)|done| | |].
  - by destruct (drop READ_SIZE d).
  - destruct (drop READ_SIZE d); [done|]. by constructor.
  - destruct (drop READ_SIZE d) eqn:E.
    + rewrite app_nil_r in Htd. by rewrite Htd.
    + rewrite <- Htd at 1. cbn [map concat event_bytes snd]. by rewrite <- app_assoc.
Qed.

Lemma read_frame_loop_gets deadline until later f rest : deadline <= until -> frame_wf f -> forall fuel w,
  (incoming_size (modem w) < fuel)%nat -> awaits deadline later w (encode f ++ rest) ->
  exists w', read_frame_loop fuel until w = (Ok (Some f), w')
    /\ awaits deadline later w' rest.
Proof.
  intros Hu Hf. induction fuel as [|k IH]; intros w Hw (good & ws & Hs & Hg & Hb); [lia|].
  cbn [read_frame_loop]. bind1. cbn [this gets]. bind1. cbn [lift].
  destruct (Nat.le_gt_cases (length (encode f)) (length (read_buf (modem w)))) as [Hle|Hgt].
  - symmetry in Hb. destruct (take_app_prefix _ _ _ _ Hb Hle) as (e & He & Hr).
    rewrite He, take_frame_encode by done. bind1. cbn [update modify mret M_ret].
    eexists. split; [done|]. exists good, ws. cbn [modem set_modem stream set_read_buf read_buf].
    by rewrite drop_app_length.
  - rewrite (take_frame_partial f _ (bytes_of good) rest) by done.
    destruct (read_chunk_timely deadline until later good ws w) as (d & good' & w1 & Hrc & Hd & Hrb & Hs1 & Hg' & Hbb);
      [done..| |].
    { intros ->. change (bytes_of []) with (@nil byte) in Hb. rewrite app_nil_r in Hb.
      apply (f_equal length) in Hb. rewrite length_app in Hb. lia. }
    pose proof (read_chunk_spec until w) as Hsz. rewrite Hrc in Hsz.
    destruct Hsz as (_ & _ & Hsz). destruct (Hsz d eq_refl) as [_ Hlt].
    bind1. rewrite Hrc. destruct d as [|x d]; [done|]. bind1. cbn [update modify].
    apply IH.
    + cbn [modem set_modem]. change (incoming_size (set_read_buf ?b ?t)) with (incoming_size t). lia.
    + exists good', ws. cbn [modem set_modem stream set_read_buf read_buf].
      rewrite Hrb. split_and!; [done..|]. by rewrite <- app_assoc, <- Hbb.
Qed.

(** Reading one frame after the other *)
Fixpoint read_frames (n : nat) (deadline : Z) : Agw (list (option AgwpeFrame)) :=
  match n with
  | O => mret []
  | S k =>
      f ← read_frame_from_stream deadline;
      fs ← read_frames k deadline;
      mret (f :: fs)
  end.

(** C28: however the stream cuts the bytes of a sequence of frames, between or
    inside them, reading returns exactly these frames in order and leaves the
    bytes that follow, none lost and none read twice. *)
Theorem read_frames_reassemble deadline later fs : forall rest w,
  Forall frame_wf fs -> awaits deadline later w (concat (map encode fs) ++ rest) ->
  exists w', read_frames (length fs) deadline w = (Ok (map Some fs), w')
    /\ awaits deadline later w' rest.
Proof.
  induction fs as [|f fs IH]; intros rest w Hwf Hw; [by exists w|].
  apply Forall_cons in Hwf as [Hf Hwf]. cbn [map concat length read_frames] in *.
  rewrite <- app_assoc in Hw. unfold read_frame_from_stream at 1.
  destruct (read_frame_loop_gets deadline deadline later f _ (Z.le_refl _) Hf (S (incoming_size (modem w))) w
              ltac:(lia) Hw) as (w1 & Hr1 & Hw1).
  destruct (IH rest w1 Hwf Hw1) as (w2 & Hr2 & Hw2). exists w2. split; [|done].
  bind1. bind1. cbn [this gets]. rewrite Hr1. bind1. by rewrite Hr2.
Qed.

(** ** Sending *)

Lemma chunks_spec fuel : forall l, (length l <= fuel)%nat ->
  concat (chunks fuel l) = l
  /\ Forall (fun c => (0 < length c <= 256)%nat) (chunks fuel l).
Proof.
  induction fuel as [|k IH]; intros l Hl.
  - destruct l; [by split|]. simpl in Hl. lia.
  - destruct l as [|x l]; [by split|]. cbn [chunks].
    destruct (IH (drop 256 (x :: l))) as [Hc Hf]; [rewrite length_drop; simpl in *; lia|].
    split.
    + cbn [concat]. rewrite Hc. apply take_drop.
    + constructor; [|done]. rewrite length_take. cbn [length]. lia.
Qed.

(** All the writes to come succeed *)
Definition writes_succeed (w : World AgwpeTransport) : Prop :=
  exists s, stream (modem w) = Some s /\ Forall (fun o => o = None) (writes s).

Lemma write_all_succeeds bytes w :
  writes_succeed w ->
  exists w', write_all bytes w = (Ok tt, w') /\ writes_succeed w'
    /\ wire (modem w') = wire (modem w) ++ [bytes]
    /\ forall c, data_frame (modem w') c = data_frame (modem w) c.
Proof.
  intros (s & Hs & Hw). unfold write_all. rewrite Hs.
  destruct (writes s) as [|o ws] eqn:E.
  - eexists. split; [done|]. split; [|done]. exists s. by rewrite E.
  - apply Forall_cons in Hw as [-> Hw]. eexists. split; [done|]. split; [|done].
    by exists (mkStream (incoming s) ws).
Qed.

Lemma send_chunks_wire l : forall w, writes_succeed w ->
  exists w', send_chunks l w = (Ok tt, w')
    /\ wire (modem w') = wire (modem w) ++ map (fun c => encode (data_frame (modem w) c)) l.
Proof.
  induction l as [|c l IH]; intros w Hw; cbn [send_chunks].
  { exists w. by rewrite app_nil_r. }
  destruct (write_all_succeeds (encode (data_frame (modem w) c)) w Hw) as (w1 & Hr & Hw1 & Hwi & Hdf).
  destruct (IH w1 Hw1) as (w2 & Hr2 & Hwi2). exists w2.
  bind1. cbn [this gets id]. bind1. unfold mapE. rewrite Hr. cbn [map_err]. split; [done|].
  rewrite Hwi2, Hwi, <- app_assoc. f_equal. cbn [map Datatypes.app]. f_equal.
  apply map_ext. intros c'. by rewrite Hdf.
Qed.

(** What is sent over the link goes out as data frames of at most 256 bytes
    addressed to the peer, each of which a receiver decodes, and whose payloads put
    together are exactly the bytes sent. *)
Theorem send_frames d w :
  writes_succeed w -> 0 <= radio_port (modem w) < 256 ->
  call_wf (my_call (modem w)) -> call_wf (peer_call (modem w)) ->
  exists w' fs, send d w = (Ok tt, w')
    /\ wire (modem w') = wire (modem w) ++ map encode fs
    /\ concat (map data fs) = d
    /\ Forall (fun f => frame_wf f /\ decode (encode f) = Ok f
                 /\ frame_type f = SendData /\ call_from f = my_call (modem w)
                 /\ call_to f = peer_call (modem w) /\ (0 < length (data f) <= 256)%nat) fs.
Proof.
  intros Hw Hp Hm Hc. cbn [send agwpe]. unfold agwpe_send. bind1. cbn [this gets].
  assert (is_connected (modem w) = true) as ->.
  { destruct Hw as (s & Hs & _). unfold is_connected. rewrite Hs. by apply bool_decide_eq_true. }
  cbn [negb]. destruct (chunks_spec (length d) d) as [Hcat Hlen]; [lia|].
  destruct (send_chunks_wire (chunks (length d) d) w Hw) as (w' & Hr & Hwi).
  exists w', (map (data_frame (modem w)) (chunks (length d) d)). split_and!; [done| | |].
  - by rewrite map_map.
  - rewrite map_map. cbn [data data_frame new_frame]. by rewrite map_id.
  - apply Forall_map. eapply Forall_impl; [exact Hlen|]. intros c Hcl. cbv beta in Hcl.
    assert (Hf : frame_wf (data_frame (modem w) c)).
    { unfold frame_wf, MAX_FRAME_DATA_SIZE.
      cbn [port pid call_from call_to data_len user_data data data_frame new_frame].
      rewrite as_u32_small by lia.
      split_and!; try done; lia. }
    split_and!; try done; try apply Hcl. rewrite <- (app_nil_r (encode _)). by apply decode_encode.
Qed.

(** A modem in the middle of a session, with two frames cut across three reads *)
Definition demo_frame1 : AgwpeFrame := new_frame 0 SendData (bs "N0CALL-8") (bs "N0CALL") (bs "abc").
Definition demo_frame2 : AgwpeFrame := new_frame 0 SendData (bs "N0CALL-8") (bs "N0CALL") [].
Definition demo_bytes : list byte := encode demo_frame1 ++ encode demo_frame2.
Definition demo_reads : list (Z * ReadEvent) :=
  [(1, RdData (take 20 demo_bytes)); (2, RdData (take 30 (drop 20 demo_bytes)));
   (3, RdData (drop 50 demo_bytes ++ [x07]))].
Definition demo_world : World AgwpeTransport :=
  Transport.mkWorld
    (mkAgwpeTransport (Some (mkStream demo_reads [])) [] (bs "N0CALL") (bs "N0CALL-8") 0 true [] [])
    (new_state default_config) false 0 [] [] [] [].

Lemma demo_frame_wf d : (length d <= 256)%nat ->
  frame_wf (new_frame 0 SendData (bs "N0CALL-8") (bs "N0CALL") d).
Proof.
  intros Hd. unfold frame_wf, MAX_FRAME_DATA_SIZE.
  cbn [port pid call_from call_to data_len user_data data new_frame].
  rewrite as_u32_small by lia. unfold call_wf. split_and!; try done; try lia; cbn; lia.
Qed.

Lemma read_frames_reassemble_witness :
  exists w', read_frames 2 10 demo_world = (Ok [Some demo_frame1; Some demo_frame2], w')
    /\ awaits 10 [] w' [x07].
Proof.
  apply (read_frames_reassemble 10 [] [demo_frame1; demo_frame2] [x07] demo_world).
  - repeat constructor; apply demo_frame_wf; cbn; lia.
  - exists demo_reads, []. split; [reflexivity|]. split; [|reflexivity].
    repeat constructor; cbn; discriminate.
Defined.

Lemma send_frames_witness :
  exists w' fs, send (bs "WEB" ++ [LF]) demo_world = (Ok tt, w')
    /\ wire (modem w') = [] ++ map encode fs /\ concat (map data fs) = bs "WEB" ++ [LF].
Proof.
  destruct (send_frames (bs "WEB" ++ [LF]) demo_world) as (w' & fs & Hr & Hw & Hc & _).
  - exists (mkStream demo_reads []). split; [reflexivity|constructor].
  - cbn. lia.
  - unfold call_wf. cbn. repeat split; lia.
  - unfold call_wf. cbn. repeat split; lia.
  - exists w', fs. split; [exact Hr|]. split; [exact Hw|exact Hc].
Defined.

(** A complete frame the decoder rejects stays in the buffer: every later read
    gives the same error. *)
Lemma undecodable_frame_stays e deadline w :
  take_frame (read_buf (modem w)) = Err e ->
  read_frame_from_stream deadline w = (Err e, w).
Proof.
  intros He. unfold read_frame_from_stream. bind1. cbn [this gets read_frame_loop].
  bind1. cbn [this gets]. bind1. cbn [lift]. by rewrite He.
Qed.
