(* ===== verification/TcpStream.v ===== *)
(** * TCP streams of the VARA modem ([tokio::net::TcpStream])

    A stream is the list of what its reads will report, each with the time
    (in milliseconds) from which it does, and of what its writes will.  A read
    of no bytes is the end of the stream. *)
From Stdlib Require Import ZArith Lia Strings.Byte.
From stdpp Require Import base decidable list.
From S2P Require Import Prelude Bytes Numbers.

Inductive SockEvent : Type :=
| SkData (d : list byte)
| SkError (msg : list byte).

Record Sock : Type := mkSock {
  to_read : list (Z * SockEvent);
  (** the error of the next writes, if they fail *)
  to_write : list (option (list byte)) }.

(** When the next read would report something *)
Definition ready_at (s : Sock) : option Z :=
  match to_read s with [] => None | (t, _) :: _ => Some t end.

Inductive ReadOutcome : Type :=
| RdBytes (d : list byte)
| RdFailed (msg : list byte)
| RdLate.

(** A read of at most [size] bytes that is given up at [deadline]; with the time
    when it ends *)
Definition sock_read (size : nat) (now deadline : Z) (s : Sock) : ReadOutcome * Z * Sock :=
  match to_read s with
  | [] => (RdLate, Z.max now deadline, s)
  | (t, ev) :: rest =>
      if (t <=? now) || (t <? deadline) then
        match ev with
        | SkError e => (RdFailed e, Z.max now t, mkSock rest (to_write s))
        | SkData d =>
            let rest' := match drop size d with [] => rest | d' => (t, SkData d') :: rest end in
            (RdBytes (take size d), Z.max now t, mkSock rest' (to_write s))
        end
      else (RdLate, Z.max now deadline, s)
  end.

(** [write_all]: the error, if it fails *)
Definition sock_write (s : Sock) : option (list byte) * Sock :=
  match to_write s with
  | [] => (None, s)
  | o :: rest => (o, mkSock (to_read s) rest)
  end.

(** What is left to read, each byte with weight [k] and each event one more *)
Definition sock_event_size (k : nat) (e : Z * SockEvent) : nat :=
  match e.2 with SkData d => S (k * length d) | SkError _ => 1 end.
Definition sock_size (k : nat) (s : Sock) : nat := sum_list_with (sock_event_size k) (to_read s).

(** The bytes left to read, up to a failure *)
Fixpoint bytes_ahead (es : list (Z * SockEvent)) : list byte :=
  match es with
  | (_, SkData d) :: rest => d ++ bytes_ahead rest
  | _ => []
  end.

Lemma sock_write_reads s : to_read (sock_write s).2 = to_read s.
Proof. unfold sock_write. by destruct (to_write s). Qed.

(** A read moves bytes from the stream to the reader and nothing else. *)
Lemma sock_read_size k size now deadline s :
  (0 < size)%nat -> (0 < k)%nat ->
  let '(o, t, s') := sock_read size now deadline s in
  match o with
  | RdBytes d => (sock_size k s' + k * length d <= sock_size k s)%nat
      /\ (sock_size k s' < sock_size k s)%nat /\ bytes_ahead (to_read s) = d ++ bytes_ahead (to_read s')
      /\ now <= t
  | RdFailed _ => (sock_size k s' < sock_size k s)%nat /\ now <= t
  | RdLate => s' = s /\ t = Z.max now deadline
  end.
Proof.
  intros Hsz Hk. unfold sock_read. destruct (to_read s) as [|[t ev] rest] eqn:Hr; [done|].
  destruct (_ || _); [|done]. unfold sock_size. rewrite Hr. destruct ev as [d|e].
  - pose proof (take_drop size d) as Htd. pose proof (length_drop d size) as Hl.
    pose proof (length_take d size) as Hlt.
    destruct (drop size d) as [|x d'] eqn:Ed; cbn [to_read sum_list_with sock_event_size snd bytes_ahead].
    + rewrite app_nil_r in Htd. rewrite Htd. split_and!; [lia|lia|done|lia].
    + cbn [length] in *.
      assert (length d = length (take size d) + S (length d'))%nat as -> by lia.
      rewrite Nat.mul_add_distr_l. split_and!; [lia|nia| |lia].
      by rewrite <- Htd at 1; rewrite <- app_assoc.
  - cbn [to_read sum_list_with sock_event_size snd]. lia.
Qed.
