(* ===== verification/VaraCodec.v ===== *)
(** * The VARA command language ([client/src/transport/vara/codec.rs]) *)
From Stdlib Require Import ZArith Lia Strings.Byte.
From stdpp Require Import base decidable list.
From S2P Require Import Prelude Bytes Numbers External TransportTypes.

Inductive VaraResponse : Type :=
| VrOk
| VrPending
| VrConnected (local remote : list byte)
| VrDisconnected
| VrBusyDetected
| VrLinkRegistered
| VrBuffer (n : Z)
| VrMissing (what : list byte)
| VrUnknown (line : list byte).

Definition CR : byte := x0d.
Definition is_eol (b : byte) : bool := Byte.eqb b CR || Byte.eqb b LF.

(** The keywords *)
Definition OK_LINE : list byte := Eval vm_compute in bs "OK".
Definition PENDING : list byte := Eval vm_compute in bs "PENDING".
Definition DISCONNECTED : list byte := Eval vm_compute in bs "DISCONNECTED".
Definition BUSY_DETECTED : list byte := Eval vm_compute in bs "BUSY DETECTED".
Definition LINK_REGISTERED : list byte := Eval vm_compute in bs "LINK REGISTERED".
Definition CONNECTED_SP : list byte := Eval vm_compute in bs "CONNECTED ".
Definition BUFFER_SP : list byte := Eval vm_compute in bs "BUFFER ".
Definition MISSING_SP : list byte := Eval vm_compute in bs "MISSING ".

(** [CONNECTED local remote] and [BUFFER n], when the rest is as expected *)
Definition parse_connected (s : list byte) : option VaraResponse :=
  rest ← strip_prefix CONNECTED_SP s;
  match split_whitespace rest with
  | local :: remote :: _ => Some (VrConnected local remote)
  | _ => None
  end.
Definition parse_buffer (s : list byte) : option VaraResponse :=
  rest ← strip_prefix BUFFER_SP s;
  VrBuffer <$> parse_unsigned u32_max (trim rest).

Definition parse_line (raw : list byte) : VaraResponse :=
  let s := trim_end_matches is_eol raw in
  if bool_decide (s = OK_LINE) then VrOk
  else if bool_decide (s = PENDING) then VrPending
  else if bool_decide (s = DISCONNECTED) then VrDisconnected
  else if bool_decide (s = BUSY_DETECTED) then VrBusyDetected
  else if bool_decide (s = LINK_REGISTERED) then VrLinkRegistered
  else
    match parse_connected s with
    | Some r => r
    | None =>
        match parse_buffer s with
        | Some r => r
        | None =>
            match strip_prefix MISSING_SP s with
            | Some rest => VrMissing (trim rest)
            | None => VrUnknown s
            end
        end
    end.

(** The derived [Debug] *)
Definition debug_response `{DebugFormat} (r : VaraResponse) : list byte :=
  match r with
  | VrOk => bs "Ok"
  | VrPending => bs "Pending"
  | VrConnected l r => bs "Connected { local: " ++ debug_str l ++ bs ", remote: " ++ debug_str r ++ bs " }"
  | VrDisconnected => bs "Disconnected"
  | VrBusyDetected => bs "BusyDetected"
  | VrLinkRegistered => bs "LinkRegistered"
  | VrBuffer n => bs "Buffer(" ++ display n ++ bs ")"
  | VrMissing s => bs "Missing(" ++ debug_str s ++ bs ")"
  | VrUnknown s => bs "Unknown(" ++ debug_str s ++ bs ")"
  end.

Definition bandwidth_wire_command (bw : VaraBandwidth) : list byte :=
  match bw with
  | VNarrow => bs "VNARROW"
  | VWide => bs "VWIDE"
  | Bw250 => bs "BW250"
  | Bw500 => bs "BW500"
  | Bw2300 => bs "BW2300"
  | Bw2750 => bs "BW2750"
  end.

Definition setup_commands (local_callsign : list byte) (mode : VaraMode) (bw : VaraBandwidth)
    : list (list byte) :=
  [bs "MYCALL " ++ local_callsign; bs "LISTEN OFF"; bs "COMPRESSION OFF";
   bandwidth_wire_command bw].

(** ** Properties *)

Lemma trim_end_matches_none p l : (forall b, b ∈ l -> p b = false) -> trim_end_matches p l = l.
Proof.
  intros Hp. unfold trim_end_matches. rewrite <- (rev_involutive l) at 2. f_equal.
  destruct (rev l) as [|x t] eqn:E; [done|]. cbn. rewrite Hp.
  - by destruct t as [|y [|z t]].
  - rewrite list_elem_of_In, in_rev, E. by left.
Qed.

Lemma parse_line_ok raw : parse_line raw = VrOk <-> trim_end_matches is_eol raw = OK_LINE.
Proof.
  unfold parse_line. generalize (trim_end_matches is_eol raw). intros s. split.
  - repeat case_bool_decide; try done. unfold parse_connected, parse_buffer.
    destruct (strip_prefix CONNECTED_SP s) as [r|]; cbn;
      [destruct (split_whitespace r) as [|? [|? ?]]; cbn; try done|];
      destruct (strip_prefix BUFFER_SP s) as [r'|]; cbn;
      try (destruct (parse_unsigned u32_max (trim r')); cbn; try done);
      by destruct (strip_prefix MISSING_SP s).
  - intros ->. by rewrite bool_decide_true.
Qed.
