(* ===== verification/Vara.v ===== *)
(** * The VARA modem ([VaraTransport] of [client/src/transport/vara/transport.rs])

    A command port with lines of text and a data port with the bytes of the
    session.  Which branch of [select!] runs when several are ready, and when
    the command port seems readable without being so, are inputs ([picks]).
    What is said and heard on the command port is recorded in [dialogue]. *)
From Stdlib Require Import ZArith Lia Strings.Byte.
From stdpp Require Import base decidable list.
From S2P Require Import Prelude Bytes Numbers External TransportTypes ClientConfig ClientState.
From S2P Require Import Transport TcpStream VaraCodec.

Inductive CmdAct : Type :=
| Said (line : list byte)
| Heard (line : list byte).

(** How [select!] decides: the first branch to be ready, the data port or the
    command port when both are; or a wakeup of the command port for nothing *)
Inductive Pick : Type := PickData | PickCmd | PickSpurious.

Record VaraTransport : Type := mkVaraTransport {
  cmd : option Sock;
  data : option Sock;
  cmd_line_buf : list byte;
  (** the outcomes of the next TCP connections *)
  connects : list (list byte + Sock);
  picks : list Pick;
  wire_cmd : list byte;
  wire_data : list byte;
  dialogue : list CmdAct }.

Definition set_cmd (s : option Sock) (t : VaraTransport) : VaraTransport :=
  mkVaraTransport s (data t) (cmd_line_buf t) (connects t) (picks t) (wire_cmd t) (wire_data t)
    (dialogue t).
Definition set_data (s : option Sock) (t : VaraTransport) : VaraTransport :=
  mkVaraTransport (cmd t) s (cmd_line_buf t) (connects t) (picks t) (wire_cmd t) (wire_data t)
    (dialogue t).
Definition set_line_buf (b : list byte) (t : VaraTransport) : VaraTransport :=
  mkVaraTransport (cmd t) (data t) b (connects t) (picks t) (wire_cmd t) (wire_data t) (dialogue t).
Definition set_connects (c : list (list byte + Sock)) (t : VaraTransport) : VaraTransport :=
  mkVaraTransport (cmd t) (data t) (cmd_line_buf t) c (picks t) (wire_cmd t) (wire_data t)
    (dialogue t).
Definition set_picks (p : list Pick) (t : VaraTransport) : VaraTransport :=
  mkVaraTransport (cmd t) (data t) (cmd_line_buf t) (connects t) p (wire_cmd t) (wire_data t)
    (dialogue t).
Definition add_wire_cmd (b : list byte) (t : VaraTransport) : VaraTransport :=
  mkVaraTransport (cmd t) (data t) (cmd_line_buf t) (connects t) (picks t) (wire_cmd t ++ b)
    (wire_data t) (dialogue t).
Definition add_wire_data (b : list byte) (t : VaraTransport) : VaraTransport :=
  mkVaraTransport (cmd t) (data t) (cmd_line_buf t) (connects t) (picks t) (wire_cmd t)
    (wire_data t ++ b) (dialogue t).
Definition add_dialogue (a : CmdAct) (t : VaraTransport) : VaraTransport :=
  mkVaraTransport (cmd t) (data t) (cmd_line_buf t) (connects t) (picks t) (wire_cmd t)
    (wire_data t) (dialogue t ++ [a]).

(** [VaraTransport::new], with the network it will meet *)
Definition new_vara (net : list (list byte + Sock)) (ps : list Pick) : VaraTransport :=
  mkVaraTransport None None [] net ps [] [] [].

Abbreviation Vara := (@Task VaraTransport).
Abbreviation Trait := (@Task VaraTransport TransportError).

Definition update {E} (f : VaraTransport -> VaraTransport) : Vara E unit :=
  modify (fun w => set_modem (f (modem w)) w).
Definition this {E A} (f : VaraTransport -> A) : Vara E A := gets (fun w => f (modem w)).

(** ** The streams *)

(** A stream of the modem: how to reach it *)
Inductive Port : Type := CmdPort | DataPort.
Definition port_of (p : Port) (t : VaraTransport) : option Sock :=
  match p with CmdPort => cmd t | DataPort => data t end.
Definition set_port (p : Port) (s : Sock) : VaraTransport -> VaraTransport :=
  match p with CmdPort => set_cmd (Some s) | DataPort => set_data (Some s) end.
Definition add_wire (p : Port) (b : list byte) : VaraTransport -> VaraTransport :=
  match p with CmdPort => add_wire_cmd b | DataPort => add_wire_data b end.

(** [as_mut().ok_or(NotConnected)?], then [write_all(..).await?] *)
Definition port_write (p : Port) (bytes : list byte) : Trait unit := fun w =>
  match port_of p (modem w) with
  | None => (Err NotConnected, w)
  | Some s =>
      let (e, s') := sock_write s in
      match e with
      | Some e => (Err (TrIo e), set_modem (set_port p s' (modem w)) w)
      | None => (Ok tt, set_modem (add_wire p bytes (set_port p s' (modem w))) w)
      end
  end.

(** A read of at most [size] bytes that is given up at [deadline] *)
Definition port_read (p : Port) (size : nat) (deadline : Z) : Trait (list byte) := fun w =>
  match port_of p (modem w) with
  | None => (Err NotConnected, w)
  | Some s =>
      let '(o, t, s') := sock_read size (clock w) deadline s in
      let w' := set_clock t (set_modem (set_port p s' (modem w)) w) in
      match o with
      | RdBytes d => (Ok d, w')
      | RdFailed e => (Err (TrIo e), w')
      | RdLate => (Err TrTimeout, w')
      end
  end.

Definition send_cmd (line : list byte) : Trait unit :=
  _ ← port_write CmdPort line;
  _ ← port_write CmdPort [CR];
  update (add_dialogue (Said line)).

(** The first line of the buffer and what follows it *)
Definition take_line (buf : list byte) : option (list byte * list byte) :=
  pos ← position is_eol buf;
  let rest := drop (S pos) buf in
  Some (trim_end_matches is_eol (take (S pos) buf),
        match rest with x :: r => if Byte.eqb x LF then r else rest | [] => rest end).

(** [let mut chunk = [0u8; 512]] *)
Definition CHUNK_SIZE : nat := 512.
Definition DATA_CHUNK_SIZE : nat := 4096.

Fixpoint cmd_line_loop (fuel : nat) (deadline : Z) : Trait (list byte) :=
  match fuel with
  | O => diverge
  | S k =>
      buf ← this cmd_line_buf;
      match take_line buf with
      | Some (line, rest) =>
          _ ← update (fun t => add_dialogue (Heard line) (set_line_buf rest t));
          mret line
      | None =>
          now ← gets clock;
          if deadline <=? now then throw TrTimeout
          else
            chunk ← port_read CmdPort CHUNK_SIZE (now + 500);
            match chunk with
            | [] => throw NotConnected
            | d =>
                _ ← update (fun t => set_line_buf (cmd_line_buf t ++ from_utf8_lossy d) t);
                cmd_line_loop k deadline
            end
      end
  end.

(** What is left to read on a port; a byte of a command becomes at most three *)
Definition port_size (p : Port) (t : VaraTransport) : nat :=
  match port_of p t with Some s => sock_size 3 s | None => 0 end.
Definition cmd_supply (t : VaraTransport) : nat := port_size CmdPort t + length (cmd_line_buf t).

Definition read_cmd_line (deadline : Z) : Trait (list byte) :=
  n ← this (port_size CmdPort); cmd_line_loop (S n) deadline.

Definition OK_TIMEOUT_SECS : Z := 5.

(** ** The trait *)

Definition tcp_connect : Trait Sock := fun w =>
  match connects (modem w) with
  | [] => (Err (TrIo []), w)
  | inl e :: rest => (Err (TrIo e), set_modem (set_connects rest (modem w)) w)
  | inr s :: rest => (Ok s, set_modem (set_connects rest (modem w)) w)
  end.

Section Ops.
Context `{DebugFormat}.

Definition await_ok : Trait unit :=
  now ← gets clock;
  line ← read_cmd_line (now + OK_TIMEOUT_SECS * 1000);
  match parse_line line with
  | VrOk => mret tt
  | VrMissing field => throw (ModemError (bs "MISSING " ++ field))
  | other => throw (ModemError (bs "expected OK, got " ++ debug_response other))
  end.

Fixpoint send_setup (cmds : list (list byte)) : Trait unit :=
  match cmds with
  | [] => mret tt
  | line :: rest => _ ← send_cmd line; _ ← await_ok; send_setup rest
  end.

Definition vara_connect_modem (cfg : TransportConfig) : Trait unit :=
  match kind cfg with
  | Ax25 => throw (ModemError (bs "VaraTransport called with non-VARA TransportKind"))
  | VaraFm | VaraHf =>
      c ← tcp_connect;
      d ← tcp_connect;
      _ ← update (fun t => set_data (Some d) (set_cmd (Some c) t));
      send_setup (setup_commands (tr_local_callsign cfg) (vara_mode (TransportTypes.vara cfg))
                    (bandwidth (TransportTypes.vara cfg)))
  end.

Definition vara_disconnect_modem : Trait unit :=
  update (fun t => set_line_buf [] (set_data None (set_cmd None t))).

Fixpoint connect_loop (fuel : nat) (deadline : Z) : Trait unit :=
  match fuel with
  | O => diverge
  | S k =>
      line ← read_cmd_line deadline;
      match parse_line line with
      | VrPending => connect_loop k deadline
      | VrConnected _ _ => mret tt
      | VrDisconnected => throw (SessionRejected (bs "vara: link dropped during CONNECT"))
      | VrBusyDetected => throw (SessionRejected (bs "channel busy"))
      | VrUnknown _ => connect_loop k deadline
      | other => throw (ModemError (bs "unexpected during CONNECT: " ++ debug_response other))
      end
  end.

Definition connect_command (cfg : SessionConfig) : list byte :=
  bs "CONNECT " ++ local_callsign cfg ++ bs " " ++ remote_callsign cfg.

Definition vara_open_session (cfg : SessionConfig) : Trait unit :=
  _ ← send_cmd (bs "MYCALL " ++ local_callsign cfg);
  _ ← await_ok;
  _ ← send_cmd (connect_command cfg);
  now ← gets clock;
  n ← this cmd_supply;
  connect_loop (S n) (now + 60 * 1000).
End Ops.

(** Draining until the confirmation: at most [remaining] lines *)
Fixpoint close_loop (remaining : nat) (deadline : Z) : Trait unit :=
  match remaining with
  | O => mret tt
  | S k =>
      catch (read_cmd_line deadline) (fun r =>
        match r with
        | inr line =>
            match parse_line line with
            | VrDisconnected => mret tt
            | _ => close_loop k deadline
            end
        | inl TrTimeout => mret tt
        | inl e => throw e
        end)
  end.
Definition DISCONNECT : list byte := Eval vm_compute in bs "DISCONNECT".
Definition vara_close_session : Trait unit :=
  _ ← send_cmd DISCONNECT;
  now ← gets clock;
  close_loop 64 (now + 3 * 1000).

Definition vara_send (bytes : list byte) : Trait unit := port_write DataPort bytes.

(** ** Receiving *)

Inductive Branch : Type := BrData | BrCmd | BrSleep.

(** The branch of [select!]: the port that is ready first within the 100 ms of the
    timer *)
Definition select (p : Pick) (now : Z) (d c : option Z) : Branch :=
  let due o := match o with Some t => Z.max now t | None => now + 100 end in
  match p with
  | PickSpurious => BrCmd
  | _ =>
      if due d <? now + 100 then
        if due c <? due d then BrCmd
        else if (due d <? due c) || match p with PickCmd => false | _ => true end then BrData
        else BrCmd
      else if due c <? now + 100 then BrCmd
      else BrSleep
  end.

Definition next_pick {E} : Vara E Pick := fun w =>
  match picks (modem w) with
  | [] => (Ok PickData, w)
  | p :: ps => (Ok p, set_modem (set_picks ps (modem w)) w)
  end.
(** The command port becomes readable, or seems to. *)
Definition await_cmd_ready {E} (p : Pick) (t : VaraTransport) : Vara E unit := fun w =>
  match p, cmd t ≫= ready_at with
  | PickSpurious, _ | _, None => (Ok tt, w)
  | _, Some at_time => (Ok tt, set_clock (Z.max (clock w) at_time) w)
  end.
Definition sleep_100 {E} : Vara E unit := fun w => (Ok tt, set_clock (clock w + 100) w).

Definition data_closed : list byte := Eval vm_compute in bs "data port closed".
Definition modem_disconnect : list byte := Eval vm_compute in bs "vara modem reports disconnect".

Fixpoint recv_loop (fuel : nat) (deadline : Z) : Trait TransportEvent :=
  match fuel with
  | O => diverge
  | S k =>
      now ← gets clock;
      if deadline <=? now then throw TrTimeout
      else
        t ← this id;
        match data t, cmd t with
        | Some d, Some c =>
            p ← next_pick;
            match select p now (ready_at d) (ready_at c) with
            | BrData =>
                bytes ← port_read DataPort DATA_CHUNK_SIZE (now + 100);
                mret (match bytes with [] => EvDisconnected data_closed | _ => EvData bytes end)
            | BrCmd =>
                _ ← await_cmd_ready p t;
                now ← gets clock;
                catch (read_cmd_line (now + 100)) (fun r =>
                  match r with
                  | inr line =>
                      match parse_line line with
                      | VrDisconnected => mret (EvDisconnected modem_disconnect)
                      | _ => recv_loop k deadline
                      end
                  | inl TrTimeout => recv_loop k deadline
                  | inl e => throw e
                  end)
            | BrSleep => _ ← sleep_100; recv_loop k deadline
            end
        | _, _ => throw NotConnected
        end
  end.

(** Each turn of the loop takes a tenth of a second or a line of the command
    port, or it is the last. *)
Definition tenths (deadline now : Z) : nat :=
  if deadline <=? now then 0%nat else Z.to_nat ((deadline - now) / 100 + 1).
Definition recv_turns (deadline now : Z) (t : VaraTransport) : nat :=
  cmd_supply t + tenths deadline now.
Definition vara_recv (deadline : Z) : Trait TransportEvent :=
  now ← gets clock;
  n ← this (recv_turns deadline now);
  recv_loop (S n) deadline.

(** The trait's defaults: no link of its own to open, nothing to reopen, no ports *)
#[export] Instance vara_transport `{DebugFormat} : Transport VaraTransport := {|
  connect_modem := vara_connect_modem;
  disconnect_modem := vara_disconnect_modem;
  open_session := vara_open_session;
  close_session := vara_close_session;
  send := vara_send;
  recv := vara_recv;
  port_query_supported := fun _ => false;
  open_ax25_link := mret tt;
  reopen_modem_connection := mret tt;
  query_ports := mret tt;
  supply := fun t => (cmd_supply t + port_size DataPort t)%nat |}.

Lemma CHUNK_SIZE_pos : (0 < CHUNK_SIZE)%nat.
Proof. unfold CHUNK_SIZE. lia. Qed.
Lemma DATA_CHUNK_SIZE_pos : (0 < DATA_CHUNK_SIZE)%nat.
Proof. unfold DATA_CHUNK_SIZE. lia. Qed.
#[local] Opaque CHUNK_SIZE DATA_CHUNK_SIZE.

(** ** The modem keeps to its part of the world *)

Lemma polite_vara_update {E} f : polite (update f : Vara E unit).
Proof. by split. Qed.
Lemma polite_vara_this {E A} (f : VaraTransport -> A) : polite (this f : Vara E A).
Proof. by split. Qed.
Lemma polite_port_write p bytes : polite (port_write p bytes).
Proof.
  split; intros w; unfold port_write; destruct (port_of p (modem w)) as [s|]; try done;
    by destruct (sock_write s) as [[e|] s'].
Qed.
Lemma polite_port_read p size deadline : polite (port_read p size deadline).
Proof.
  split; intros w; unfold port_read; destruct (port_of p (modem w)) as [s|]; try done;
    by destruct (sock_read size (clock w) deadline s) as [[[d|e|] t] s'].
Qed.
Lemma polite_vara_tcp_connect : polite tcp_connect.
Proof.
  split; intros w; unfold tcp_connect; by destruct (connects (modem w)) as [|[e|s] rest].
Qed.
Lemma polite_next_pick {E} : polite (next_pick : Vara E Pick).
Proof. split; intros w; unfold next_pick; by destruct (picks (modem w)). Qed.
Lemma polite_await_cmd_ready {E} p t : polite (await_cmd_ready p t : Vara E unit).
Proof.
  split; intros w; unfold await_cmd_ready; destruct p, (cmd t ≫= ready_at); done.
Qed.
Lemma polite_sleep {E} : polite (sleep_100 : Vara E unit).
Proof. by split. Qed.
#[export] Hint Resolve polite_vara_update polite_vara_this polite_port_write polite_port_read
  polite_vara_tcp_connect polite_next_pick polite_await_cmd_ready polite_sleep : polite.

Lemma polite_send_cmd line : polite (send_cmd line).
Proof. unfold send_cmd. polite. Qed.
Lemma polite_cmd_line_loop fuel deadline : polite (cmd_line_loop fuel deadline).
Proof. induction fuel as [|k IH]; cbn [cmd_line_loop]; polite; done. Qed.
#[export] Hint Resolve polite_send_cmd polite_cmd_line_loop : polite.
Lemma polite_read_cmd_line deadline : polite (read_cmd_line deadline).
Proof. unfold read_cmd_line. polite. Qed.
#[export] Hint Resolve polite_read_cmd_line : polite.
Lemma polite_await_ok `{DebugFormat} : polite await_ok.
Proof. unfold await_ok. polite. Qed.
#[export] Hint Resolve polite_await_ok : polite.
Lemma polite_send_setup `{DebugFormat} cmds : polite (send_setup cmds).
Proof. induction cmds as [|c cmds IH]; cbn [send_setup]; polite; done. Qed.
Lemma polite_connect_loop `{DebugFormat} fuel deadline : polite (connect_loop fuel deadline).
Proof. induction fuel as [|k IH]; cbn [connect_loop]; polite; done. Qed.
Lemma polite_close_loop n deadline : polite (close_loop n deadline).
Proof. induction n as [|k IH]; cbn [close_loop]; polite; done. Qed.
Lemma polite_recv_loop fuel deadline : polite (recv_loop fuel deadline).
Proof. induction fuel as [|k IH]; cbn [recv_loop]; polite; done. Qed.
#[export] Hint Resolve polite_send_setup polite_connect_loop polite_close_loop polite_recv_loop
  : polite.

(** ** Reading a line *)

Lemma take_line_length buf line rest :
  take_line buf = Some (line, rest) -> (length rest < length buf)%nat.
Proof.
  unfold take_line. destruct (position is_eol buf) as [pos|] eqn:Hp; [|done].
  intros [= _ <-]. apply position_lt in Hp. pose proof (length_drop buf (S pos)) as Hd.
  destruct (drop (S pos) buf) as [|x r]; [simpl; lia|]. destruct (Byte.eqb x LF); simpl in *; lia.
Qed.

(** What reading a line leaves alone *)
Definition other_part (t : VaraTransport) :=
  (data t, connects t, wire_cmd t, wire_data t).

Lemma port_read_spec p size deadline w :
  (0 < size)%nat ->
  let (r, w') := port_read p size deadline w in
  returns r /\ clock w <= clock w'
  /\ (port_size p (modem w') <= port_size p (modem w))%nat
  /\ cmd_line_buf (modem w') = cmd_line_buf (modem w)
  /\ (p = CmdPort -> other_part (modem w') = other_part (modem w))
  /\ (p = DataPort -> cmd (modem w') = cmd (modem w))
  /\ dialogue (modem w') = dialogue (modem w)
  /\ match r with
     | Ok d => (port_size p (modem w') + 3 * length d <= port_size p (modem w))%nat
               /\ (port_size p (modem w') < port_size p (modem w))%nat
     | Err TrTimeout => deadline <= clock w' /\ modem w' = modem w
     | _ => True
     end.
Proof.
  intros Hsz. unfold port_read. destruct (port_of p (modem w)) as [s|] eqn:Hp; [|split_and!; done].
  pose proof (sock_read_size 3 size (clock w) deadline s Hsz ltac:(lia)) as Hr.
  destruct (sock_read size (clock w) deadline s) as [[o t] s'].
  assert (Hp' : forall w', modem w' = set_port p s' (modem w) ->
    port_size p (modem w') = sock_size 3 s').
  { intros w' Hw. unfold port_size. rewrite Hw. by destruct p. }
  assert (Hps : port_size p (modem w) = sock_size 3 s) by (unfold port_size; by rewrite Hp).
  destruct o as [d|e|]; cbn [modem clock set_clock set_modem fst snd];
    rewrite ?(Hp' (set_clock t (set_modem (set_port p s' (modem w)) w)) eq_refl), ?Hps;
    change (modem (set_clock t (set_modem (set_port p s' (modem w)) w)))
      with (set_port p s' (modem w)) in *.
  - destruct Hr as (H1 & H2 & _ & H3). rewrite (Hp' (set_modem (set_port p s' (modem w)) w) eq_refl) || idtac.
    unfold port_size in *. destruct p; cbn in *; split_and!; try done; lia.
  - destruct Hr as (H1 & H3). unfold port_size in *. destruct p; cbn in *; split_and!; try done; lia.
  - destruct Hr as (-> & ->).
    assert (Hm : set_port p s (modem w) = modem w).
    { destruct (modem w); destruct p; cbn in *; by subst. }
    rewrite Hm. split_and!; try done; lia.
Qed.

Lemma cmd_line_loop_spec fuel deadline : forall w,
  (port_size CmdPort (modem w) < fuel)%nat ->
  let (r, w') := cmd_line_loop fuel deadline w in
  returns r /\ clock w <= clock w'
  /\ other_part (modem w') = other_part (modem w)
  /\ (cmd_supply (modem w') <= cmd_supply (modem w))%nat
  /\ match r with
     | Ok line => (cmd_supply (modem w') < cmd_supply (modem w))%nat
                  /\ dialogue (modem w') = dialogue (modem w) ++ [Heard line]
     | Err e => dialogue (modem w') = dialogue (modem w)
                /\ (e = TrTimeout -> deadline <= clock w' \/ clock w + 500 <= clock w')
     | _ => True
     end.
Proof.
  induction fuel as [|k IH]; intros w Hw; [lia|]. cbn [cmd_line_loop].
  bind1. cbn [this gets]. destruct (take_line _) as [[line rest]|] eqn:Ht.
  - bind1. cbn [update modify mret M_ret]. apply take_line_length in Ht.
    unfold cmd_supply. cbn [modem set_modem add_dialogue set_line_buf cmd_line_buf dialogue clock].
    change (port_size CmdPort (add_dialogue ?a ?t)) with (port_size CmdPort t).
    change (port_size CmdPort (set_line_buf ?b ?t)) with (port_size CmdPort t).
    split_and!; try done; lia.
  - bind1. cbn [gets]. destruct (Z.leb_spec deadline (clock w)); [cbn; split_and!; auto; lia|].
    bind1. pose proof (port_read_spec CmdPort CHUNK_SIZE (clock w + 500) w CHUNK_SIZE_pos) as Hr.
    destruct (port_read CmdPort CHUNK_SIZE (clock w + 500) w) as [[[|x d]|e| |] w1];
      destruct Hr as (Hret & Hc & Hps & Hb & Ho & _ & Hd & Hr); try done.
    + cbn. unfold cmd_supply. rewrite Hb, Ho by done. split_and!; try done; lia.
    + bind1. cbn [update modify].
      set (w2 := set_modem (set_line_buf (cmd_line_buf (modem w1) ++ from_utf8_lossy (x :: d)) (modem w1)) w1).
      assert (Hp2 : port_size CmdPort (modem w2) = port_size CmdPort (modem w1)) by done.
      assert (Hs2 : (cmd_supply (modem w2) <= cmd_supply (modem w))%nat).
      { unfold cmd_supply. rewrite Hp2. cbn [w2 modem set_modem set_line_buf cmd_line_buf].
        rewrite length_app, Hb. pose proof (from_utf8_lossy_length (x :: d)). lia. }
      specialize (IH w2 ltac:(lia)). specialize (Ho eq_refl).
      assert (other_part (modem w2) = other_part (modem w)) as Ho2 by (rewrite <- Ho; done).
      assert (dialogue (modem w2) = dialogue (modem w)) as Hd2 by (rewrite <- Hd; done).
      assert (clock w2 = clock w1) as Hc2 by done. rewrite Ho2, Hd2 in IH.
      destruct (cmd_line_loop k deadline w2) as [r w'].
      destruct IH as (Hret' & Hc' & Ho' & Hs' & Hm). split_and!; try done; try lia.
      destruct r; try done.
      * destruct Hm. split; [lia|done].
      * destruct Hm as [? Hm]. split; [done|]. intros He. specialize (Hm He). lia.
    + unfold cmd_supply. rewrite Hb, Ho by done. split_and!; try done; try lia.
      intros ->. lia.
Qed.

Lemma read_cmd_line_spec deadline w :
  let (r, w') := read_cmd_line deadline w in
  returns r /\ clock w <= clock w'
  /\ other_part (modem w') = other_part (modem w)
  /\ (cmd_supply (modem w') <= cmd_supply (modem w))%nat
  /\ match r with
     | Ok line => (cmd_supply (modem w') < cmd_supply (modem w))%nat
                  /\ dialogue (modem w') = dialogue (modem w) ++ [Heard line]
     | Err e => dialogue (modem w') = dialogue (modem w)
                /\ (e = TrTimeout -> deadline <= clock w' \/ clock w + 500 <= clock w')
     | _ => True
     end.
Proof. unfold read_cmd_line. bind1. cbn [this gets]. apply cmd_line_loop_spec. lia. Qed.

(** ** Every operation ends *)

Lemma total_port_write p bytes : total (port_write p bytes).
Proof.
  intros w. unfold port_write. destruct (port_of p (modem w)) as [s|]; [|done].
  by destruct (sock_write s) as [[e|] s'].
Qed.
Lemma total_vara_update {E} f : total (update f : Vara E unit).
Proof. done. Qed.
Lemma total_vara_this {E A} (f : VaraTransport -> A) : total (this f : Vara E A).
Proof. done. Qed.
Lemma total_vara_tcp_connect : total tcp_connect.
Proof. intros w. unfold tcp_connect. by destruct (connects (modem w)) as [|[e|s] rest]. Qed.
Lemma total_read_cmd_line deadline : total (read_cmd_line deadline).
Proof.
  intros w. pose proof (read_cmd_line_spec deadline w) as Hs.
  destruct (read_cmd_line deadline w). apply Hs.
Qed.
#[export] Hint Resolve total_port_write total_vara_update total_vara_this total_vara_tcp_connect
  total_read_cmd_line : total.
Lemma total_send_cmd line : total (send_cmd line).
Proof. unfold send_cmd. total. Qed.
#[export] Hint Resolve total_send_cmd : total.
Lemma total_await_ok `{DebugFormat} : total await_ok.
Proof. unfold await_ok. total. Qed.
#[export] Hint Resolve total_await_ok : total.
Lemma total_send_setup `{DebugFormat} cmds : total (send_setup cmds).
Proof. induction cmds as [|c cmds IH]; cbn [send_setup]; total; done. Qed.
#[export] Hint Resolve total_send_setup : total.

Lemma connect_loop_returns `{DebugFormat} fuel deadline : forall w,
  (cmd_supply (modem w) < fuel)%nat -> returns (connect_loop fuel deadline w).1.
Proof.
  induction fuel as [|k IH]; intros w Hw; [lia|]. cbn [connect_loop].
  apply returns_bind_at; [apply total_read_cmd_line|]. intros line w1 H1.
  pose proof (read_cmd_line_spec deadline w) as Hs. rewrite H1 in Hs.
  destruct Hs as (_ & _ & _ & _ & Hs & _).
  destruct (parse_line line); try done; apply IH; lia.
Qed.

Lemma total_open_session `{DebugFormat} cfg : total (vara_open_session cfg).
Proof.
  unfold vara_open_session. do 4 (apply total_bind; [auto with total|]; intros ?).
  intros w. apply returns_bind_at; [done|]. intros n w1 [= <- <-]. apply connect_loop_returns. lia.
Qed.

Lemma total_close_loop n deadline : total (close_loop n deadline).
Proof. induction n as [|k IH]; cbn [close_loop]; total; done. Qed.
#[export] Hint Resolve total_close_loop : total.
Lemma total_close_session : total vara_close_session.
Proof. unfold vara_close_session. total. Qed.

(** ** Receiving *)

Lemma tenths_step d now now' :
  now < d -> now + 100 <= now' -> (tenths d now' < tenths d now)%nat.
Proof.
  intros Hd Hn. unfold tenths. rewrite (proj2 (Z.leb_gt d now)) by lia.
  pose proof (Z.div_mod (d - now) 100). pose proof (Z.mod_pos_bound (d - now) 100).
  destruct (Z.leb_spec d now'); [lia|].
  pose proof (Z.div_mod (d - now') 100). pose proof (Z.mod_pos_bound (d - now') 100). lia.
Qed.
Lemma tenths_le d now now' : now <= now' -> (tenths d now' <= tenths d now)%nat.
Proof.
  intros Hn. unfold tenths. destruct (Z.leb_spec d now'); [lia|].
  rewrite (proj2 (Z.leb_gt d now)) by lia.
  pose proof (Z.div_le_mono (d - now') (d - now) 100 ltac:(lia) ltac:(lia)). lia.
Qed.

(** The bytes of the session still to come, up to a failure of the stream *)
Definition session_bytes (t : VaraTransport) : list byte :=
  match data t with Some s => bytes_ahead (to_read s) | None => [] end.

Lemma select_data p now d c :
  select p now d c = BrData -> exists t, d = Some t /\ Z.max now t < now + 100.
Proof.
  unfold select. destruct p; [| |done];
    (destruct (Z.ltb_spec (match d with Some t => Z.max now t | None => now + 100 end) (now + 100));
     [|by destruct (_ <? _)]; destruct d as [t|]; [|lia]; eauto).
Qed.

Lemma await_cmd_ready_spec {E} p t w :
  let (r, w') := (await_cmd_ready p t : Vara E unit) w in
  r = Ok tt /\ clock w <= clock w' /\ modem w' = modem w.
Proof.
  unfold await_cmd_ready. destruct p, (cmd t ≫= ready_at); cbn; split_and!; try done; lia.
Qed.

Lemma next_pick_spec {E} w :
  exists p w', (next_pick : Vara E Pick) w = (Ok p, w') /\ clock w' = clock w
    /\ exists ps, modem w' = set_picks ps (modem w).
Proof.
  unfold next_pick. destruct (picks (modem w)) as [|p ps] eqn:E1.
  - exists PickData, w. split_and!; [done..|]. exists []. by destruct (modem w); cbn in *; subst.
  - exists p. eexists. split_and!; [done..|]. by exists ps.
Qed.

(** A read of the data port that is ready gives its bytes. *)
Lemma data_read_spec w s t :
  data (modem w) = Some s -> ready_at s = Some t -> Z.max (clock w) t < clock w + 100 ->
  let (r, w') := port_read DataPort DATA_CHUNK_SIZE (clock w + 100) w in
  clock w <= clock w' /\ cmd (modem w') = cmd (modem w)
  /\ cmd_line_buf (modem w') = cmd_line_buf (modem w)
  /\ (port_size DataPort (modem w') < port_size DataPort (modem w))%nat
  /\ dialogue (modem w') = dialogue (modem w)
  /\ match r with
     | Ok d => session_bytes (modem w) = d ++ session_bytes (modem w')
     | Err e => exists m, e = TrIo m
     | _ => False
     end.
Proof.
  intros Hs Hr Ht. unfold port_read. cbn [port_of]. rewrite Hs.
  pose proof (sock_read_size 3 DATA_CHUNK_SIZE (clock w) (clock w + 100) s DATA_CHUNK_SIZE_pos
    ltac:(lia)) as Hsz.
  unfold ready_at in Hr. unfold sock_read in *. destruct (to_read s) as [|[t' ev] rest] eqn:Hq; [done|].
  injection Hr as ->.
  assert ((t <=? clock w) || (t <? clock w + 100) = true) as Hd.
  { apply orb_true_iff. right. apply Z.ltb_lt. lia. }
  rewrite Hd in *. unfold port_size, session_bytes. cbn [port_of]. rewrite Hs.
  destruct ev as [d|e]; cbn in Hsz |- *; split_and!; try done; try lia; [|eauto].
  destruct Hsz as (_ & _ & Hb & _). by rewrite Hq.
Qed.

(** What a reception does to the modem *)
Definition total_supply (t : VaraTransport) : nat := cmd_supply t + port_size DataPort t.
Definition received_ok (w : World VaraTransport) (r : Result TransportError TransportEvent)
    (w' : World VaraTransport) : Prop :=
  returns r /\ (exists ls, dialogue (modem w') = dialogue (modem w) ++ map Heard ls)
  /\ match r with
     | Ok (EvData d) => (total_supply (modem w') < total_supply (modem w))%nat
         /\ d <> [] /\ session_bytes (modem w) = d ++ session_bytes (modem w')
     | Ok (EvDisconnected _) => (total_supply (modem w') < total_supply (modem w))%nat
         /\ session_bytes (modem w') = session_bytes (modem w)
     | Err e => (exists m, e = TrIo m) \/ session_bytes (modem w') = session_bytes (modem w)
     | _ => True
     end.

(** A turn that only reads the command port leaves the data to the turns after it. *)
Lemma received_ok_after w w1 r w' ls :
  data (modem w1) = data (modem w) -> (cmd_supply (modem w1) <= cmd_supply (modem w))%nat ->
  dialogue (modem w1) = dialogue (modem w) ++ map Heard ls ->
  received_ok w1 r w' -> received_ok w r w'.
Proof.
  intros Hd Hs Hl (Hr & [ls' Hl'] & Hm).
  assert (Hb : session_bytes (modem w1) = session_bytes (modem w)) by (unfold session_bytes; by rewrite Hd).
  assert (Ht : (total_supply (modem w1) <= total_supply (modem w))%nat).
  { unfold total_supply, port_size. cbn [port_of]. rewrite Hd. lia. }
  split; [done|]. split; [exists (ls ++ ls'); by rewrite Hl', Hl, map_app, app_assoc|].
  destruct r as [[d|why]|e| |]; try done; rewrite ?Hb in Hm.
  - destruct Hm as (? & ? & ?). split_and!; [lia|done|done].
  - destruct Hm as (? & ?). split_and!; [lia|done].
  - done.
Qed.

Lemma received_ok_error w e w' ls :
  data (modem w') = data (modem w) -> dialogue (modem w') = dialogue (modem w) ++ map Heard ls ->
  received_ok w (Err e) w'.
Proof.
  intros Hd Hl. split; [done|]. split; [by exists ls|]. right. unfold session_bytes. by rewrite Hd.
Qed.

Lemma recv_data_turn w s t :
  data (modem w) = Some s -> ready_at s = Some t -> Z.max (clock w) t < clock w + 100 ->
  let (r, w') := (bytes ← port_read DataPort DATA_CHUNK_SIZE (clock w + 100);
     mret (match bytes with [] => EvDisconnected data_closed | _ => EvData bytes end)) w in
  received_ok w r w'.
Proof.
  intros Hs Hr Ht. pose proof (data_read_spec w s t Hs Hr Ht) as Hd. bind1.
  destruct (port_read DataPort _ _ w) as [r w']. destruct Hd as (_ & Hc & Hb & Hp & Hl & Hm).
  assert (Hsup : (total_supply (modem w') < total_supply (modem w))%nat).
  { unfold total_supply, cmd_supply. rewrite Hb. unfold port_size at 1 3. cbn [port_of].
    rewrite Hc. lia. }
  assert (Hls : exists ls, dialogue (modem w') = dialogue (modem w) ++ map Heard ls).
  { exists []. by rewrite app_nil_r. }
  destruct r as [[|x d]|e| |]; try done; (split; [done|]; split; [done|]; try done).
  by left.
Qed.

(** A turn in which the command port was taken to be readable *)
Lemma recv_cmd_turn k deadline p w w1 :
  (forall w3, (recv_turns deadline (clock w3) (modem w3) < k)%nat ->
     let (r, w') := recv_loop k deadline w3 in received_ok w3 r w') ->
  clock w1 = clock w -> data (modem w1) = data (modem w) -> cmd_supply (modem w1) = cmd_supply (modem w) ->
  dialogue (modem w1) = dialogue (modem w) -> clock w < deadline ->
  (recv_turns deadline (clock w) (modem w) < S k)%nat ->
  let (r, w') := (_ ← await_cmd_ready p (modem w);
    now ← gets clock;
    catch (read_cmd_line (now + 100)) (fun r =>
      match r with
      | inr line =>
          match parse_line line with
          | VrDisconnected => mret (EvDisconnected modem_disconnect)
          | _ => recv_loop k deadline
          end
      | inl TrTimeout => recv_loop k deadline
      | inl e => throw e
      end)) w1 in received_ok w r w'.
Proof.
  intros IH Hck Hda1 Hcs1 Hdi1 Hnow Hw. unfold recv_turns in Hw.
  bind1. pose proof (@await_cmd_ready_spec TransportError p (modem w) w1) as Ha.
  destruct (await_cmd_ready p (modem w) w1) as [ra w2]. destruct Ha as (-> & Hck2 & Hm2).
  bind1. cbn [gets]. unfold catch. pose proof (read_cmd_line_spec (clock w2 + 100) w2) as Hl.
  destruct (read_cmd_line (clock w2 + 100) w2) as [r w3].
  destruct Hl as (Hret & Hck3 & Ho & Hs & Hl). rewrite Hm2 in *.
  assert (Hda3 : data (modem w3) = data (modem w)) by (unfold other_part in Ho; congruence).
  assert (Hnext : forall ls, dialogue (modem w3) = dialogue (modem w) ++ map Heard ls ->
    (cmd_supply (modem w3) + tenths deadline (clock w3)
      < cmd_supply (modem w) + tenths deadline (clock w))%nat ->
    let (r, w') := recv_loop k deadline w3 in received_ok w r w').
  { intros ls Hls Hlt. specialize (IH w3 ltac:(unfold recv_turns; lia)). destruct (recv_loop k deadline w3).
    by apply (received_ok_after w w3 _ _ ls); [|lia| |]. }
  assert (Htle : (tenths deadline (clock w3) <= tenths deadline (clock w))%nat) by (apply tenths_le; lia).
  destruct r as [line|e| |]; try done.
  - destruct Hl as [Hlt Hdi]. rewrite Hdi1 in Hdi.
    destruct (parse_line line); try (by apply (Hnext [line]); [|lia]).
    split; [done|]. split; [by exists [line]|].
    split; [unfold total_supply, port_size at 1 2; cbn [port_of]; rewrite Hda3; lia|].
    unfold session_bytes. by rewrite Hda3.
  - destruct Hl as [Hdi Hto]. rewrite Hdi1 in Hdi.
    assert (Hdi' : dialogue (modem w3) = dialogue (modem w) ++ map Heard []) by (by rewrite app_nil_r).
    destruct e; try (by apply (received_ok_error w _ w3 [])).
    apply (Hnext []); [done|]. specialize (Hto eq_refl).
    pose proof (tenths_step deadline (clock w) (clock w3)). lia.
Qed.

Lemma recv_loop_spec fuel deadline : forall w,
  (recv_turns deadline (clock w) (modem w) < fuel)%nat ->
  let (r, w') := recv_loop fuel deadline w in received_ok w r w'.
Proof.
  induction fuel as [|k IH]; intros w Hw; [lia|]. cbn [recv_loop]. unfold recv_turns in Hw.
  bind1. cbn [gets]. destruct (Z.leb_spec deadline (clock w)).
  { apply (received_ok_error w TrTimeout w []); [done|by rewrite app_nil_r]. }
  bind1. cbn [this gets id].
  destruct (data (modem w)) as [d|] eqn:Hd;
    [|apply (received_ok_error w NotConnected w []); [done|by rewrite app_nil_r]].
  destruct (cmd (modem w)) as [c|] eqn:Hc;
    [|apply (received_ok_error w NotConnected w []); [done|by rewrite app_nil_r]].
  bind1. destruct (@next_pick_spec TransportError w) as (p & w1 & -> & Hck & ps & Hm1).
  assert (Hw1 : data (modem w1) = data (modem w) /\ cmd_supply (modem w1) = cmd_supply (modem w)
    /\ dialogue (modem w1) = dialogue (modem w)) by (rewrite Hm1; done).
  destruct Hw1 as (Hda1 & Hcs1 & Hdi1).
  destruct (select p (clock w) (ready_at d) (ready_at c)) eqn:Hsel.
  - destruct (select_data _ _ _ _ Hsel) as (t & Hr & Ht). rewrite <- Hck in Ht |- *.
    pose proof (recv_data_turn w1 d t ltac:(congruence) Hr Ht) as Hrd.
    revert Hrd. match goal with |- (let (_, _) := ?m in _) -> _ => destruct m as [r w'] end.
    intros Hrd. apply (received_ok_after w w1 r w' []); [done|lia| |done].
    by rewrite app_nil_r.
  - apply (recv_cmd_turn k deadline p w w1 IH); (done || unfold recv_turns; lia).
  - bind1. cbn [sleep_100]. set (w2 := set_clock _ w1).
    assert (Hck2 : clock w2 = clock w + 100) by (cbn; lia).
    assert (Hm2 : modem w2 = modem w1) by done.
    pose proof (tenths_step deadline (clock w) (clock w2)) as Hst.
    specialize (IH w2). unfold recv_turns in IH. rewrite Hm2, Hcs1 in IH. specialize (IH ltac:(lia)).
    destruct (recv_loop k deadline w2).
    apply (received_ok_after w w2 _ _ []); [by rewrite Hm2|rewrite Hm2; lia| |done].
    by rewrite Hm2, app_nil_r.
Qed.

Lemma vara_recv_spec deadline w :
  let (r, w') := vara_recv deadline w in received_ok w r w'.
Proof. unfold vara_recv. bind1. cbn [gets]. bind1. cbn [this gets]. apply recv_loop_spec. lia. Qed.

(** The implementation keeps what the session code relies on. *)
#[export] Instance vara_laws `{DebugFormat} : TransportLaws VaraTransport.
Proof.
  split; cbn [connect_modem disconnect_modem open_session close_session send recv open_ax25_link
    reopen_modem_connection query_ports vara_transport]; intros; try (by repeat split); try split.
  - unfold vara_connect_modem. total.
  - unfold vara_connect_modem. polite.
  - apply total_open_session.
  - unfold vara_open_session. polite.
  - apply total_close_session.
  - unfold vara_close_session. polite.
  - unfold vara_send. total.
  - unfold vara_send. polite.
  - intros w. pose proof (vara_recv_spec deadline w) as Hs. destruct (vara_recv deadline w). apply Hs.
  - unfold vara_recv. polite.
  - pose proof (vara_recv_spec deadline w) as Hs. rewrite H0 in Hs. destruct Hs as (_ & _ & Hs).
    cbn [supply vara_transport]. unfold total_supply in Hs. destruct ev; apply Hs.
Qed.

(** The modem implements the interface the session code is proved against:
    every operation ends with a value or an error and keeps to the modem's part of
    the shared world, and each reception uses up what is left to receive. *)
Theorem vara_implements_transport `{DebugFormat} : TransportLaws VaraTransport.
Proof. apply vara_laws. Qed.

(** C27: a reception returns the next bytes of the data port, in order, and the bytes
    not returned stay to be received: neither the command lines read meanwhile, nor
    a timeout, nor the choices of [select!] lose or reorder any.  Only a failure of
    the stream itself may. *)
Theorem recv_keeps_data deadline w :
  let (r, w') := vara_recv deadline w in
  returns r
  /\ match r with
     | Ok (EvData d) => d <> [] /\ session_bytes (modem w) = d ++ session_bytes (modem w')
     | Err (TrIo _) => True
     | _ => session_bytes (modem w') = session_bytes (modem w)
     end.
Proof.
  pose proof (vara_recv_spec deadline w) as Hs. destruct (vara_recv deadline w) as [r w'].
  destruct Hs as (Hr & _ & Hs). split; [done|].
  destruct r as [[d|why]|e| |]; try done; try tauto.
  destruct Hs as [[m ->]|Hs]; [done|]. by destruct e.
Qed.

(** ** The dialogue on the command port *)

(** The bytes of what was said: each command ends with a carriage return. *)
Definition said_bytes (tl : list CmdAct) : list byte :=
  concat (map (fun a => match a with Said line => line ++ [CR] | Heard _ => [] end) tl).
Lemma said_bytes_app tl tl2 : said_bytes (tl ++ tl2) = said_bytes tl ++ said_bytes tl2.
Proof. unfold said_bytes. by rewrite map_app, concat_app. Qed.
Lemma said_bytes_heard ls : said_bytes (map Heard ls) = [].
Proof. unfold said_bytes. by induction ls. Qed.

(** The dialogue has gained [tl], and the command port the bytes of it and [part], a
    command that could not be written to its end. *)
Definition told (t t' : VaraTransport) (tl : list CmdAct) (part : list byte) : Prop :=
  dialogue t' = dialogue t ++ tl /\ wire_cmd t' = wire_cmd t ++ said_bytes tl ++ part.

(** [m] adds to the dialogue a tail that [R] relates to its outcome, and to the wire the
    commands of it. *)
Definition talks_at {E A} (w : World VaraTransport) (m : Vara E A) (R : E + A -> list CmdAct -> Prop) : Prop :=
  exists tl part, told (modem w) (modem (m w).2) tl part
  /\ match (m w).1 with
     | Ok a => R (inr a) tl /\ part = []
     | Err e => R (inl e) tl
     | Panic | Spin => False
     end.
Definition talks {E A} (m : Vara E A) (R : E + A -> list CmdAct -> Prop) : Prop := forall w, talks_at w m R.

Lemma told_heard t t' ls :
  dialogue t' = dialogue t ++ map Heard ls -> other_part t' = other_part t -> told t t' (map Heard ls) [].
Proof.
  intros Hd Ho. split; [done|]. rewrite said_bytes_heard, !app_nil_r. by injection Ho.
Qed.
Lemma told_silent t t' : dialogue t' = dialogue t -> wire_cmd t' = wire_cmd t -> told t t' [] [].
Proof. intros Hd Hw. split; by rewrite ?Hd, ?Hw, ?app_nil_r. Qed.

Lemma talks_mono {E A} (m : Vara E A) (R R' : E + A -> list CmdAct -> Prop) :
  talks m R -> (forall x tl, R x tl -> R' x tl) -> talks m R'.
Proof.
  intros Hm HR w. destruct (Hm w) as (tl & part & Ht & Hr). exists tl, part. split; [done|].
  destruct (m w).1 as [a|e| |]; try done; [destruct Hr; split; [|done]|]; by apply HR.
Qed.
Lemma talks_bind {E A B} (m : Vara E A) (f : A -> Vara E B) R1 R2 :
  talks m R1 -> (forall a, talks (f a) (R2 a)) -> talks (m ≫= f) (then_does R1 R2).
Proof.
  intros Hm Hf w. destruct (Hm w) as (tl & part & Ht & Hr). unfold talks_at, mbind, M_bind.
  destruct (m w) as [[a|e| |] w'] eqn:Em; cbn [fst snd] in *; try done.
  - destruct Hr as [Hr ->]. destruct Ht as [Ht Hw].
    destruct (Hf a w') as (tl2 & part2 & [Ht2 Hw2] & Hr2). exists (tl ++ tl2), part2. split.
    { split; [by rewrite Ht2, Ht, app_assoc|]. by rewrite Hw2, Hw, said_bytes_app, app_nil_r, <- !app_assoc. }
    destruct (f a w').1; try done; [destruct Hr2; split; [|done]|]; right; by exists a, tl, tl2.
  - exists tl, part. split; [done|]. left. by exists e.
Qed.
Lemma talks_ret {E A} (a : A) : talks (mret a : Vara E A) (fun x tl => x = inr a /\ tl = []).
Proof. intros w. exists [], []. split; [by apply told_silent|done]. Qed.
Lemma talks_throw {E A} (e : E) : talks (throw e : Vara E A) (fun x tl => x = inl e /\ tl = []).
Proof. intros w. exists [], []. split; [by apply told_silent|done]. Qed.
Lemma talks_gets {E A B} (f : World VaraTransport -> A) (k : A -> Vara E B) R :
  (forall a, talks (k a) R) -> talks (gets f ≫= k) R.
Proof. intros Hk w. apply (Hk (f w) w). Qed.
(** A command that was said is on the wire, ended by a carriage return. *)
Lemma send_cmd_talks line :
  talks (send_cmd line) (fun x tl => (exists e, x = inl e) /\ tl = [] \/ x = inr tt /\ tl = [Said line]).
Proof.
  intros w. unfold talks_at, send_cmd, mbind, M_bind, port_write. cbn [port_of].
  destruct (cmd (modem w)) as [s|] eqn:Hc; [|exists [], []; split; [by apply told_silent|left; by split; [eexists|]]].
  destruct (sock_write s) as [[er|] s1]; [exists [], []; split; [by apply told_silent|left; by split; [eexists|]]|].
  cbn [modem set_modem cmd add_wire set_port set_cmd add_wire_cmd].
  destruct (sock_write s1) as [[er|] s2].
  - exists [], line. split; [split; cbn; by rewrite ?app_nil_r|left; by split; [eexists|]].
  - exists [Said line], []. split; [split; [done|]|split; [by right|done]].
    unfold said_bytes. cbn. by rewrite !app_nil_r, <- app_assoc.
Qed.

Definition one_line (x : TransportError + list byte) (tl : list CmdAct) : Prop :=
  match x with inr line => tl = [Heard line] | inl _ => tl = [] end.
Lemma read_cmd_line_talks deadline : talks (read_cmd_line deadline) one_line.
Proof.
  intros w. unfold talks_at. pose proof (read_cmd_line_spec deadline w) as Hs.
  destruct (read_cmd_line deadline w) as [[line|e| |] w']; destruct Hs as (Hr & _ & Ho & _ & Hs); try done.
  - exists [Heard line], []. split; [apply (told_heard _ _ [line]); [apply Hs|done]|done].
  - exists [], []. split; [|done]. apply (told_heard _ _ []); [|done]. rewrite app_nil_r. apply Hs.
Qed.

(** The answer to a command: [OK], or something else, or nothing in time *)
Definition ok_heard (x : TransportError + unit) (tl : list CmdAct) : Prop :=
  match x with
  | inr _ => exists l, parse_line l = VrOk /\ tl = [Heard l]
  | inl _ => tl = [] \/ exists l, parse_line l <> VrOk /\ tl = [Heard l]
  end.

Lemma await_ok_talks `{DebugFormat} : talks await_ok ok_heard.
Proof.
  unfold await_ok. apply talks_gets. intros now. eapply talks_mono.
  - apply (talks_bind _ _ one_line (fun line x tl => tl = [] /\
      match x with inr _ => parse_line line = VrOk | inl _ => parse_line line <> VrOk end));
      [apply read_cmd_line_talks|].
    intros line w. exists [], []. split; [|by destruct (parse_line line)].
    apply told_silent; by destruct (parse_line line).
  - intros x tl [(e & -> & ->)|(line & t1 & t2 & -> & -> & -> & Hx)]; [by left|].
    destruct x as [e|[]]; [right|]; by exists line.
Qed.

(** Commands each said and acknowledged before the next *)
Inductive acked : list (list byte) -> list CmdAct -> Prop :=
| acked_nil : acked [] []
| acked_cons c l cs tl : parse_line l = VrOk -> acked cs tl -> acked (c :: cs) (Said c :: Heard l :: tl).

(** Either all commands are acknowledged, or the dialogue stops at the first that
    could not be sent or is not *)
Definition setup_dialogue (cmds : list (list byte)) (x : TransportError + unit) (tl : list CmdAct) : Prop :=
  match x with
  | inr _ => acked cmds tl
  | inl _ => exists done t, acked done t
      /\ (tl = t /\ done `prefix_of` cmds
          \/ exists c u, (done ++ [c]) `prefix_of` cmds /\ tl = t ++ Said c :: u
             /\ (u = [] \/ exists l, parse_line l <> VrOk /\ u = [Heard l]))
  end.

Lemma send_setup_talks `{DebugFormat} cmds : talks (send_setup cmds) (setup_dialogue cmds).
Proof.
  induction cmds as [|c cmds IH]; cbn [send_setup].
  { eapply talks_mono; [apply talks_ret|]. intros x tl [-> ->]. constructor. }
  eapply talks_mono.
  - apply talks_bind; [apply send_cmd_talks|]. intros ?.
    apply talks_bind; [apply await_ok_talks|]. intros ?. apply IH.
  - intros x tl [(e & -> & [[_ ->]|[? _]])|(? & t1 & t2 & -> & H1 & H2)]; [|done|].
    { exists [], []. split; [constructor|]. left. split; [done|apply prefix_nil]. }
    destruct H1 as [[[e ?] _]|[_ ->]]; [done|].
    destruct H2 as [(e & -> & H2)|([] & t3 & t4 & -> & (l & Hl & ->) & H2)].
    { exists [], []. split; [constructor|]. right. exists c, t2.
      split; [by exists cmds|]. split; [done|]. exact H2. }
    destruct x as [e|[]]; [|by constructor].
    destruct H2 as (done & t & Ha & H2). exists (c :: done), (Said c :: Heard l :: t).
    split; [by constructor|].
    destruct H2 as [[-> Hp]|(c' & u & Hp & -> & Hu)].
    + left. split; [done|]. by apply prefix_cons.
    + right. exists c', u. split; [by apply prefix_cons|done].
Qed.

(** What the modem may say before it is connected *)
Definition waiting (line : list byte) : bool :=
  match parse_line line with VrPending | VrUnknown _ => true | _ => false end.
Definition connected_line (line : list byte) : bool :=
  match parse_line line with VrConnected _ _ => true | _ => false end.

Definition connect_dialogue (x : TransportError + unit) (tl : list CmdAct) : Prop :=
  exists ls, Forall (fun l => waiting l = true) ls /\
  match x with
  | inr _ => exists c, connected_line c = true /\ tl = map Heard (ls ++ [c])
  | inl _ => tl = map Heard ls
             \/ exists c, waiting c = false /\ connected_line c = false /\ tl = map Heard (ls ++ [c])
  end.

Lemma connect_loop_talks `{DebugFormat} fuel deadline : forall w,
  (cmd_supply (modem w) < fuel)%nat -> talks_at w (connect_loop fuel deadline) connect_dialogue.
Proof.
  induction fuel as [|k IH]; intros w Hw; [lia|]. unfold talks_at. cbn [connect_loop]. unfold mbind, M_bind.
  pose proof (read_cmd_line_spec deadline w) as Hs.
  destruct (read_cmd_line deadline w) as [[l|e| |] w']; destruct Hs as (Hr & _ & Ho & _ & Hs); try done.
  2: { destruct Hs as [Hs _]. exists [], []. split; [apply (told_heard _ _ []); [by rewrite app_nil_r|done]|].
       exists []. by auto. }
  destruct Hs as [Hlt Hd]. pose proof (told_heard _ _ [l] Hd Ho) as [_ Hwire].
  assert (Hnext : waiting l = true -> talks_at w (fun _ => connect_loop k deadline w') connect_dialogue).
  { intros Hl. destruct (IH w' ltac:(lia)) as (tl & part & [Ht Hx] & Hm). exists (Heard l :: tl), part.
    split; [split; [by rewrite Ht, Hd, <- app_assoc|]|].
    { rewrite Hx, Hwire, app_nil_r. change (Heard l :: tl) with ([Heard l] ++ tl).
      by rewrite said_bytes_app, <- !app_assoc. }
    assert (Hcons : forall x, connect_dialogue x tl -> connect_dialogue x (Heard l :: tl)).
    { intros x (ls & Hls & Hy). exists (l :: ls). split; [by constructor|].
      destruct x as [e|[]].
      - destruct Hy as [->|(c & ? & ? & ->)]; [by left|]. right. by exists c.
      - destruct Hy as (c & ? & ->). by exists c. }
    destruct (connect_loop k deadline w').1; try done; [|by auto]. destruct Hm. auto. }
  assert (Hstop : forall e, waiting l = false -> connected_line l = false ->
    talks_at w (fun _ => (Err e, w')) connect_dialogue).
  { intros e Hwl Hcl. exists [Heard l], []. split; [by apply (told_heard _ _ [l])|]. exists []. split; [constructor|].
    right. by exists l. }
  unfold waiting, connected_line in *.
  destruct (parse_line l) eqn:El; try (by apply Hnext); try (by apply Hstop).
  exists [Heard l], []. split; [by apply (told_heard _ _ [l])|]. split; [|done]. exists []. split; [constructor|]. exists l.
  unfold connected_line. by rewrite El.
Qed.

(** The whole exchange of [open_session] *)
Definition session_dialogue (cfg : SessionConfig) (x : TransportError + unit) (tl : list CmdAct) : Prop :=
  (exists e, x = inl e) /\ setup_dialogue [bs "MYCALL " ++ local_callsign cfg] x tl
  \/ exists t u, acked [bs "MYCALL " ++ local_callsign cfg] t
     /\ ((exists e, x = inl e) /\ tl = t
         \/ tl = t ++ Said (connect_command cfg) :: u /\ connect_dialogue x u).

Lemma open_session_talks `{DebugFormat} cfg : talks (vara_open_session cfg) (session_dialogue cfg).
Proof.
  unfold vara_open_session. eapply talks_mono.
  - apply talks_bind; [apply send_cmd_talks|]. intros ?.
    apply talks_bind; [apply await_ok_talks|]. intros ?.
    apply talks_bind; [apply send_cmd_talks|]. intros ?.
    apply talks_gets. intros now.
    instantiate (1 := fun _ => connect_dialogue). intros w. unfold talks_at. bind1. cbn [this gets].
    apply connect_loop_talks. lia.
  - intros x tl [(e & -> & [[_ ->]|[? _]])|(? & t1 & t2 & -> & H1 & H2)]; [|done|].
    { left. split; [eauto|]. exists [], []. split; [constructor|]. left. split; [done|apply prefix_nil]. }
    destruct H1 as [[[e ?] _]|[_ ->]]; [done|].
    destruct H2 as [(e & -> & H2)|([] & t3 & t4 & -> & (l & Hl & ->) & H2)].
    { left. split; [eauto|]. exists [], []. split; [constructor|]. right. exists (bs "MYCALL " ++ local_callsign cfg), t2.
      split; [by exists []|]. split; [done|exact H2]. }
    right. exists [Said (bs "MYCALL " ++ local_callsign cfg); Heard l].
    destruct H2 as [(e & -> & [[_ ->]|[? _]])|([] & t5 & t6 & -> & H3 & H2)]; [|done|].
    + exists []. split; [repeat constructor; done|]. left. eauto.
    + destruct H3 as [[[e ?] _]|[_ ->]]; [done|]. exists t6.
      split; [repeat constructor; done|]. right. done.
Qed.

(** C26: the modem is set up and a session opened only by an acknowledged exchange.
    Each setup command, in order, is sent once and waits for its OK; the CONNECT
    goes out only after the callsign's OK; and the session counts as open only when
    the modem reported CONNECTED, after nothing but PENDING and unknown lines.  The
    command port is given exactly the commands said, each ended by a carriage return,
    unless a write fails, which may leave one unfinished. *)
Theorem session_acknowledged `{DebugFormat} cmds cfg :
  talks (send_setup cmds) (setup_dialogue cmds)
  /\ talks (vara_open_session cfg) (session_dialogue cfg).
Proof. split; [apply send_setup_talks|apply open_session_talks]. Qed.

(** ** Lines in any chunking *)

(** A line of plain text *)
Definition plain (l : list byte) : Prop := forallb (fun b => is_ascii b && negb (is_eol b)) l = true.

(** Events that come in time: each within 500 ms of the one before, all before the
    deadline, and in ASCII *)
Fixpoint prompt (now deadline : Z) (es : list (Z * SockEvent)) : Prop :=
  match es with
  | [] => True
  | (t, SkData d) :: rest =>
      Z.max now t < deadline /\ t < now + 500 /\ d <> [] /\ forallb is_ascii d = true
      /\ prompt (Z.max now t) deadline rest
  | (_, SkError _) :: _ => False
  end.

(** The command port has these bytes left to give, some of them read already. *)
Definition speaks (deadline : Z) (w : World VaraTransport) (bytes : list byte) : Prop :=
  exists es ws, cmd (modem w) = Some (mkSock es ws) /\ prompt (clock w) deadline es
    /\ cmd_line_buf (modem w) ++ bytes_ahead es = bytes.

Lemma take_line_plain l rest :
  plain l -> match rest with x :: _ => Byte.eqb x LF = false | [] => True end ->
  take_line (l ++ CR :: rest) = Some (l, rest).
Proof.
  intros Hl Hr. unfold take_line.
  assert (Hnone : forallb (fun b => negb (is_eol b)) l = true).
  { unfold plain in Hl. rewrite forallb_forall in *. intros x Hx. by apply Hl, andb_true_iff in Hx as [_ Hx]. }
  rewrite (position_app_first is_eol l CR rest) by done. cbn [mbind option_bind].
  replace (l ++ CR :: rest) with ((l ++ [CR]) ++ rest) by (by rewrite <- app_assoc).
  rewrite take_app_length', drop_app_length' by len.
  f_equal. f_equal.
  - unfold trim_end_matches. rewrite rev_unit. cbn [trim_while]. cbn -[rev].
    rewrite <- (trim_end_matches_none is_eol l) at 2; [done|]. intros b Hb.
    rewrite forallb_forall in Hnone. apply negb_true_iff, Hnone. by apply list_elem_of_In.
  - destruct rest as [|x r]; [done|]. by rewrite Hr.
Qed.

Lemma take_line_none buf l : plain (buf ++ l) -> take_line buf = None.
Proof.
  unfold plain, take_line. rewrite forallb_app. intros [Hb _]%andb_true_iff.
  rewrite (proj2 (position_None is_eol buf)); [done|]. rewrite forallb_forall in *.
  intros x Hx. by apply Hb, andb_true_iff in Hx as [_ Hx].
Qed.

Lemma ascii_lossy d : forallb is_ascii d = true -> from_utf8_lossy d = d.
Proof. intros. by apply from_utf8_lossy_valid, ascii_utf8_valid. Qed.

(** A read of the command port when its next event is in time *)
Lemma cmd_read_prompt deadline w t d es ws :
  cmd (modem w) = Some (mkSock ((t, SkData d) :: es) ws) ->
  prompt (clock w) deadline ((t, SkData d) :: es) ->
  exists x y es' w', d = (x :: y) ++ bytes_ahead es' /\ forallb is_ascii (x :: y) = true
    /\ port_read CmdPort CHUNK_SIZE (clock w + 500) w = (Ok (x :: y), w')
    /\ cmd_line_buf (modem w') = cmd_line_buf (modem w)
    /\ cmd (modem w') = Some (mkSock (es' ++ es) ws) /\ prompt (clock w') deadline (es' ++ es)
    /\ bytes_ahead (es' ++ es) = bytes_ahead es' ++ bytes_ahead es.
Proof.
  intros Hc (Hm & Ht & Hd & Ha & Hp). pose proof CHUNK_SIZE_pos as Hcs.
  assert (Hx : exists x y, take CHUNK_SIZE d = x :: y).
  { destruct d as [|x d]; [done|]. destruct CHUNK_SIZE as [|k]; [lia|]. by exists x, (take k d). }
  destruct Hx as (x & y & Hxy). pose proof (take_drop CHUNK_SIZE d) as Htd. rewrite Hxy in Htd.
  assert (Had : forallb is_ascii (x :: y) = true /\ forallb is_ascii (drop CHUNK_SIZE d) = true).
  { rewrite <- Htd, forallb_app in Ha. by apply andb_true_iff in Ha. }
  assert (Hor : (t <=? clock w) || (t <? clock w + 500) = true).
  { apply orb_true_iff. right. by apply Z.ltb_lt. }
  exists x, y, (match drop CHUNK_SIZE d with [] => [] | d' => [(t, SkData d')] end).
  unfold port_read. cbn [port_of]. rewrite Hc. unfold sock_read. cbn [to_read to_write].
  rewrite Hor, Hxy. eexists. split; [|split; [apply Had|split; [done|]]];
    cbn [modem set_clock set_modem set_port set_cmd cmd_line_buf cmd clock].
  - destruct (drop CHUNK_SIZE d) as [|z d'] eqn:E; cbn [bytes_ahead]; by rewrite ?app_nil_r in *.
  - destruct (drop CHUNK_SIZE d) as [|z d'] eqn:E; (split; [done|]; split; [done|]); [done|].
    destruct Had as [_ Had]. rewrite ?E in Had.
    cbn [Datatypes.app prompt bytes_ahead]. rewrite app_nil_r.
    replace (Z.max (Z.max (clock w) t) t) with (Z.max (clock w) t) by lia.
    split_and!; try done; lia.
Qed.

Lemma cmd_line_loop_gets deadline l rest :
  plain l -> match rest with x :: _ => Byte.eqb x LF = false | [] => True end ->
  forall fuel w, (port_size CmdPort (modem w) < fuel)%nat -> speaks deadline w (l ++ CR :: rest) ->
  exists w', cmd_line_loop fuel deadline w = (Ok l, w') /\ speaks deadline w' rest.
Proof.
  intros Hl Hr. induction fuel as [|k IH]; intros w Hw (es & ws & Hc & Hp & Hb); [lia|].
  cbn [cmd_line_loop]. bind1. cbn [this gets].
  destruct (Nat.le_gt_cases (length (l ++ [CR])) (length (cmd_line_buf (modem w)))) as [Hle|Hgt].
  - replace (l ++ CR :: rest) with ((l ++ [CR]) ++ rest) in Hb by (by rewrite <- app_assoc).
    symmetry in Hb. destruct (take_app_prefix _ _ _ _ Hb Hle) as (e & He & ->).
    rewrite He. rewrite <- app_assoc. cbn [Datatypes.app]. rewrite take_line_plain; [|done|by destruct e].
    bind1. cbn [update modify mret M_ret]. eexists. split; [done|].
    exists es, ws. cbn. done.
  - rewrite length_app in Hgt. simpl in Hgt. symmetry in Hb.
    destruct (take_app_prefix (cmd_line_buf (modem w)) (bytes_ahead es) l (CR :: rest)) as (l2 & -> & Hb2);
      [done|lia|].
    rewrite take_line_none with (l := l2) by done.
    destruct es as [|[t ev] es]; [by destruct l2|]. destruct ev as [d|e]; [|done].
    bind1. cbn [gets]. rewrite (proj2 (Z.leb_gt _ _)) by (destruct Hp; lia).
    destruct (cmd_read_prompt deadline w t d es ws Hc Hp)
      as (x & y & es' & w1 & Hd & Ha & Hrd & Hb1 & Hc1 & Hp1 & Hba).
    pose proof (port_read_spec CmdPort CHUNK_SIZE (clock w + 500) w CHUNK_SIZE_pos) as Hs.
    rewrite Hrd in Hs. destruct Hs as (_ & _ & _ & _ & _ & _ & _ & _ & Hlt).
    bind1. rewrite Hrd. bind1. cbn [update modify].
    apply IH; [cbn [modem set_modem]; change (port_size CmdPort (set_line_buf ?b ?t)) with (port_size CmdPort t); lia|].
    exists (es' ++ es), ws. cbn [modem set_modem cmd set_line_buf clock cmd_line_buf].
    split; [done|]. split; [done|]. rewrite ascii_lossy, Hb1, Hba by done. rewrite Hb.
    cbn [bytes_ahead]. rewrite Hd. by rewrite <- !app_assoc.
Qed.

(** Reading one line after the other *)
Fixpoint read_lines (n : nat) (deadline : Z) : Trait (list (list byte)) :=
  match n with
  | O => mret []
  | S k =>
      l ← read_cmd_line deadline;
      ls ← read_lines k deadline;
      mret (l :: ls)
  end.

Definition text_of (ls : list (list byte)) : list byte := mjoin (map (fun l => l ++ [CR]) ls).

(** However the stream cuts the modem's lines, as long as its bytes keep coming
    in time, reading returns exactly these lines in order and leaves what
    follows them. *)
Theorem read_lines_reassemble deadline ls : forall rest w,
  Forall plain ls -> match rest with x :: _ => Byte.eqb x LF = false | [] => True end ->
  speaks deadline w (text_of ls ++ rest) ->
  exists w', read_lines (length ls) deadline w = (Ok ls, w') /\ speaks deadline w' rest.
Proof.
  induction ls as [|l ls IH]; intros rest w Hls Hr Hw; [by exists w|].
  apply Forall_cons in Hls as [Hl Hls]. cbn [length read_lines].
  assert (Hhead : match text_of ls ++ rest with x :: _ => Byte.eqb x LF = false | [] => True end).
  { destruct ls as [|l' ls']; [done|]. apply Forall_cons in Hls as [Hl' _].
    unfold text_of. cbn [map mjoin list_join]. destruct l' as [|x l']; [done|]. cbn.
    unfold plain in Hl'. cbn in Hl'. apply andb_true_iff in Hl' as [Hx _].
    apply andb_true_iff in Hx as [_ Hx%negb_true_iff]. by apply orb_false_iff in Hx as [_ Hx]. }
  assert (Hsplit : text_of (l :: ls) ++ rest = l ++ CR :: (text_of ls ++ rest)).
  { unfold text_of. cbn [map mjoin list_join]. by rewrite <- !app_assoc. }
  rewrite Hsplit in Hw.
  destruct (cmd_line_loop_gets deadline l _ Hl Hhead (S (port_size CmdPort (modem w))) w ltac:(lia) Hw)
    as (w1 & Hr1 & Hw1).
  destruct (IH rest w1 Hls Hr Hw1) as (w2 & Hr2 & Hw2). exists w2. split; [|done].
  unfold read_cmd_line at 1. bind1. bind1. cbn [this gets]. rewrite Hr1. bind1. by rewrite Hr2.
Qed.

(** ** Silence *)

(** A wait for a line ends with a timeout once the command port has been silent
    for 500 ms, whatever deadline the caller set: 5 s for an acknowledgement, 60 s for a
    connection. *)
Theorem silence_ends_wait deadline w es ws :
  cmd (modem w) = Some (mkSock es ws) ->
  take_line (cmd_line_buf (modem w)) = None ->
  match es with (t, _) :: _ => clock w + 500 <= t | [] => True end ->
  clock w < deadline ->
  exists w', read_cmd_line deadline w = (Err TrTimeout, w') /\ clock w' = clock w + 500
    /\ modem w' = modem w.
Proof.
  intros Hc Hl He Hd. unfold read_cmd_line. bind1. cbn [this gets cmd_line_loop]. bind1. cbn [this gets].
  rewrite Hl. bind1. cbn [gets]. rewrite (proj2 (Z.leb_gt _ _)) by done. bind1.
  unfold port_read. cbn [port_of]. rewrite Hc.
  assert (Hs : sock_read CHUNK_SIZE (clock w) (clock w + 500) (mkSock es ws)
    = (RdLate, clock w + 500, mkSock es ws)).
  { unfold sock_read. cbn [to_read]. destruct es as [|[t ev] es].
    - by rewrite Z.max_r by lia.
    - rewrite (proj2 (Z.leb_gt t (clock w))), (proj2 (Z.ltb_ge t (clock w + 500))) by lia. cbn [orb].
      by rewrite Z.max_r by lia. }
  rewrite Hs. eexists. split; [done|]. split; [done|]. cbn.
  by destruct (modem w); cbn in *; subst.
Qed.

(** ** Concrete runs *)

#[local] Existing Instance ToyDebug.debug_format.

Definition vara_world (c d : list (Z * SockEvent)) : World VaraTransport :=
  mkWorld (mkVaraTransport (Some (mkSock c [])) (Some (mkSock d [])) [] [] [] [] [] [])
    (new_state default_config) false 0 [] [] [] [].
Definition says (s : list byte) : SockEvent := SkData (s ++ [CR]).

(** Two lines cut across three reads *)
Definition cut_lines : World VaraTransport :=
  vara_world [(1, SkData (bs "PEND")); (2, SkData (bs "ING" ++ [CR] ++ bs "OK")); (3, SkData [CR])] [].
Lemma read_lines_reassemble_witness :
  exists w', read_lines 2 1000 cut_lines = (Ok [bs "PENDING"; bs "OK"], w') /\ speaks 1000 w' [].
Proof.
  apply (read_lines_reassemble 1000 [bs "PENDING"; bs "OK"] [] cut_lines).
  - repeat constructor.
  - exact I.
  - eexists _, _. split; [reflexivity|]. split; [|reflexivity].
    cbn [prompt clock cut_lines vara_world]. repeat split; try discriminate; lia.
Defined.

Lemma silence_ends_wait_witness :
  exists w', read_cmd_line (60 * 1000) (vara_world [(900, says (bs "CONNECTED A B"))] [])
    = (Err TrTimeout, w') /\ clock w' = 500.
Proof.
  destruct (silence_ends_wait (60 * 1000) (vara_world [(900, says (bs "CONNECTED A B"))] [])
    [(900, says (bs "CONNECTED A B"))] []) as (w' & Hr & Hc & _).
  - reflexivity.
  - reflexivity.
  - cbn. lia.
  - cbn. lia.
  - exists w'. split; [exact Hr|exact Hc].
Defined.

Definition demo_session : SessionConfig := mkSessionConfig (bs "N0CALL") (bs "N0CALL-8") [] true 0.

(** A modem that takes a second to reach the peer is given up on. *)
Example slow_connect_fails :
  let w := vara_world [(1, says (bs "OK")); (2, says (bs "PENDING"));
                       (1002, says (bs "CONNECTED N0CALL N0CALL-8"))] [] in
  (vara_open_session demo_session w).1 = Err TrTimeout
  /\ clock (vara_open_session demo_session w).2 = 502.
Proof. vm_compute. split; reflexivity. Qed.
Example quick_connect_succeeds :
  let w := vara_world [(1, says (bs "OK")); (2, says (bs "PENDING"));
                       (402, says (bs "CONNECTED N0CALL N0CALL-8"))] [] in
  (vara_open_session demo_session w).1 = Ok tt
  /\ wire_cmd (modem (vara_open_session demo_session w).2)
     = bs "MYCALL N0CALL" ++ [CR] ++ bs "CONNECT N0CALL N0CALL-8" ++ [CR].
Proof. vm_compute. split; reflexivity. Qed.

(** A line end CR LF cut by a read leaves an empty line behind, which is taken for
    the answer to the next command. *)
Example cut_line_end :
  let w := vara_world [(1, SkData (bs "OK" ++ [CR])); (2, SkData ([LF] ++ bs "OK" ++ [CR; LF]))] [] in
  (send_setup [bs "LISTEN OFF"; bs "COMPRESSION OFF"] w).1
  = Err (ModemError (bs "expected OK, got Unknown()")).
Proof. vm_compute. reflexivity. Qed.

(** A disconnection read together with the line before it is not noticed: the lines
    in the buffer are looked at only when the port has more to read. *)
Example buffered_disconnect_missed :
  let w := vara_world [(1, SkData (bs "BUFFER 0" ++ [CR] ++ bs "DISCONNECTED" ++ [CR]))] [] in
  let (r, w') := vara_recv 1000 w in
  r = Err TrTimeout /\ cmd_line_buf (modem w') = bs "DISCONNECTED" ++ [CR].
Proof. vm_compute. split; reflexivity. Qed.
