(* ===== verification/Session.v ===== *)
(** * The session driver ([client/src/transport/session.rs])

    The handshake with the node's application, one request and its response,
    and the reconnection of a session that died, over any [Transport]. *)
From Stdlib Require Import ZArith Lia Strings.Byte.
From stdpp Require Import base decidable list.
From S2P Require Import Prelude Bytes Numbers External Protocol TransportTypes.
From S2P Require Import ClientConfig ClientState Transport AgwpeFrame.

Definition MAX_RESPONSE_SIZE : Z := 10 * 1024 * 1024.
Definition MAX_HANDSHAKE_TEXT : Z := 64 * 1024.

(** [SessionState::new]: the timeout is at least a second.  The abort flag is
    in the world. *)
Definition session_timeout (response_timeout_secs : Z) : Z := Z.max response_timeout_secs 1.

(** [matches_stored_disclaimer] *)
Definition matches_stored_disclaimer (server_text : list byte) (stored : option (list byte)) : bool :=
  match stored with
  | Some s => bool_decide (s = server_text)
  | None => false
  end.

Section Session.
Context {T : Type} `{Transport T} `{UnicodeCase} `{DebugFormat}.

Abbreviation Ses := (@Task T AgwpeError).

(** The trait's operations, as the session code calls them *)
Definition transport_send (data : list byte) : Ses unit :=
  _ ← act (Sent data); mapE transport_err_to_agwpe (send data).
Definition transport_recv (deadline : Z) : @Task T TransportError TransportEvent :=
  ev ← recv deadline; _ ← act (Received ev); mret ev.

Definition ax25_open_and_await_connected : Ses unit :=
  _ ← act Opened;
  _ ← mapE transport_err_to_agwpe open_ax25_link;
  push_log (rx (info (bs "PROTOCOL") (bs "AX.25 link open confirmed"))).

Definition bpq_send_app_command : Ses unit :=
  cmd ← lock_read (fun a => bpq_command (ClientState.config a));
  _ ← push_log (info (bs "BPQ") (bs "Starting BPQ handshake with command: " ++ cmd));
  let cmd_data := cmd ++ [LF] in
  _ ← push_log (tx (debug (bs "BPQ") (bs "Sending BPQ command: " ++ debug_str cmd_data)));
  transport_send cmd_data.

Definition text_too_long (received text : list byte) : bool :=
  MAX_HANDSHAKE_TEXT <? Z.of_nat (length received + length text).
Definition handshake_overflow : AgwpeError :=
  ConnectionFailed (bs "Handshake text exceeded maximum size").
Definition handshake_cut (why : list byte) : AgwpeError :=
  ConnectionFailed (bs "Peer disconnected during BPQ handshake: " ++ why).

(** The loop that reads until the callsign prompt *)
Fixpoint prompt_loop (fuel : nat) (received : list byte) : Ses unit :=
  match fuel with
  | O => diverge
  | S k =>
      now ← gets clock;
      ev ← mapE transport_err_to_agwpe (transport_recv (now + 30 * 1000));
      match ev with
      | EvData bytes =>
          let text := from_utf8_lossy bytes in
          if text_too_long received text then throw handshake_overflow
          else
            let received := received ++ text in
            if contains (bs "callsign") received || contains (bs "AGREE") received
            then mret tt else prompt_loop k received
      | EvDisconnected why => throw (handshake_cut why)
      end
  end.

(** Each event received lowers the modem's supply. *)
Definition recv_fuel : Ses nat := gets (fun w => S (supply (modem w))).

Definition bpq_await_callsign_prompt_and_send_callsign (local_callsign : list byte) : Ses unit :=
  _ ← push_log (rx (debug (bs "BPQ") (bs "Waiting for callsign prompt...")));
  fuel ← recv_fuel;
  _ ← prompt_loop fuel [];
  let call_data := local_callsign ++ [LF] in
  _ ← push_log (tx (debug (bs "BPQ") (bs "Sending callsign: " ++ debug_str call_data)));
  transport_send call_data.

(** The loop that reads until the AGREE prompt *)
Fixpoint disclaimer_loop (fuel : nat) (received : list byte) : Ses (list byte) :=
  match fuel with
  | O => diverge
  | S k =>
      now ← gets clock;
      ev ← mapE transport_err_to_agwpe (transport_recv (now + 30 * 1000));
      match ev with
      | EvData bytes =>
          let text := from_utf8_lossy bytes in
          if text_too_long received text then throw handshake_overflow
          else
            let received := received ++ text in
            _ ← push_log (rx (trace_entry (bs "BPQ") (bs "Received text: " ++ debug_str text)));
            if contains (bs "AGREE") (to_uppercase received)
            then mret received else disclaimer_loop k received
      | EvDisconnected why => throw (handshake_cut why)
      end
  end.

Definition bpq_await_disclaimer : Ses (list byte) :=
  _ ← push_log (rx (debug (bs "BPQ") (bs "Waiting for AGREE prompt...")));
  fuel ← recv_fuel;
  disclaimer_loop fuel [].

Definition CONSENT_TIMEOUT : Z := 300 * 1000.

(** How long a wait lasts and how it ends: an answer that comes too late is none *)
Definition consent_outcome (a : Z * ConsentOutcome) : Z * ConsentOutcome :=
  match a.2 with
  | NoAnswer => (CONSENT_TIMEOUT, NoAnswer)
  | o => if a.1 <? CONSENT_TIMEOUT then (Z.max 0 a.1, o) else (CONSENT_TIMEOUT, NoAnswer)
  end.

(** [tokio::time::timeout(300s, consent_rx)]: the receiver gets a decision, and no text.
    What the operator has been shown meanwhile is the state's.  A channel with no
    answer listed is one whose sender was dropped. *)
Definition await_consent : Ses ConsentOutcome := fun w =>
  let shown := awaited_disclaimer (app w) :: displays (next_batch w) (app w) in
  let w' := sync w in
  let '(d, o, rest) := match answers w' with
                       | [] => (0, SenderDropped, [])
                       | a :: rest => (consent_outcome a, rest)
                       end in
  (Ok o, note (Asked shown o)
           (mkWorld (modem w') (app w') (abort_flag w') (clock w' + d) (broadcast w')
              (interference w') rest (trace w'))).

(** The channel is known by the number of those made before it. *)
Definition next_channel (w : World T) : nat := length (trace w).

Definition AGREE_LINE : list byte := Eval vm_compute in bs "AGREE" ++ [LF].

(** The end of the handshake: the operator is shown the disclaimer, and AGREE
    is sent on acceptance *)
Definition ask_operator (received_text : list byte) : Ses unit :=
  chan ← gets next_channel;
  _ ← set_state_with (set_pending_consent (Some chan)) (AwaitingConsent received_text);
  _ ← broadcast_entry (info (bs "BPQ") (bs "Waiting for operator consent"));
  answer ← await_consent;
  match answer with
  | NoAnswer =>
      _ ← lock_update (set_pending_consent None);
      throw (ConnectionFailed (bs "Consent timeout: operator did not respond"))
  | SenderDropped | Answered false =>
      throw (ConnectionFailed (bs "Operator declined the logging disclaimer"))
  | Answered true =>
      _ ← push_log (tx (debug (bs "BPQ") (bs "Sending AGREE")));
      _ ← transport_send AGREE_LINE;
      push_log (info (bs "BPQ") (bs "BPQ handshake completed successfully"))
  end.

Definition perform_bpq_handshake (local_callsign : list byte) : Ses unit :=
  skip ← lock_read (fun a => skip_bpq_app (ClientState.config a));
  _ ← (if (skip : bool)
       then push_log (info (bs "BPQ")
              (bs "Skipping BPQ application command (direct connection mode)"))
       else bpq_send_app_command);
  _ ← bpq_await_callsign_prompt_and_send_callsign local_callsign;
  received_text ← bpq_await_disclaimer;
  ask_operator received_text.

(** ** A request *)

(** The progress of a response: the bytes received, and where its payload starts and
    how long it is once the header is known *)
Definition response_timed_out (secs : Z) : AgwpeError :=
  SessionDied (bs "no response after " ++ display secs ++ bs "s").

(** What a chunk that completed no header leads to *)
Definition no_header (response_data : list byte) : Ses (option (nat * Z)) :=
  let has_magic := contains MAGIC response_data in
  if negb has_magic && (32 * 1024 <? Z.of_nat (length response_data)) then
    let preview := Nat.min (length response_data) 256 in
    shown ← lift (slice 0 preview response_data);
    throw (SessionDied (bs "malformed response (" ++ display (Z.of_nat (length response_data))
                        ++ bs " bytes with no RESP magic: " ++ debug_str (from_utf8_lossy shown)
                        ++ bs ")"))
  else mret None.

(** [{:?}] of a protocol error *)
Definition debug_protocol_error (e : ProtocolError) : list byte :=
  match e with
  | InvalidRequest => bs "InvalidRequest"
  | InvalidResponse => bs "InvalidResponse"
  | UrlTooLong => bs "UrlTooLong"
  | PayloadTooLarge => bs "PayloadTooLarge"
  end.

(** Look for the header, unless it is known *)
Definition find_header (expected : option (nat * Z)) (response_data : list byte)
    : Ses (option (nat * Z)) :=
  match expected with
  | Some _ => mret expected
  | None =>
      match Protocol.decode_header response_data with
      | Ok (Some h) =>
          _ ← (if (0 <? h_end h)%nat then
                 shown ← lift (slice 0 (Nat.min (h_end h) 128) response_data);
                 push_log (info (bs "PROTOCOL")
                   (bs "Framed header found at offset " ++ display (Z.of_nat (h_end h))
                    ++ bs ". Preceding bytes: " ++ debug_str (from_utf8_lossy shown)))
               else mret tt);
          _ ← push_log (debug (bs "PROTOCOL")
                (bs "Response header: base64_payload_size=" ++ display (h_len h)));
          mret (Some (h_end h, h_len h))
      | Ok None => no_header response_data
      | Err e => throw (SessionDied (bs "malformed response header: " ++ debug_protocol_error e))
      | Panic => lift Panic
      | Spin => diverge
      end
  end.

Fixpoint response_loop (fuel : nat) (timeout_secs : Z) (response_data : list byte)
    (expected : option (nat * Z)) : Ses (list byte) :=
  match fuel with
  | O => diverge
  | S k =>
      now ← gets clock;
      catch (transport_recv (now + timeout_secs * 1000)) (fun r =>
        match r with
        | inl TrTimeout =>
            _ ← push_log (rx (info (bs "PROTOCOL")
                  (bs "Response timed out after " ++ display timeout_secs ++ bs "s "
                   ++ [xe2; x80; x94] ++ bs " treating as SessionDied")));
            throw (response_timed_out timeout_secs)
        | inl e => throw (transport_err_to_agwpe e)
        | inr (EvDisconnected why) =>
            _ ← push_log (rx (info (bs "PROTOCOL")
                  (bs "Peer disconnected mid-request " ++ [xe2; x80; x94]
                   ++ bs " treating as SessionDied: " ++ why)));
            throw (SessionDied why)
        | inr (EvData bytes) =>
            if MAX_RESPONSE_SIZE <? Z.of_nat (length response_data + length bytes) then
              throw (InvalidFrame (bs "Response exceeded maximum size of "
                                   ++ display MAX_RESPONSE_SIZE ++ bs " bytes"))
            else
              let response_data := response_data ++ bytes in
              if is_session_dead_payload response_data then
                _ ← push_log (rx (info (bs "PROTOCOL")
                      (bs "Received AX.25 disconnect notification " ++ [xe2; x80; x94]
                       ++ bs " treating as SessionDied")));
                throw (SessionDied (bs "remote sent AX.25 disconnect notification"))
              else
                stop ← is_aborted;
                if (stop : bool) then throw DisconnectedByOperator
                else
                  _ ← push_log (rx (trace_entry (bs "PROTOCOL")
                        (bs "Received " ++ display (Z.of_nat (length bytes)) ++ bs " bytes (total: "
                         ++ display (Z.of_nat (length response_data)) ++ bs ")")));
                  expected ← find_header expected response_data;
                  match expected with
                  | Some (frame_start, len) =>
                      if Z.of_nat frame_start + len <=? Z.of_nat (length response_data) then
                        _ ← push_log (debug (bs "PROTOCOL")
                              (bs "Response complete: " ++ display (Z.of_nat (length response_data))
                               ++ bs " bytes"));
                        mret response_data
                      else response_loop k timeout_secs response_data expected
                  | None => response_loop k timeout_secs response_data expected
                  end
        end)
  end.

Definition handle_send_request (timeout_secs : Z) (data : list byte) : Ses (list byte) :=
  stop ← is_aborted;
  if (stop : bool) then throw DisconnectedByOperator
  else
    _ ← push_log (tx (debug (bs "PROTOCOL")
          (bs "Sending " ++ display (Z.of_nat (length data)) ++ bs " bytes")));
    _ ← transport_send data;
    _ ← push_log (rx (debug (bs "PROTOCOL") (bs "Waiting for response...")));
    fuel ← recv_fuel;
    response_loop fuel timeout_secs [] None.

(** ** Reconnecting *)

(** [if session_state.is_aborted() { return Err(DisconnectedByOperator) }] *)
Definition check_abort : Ses unit :=
  stop ← is_aborted; if (stop : bool) then throw DisconnectedByOperator else mret tt.

(** The end of the inner block: AGREE without the operator, when the stored
    disclaimer is the server's *)
Definition auto_consent (disclaimer : list byte) : Ses unit :=
  stored ← lock_read last_agreed_disclaimer;
  _ ← act (ReadStored stored);
  if negb (matches_stored_disclaimer disclaimer stored) then
    _ ← push_log (info (bs "PROTOCOL")
          (bs "Server disclaimer differs from stored consent; re-consent required"));
    _ ← set_state (AwaitingConsent disclaimer);
    throw NeedsReconsent
  else
    _ ← check_abort;
    _ ← push_log (tx (info (bs "BPQ") (bs "Auto-sending AGREE (matches stored consent)")));
    _ ← transport_send AGREE_LINE;
    _ ← set_state CsConnected;
    push_log (info (bs "PROTOCOL") (bs "Reconnect successful")).

(** The inner [async] block of [handle_reconnect] *)
Definition reconnect_body (why local_callsign : list byte) : Ses unit :=
  _ ← act Reopened;
  _ ← mapE transport_err_to_agwpe reopen_modem_connection;
  _ ← set_state (Reconnecting why);
  _ ← check_abort;
  _ ← ax25_open_and_await_connected;
  _ ← check_abort;
  skip ← lock_read (fun a => skip_bpq_app (ClientState.config a));
  _ ← (if negb skip then _ ← bpq_send_app_command; check_abort
       else push_log (info (bs "BPQ")
              (bs "Skipping BPQ application command (direct connection mode)")));
  _ ← bpq_await_callsign_prompt_and_send_callsign local_callsign;
  _ ← check_abort;
  disclaimer ← bpq_await_disclaimer;
  _ ← check_abort;
  auto_consent disclaimer.

Definition handle_reconnect (why local_callsign : list byte) : Ses unit :=
  _ ← set_state (Reconnecting why);
  _ ← push_log (info (bs "PROTOCOL")
        (bs "Session lost (" ++ why ++ bs "); attempting reconnect"));
  catch (reconnect_body why local_callsign) (fun r =>
    match r with
    | inr _ => mret tt
    | inl NeedsReconsent => throw NeedsReconsent
    | inl e =>
        let msg := bs "Reconnect failed: " ++ display_agwpe_error e in
        _ ← push_log (info (bs "ERROR") msg);
        _ ← set_state (CsError msg);
        throw e
    end).

Definition handle_send_request_with_reconnect (timeout_secs : Z) (data local_callsign : list byte)
    : Ses (list byte) :=
  _ ← check_abort;
  catch (handle_send_request timeout_secs data) (fun r =>
    match r with
    | inr bytes => mret bytes
    | inl (SessionDied why) =>
        _ ← handle_reconnect why local_callsign;
        _ ← check_abort;
        handle_send_request timeout_secs data
    | inl e => throw e
    end).
End Session.

(** ** What the session code does *)

Section Behaviour.
Context {T : Type} `{TransportLaws T} `{UnicodeCase} `{DebugFormat}.

Abbreviation Ses := (@Task T AgwpeError).

Lemma task_mapE {E F A} (g : E -> F) (m : @Task T E A) : modem_task m -> modem_task (mapE g m).
Proof. intros [Ht Hp]. split; [by apply total_mapE|by apply polite_mapE]. Qed.

Lemma send_bind_at {A} w d (k : unit -> Ses A) (R : AgwpeError + A -> list Act -> Prop) :
  (forall e, R (inl e) [Sent d]) ->
  (forall w', does_at w' (k tt) (fun x tl => R x (Sent d :: tl))) ->
  does_at w (transport_send d ≫= k) R.
Proof.
  intros He Hk. unfold transport_send, does_at.
  assert (Ha : does_at w (_ ← act (Sent d); _ ← mapE transport_err_to_agwpe (send d); k tt) R).
  { apply act_bind_at. intros w' _. apply task_bind_at; [apply task_mapE, send_task|auto|].
    intros [] w2 _. apply Hk. }
  destruct Ha as (tl & Ht & Hr). exists tl. revert Ht Hr. unfold mbind, M_bind. cbn [act].
  by destruct (mapE _ _ _) as [[[]| | |] ?].
Qed.

Lemma send_end w d (R : AgwpeError + unit -> list Act -> Prop) :
  (forall x, R x [Sent d]) -> does_at w (transport_send d) R.
Proof.
  intros HR. unfold transport_send. apply act_bind_at. intros w' _.
  eapply does_mono; [apply (does_task _ (task_mapE _ _ (send_task d)))|]. by intros x tl ->.
Qed.

Lemma open_bind_at {A} w (k : unit -> Ses A) (R : AgwpeError + A -> list Act -> Prop) :
  (forall e, R (inl e) [Opened]) ->
  (forall w', does_at w' (k tt) (fun x tl => R x (Opened :: tl))) ->
  does_at w (ax25_open_and_await_connected ≫= k) R.
Proof.
  intros He Hk. unfold ax25_open_and_await_connected.
  assert (Ha : does_at w (_ ← act Opened; _ ← mapE transport_err_to_agwpe open_ax25_link;
      _ ← push_log (rx (info (bs "PROTOCOL") (bs "AX.25 link open confirmed"))); k tt) R).
  { apply act_bind_at. intros w' _. apply task_bind_at; [apply task_mapE, open_ax25_link_task|auto|].
    intros [] w2 _. apply mild_bind_at; [auto with mild|]. intros [] w3 _ _. apply Hk. }
  destruct Ha as (tl & Ht & Hr). exists tl. revert Ht Hr. unfold mbind, M_bind. cbn [act].
  by destruct (mapE _ _ _) as [[[]| | |] ?].
Qed.

Lemma transport_recv_spec deadline w :
  does_at w (transport_recv deadline)
    (fun x tl => tl = match x with inr ev => [Received ev] | inl _ => [] end)
  /\ forall ev w', transport_recv deadline w = (Ok ev, w') ->
       (supply (modem w') < supply (modem w))%nat.
Proof.
  unfold transport_recv. split.
  - apply task_bind_at; [apply recv_task|done|]. intros ev w' _. apply act_bind_at.
    intros w2 _. by apply ret_end.
  - intros ev w'. bind1. destruct (recv deadline w) as [[ev'|e| |] w1] eqn:E; try done.
    bind1. cbn [act]. intros [= -> <-]. by apply recv_supply in E.
Qed.

Lemma recv_bind_at {A} w deadline (k : TransportEvent -> Ses A) (R : AgwpeError + A -> list Act -> Prop) :
  (forall e, R (inl e) []) ->
  (forall ev w', (supply (modem w') < supply (modem w))%nat ->
     does_at w' (k ev) (fun x tl => R x (Received ev :: tl))) ->
  does_at w (mapE transport_err_to_agwpe (transport_recv deadline) ≫= k) R.
Proof.
  intros He Hk. destruct (transport_recv_spec deadline w) as [(tl & Ht & Hr) Hsup].
  unfold does_at, mbind, M_bind, mapE.
  destruct (transport_recv deadline w) as [[ev|e| |] w'] eqn:E; simpl in *; try done.
  - subst tl. destruct (Hk ev w' (Hsup ev w' eq_refl)) as (tl2 & Ht2 & Hr2).
    exists (Received ev :: tl2). rewrite Ht2, Ht, <- app_assoc. by split.
  - subst tl. exists []. by split.
Qed.

Lemma recv_fuel_bind_at {A} w (k : nat -> Ses A) R :
  does_at w (k (S (supply (modem w)))) R -> does_at w (recv_fuel ≫= k) R.
Proof. done. Qed.

Definition received (evs : list TransportEvent) : list Act := map Received evs.
Definition received_data (chunks : list (list byte)) : list Act :=
  map (fun c => Received (EvData c)) chunks.

Lemma prompt_loop_does fuel : forall text w, (supply (modem w) < fuel)%nat ->
  does_at w (prompt_loop fuel text) (fun x tl => exists evs, tl = received evs).
Proof.
  induction fuel as [|k IH]; intros text w Hw; [lia|]. cbn [prompt_loop].
  apply mild_bind_at; [auto with mild|]. intros now w1 [= <- <-] _.
  apply recv_bind_at; [intros e; by exists []|]. intros ev w2 Hlt.
  apply (does_mono _ (fun x tl => exists evs, tl = received evs));
    [|intros x tl (evs & ->); by exists (ev :: evs)].
  destruct ev as [bytes|why]; [|apply throw_end; by exists []].
  destruct (text_too_long _ _); [apply throw_end; by exists []|].
  destruct (_ || _); [apply ret_end; by exists []|]. apply IH. lia.
Qed.

(** The prompt is read, then the callsign sent *)
Definition callsign_trace (call : list byte) (x : AgwpeError + unit) (tl : list Act) : Prop :=
  exists evs, (tl = received evs /\ exists e, x = inl e) \/ tl = received evs ++ [Sent (call ++ [LF])].

Lemma callsign_does call :
  does (bpq_await_callsign_prompt_and_send_callsign call) (callsign_trace call).
Proof.
  intros w. unfold bpq_await_callsign_prompt_and_send_callsign.
  apply mild_bind_at; [auto with mild|]. intros [] w1 _ _. apply recv_fuel_bind_at.
  eapply does_mono.
  { apply (does_bind_at w1 _ _ (fun x tl => exists evs, tl = received evs)
      (fun _ x tl => tl = [Sent (call ++ [LF])])).
    - apply (prompt_loop_does (S (supply (modem w1))) [] w1). lia.
    - intros [] w2 _. apply mild_bind_at; [auto with mild|]. intros [] w3 _ _. by apply send_end. }
  intros x tl [(e & -> & evs & ->)|([] & t1 & t2 & -> & (evs & ->) & ->)]; exists evs.
  - left. split; [done|by exists e].
  - by right.
Qed.

(** The text of the received data is the disclaimer *)
Definition disclaimer_trace (text : list byte) (x : AgwpeError + list byte) (tl : list Act) : Prop :=
  match x with
  | inl _ => exists evs, tl = received evs
  | inr d => exists chunks, tl = received_data chunks
      /\ d = text ++ concat (map from_utf8_lossy chunks)
      /\ contains (bs "AGREE") (to_uppercase d) = true
  end.

Lemma disclaimer_loop_does fuel : forall text w, (supply (modem w) < fuel)%nat ->
  does_at w (disclaimer_loop fuel text) (disclaimer_trace text).
Proof.
  induction fuel as [|k IH]; intros text w Hw; [lia|]. cbn [disclaimer_loop].
  apply mild_bind_at; [auto with mild|]. intros now w1 [= <- <-] _.
  apply recv_bind_at; [intros e; by exists []|]. intros ev w2 Hlt.
  destruct ev as [bytes|why]; [|apply throw_end; by exists [EvDisconnected why]].
  destruct (text_too_long _ _); [apply throw_end; by exists [EvData bytes]|].
  apply mild_bind_at; [auto with mild|]. intros [] w3 _ Hm.
  destruct (contains _ _) eqn:Hc.
  - apply ret_end. exists [bytes]. cbn. by rewrite app_nil_r.
  - eapply does_mono; [apply IH; rewrite Hm; lia|]. intros [e|d] tl; cbn.
    + intros (evs & ->). by exists (EvData bytes :: evs).
    + intros (chunks & -> & -> & Ha). exists (bytes :: chunks). cbn.
      by rewrite <- app_assoc in *.
Qed.

Lemma disclaimer_does : does bpq_await_disclaimer (disclaimer_trace []).
Proof.
  intros w. unfold bpq_await_disclaimer. apply mild_bind_at; [auto with mild|]. intros [] w1 _ _.
  apply recv_fuel_bind_at, disclaimer_loop_does. lia.
Qed.

(** ** Consent *)

(** The messages sent, in order *)
Definition sent_of (tl : list Act) : list (list byte) :=
  omap (fun a => match a with Sent d => Some d | _ => None end) tl.

(** The application command, when it is not skipped *)
Definition app_part (app : list Act) : Prop := app = [] \/ exists cmd, app = [Sent (cmd ++ [LF])].

(** Before the disclaimer was complete: nothing beyond the callsign was sent *)
Definition not_greeted (call : list byte) (tl : list Act) : Prop :=
  exists app evs1 evs2, app_part app
  /\ (tl = app \/ tl = app ++ received evs1
      \/ tl = app ++ received evs1 ++ [Sent (call ++ [LF])] ++ received evs2).

(** The callsign was sent, then the text [d] received *)
Definition greeted (call d : list byte) (tl : list Act) : Prop :=
  exists app evs chunks, app_part app
  /\ tl = app ++ received evs ++ [Sent (call ++ [LF])] ++ received_data chunks
  /\ d = concat (map from_utf8_lossy chunks)
  /\ contains (bs "AGREE") (to_uppercase d) = true.

Lemma app_command_does :
  does bpq_send_app_command (fun x tl => exists cmd, tl = [Sent (cmd ++ [LF])]).
Proof.
  intros w. unfold bpq_send_app_command.
  apply mild_bind_at; [auto with mild|]. intros cmd w1 _ _.
  do 2 (apply mild_bind_at; [auto with mild|]; intros [] ? _ _).
  apply send_end. intros x. by exists cmd.
Qed.

(** Command, callsign, disclaimer, then the rest *)
Lemma greeting_does {A} (call : list byte) (m n : Ses unit) (k : list byte -> Ses A)
    (R : list byte -> AgwpeError + A -> list Act -> Prop) w :
  does_at w m (fun x tl => app_part tl) -> does n silently ->
  (forall d, does (k d) (R d)) ->
  does_at w (_ ← m; _ ← bpq_await_callsign_prompt_and_send_callsign call;
             _ ← n; d ← bpq_await_disclaimer; k d)
    (fun x tl => (not_greeted call tl /\ exists e, x = inl e)
                 \/ exists d t1 t2, tl = t1 ++ t2 /\ greeted call d t1 /\ R d x t2).
Proof.
  intros Hm Hn Hk. eapply does_mono.
  { apply (does_bind_at w _ _ (fun _ tl => app_part tl)
      (fun _ => then_does (callsign_trace call)
         (fun _ => then_does (silently (A:=unit)) (fun _ => then_does (disclaimer_trace []) R))) Hm).
    intros [] w1 _. revert w1. apply does_bind; [apply callsign_does|]. intros [].
    apply does_bind; [done|]. intros []. apply does_bind; [apply disclaimer_does|done]. }
  intros x tl [(e & -> & Happ)|([] & app & t & -> & Happ & Ht)].
  { left. split; [|by exists e]. exists tl, [], []. auto. }
  destruct Ht as [(e & -> & evs & Ht)|([] & t1 & t2 & -> & (evs & Ht1) & Ht2)].
  { left. split; [|by exists e]. exists app, evs, []. split; [done|].
    destruct Ht as [[-> _]| ->]; [auto|]. right. right. by rewrite app_nil_r. }
  destruct Ht1 as [[_ (e & Hbad)]| ->]; [done|].
  destruct Ht2 as [(e & -> & Hsil)|([] & t0 & t2' & -> & Hsil & Ht2)];
    unfold silently in Hsil; subst.
  { left. split; [|by exists e]. exists app, evs, []. split; [done|]. right. right.
    by rewrite <- !app_assoc, !app_nil_r. }
  destruct Ht2 as [(e & -> & evs2 & ->)|(d & t3 & t4 & -> & Hd & Hr)].
  { left. split; [|by exists e]. exists app, evs, evs2. split; [done|]. right. right.
    by rewrite <- !app_assoc. }
  destruct Hd as (chunks & -> & -> & Hc). right.
  exists (concat (map from_utf8_lossy chunks)), (app ++ received evs ++ [Sent (call ++ [LF])] ++ received_data chunks), t4.
  rewrite <- !app_assoc. split_and!; [done| |done]. by exists app, evs, chunks.
Qed.

Lemma greeting_plain_does {A} (call : list byte) (m : Ses unit) (k : list byte -> Ses A)
    (R : list byte -> AgwpeError + A -> list Act -> Prop) w :
  does_at w m (fun x tl => app_part tl) -> (forall d, does (k d) (R d)) ->
  does_at w (_ ← m; _ ← bpq_await_callsign_prompt_and_send_callsign call;
             d ← bpq_await_disclaimer; k d)
    (fun x tl => (not_greeted call tl /\ exists e, x = inl e)
                 \/ exists d t1 t2, tl = t1 ++ t2 /\ greeted call d t1 /\ R d x t2).
Proof.
  intros Hm Hk.
  destruct (greeting_does call m (mret tt) k R w Hm (fun w2 => ret_end w2 tt silently eq_refl) Hk)
    as (tl & Ht & Hr).
  exists tl. revert Ht Hr. unfold mbind, M_bind.
  destruct (m w) as [[[]| | |] w1]; [|done..].
  by destruct (bpq_await_callsign_prompt_and_send_callsign call w1) as [[[]| | |] w2].
Qed.

Lemma consent_bind_at {A} w (k : ConsentOutcome -> Ses A) (R : AgwpeError + A -> list Act -> Prop) :
  (forall o w', does_at w' (k o) (fun x tl =>
     R x (Asked (awaited_disclaimer (app w) :: displays (next_batch w) (app w)) o :: tl))) ->
  does_at w (await_consent ≫= k) R.
Proof.
  intros Hk. unfold does_at, mbind, M_bind, await_consent.
  destruct (match answers (sync w) with [] => _ | _ => _ end) as [[d o] rest].
  match goal with |- context [note ?a ?w0] => set (w1 := note a w0) end.
  destruct (Hk o w1) as (tl & Ht & Hr). eexists. split; [|exact Hr].
  rewrite Ht. unfold w1. cbn [trace note].
  pose proof (sync_session w) as Hs. injection Hs as _ ->. by rewrite <- app_assoc.
Qed.

(** The state shows the text when the wait begins. *)
Lemma put_up_bind_at {A} w f d e (k : ConsentOutcome -> Ses A) (R : AgwpeError + A -> list Act -> Prop) :
  (forall later o w', does_at w' (k o) (fun x tl => R x (Asked (Some d :: later) o :: tl))) ->
  does_at w (_ ← set_state_with f (AwaitingConsent d); _ ← broadcast_entry e; await_consent ≫= k) R.
Proof.
  intros Hk.
  assert (Hput : exists w1, set_state_with (E:=AgwpeError) f (AwaitingConsent d) w = (Ok tt, w1)
    /\ awaited_disclaimer (app w1) = Some d /\ trace w1 = trace w).
  { eexists. split; [reflexivity|]. split; [done|].
    pose proof (sync_session w) as Hs. by injection Hs. }
  destruct Hput as (w1 & Hput & Hd & Ht). set (w2 := send_entry (e (clock w1)) w1).
  assert (Hb : broadcast_entry (E:=AgwpeError) e w1 = (Ok tt, w2)) by done.
  destruct (consent_bind_at w2 k R) as (tl & Htl & Hr).
  { intros o w'. change (app w2) with (app w1). rewrite Hd. apply Hk. }
  exists tl. unfold does_at. rewrite (bind_ok _ _ _ _ _ Hput), (bind_ok _ _ _ _ _ Hb).
  rewrite <- Ht. by split.
Qed.

(** The operator is asked while [d] is shown, at first; AGREE is sent if, and only if,
    the answer is yes. *)
Definition asked (d : list byte) (x : AgwpeError + unit) (tl : list Act) : Prop :=
  exists later o, tl = Asked (Some d :: later) o
                       :: (match o with Answered true => [Sent AGREE_LINE] | _ => [] end)
  /\ (x = inr tt -> o = Answered true).

(** It is the only text shown unless another task changes the state of the connection
    during the wait. *)
Definition keeps_display (i : Interference) : Prop :=
  match i with
  | SetAbort => True
  | Update f => forall a, awaited_disclaimer (f a) = awaited_disclaimer a
  end.
Lemma display_kept batch : forall a,
  Forall keeps_display batch -> Forall (fun s => s = awaited_disclaimer a) (displays batch a).
Proof.
  induction batch as [|i batch IH]; intros a Hk; [constructor|]. apply Forall_cons in Hk as [Hi Hk].
  cbn [displays]. destruct i as [|f]; [constructor; [done|by apply IH]|].
  cbn in Hi. constructor; [apply Hi|]. rewrite <- (Hi a). by apply IH.
Qed.

Lemma handshake_does call :
  does (perform_bpq_handshake call) (fun x tl =>
    (not_greeted call tl /\ exists e, x = inl e)
    \/ exists d t1 t2, tl = t1 ++ t2 /\ greeted call d t1 /\ asked d x t2).
Proof.
  intros w. unfold perform_bpq_handshake. apply mild_bind_at; [auto with mild|].
  intros skip w1 _ _. apply greeting_plain_does.
  - destruct skip; [apply mild_end; [auto with mild|]; by left|].
    eapply does_mono; [apply app_command_does|]. intros x tl (cmd & ->). right. by exists cmd.
  - intros d w2. unfold ask_operator. apply mild_bind_at; [auto with mild|]. intros ? ? _ _.
    apply put_up_bind_at. intros later o w3. destruct o as [[]| |].
    + apply mild_bind_at; [auto with mild|]. intros [] w4 _ _. apply send_bind_at.
      * intros e. by exists later, (Answered true).
      * intros w5. apply mild_end; [auto with mild|]. intros []. by exists later, (Answered true).
    + apply throw_end. by exists later, (Answered false).
    + apply throw_end. by exists later, SenderDropped.
    + apply mild_bind_at; [auto with mild|]. intros [] w4 _ _. apply throw_end. by exists later, NoAnswer.
Qed.

(** ** Reconnection *)

Lemma check_abort_does : does (check_abort : Ses unit) silently.
Proof.
  intros w. unfold check_abort. apply mild_bind_at; [auto with mild|]. intros [] w1 _ _.
  - by apply throw_end.
  - by apply ret_end.
Qed.

Lemma check_abort_bind_at {A} w (k : unit -> Ses A) (R : AgwpeError + A -> list Act -> Prop) :
  R (inl DisconnectedByOperator) [] -> (forall w', does_at w' (k tt) R) ->
  does_at w (check_abort ≫= k) R.
Proof.
  intros He Hk. unfold check_abort.
  assert (Hc : does_at w (stop ← is_aborted; if (stop : bool) then throw DisconnectedByOperator else k tt) R).
  { apply mild_bind_at; [auto with mild|]. intros [] w1 _ _; [by apply throw_end|apply Hk]. }
  unfold does_at, mbind, M_bind in *. destruct (is_aborted w) as [[[]| | |] w1]; done.
Qed.

(** AGREE is sent only when the stored disclaimer is [d], and nothing is sent
    when it is not *)
Definition compared (d : list byte) (x : AgwpeError + unit) (tl : list Act) : Prop :=
  (tl = [] /\ exists e, x = inl e)
  \/ (exists st, tl = [ReadStored st] /\ (st <> Some d -> x = inl NeedsReconsent)
       /\ exists e, x = inl e)
  \/ tl = [ReadStored (Some d); Sent AGREE_LINE].

Definition reconnect_trace (call : list byte) (x : AgwpeError + unit) (tl : list Act) : Prop :=
  ((tl = [Reopened] \/ tl = [Reopened; Opened]) /\ exists e, x = inl e)
  \/ exists t, tl = Reopened :: Opened :: t
     /\ ((not_greeted call t /\ exists e, x = inl e)
         \/ exists d t1 t2, t = t1 ++ t2 /\ greeted call d t1 /\ compared d x t2).

Lemma compare_does d : does (_ ← check_abort; auto_consent d) (compared d).
Proof.
  intros w. apply check_abort_bind_at; [left; split; [done|by eexists]|]. intros w1.
  unfold auto_consent.
  apply mild_bind_at; [auto with mild|]. intros stored w2 _ _.
  apply act_bind_at. intros w3 _.
  assert (Hm : matches_stored_disclaimer d stored = bool_decide (stored = Some d)).
  { destruct stored as [st|]; unfold matches_stored_disclaimer; [|by rewrite bool_decide_false].
    apply bool_decide_ext. naive_solver. }
  rewrite Hm. case_bool_decide as Hd; simpl.
  - subst stored. apply check_abort_bind_at.
    { right. left. exists (Some d). split_and!; [done|done|by eexists]. }
    intros w4. apply mild_bind_at; [auto with mild|]. intros [] w5 _ _.
    apply send_bind_at; [intros e; by right; right|]. intros w6.
    apply mild_bind_at; [auto with mild|]. intros [] w7 _ _.
    apply mild_end; [auto with mild|]. intros []. by right; right.
  - do 2 (apply mild_bind_at; [auto with mild|]; intros [] ? _ _).
    apply throw_end. right. left. exists stored. split_and!; [done|done|by eexists].
Qed.

Lemma reconnect_body_does why call : does (reconnect_body why call) (reconnect_trace call).
Proof.
  intros w. unfold reconnect_body. apply act_bind_at. intros w1 _.
  apply task_bind_at; [apply task_mapE, reopen_modem_connection_task| |].
  { intros e. left. split; [by left|by eexists]. }
  intros [] w2 _. apply mild_bind_at; [auto with mild|]. intros [] w3 _ _.
  apply check_abort_bind_at; [left; split; [by left|by eexists]|]. intros w4.
  apply open_bind_at; [intros e; left; split; [by right|by eexists]|]. intros w5.
  apply check_abort_bind_at; [left; split; [by right|by eexists]|]. intros w6.
  apply mild_bind_at; [auto with mild|]. intros skip w7 _ _.
  eapply does_mono; [apply (greeting_does call _ check_abort (fun d => _ ← check_abort; auto_consent d) compared)|].
  - destruct skip; simpl; [apply mild_end; [auto with mild|]; by left|].
    eapply does_mono; [apply (does_bind _ _ _ (fun _ => silently) app_command_does);
      intros; apply check_abort_does|].
    intros x tl [(e & _ & cmd & ->)|(a & t1 & t2 & -> & (cmd & ->) & ->)]; right; by exists cmd.
  - apply check_abort_does.
  - intros d. apply compare_does.
  - intros x tl Ht. right. by exists tl.
Qed.

Lemma reconnect_does why call : does (handle_reconnect why call) (reconnect_trace call).
Proof.
  intros w. unfold handle_reconnect.
  do 2 (apply mild_bind_at; [auto with mild|]; intros [] ? _ _).
  eapply (does_catch_at _ _ _ (reconnect_trace call) (fun x y tl => tl = [] /\ y = x)).
  - apply reconnect_body_does.
  - intros [e|[]] w9 _; [|by apply ret_end].
    destruct e; try (by apply throw_end);
      do 2 (apply mild_bind_at; [auto with mild|]; intros [] ? _ _); by apply throw_end.
  - intros x y t1 t2 Ht [-> ->]. by rewrite app_nil_r.
Qed.

(** ** Responses *)

(** A response received whole: its header, and at least as many bytes of
    payload as the header announces *)
Definition complete (bytes : list byte) : Prop :=
  exists h, Protocol.decode_header bytes = Ok (Some h)
  /\ Z.of_nat (h_end h) + h_len h <= Z.of_nat (length bytes) <= MAX_RESPONSE_SIZE
  /\ is_session_dead_payload bytes = false.

(** The header known so far is the decoder's *)
Definition expects (data : list byte) (expected : option (nat * Z)) : Prop :=
  match expected with
  | None => True
  | Some (start, len) =>
      exists h, Protocol.decode_header data = Ok (Some h) /\ h_end h = start /\ h_len h = len
  end.

Lemma expects_app data more expected : expects data expected -> expects (data ++ more) expected.
Proof.
  destruct expected as [[start len]|]; [|done]. intros (h & Hh & Hs & Hl). exists h.
  split; [|done]. rewrite (decode_header_app data more); [done|by rewrite Hh].
Qed.

Definition response_trace (data : list byte) (x : AgwpeError + list byte) (tl : list Act) : Prop :=
  exists evs, tl = received evs
  /\ forall bytes, x = inr bytes ->
       exists chunks, evs = map EvData chunks /\ bytes = data ++ concat chunks /\ complete bytes.

Lemma response_error data e ev : response_trace data (inl e) (received ev).
Proof. by exists ev. Qed.

Lemma find_header_does {A} expected data w (k : option (nat * Z) -> Ses A)
    (R : AgwpeError + A -> list Act -> Prop) :
  expects data expected ->
  (forall e, R (inl e) []) ->
  (forall expected' w', expects data expected' -> modem w' = modem w -> does_at w' (k expected') R) ->
  does_at w (find_header expected data ≫= k) R.
Proof.
  intros Hexp He Hk. unfold find_header. destruct expected as [[st len]|].
  { change (does_at w (k (Some (st, len))) R). by apply Hk. }
  pose proof (decode_header_returns data) as Hret.
  destruct (Protocol.decode_header data) as [[h|]|e| |] eqn:Hh; try done.
  - assert (Hend : (h_end h <= length data)%nat) by (by destruct (decode_header_ok _ _ Hh)).
    assert (Hs : exists sh, slice (E:=AgwpeError) 0 (Nat.min (h_end h) 128) data = Ok sh)
      by (rewrite slice_ok by lia; eauto).
    destruct Hs as [sh Hs].
    assert (Hj : forall w1, modem w1 = modem w ->
      does_at w1 ((_ ← push_log (debug (bs "PROTOCOL")
            (bs "Response header: base64_payload_size=" ++ display (h_len h)));
          mret (Some (h_end h, h_len h))) ≫= k) R).
    { intros w1 Hw1. refine (mild_bind_at w1 (push_log _) (fun _ => k _) R _ _); [auto with mild|].
      intros [] w2 _ Hw2. apply Hk; [by exists h|congruence]. }
    destruct (0 <? h_end h)%nat; [|by apply (Hj w)]. rewrite Hs.
    refine (mild_bind_at w (push_log _) (fun _ => (_ ← push_log _; mret _) ≫= k) R _ _);
      [auto with mild|]. intros [] w1 _ Hw1. by apply Hj.
  - unfold no_header. destruct (_ && _); [|by apply Hk].
    rewrite slice_ok by lia. exists []. rewrite app_nil_r. split; [done|]. apply He.
  - exists []. rewrite app_nil_r. split; [done|]. apply He.
Qed.

Lemma response_trace_cons data bytes x tl :
  response_trace (data ++ bytes) x tl ->
  response_trace data x (Received (EvData bytes) :: tl).
Proof.
  intros (evs & -> & Hx). exists (EvData bytes :: evs). split; [done|]. intros out Hout.
  destruct (Hx out Hout) as (chunks & -> & -> & Hc). exists (bytes :: chunks). cbn.
  by rewrite app_assoc.
Qed.

Lemma response_loop_does fuel secs : forall data expected w,
  (supply (modem w) < fuel)%nat -> expects data expected ->
  does_at w (response_loop fuel secs data expected) (response_trace data).
Proof.
  induction fuel as [|k IH]; intros data expected w Hw Hexp; [lia|]. cbn [response_loop].
  apply mild_bind_at; [auto with mild|]. intros now w1 [= <- <-] _.
  destruct (transport_recv_spec (clock w + secs * 1000) w) as [Hr Hsup].
  eapply (does_catch_at _ _ _ _ (fun x y tl => response_trace data y
    (match x with inr ev => [Received ev] | inl _ => [] end ++ tl)) _ Hr); [|intros x y t1 t2 -> Ht; exact Ht].
  intros [e|ev] w' Hev.
  { destruct e; try (apply throw_end; by exists []).
    apply mild_bind_at; [auto with mild|]. intros [] w2 _ _. apply throw_end. by exists []. }
  specialize (Hsup ev w' Hev). destruct ev as [bytes|why].
  2:{ apply mild_bind_at; [auto with mild|]. intros [] w2 _ _. apply throw_end.
      by exists [EvDisconnected why]. }
  destruct (Z.ltb_spec MAX_RESPONSE_SIZE (Z.of_nat (length data + length bytes)));
    [apply throw_end; by exists [EvData bytes]|].
  destruct (is_session_dead_payload (data ++ bytes)) eqn:Hdead.
  { apply mild_bind_at; [auto with mild|]. intros [] w2 _ _. apply throw_end. by exists [EvData bytes]. }
  apply mild_bind_at; [auto with mild|]. intros [] w2 _ Hm2; [apply throw_end; by exists [EvData bytes]|].
  apply mild_bind_at; [auto with mild|]. intros [] w3 _ Hm3.
  apply find_header_does; [by apply expects_app|intros e; by exists [EvData bytes]|].
  intros expected' w4 Hexp' Hm4.
  assert (Hnext : does_at w4 (response_loop k secs (data ++ bytes) expected')
    (fun y tl => response_trace data y ([Received (EvData bytes)] ++ tl))).
  { eapply does_mono; [apply IH; [rewrite Hm4, Hm3, Hm2; lia|done]|].
    intros x tl Ht. by apply response_trace_cons. }
  destruct expected' as [[start len]|]; [|exact Hnext].
  destruct (Z.leb_spec (Z.of_nat start + len) (Z.of_nat (length (data ++ bytes)))); [|exact Hnext].
  apply mild_bind_at; [auto with mild|]. intros [] w5 _ _. apply ret_end.
  exists [EvData bytes]. split; [done|]. intros out [= <-]. exists [bytes]. cbn [concat].
  rewrite app_nil_r. split_and!; [done..|]. destruct Hexp' as (h & Hh & <- & <-).
  exists h. split_and!; [done|done|rewrite length_app; lia|done].
Qed.

(** ** A request, with its retry *)

Definition request_trace (data : list byte) (x : AgwpeError + list byte) (tl : list Act) : Prop :=
  (tl = [] /\ x = inl DisconnectedByOperator)
  \/ exists evs, tl = Sent data :: received evs
     /\ forall bytes, x = inr bytes ->
          exists chunks, evs = map EvData chunks /\ bytes = concat chunks /\ complete bytes.

Lemma send_request_does secs data : does (handle_send_request secs data) (request_trace data).
Proof.
  intros w. unfold handle_send_request. apply mild_bind_at; [auto with mild|].
  intros [] w1 _ _; [apply throw_end; by left|].
  apply mild_bind_at; [auto with mild|]. intros [] w2 _ _.
  apply send_bind_at; [intros e; right; by exists []|]. intros w3.
  apply mild_bind_at; [auto with mild|]. intros [] w4 _ _. apply recv_fuel_bind_at.
  eapply does_mono; [apply response_loop_does; [lia|done]|]. intros x tl (evs & -> & Hx).
  right. by exists evs.
Qed.

(** The first attempt; after a death of the session, a reconnection and, if it
    succeeds, a second attempt; never more *)
Definition retry_trace (call data : list byte) (x : AgwpeError + list byte) (tl : list Act) : Prop :=
  request_trace data x tl
  \/ exists why t1 t2 t3, tl = t1 ++ t2 ++ t3 /\ request_trace data (inl (SessionDied why)) t1
     /\ ((exists e, reconnect_trace call (inl e) t2 /\ x = inl e /\ t3 = [])
         \/ reconnect_trace call (inr tt) t2 /\ request_trace data x t3).

Lemma reconnect_request_does secs data call why :
  does (_ ← handle_reconnect why call; _ ← check_abort; handle_send_request secs data)
    (fun x tl => exists t2 t3, tl = t2 ++ t3
      /\ ((exists e, reconnect_trace call (inl e) t2 /\ x = inl e /\ t3 = [])
          \/ reconnect_trace call (inr tt) t2 /\ request_trace data x t3)).
Proof.
  intros w. eapply does_mono.
  { apply (does_bind_at w _ _ (reconnect_trace call) (fun _ => request_trace data));
      [apply reconnect_does|]. intros [] w1 _.
    apply check_abort_bind_at; [by left|]. intros w2. apply send_request_does. }
  intros x tl [(e & -> & Ht)|([] & t2 & t3 & -> & Ht2 & Ht3)].
  - exists tl, []. rewrite app_nil_r. split; [done|]. left. by exists e.
  - exists t2, t3. split; [done|]. by right.
Qed.

Lemma retry_does secs data call :
  does (handle_send_request_with_reconnect secs data call) (retry_trace call data).
Proof.
  intros w. unfold handle_send_request_with_reconnect.
  apply check_abort_bind_at; [left; by left|]. intros w1.
  eapply (does_catch_at _ _ _ (request_trace data) (fun x y tl =>
    match x with
    | inl (SessionDied _) => exists t2 t3, tl = t2 ++ t3
        /\ ((exists e, reconnect_trace call (inl e) t2 /\ y = inl e /\ t3 = [])
            \/ reconnect_trace call (inr tt) t2 /\ request_trace data y t3)
    | _ => tl = [] /\ y = x
    end)).
  - apply send_request_does.
  - intros [e|bytes] w2 _; [|by apply ret_end].
    destruct e; try (by apply throw_end). apply reconnect_request_does.
  - intros x y t1 t2 Hx Hy.
    assert (Hsame : t2 = [] /\ y = x -> retry_trace call data y (t1 ++ t2)).
    { intros [-> ->]. left. by rewrite app_nil_r. }
    destruct x as [e|bytes]; [|by apply Hsame]. destruct e; try (by apply Hsame).
    destruct Hy as (t3 & t4 & -> & Hy). right. by exists reason, t1, t3, t4.
Qed.


(** C24: reconnecting reopens the modem and the link at most once, and sends AGREE
    without asking the operator only when the stored disclaimer is, byte for byte,
    the text received since the callsign was sent; a different text ends it with
    a demand for consent. *)
Theorem reconnect_consent why call : does (handle_reconnect why call) (reconnect_trace call).
Proof. apply reconnect_does. Qed.

(** A request is sent once and answered, if at all, with exactly the bytes
    received: a complete response, under the size cap, without the text of a closed
    session.  Every run ends. *)
Theorem send_request_complete secs data :
  does (handle_send_request secs data) (request_trace data).
Proof. apply send_request_does. Qed.

(** ** The operator's disconnection *)

Lemma check_abort_raised w :
  abort_flag w = true ->
  check_abort (T:=T) w = (Err DisconnectedByOperator, sync w).
Proof.
  intros Hw. unfold check_abort, is_aborted, mbind, M_bind. by rewrite (sync_flag w Hw).
Qed.

(** A disconnection that has come, or is on its way, is not lost by a request. *)
Lemma stops_send data : stays will_stop (transport_send data).
Proof. unfold transport_send. stops. auto using send_task with stops. Qed.
Lemma stops_recv deadline : stays will_stop (transport_recv deadline).
Proof. unfold transport_recv. stops. auto using recv_task with stops. Qed.
#[local] Hint Resolve stops_send stops_recv : stops.
Lemma stops_prompt_loop fuel : forall text, stays will_stop (prompt_loop fuel text).
Proof. induction fuel as [|k IH]; intros text; cbn [prompt_loop]; stops; done. Qed.
Lemma stops_disclaimer_loop fuel : forall text, stays will_stop (disclaimer_loop fuel text).
Proof. induction fuel as [|k IH]; intros text; cbn [disclaimer_loop]; stops; done. Qed.
Lemma stops_find_header expected data : stays will_stop (find_header expected data : Ses _).
Proof. unfold find_header, no_header. stops. Qed.
#[local] Hint Resolve stops_prompt_loop stops_disclaimer_loop stops_find_header : stops.
Lemma stops_response_loop fuel secs : forall data expected,
  stays will_stop (response_loop fuel secs data expected).
Proof. induction fuel as [|k IH]; intros data expected; cbn [response_loop]; stops; done. Qed.
#[local] Hint Resolve stops_response_loop : stops.
Lemma stops_send_request secs data : stays will_stop (handle_send_request secs data).
Proof. unfold handle_send_request, recv_fuel. stops. Qed.
Lemma stops_check_abort : stays will_stop (check_abort : Ses unit).
Proof. unfold check_abort. stops. Qed.
#[local] Hint Resolve stops_send_request stops_check_abort : stops.
Lemma stops_app_command : stays will_stop (bpq_send_app_command : Ses unit).
Proof. unfold bpq_send_app_command. stops. Qed.
Lemma stops_reconnect why call : stays will_stop (handle_reconnect why call).
Proof.
  unfold handle_reconnect, reconnect_body, auto_consent,
    bpq_await_callsign_prompt_and_send_callsign, bpq_await_disclaimer, recv_fuel.
  stops; auto using stops_app_command, open_ax25_link_task, reopen_modem_connection_task with stops.
Qed.
#[local] Hint Resolve stops_reconnect : stops.
Lemma stops_retry secs data call :
  stays will_stop (handle_send_request_with_reconnect secs data call).
Proof. unfold handle_send_request_with_reconnect. stops. Qed.

(** A reconnection that starts with the flag up opens no link and sends nothing: the
    modem is reopened, and no more. *)
Lemma reconnect_body_stopped why call w :
  abort_flag w = true ->
  let '(r, w') := reconnect_body why call w in
  trace w' = trace w ++ [Reopened] /\ exists e, r = Err e /\ e <> NeedsReconsent.
Proof.
  intros Hw. unfold reconnect_body. unfold mbind at 1, M_bind at 1, act at 1.
  set (w0 := note Reopened w).
  pose proof (reopen_modem_connection_task) as Htask.
  pose proof (task_flag _ (task_polite _ Htask) w0 Hw) as Hf.
  pose proof (task_session _ (task_polite _ Htask) w0) as Hs.
  pose proof (task_total _ Htask w0) as Ht.
  unfold mbind at 1, M_bind at 1, mapE.
  destruct (reopen_modem_connection w0) as [[[]|e| |] w1]; cbn in Hf, Hs, Ht; try done.
  2: { injection Hs as _ Htr. split; [by rewrite Htr|]. exists (transport_err_to_agwpe e).
       split; [done|by destruct e]. }
  injection Hs as _ Htr.
  assert (Hset : exists w2, set_state (E:=AgwpeError) (Reconnecting why) w1 = (Ok tt, w2)
    /\ abort_flag w2 = true /\ trace w2 = trace w1).
  { eexists. split; [reflexivity|]. split; [by apply sync_flag|apply sync_trace]. }
  destruct Hset as (w2 & Hset & Hf2 & Ht2). rewrite (bind_ok _ _ _ _ _ Hset).
  unfold mbind at 1, M_bind at 1. rewrite check_abort_raised by done.
  split; [by rewrite sync_trace, Ht2, Htr|]. by eexists.
Qed.

Lemma reconnect_stopped why call w :
  abort_flag w = true ->
  let '(r, w') := handle_reconnect why call w in
  trace w' = trace w ++ [Reopened] /\ exists e, r = Err e.
Proof.
  intros Hw. unfold handle_reconnect.
  assert (Hset : exists w1, set_state (E:=AgwpeError) (Reconnecting why) w = (Ok tt, w1)
    /\ abort_flag w1 = true /\ trace w1 = trace w).
  { eexists. split; [reflexivity|]. split; [by apply sync_flag|apply sync_trace]. }
  destruct Hset as (w1 & Hset & Hf1 & Ht1). rewrite (bind_ok _ _ _ _ _ Hset).
  assert (Hlog : forall en, exists w2, push_log (E:=AgwpeError) en w1 = (Ok tt, w2)
    /\ abort_flag w2 = true /\ trace w2 = trace w1).
  { intros en. eexists. split; [reflexivity|]. split; [by apply sync_flag|apply sync_trace]. }
  match goal with |- context [push_log ?en] => destruct (Hlog en) as (w2 & Hl & Hf2 & Ht2) end.
  rewrite (bind_ok _ _ _ _ _ Hl). unfold catch.
  pose proof (reconnect_body_stopped why call w2 Hf2) as Hb.
  destruct (reconnect_body why call w2) as [r w3]. destruct Hb as (Ht3 & e & -> & He).
  assert (Hend : forall (en : Z -> DebugLogEntry) cs, let '(r, w') :=
      ((_ ← push_log en; _ ← set_state cs; throw e) w3 : Result AgwpeError unit * World T) in
    trace w' = trace w ++ [Reopened] /\ exists e, r = Err e).
  { intros en cs. split; [|by eexists]. cbn. unfold set_state_with.
    rewrite <- Ht1, <- Ht2, <- Ht3.
    transitivity (trace (sync (send_entry (en (clock w3)) (set_app (add_log (en (clock w3)) (app (sync w3))) (sync w3)))));
      [done|]. by rewrite sync_trace; cbn; rewrite sync_trace. }
  destruct e; try done; apply Hend.
Qed.

(** C25: a request is sent at most twice, the second time only after the session died
    and was reopened with the consent checked again.  A disconnection by the operator
    stops it: with the flag up at the start nothing is sent at all; up when the first
    attempt ends, the modem is reopened and nothing more is opened or sent; and up when
    the reconnection ends, the request is not repeated.  In between, the reconnection
    finishes the stage it is in. *)
Theorem retry_at_most_once secs data call :
  does (handle_send_request_with_reconnect secs data call) (retry_trace call data)
  /\ (forall w, abort_flag w = true ->
       (handle_send_request_with_reconnect secs data call w).1 = Err DisconnectedByOperator
       /\ trace (handle_send_request_with_reconnect secs data call w).2 = trace w)
  /\ (forall w w0 why w1,
       check_abort w = (Ok tt, w0) -> handle_send_request secs data w0 = (Err (SessionDied why), w1) ->
       let '(r, w') := handle_send_request_with_reconnect secs data call w in
       (abort_flag w1 = true -> trace w' = trace w1 ++ [Reopened] /\ exists e, r = Err e)
       /\ forall w2, handle_reconnect why call w1 = (Ok tt, w2) -> abort_flag w2 = true ->
            r = Err DisconnectedByOperator /\ trace w' = trace w2).
Proof.
  split; [apply retry_does|]. split.
  - intros w Hw.
    assert (E : handle_send_request_with_reconnect secs data call w
                = (Err DisconnectedByOperator, sync w)).
    { unfold handle_send_request_with_reconnect. unfold mbind at 1, M_bind at 1.
      by rewrite check_abort_raised. }
    rewrite E. split; [done|apply sync_trace].
  - intros w w0 why w1 Hfree Hdied. unfold handle_send_request_with_reconnect.
    rewrite (bind_ok _ _ _ _ _ Hfree). unfold catch. rewrite Hdied.
    pose proof (reconnect_stopped why call w1) as Hstop. unfold mbind at 1, M_bind at 1.
    destruct (handle_reconnect why call w1) as [[[]|e| |] w2] eqn:Hr.
    + assert (Hafter : abort_flag w2 = true ->
        (check_abort ≫= (fun _ => handle_send_request secs data)) w2 = (Err DisconnectedByOperator, sync w2)).
      { intros Hf. unfold mbind, M_bind. by rewrite check_abort_raised. }
      destruct ((check_abort ≫= _) w2) as [r w'] eqn:E. split.
      * intros Hf. destruct (Hstop Hf) as (_ & e & He). done.
      * intros w3 [= <-] Hf. injection (Hafter Hf) as -> ->. split; [done|apply sync_trace].
    + split; [intros Hf; destruct (Hstop Hf) as [Ht _]; split; [done|by exists e]|done].
    + split; [intros Hf; by destruct (Hstop Hf) as (_ & e & He)|done].
    + split; [intros Hf; by destruct (Hstop Hf) as (_ & e & He)|done].
Qed.
End Behaviour.

(** ** Concrete runs *)

#[local] Existing Instances ToyDebug.debug_format ToyModem.modem ToyModem.modem_laws Toy.unicode.

Definition banner : TransportEvent := EvData (bs "Enter your callsign: ").
Definition notice : list byte := bs "Type AGREE to proceed: ".
Definition tiny_response : list byte := bs "RESP0 0 - 0" ++ [LF].


Lemma reconnect_consent_witness :
  does_at (ToyModem.world (Some notice) [banner; EvData notice] [])
    (handle_reconnect (bs "lost") (bs "N0CALL")) (reconnect_trace (bs "N0CALL")).
Proof. apply reconnect_consent. Defined.

Lemma send_request_complete_witness :
  does_at (ToyModem.world None [EvData tiny_response] [])
    (handle_send_request 30 (bs "GET a")) (request_trace (bs "GET a")).
Proof. apply send_request_complete. Defined.

(** The operator disconnects while the first attempt waits for its response. *)
Definition stopped_world : World ToyModem.Script :=
  mkWorld [EvDisconnected (bs "bye"); banner; EvData notice; EvData tiny_response]
    (put_disclaimer (Some notice) (new_state default_config)) false 0 []
    [[]; []; []; []; [SetAbort]] [] [].
Definition after_check : World ToyModem.Script := (check_abort stopped_world).2.
Definition after_attempt : World ToyModem.Script :=
  (handle_send_request 30 (bs "GET a") after_check).2.

Lemma retry_at_most_once_witness :
  abort_flag after_attempt = true
  /\ trace after_attempt = [Sent (bs "GET a"); Received (EvDisconnected (bs "bye"))]
  /\ let '(r, w') := handle_send_request_with_reconnect 30 (bs "GET a") (bs "N0CALL") stopped_world in
     trace w' = trace after_attempt ++ [Reopened] /\ exists e, r = Err e.
Proof.
  assert (Hf : abort_flag after_attempt = true) by (vm_compute; reflexivity).
  split; [exact Hf|]. split; [vm_compute; reflexivity|].
  assert (H1 : check_abort stopped_world = (Ok tt, after_check)) by (vm_compute; reflexivity).
  assert (H2 : handle_send_request 30 (bs "GET a") after_check = (Err (SessionDied (bs "bye")), after_attempt))
    by (vm_compute; reflexivity).
  pose proof (proj2 (proj2 (retry_at_most_once 30 (bs "GET a") (bs "N0CALL"))) _ _ _ _ H1 H2) as Hs.
  destruct (handle_send_request_with_reconnect _ _ _ stopped_world) as [r w'].
  exact (proj1 Hs Hf).
Defined.

(** The runs themselves *)
Example handshake_runs :
  let (r, w) := perform_bpq_handshake (bs "N0CALL")
    (ToyModem.world None [banner; EvData notice] [(5000, Answered true)]) in
  r = Ok tt /\ sent_of (trace w) = [bs "WEB" ++ [LF]; bs "N0CALL" ++ [LF]; AGREE_LINE].
Proof. vm_compute. split; reflexivity. Qed.

Example retry_runs :
  let (r, w) := handle_send_request_with_reconnect 30 (bs "GET a") (bs "N0CALL")
    (ToyModem.world (Some notice)
      [EvDisconnected (bs "bye"); banner; EvData notice; EvData tiny_response] []) in
  r = Ok tiny_response
  /\ sent_of (trace w)
     = [bs "GET a"; bs "WEB" ++ [LF]; bs "N0CALL" ++ [LF]; AGREE_LINE; bs "GET a"]
  /\ connection_state (app w) = CsConnected.
Proof. vm_compute. repeat split. Qed.
