(* ===== verification/Delivery.v ===== *)
(** * A response delivered ([session.rs] over [agwpe.rs], [protocol.rs])

    The pieces together: a response the server encoded, cut into frames and
    the frames into reads, comes back from [handle_send_request] whole. *)
From Stdlib Require Import ZArith Lia Strings.Byte.
From stdpp Require Import base decidable list.
From S2P Require Import AgwpeFrame Agwpe.
From S2P Require Import Prelude Bytes Numbers External Protocol TransportTypes.
From S2P Require Import ClientConfig ClientState Transport Session.

(** ** Any modem *)

Section Generic.
Context {T : Type} `{TransportLaws T} `{UnicodeCase} `{DebugFormat} `{Base64Laws}.

(** No other task runs and the operator has not disconnected *)
Definition quiet (w : World T) : Prop := interference w = [] /\ abort_flag w = false.
(** The same as far as the modem sees *)
Definition same (w1 w : World T) : Prop :=
  modem w1 = modem w /\ clock w1 = clock w /\ quiet w1.
(** ... and the operator, the debug log aside *)
Definition alike (w1 w : World T) : Prop :=
  same w1 w /\ connection_state (app w1) = connection_state (app w).

(** In a world with [P cs] the next receptions, each under the request's timeout,
    give the chunks [cs]; what is left afterwards is [P]'s to say. *)
Record feeds (secs : Z) (P : list (list byte) -> World T -> Prop) : Prop := {
  feeds_alike : forall cs w1 w, alike w1 w -> P cs w -> P cs w1;
  feeds_next : forall c cs w, quiet w -> P (c :: cs) w ->
    exists w2, recv (clock w + secs * 1000) w = (Ok (EvData c), w2) /\ P cs w2 }.

(** The request goes out, and [P] holds of what follows. *)
Definition sends_to (P : list (list byte) -> World T -> Prop) (data : list byte)
    (chunks : list (list byte)) (w : World T) : Prop :=
  forall w1, alike w1 w -> exists w2, send data w1 = (Ok tt, w2) /\ P chunks w2.

(** The next receptions give these chunks. *)
Fixpoint delivers (secs : Z) (chunks : list (list byte)) (w : World T) : Prop :=
  match chunks with
  | [] => True
  | c :: cs => forall w1, same w1 w ->
      exists w2, recv (clock w1 + secs * 1000) w1 = (Ok (EvData c), w2) /\ delivers secs cs w2
  end.

(** The request goes out, and these chunks follow. *)
Definition answers_with (secs : Z) (data : list byte) (chunks : list (list byte)) (w : World T) : Prop :=
  forall w1, same w1 w ->
    exists w2, send data w1 = (Ok tt, w2) /\ delivers secs chunks w2.

Lemma same_refl w : quiet w -> same w w.
Proof. done. Qed.
Lemma same_trans w1 w2 w3 : same w1 w2 -> same w2 w3 -> same w1 w3.
Proof. intros (Hm & Hc & Hq) (Hm2 & Hc2 & _). repeat split; try congruence; apply Hq. Qed.

Lemma delivers_same secs chunks w1 w : same w1 w -> delivers secs chunks w -> delivers secs chunks w1.
Proof.
  destruct chunks as [|c cs]; [done|]. intros Hs Hd w2 Hw2. apply Hd. by eapply same_trans.
Qed.

Lemma alike_refl w : quiet w -> alike w w.
Proof. done. Qed.
Lemma alike_trans w1 w2 w3 : alike w1 w2 -> alike w2 w3 -> alike w1 w3.
Proof. intros [Hs Ha] [Hs2 Ha2]. split; [by eapply same_trans|congruence]. Qed.

Lemma delivers_feeds secs : feeds secs (delivers secs).
Proof.
  split; [intros cs w1 w [Hs _]; by apply delivers_same|]. intros c cs w Hq Hd.
  by apply (Hd w (same_refl w Hq)).
Qed.
Lemma answers_sends secs data chunks w :
  answers_with secs data chunks w -> sends_to (delivers secs) data chunks w.
Proof. intros Ha w1 [Hs _]. by apply Ha. Qed.

Lemma recv_quiet deadline w ev w' : quiet w -> recv deadline w = (Ok ev, w') -> quiet w'.
Proof.
  intros [Hi Ha] Hr. pose proof (task_alone _ (task_polite _ (recv_task deadline)) w Hi) as (Hi' & Ha' & _).
  rewrite Hr in Hi', Ha'. cbn in Hi', Ha'. split; [done|congruence].
Qed.
Lemma send_quiet data w w' : quiet w -> send data w = (Ok tt, w') -> quiet w'.
Proof.
  intros [Hi Ha] Hr. pose proof (task_alone _ (task_polite _ (send_task data)) w Hi) as (Hi' & Ha' & _).
  rewrite Hr in Hi', Ha'. cbn in Hi', Ha'. split; [done|congruence].
Qed.

Lemma feeds_supply secs P chunks : feeds secs P -> forall w,
  quiet w -> P chunks w -> (length chunks <= supply (modem w))%nat.
Proof.
  intros HP. induction chunks as [|c cs IH]; intros w Hq Hd; [simpl; lia|].
  destruct (feeds_next _ _ HP c cs w Hq Hd) as (w2 & Hr & Hd2).
  pose proof (recv_supply _ _ _ _ Hr) as Hlt.
  specialize (IH w2 (recv_quiet _ _ _ _ Hq Hr) Hd2). simpl. lia.
Qed.

(** Logging in a quiet world *)
Lemma push_log_quiet {A} e w (k : unit -> @Task T AgwpeError A) :
  quiet w -> exists w', alike w' w /\ (push_log e ≫= k) w = k tt w'.
Proof.
  intros [Hi Ha]. unfold mbind, M_bind, push_log. rewrite (sync_alone w Hi).
  eexists. split; [|done]. done.
Qed.

Lemma is_aborted_quiet {A} w (k : bool -> @Task T AgwpeError A) :
  quiet w -> (is_aborted ≫= k) w = k false w.
Proof.
  intros [Hi Ha]. unfold mbind, M_bind, is_aborted. rewrite (sync_alone w Hi). by rewrite Ha.
Qed.

Section Response.
Variable secs : Z.
Variable P : list (list byte) -> World T -> Prop.
Hypothesis fed : feeds secs P.
Variable garbage rest : list byte.
Variable r : Response.
Hypothesis no_magic : contains MAGIC (garbage ++ take 3 MAGIC) = false.
Hypothesis wf : response_wf r.
Hypothesis short : Z.of_nat (length garbage) + 3 <= 32 * 1024.

Let full : list byte := garbage ++ encode_response r ++ rest.
Let h : Header := header_of (length garbage) r.
Hypothesis alive : is_session_dead_payload full = false.
Hypothesis small : Z.of_nat (length full) <= MAX_RESPONSE_SIZE.

Lemma full_header : Protocol.decode_header full = Ok (Some h).
Proof. by apply decode_encode_header. Qed.

(** A part of the response: no header yet, or the header itself *)
Lemma prefix_header data more :
  full = data ++ more ->
  Protocol.decode_header data = Ok None \/ Protocol.decode_header data = Ok (Some h).
Proof.
  intros Hf. pose proof (decode_header_app data more) as Hn. rewrite <- Hf, full_header in Hn.
  destruct (Protocol.decode_header data) as [[h'|]|e| |]; [|by left|..];
    right; symmetry; by apply Hn.
Qed.

(** Where the payload ends *)
Definition payload_end : nat := h_end h + Z.to_nat (h_len h).

Lemma payload_end_full : (payload_end <= length full)%nat.
Proof.
  unfold payload_end, h, header_of, full. cbn [h_end h_len].
  rewrite Nat2Z.id, encode_response_split, !length_app. simpl. lia.
Qed.

Lemma long_has_magic data more :
  full = data ++ more -> (length garbage + 4 <= length data)%nat -> contains MAGIC data = true.
Proof.
  intros Hf Hl. unfold full in Hf. rewrite encode_response_split in Hf.
  assert (Hm : garbage ++ (header_text r ++ b64_encode (payload r) ++ [LF]) ++ rest
    = (garbage ++ MAGIC) ++ (drop 4 (header_text r) ++ (b64_encode (payload r) ++ [LF]) ++ rest)).
  { unfold header_text. match goal with |- context [drop 4 (MAGIC ++ ?x)] =>
      change (drop 4 (MAGIC ++ x)) with x end. by rewrite <- !app_assoc. }
  rewrite Hm in Hf. destruct (take_app_prefix _ _ _ _ Hf) as (e & -> & _).
  - rewrite length_app. exact Hl.
  - rewrite contains_spec. exists garbage, e. by rewrite <- app_assoc.
Qed.

(** The header known so far *)
Definition known (data : list byte) (expected : option (nat * Z)) : Prop :=
  match expected with
  | None => Protocol.decode_header data = Ok None
  | Some e => e = (h_end h, h_len h) /\ Protocol.decode_header data = Ok (Some h)
  end.

Lemma known_app data bytes more expected :
  full = (data ++ bytes) ++ more -> known data expected ->
  expected = None \/ known (data ++ bytes) expected.
Proof.
  intros Hf. destruct expected as [e|]; [|by left]. intros [-> Hh]. right. split; [done|].
  rewrite decode_header_app; [done|by rewrite Hh].
Qed.

Lemma find_header_quiet {A} data more expected w (k : option (nat * Z) -> @Task T AgwpeError A) :
  quiet w -> full = data ++ more -> expected = None \/ known data expected ->
  exists expected' w', (find_header expected data ≫= k) w = k expected' w'
    /\ alike w' w /\ known data expected'.
Proof.
  intros Hq Hf Hk. destruct expected as [e|].
  { destruct Hk as [|Hk]; [done|]. exists (Some e), w. by split. }
  clear Hk. unfold find_header. destruct (prefix_header data more Hf) as [Hn|Hs].
  - rewrite Hn. exists None, w. unfold no_header.
    destruct (contains MAGIC data) eqn:Hc; [by split_and!|].
    rewrite (proj2 (Z.ltb_ge _ _)); [by split_and!|].
    destruct (Nat.le_gt_cases (length garbage + 4) (length data)) as [Hl|]; [|lia].
    by rewrite (long_has_magic data more Hf Hl) in Hc.
  - rewrite Hs. destruct (decode_header_ok _ _ Hs) as [_ _ _ Hin _].
    exists (Some (h_end h, h_len h)).
    assert (Hj : forall w1, alike w1 w -> exists w',
      ((_ ← push_log (debug (bs "PROTOCOL")
            (bs "Response header: base64_payload_size=" ++ display (h_len h)));
        mret (Some (h_end h, h_len h))) ≫= k) w1 = k (Some (h_end h, h_len h)) w'
      /\ alike w' w /\ known data (Some (h_end h, h_len h))).
    { intros w1 Hw1. destruct (push_log_quiet (debug (bs "PROTOCOL")
            (bs "Response header: base64_payload_size=" ++ display (h_len h))) w1
            (fun _ => k (Some (h_end h, h_len h))) (proj2 (proj2 (proj1 Hw1)))) as (w2 & Hw2 & He).
      exists w2. split; [exact He|]. split; [by eapply alike_trans|done]. }
    destruct (0 <? h_end h)%nat; [|by apply Hj, alike_refl].
    assert (Hsl : exists shown, slice (E:=AgwpeError) 0 (Nat.min (h_end h) 128) data = Ok shown)
      by (rewrite slice_ok by lia; eauto).
    destruct Hsl as [shown ->].
    destruct (push_log_quiet (info (bs "PROTOCOL")
        (bs "Framed header found at offset " ++ display (Z.of_nat (h_end h))
         ++ bs ". Preceding bytes: " ++ debug_str (from_utf8_lossy shown))) w
      (fun _ => (_ ← push_log (debug (bs "PROTOCOL")
            (bs "Response header: base64_payload_size=" ++ display (h_len h)));
        mret (Some (h_end h, h_len h))) ≫= k) Hq) as (w1 & Hw1 & He1).
    destruct (Hj w1 Hw1) as (w2 & He2 & Hw2). exists w2. split; [|done].
    rewrite <- He2, <- He1. reflexivity.
Qed.

(** What the request returns: a part of what was sent that holds the response *)
Definition delivered (bytes : list byte) : Prop :=
  exists more, full = bytes ++ more /\ Protocol.decode_header bytes = Ok (Some h)
  /\ (payload_end <= length bytes)%nat.

Lemma part_alive data more : full = data ++ more -> is_session_dead_payload data = false.
Proof.
  intros Hf. pose proof alive as Ha. unfold is_session_dead_payload in *. rewrite Hf in Ha.
  apply orb_false_iff in Ha as [Ha1 Ha2]. apply orb_false_iff. split.
  - destruct (contains (bs "*** DISCONNECTED") data) eqn:E; [|done].
    by rewrite (contains_app_l _ _ more E) in Ha1.
  - destruct (contains (bs "Returned to Node") data) eqn:E; [|done].
    by rewrite (contains_app_l _ _ more E) in Ha2.
Qed.

(** ... and of the chunks, the ones it did not need are left. *)
Lemma response_loop_gets chunks : forall fuel data expected w,
  quiet w -> full = data ++ concat chunks -> known data expected ->
  expected = None \/ (length data < payload_end)%nat ->
  P chunks w -> (length chunks < fuel)%nat ->
  exists bytes left w', response_loop fuel secs data expected w = (Ok bytes, w') /\ delivered bytes
    /\ full = bytes ++ concat left /\ (exists used, chunks = used ++ left) /\ quiet w' /\ P left w'.
Proof.
  induction chunks as [|c cs IH]; intros fuel data expected w Hq Hf Hk Hlt Hd Hfu.
  { rewrite app_nil_r in Hf. subst data. pose proof payload_end_full. pose proof full_header.
    destruct expected; [destruct Hlt; [done|lia]|]. cbn in Hk. congruence. }
  destruct fuel as [|fuel]; [lia|]. cbn [response_loop].
  change ((gets clock ≫= ?k) w) with (k (clock w) w). cbv beta.
  destruct (feeds_next _ _ fed c cs w Hq Hd) as (w2 & Hr & Hd2).
  pose proof (recv_quiet _ _ _ _ Hq Hr) as Hq2.
  set (w3 := note (Received (EvData c)) w2).
  assert (Hq3 : alike w3 w2) by done.
  assert (Htr : transport_recv (clock w + secs * 1000) w = (Ok (EvData c), w3))
    by (unfold transport_recv, mbind, M_bind; by rewrite Hr).
  unfold catch. rewrite Htr. cbn [concat] in Hf.
  pose proof Hf as Hf'. rewrite app_assoc in Hf'.
  rewrite (proj2 (Z.ltb_ge _ _)).
  2:{ apply (f_equal length) in Hf'. rewrite !length_app in Hf'. pose proof small. lia. }
  rewrite (part_alive _ _ Hf'). rewrite is_aborted_quiet by done.
  match goal with |- context [(push_log ?e ≫= ?k) w3] =>
    destruct (push_log_quiet e w3 k Hq2) as (w4 & Hw4 & ->) end.
  match goal with |- context [(find_header ?e ?d ≫= ?k) w4] =>
    destruct (find_header_quiet d (concat cs) e w4 k (proj2 (proj2 (proj1 Hw4))) Hf')
      as (ex & w5 & -> & Hw5 & Hk5); [by apply (known_app data c (concat cs))|] end.
  assert (Hs52 : alike w5 w2) by (eapply alike_trans; [exact Hw5|]; by eapply alike_trans).
  assert (Hnext : ex = None \/ (length (data ++ c) < payload_end)%nat -> exists bytes left w',
    response_loop fuel secs (data ++ c) ex w5 = (Ok bytes, w') /\ delivered bytes
    /\ full = bytes ++ concat left /\ (exists used, c :: cs = used ++ left) /\ quiet w' /\ P left w').
  { intros Hl. destruct (IH fuel (data ++ c) ex w5) as (bytes & left & w' & Hb & Hdel & Hl2 & [used ->] & Hq' & HP');
      [apply Hs52|done|done|done|by eapply (feeds_alike _ _ fed)|simpl in Hfu; lia|].
    exists bytes, left, w'. split_and!; try done. by exists (c :: used). }
  destruct ex as [e|]; [|apply Hnext; by left]. destruct Hk5 as [-> Hh5].
  pose proof (decode_header_ok _ _ Hh5) as [Hlen _ _ _ _].
  destruct (Z.leb_spec (Z.of_nat (h_end h) + h_len h) (Z.of_nat (length (data ++ c)))).
  - match goal with |- context [(push_log ?e ≫= ?k) w5] =>
      destruct (push_log_quiet e w5 k (proj2 (proj2 (proj1 Hw5)))) as (w6 & Hw6 & ->) end.
    exists (data ++ c), cs, w6. split_and!; [done| |done|by exists [c]|apply Hw6|].
    + exists (concat cs). split_and!; [done|done|]. unfold payload_end. lia.
    + eapply (feeds_alike _ _ fed); [|exact Hd2]. by eapply alike_trans.
  - apply Hnext. right. unfold payload_end. lia.
Qed.

Lemma send_request_gets data chunks w :
  quiet w -> full = concat chunks -> sends_to P data chunks w ->
  exists bytes left w', handle_send_request secs data w = (Ok bytes, w') /\ delivered bytes
    /\ full = bytes ++ concat left /\ (exists used, chunks = used ++ left) /\ quiet w' /\ P left w'.
Proof.
  intros Hq Hf Ha. unfold handle_send_request. rewrite is_aborted_quiet by done.
  match goal with |- context [(push_log ?e ≫= ?k) w] =>
    destruct (push_log_quiet e w k Hq) as (w1 & Hw1 & ->) end.
  assert (Hn : alike (note (Sent data) w1) w).
  { destruct Hw1 as ((Hm & Hc & Hq1) & Hs). by split_and!. }
  destruct (Ha _ Hn) as (w2 & Hs & Hd).
  pose proof (send_quiet _ _ _ (proj2 (proj2 (proj1 Hn))) Hs) as Hq2.
  assert (Hts : transport_send data w1 = (Ok tt, w2))
    by (unfold transport_send, mapE, mbind, M_bind; cbn [act]; by rewrite Hs).
  rewrite (bind_ok _ _ _ _ _ Hts).
  match goal with |- context [(push_log ?e ≫= ?k) w2] =>
    destruct (push_log_quiet e w2 k Hq2) as (w3 & Hw3 & ->) end.
  change ((recv_fuel ≫= ?k) w3) with (k (S (supply (modem w3))) w3). cbv beta.
  pose proof (feeds_alike _ _ fed _ _ _ Hw3 Hd) as Hd3. pose proof (proj2 (proj2 (proj1 Hw3))) as Hq3.
  apply (response_loop_gets chunks); [done|done|done|by left|done|].
  pose proof (feeds_supply secs P chunks fed w3 Hq3 Hd3) as Hle. lia.
Qed.

(** The payload is in what was returned, where the header says *)
Lemma delivered_payload bytes :
  delivered bytes ->
  exists b64, slice (E:=ProtocolError) (h_end h) payload_end bytes = Ok b64
  /\ decode_payload b64 = Ok (payload r).
Proof.
  intros (more & Hf & _ & Hl). destruct (decode_encode_payload garbage r rest) as [Hs Hd].
  exists (b64_encode (payload r)). split; [|done].
  change (slice (E:=ProtocolError) (h_end h) payload_end full = Ok (b64_encode (payload r))) in Hs.
  rewrite Hf, slice_app in Hs; [done| |done]. unfold payload_end. lia.
Qed.
(** At most what follows the payload is left. *)
Lemma delivered_left bytes left :
  delivered bytes -> full = bytes ++ left -> exists used, LF :: rest = used ++ left.
Proof.
  intros (_ & _ & _ & Hl) Hf.
  assert (Hcut : full = take payload_end full ++ LF :: rest).
  { assert (He : payload_end = length (garbage ++ header_text r ++ b64_encode (payload r))).
    { unfold payload_end, h, header_of. cbn [h_end h_len]. rewrite Nat2Z.id, !length_app. lia. }
    unfold full. rewrite He, encode_response_split.
    replace (garbage ++ (header_text r ++ b64_encode (payload r) ++ [LF]) ++ rest)
      with ((garbage ++ header_text r ++ b64_encode (payload r)) ++ LF :: rest) by (by rewrite <- !app_assoc).
    by rewrite take_app_length. }
  rewrite Hf in Hcut at 1. destruct (take_app_prefix _ _ _ _ (eq_sym Hcut)) as (e & _ & He).
  - rewrite length_take. lia.
  - by exists e.
Qed.
End Response.
End Generic.

(** ** The AGWPE modem *)

Section Modem.
Context (secs : Z) (positive : 0 < secs).

Lemma awaits_later D D' later w l : D <= D' -> awaits D later w l -> awaits D' later w l.
Proof.
  intros Hd (good & ws & Hs & Hg & Hb). exists good, ws. split_and!; [done| |done].
  eapply Forall_impl; [exact Hg|]. intros e [He Hne]. split; [lia|done].
Qed.

(** Reading only moves the clock forward and takes from the stream. *)
Definition reads_on (w w' : World AgwpeTransport) : Prop :=
  app w' = app w /\ clock w <= clock w' /\ (writes_succeed w -> writes_succeed w').
Lemma reads_on_refl w : reads_on w w.
Proof. split_and!; [done|lia|done]. Qed.
Lemma reads_on_trans w1 w2 w3 : reads_on w1 w2 -> reads_on w2 w3 -> reads_on w1 w3.
Proof. intros (Ha & Hc & Hw) (Ha2 & Hc2 & Hw2). split_and!; [congruence|lia|auto]. Qed.
Lemma reads_on_buf w b : reads_on w (set_modem (set_read_buf b (modem w)) w).
Proof. split_and!; [done|cbn; lia|done]. Qed.

Lemma read_chunk_on D w : reads_on w (read_chunk D w).2.
Proof.
  unfold read_chunk. destruct (stream (modem w)) as [s|] eqn:Hs; [|apply reads_on_refl].
  assert (Hw : forall t', reads_on w (set_clock (Z.max (clock w) t') w))
    by (intros t'; split_and!; [done|cbn; lia|done]).
  destruct (incoming s) as [|[t ev] rest]; [apply Hw|]. destruct (t <? D); [|apply Hw].
  destruct ev; (split_and!; [done|cbn; lia|]); intros (s' & Hs' & Hall); rewrite Hs in Hs';
    injection Hs' as <-; eexists; (split; [reflexivity|done]).
Qed.

Lemma read_frame_loop_on fuel D : forall w, reads_on w (read_frame_loop fuel D w).2.
Proof.
  induction fuel as [|k IH]; intros w; [apply reads_on_refl|]. cbn [read_frame_loop].
  change ((this read_buf ≫= ?k) w) with (k (read_buf (modem w)) w). cbv beta.
  unfold mbind, M_bind, lift.
  destruct (take_frame (read_buf (modem w))) as [[[f n]|]|e| |]; try apply reads_on_refl;
    [apply reads_on_buf|].
  pose proof (read_chunk_on D w) as Hc.
  destruct (read_chunk D w) as [[[[|x d]|]|e| |] w1]; cbn in *; try exact Hc.
  eapply reads_on_trans; [exact Hc|]. eapply reads_on_trans; [apply reads_on_buf|apply IH].
Qed.

(** A data frame of a living session *)
Definition data_frame_wf (f : AgwpeFrame) : Prop :=
  frame_wf f /\ frame_type f = SendData /\ is_session_dead_payload (data f) = false.

(** Writing works, and the data frames with the payloads [cs] arrive before [D], then the
    bytes [after] and whatever is [later]. *)
Definition carries (D : Z) later after (cs : list (list byte)) (w : World AgwpeTransport) : Prop :=
  writes_succeed w /\ exists fs, cs = map data fs /\ Forall data_frame_wf fs
     /\ awaits D later w (concat (map encode fs) ++ after).

(** ... within the request's timeout, and the operator sees [shown]. *)
Definition coming later after (shown : ConnectionState) (cs : list (list byte))
    (w : World AgwpeTransport) : Prop :=
  connection_state (app w) = shown
  /\ exists D, D <= clock w + secs * 1000 /\ carries D later after cs w.

Lemma carries_same D later after cs w1 w :
  same w1 w -> carries D later after cs w -> carries D later after cs w1.
Proof. intros (Hm & _). unfold carries, writes_succeed, awaits. by rewrite Hm. Qed.
Lemma coming_alike later after shown cs w1 w :
  alike w1 w -> coming later after shown cs w -> coming later after shown cs w1.
Proof.
  intros [Hsame Hs] (Hw & D & HD & Hc). pose proof Hsame as (_ & Hclock & _). split; [congruence|].
  exists D. split; [lia|]. by apply (carries_same _ _ _ _ w1 w).
Qed.

(** The modem reads a timely frame. *)
Lemma read_frame_timely D until later f rest w :
  D <= until -> clock w < until -> frame_wf f -> awaits D later w (encode f ++ rest) ->
  exists w2, read_frame_with_timeout_deadline until w = (Ok f, w2) /\ awaits D later w2 rest /\ reads_on w w2.
Proof.
  intros HD Hc Hf Ha.
  destruct (read_frame_loop_gets D until later f _ HD Hf (S (incoming_size (modem w))) w ltac:(lia) Ha)
    as (w2 & Hr & Ha2).
  pose proof (read_frame_loop_on (S (incoming_size (modem w))) until w) as Hon.
  rewrite Hr in Hon. exists w2. split; [|done]. unfold read_frame_with_timeout_deadline.
  change ((gets clock ≫= ?k) w) with (k (clock w) w). cbv beta. rewrite (proj2 (Z.leb_gt until (clock w))) by lia.
  unfold read_frame_from_stream, this, gets, mbind, M_bind. by rewrite Hr.
Qed.

(** Timely data frames are delivered one by one. *)
Lemma carries_next D until later after c cs w :
  D <= until -> clock w < until -> carries D later after (c :: cs) w ->
  exists w2, recv until w = (Ok (EvData c), w2) /\ carries D later after cs w2 /\ reads_on w w2.
Proof.
  intros HD Hck (Hw & fs & Hfs & Hall & Ha). destruct fs as [|f fs]; [done|].
  injection Hfs as -> ->. apply Forall_cons in Hall as [(Hf & Ht & Hdead) Hall].
  cbn [map concat] in Ha. rewrite <- app_assoc in Ha.
  destruct (read_frame_timely D until later f _ w HD Hck Hf Ha) as (w2 & Hread & Ha2 & Hon).
  exists w2. split; [|split; [|done]].
  - cbn [recv Agwpe.agwpe]. unfold agwpe_recv, mapE, mbind, M_bind. rewrite Hread.
    cbn [map_err mret M_ret]. unfold frame_event. by rewrite Ht, Hdead.
  - split; [by apply Hon|]. by exists fs.
Qed.

Lemma coming_feeds later after shown : feeds secs (coming later after shown).
Proof.
  split; [intros cs w1 w; apply coming_alike|]. intros c cs w _ (Hs & D & HD & Hc).
  destruct (carries_next D (clock w + secs * 1000) later after c cs w) as (w2 & Hr & Hc2 & Ha & Hck & _);
    [done|lia|done|].
  exists w2. split; [done|]. split; [by rewrite Ha|]. exists D. split; [lia|done].
Qed.

(** Writing leaves what is to be read alone. *)
Lemma write_all_carries D later l bytes w :
  writes_succeed w -> awaits D later w l ->
  exists w', write_all bytes w = (Ok tt, w') /\ awaits D later w' l /\ writes_succeed w'
    /\ clock w' = clock w /\ app w' = app w.
Proof.
  intros Hw (good & ws & Hs & Hg & Hb).
  destruct (write_all_succeeds bytes w Hw) as (w1 & Hr & Hw1 & _ & _).
  exists w1. split; [done|]. unfold write_all in Hr. rewrite Hs in Hr.
  cbn [Agwpe.writes] in Hr. destruct ws as [|[e|] ws]; simplify_eq; (split; [|done]);
    first [by exists good, [] | by exists good, ws].
Qed.

Lemma send_chunks_awaits D later l cs : forall w,
  writes_succeed w -> awaits D later w l ->
  exists w', send_chunks cs w = (Ok tt, w') /\ awaits D later w' l /\ writes_succeed w'
    /\ clock w' = clock w /\ app w' = app w.
Proof.
  induction cs as [|c cs IH]; intros w Hw Ha; cbn [send_chunks]; [by exists w|].
  destruct (write_all_carries D later l (encode (data_frame (modem w) c)) w Hw Ha)
    as (w1 & Hr & Ha1 & Hw1 & Hc1 & Hp1).
  destruct (IH w1 Hw1 Ha1) as (w2 & Hr2 & Ha2 & Hw2 & Hc2 & Hp2).
  exists w2. split_and!; [|done|done|congruence|congruence].
  change ((this id ≫= ?k) w) with (k (modem w) w). cbv beta.
  unfold mapE, mbind, M_bind. rewrite Hr. cbn [map_err]. exact Hr2.
Qed.

Lemma carries_send D later after cs text w :
  carries D later after cs w ->
  exists w2, send text w = (Ok tt, w2) /\ carries D later after cs w2 /\ clock w2 = clock w /\ app w2 = app w.
Proof.
  intros (Hws & fs & Hfs & Hall & Ha).
  destruct (send_chunks_awaits D later _ (chunks (length text) text) w Hws Ha)
    as (w2 & Hs2 & Ha2 & Hws2 & Hc2 & Hp2).
  exists w2. split; [|split; [split; [done|by exists fs]|done]].
  cbn [send Agwpe.agwpe]. unfold agwpe_send.
  change ((this is_connected ≫= ?k) w) with (k (is_connected (modem w)) w). cbv beta.
  destruct Hws as (s & Hs1 & _). unfold is_connected. by rewrite Hs1, bool_decide_true by done.
Qed.

Lemma coming_sends later after shown cs text w :
  coming later after shown cs w -> sends_to (coming later after shown) text cs w.
Proof.
  intros Hw w1 Hw1. destruct (coming_alike _ _ _ _ _ _ Hw1 Hw) as (Hs & D & HD & Hc).
  destruct (carries_send D later after cs text w1 Hc) as (w2 & Hr & Hc2 & Hck & Hp).
  exists w2. split; [done|]. split; [by rewrite Hp|]. exists D. by rewrite Hck.
Qed.

(** No frame of a text without the words for the end of the session has them. *)
Lemma frames_alive fs text :
  Forall (fun f => frame_wf f /\ frame_type f = SendData) fs ->
  concat (map AgwpeFrame.data fs) = text -> is_session_dead_payload text = false ->
  Forall data_frame_wf fs.
Proof.
  intros Hfs Hcat Hdead. apply Forall_forall. intros f Hf. rewrite Forall_forall in Hfs.
  destruct (Hfs f Hf) as [Hf1 Hf2]. split; [done|]. split; [done|].
  apply list_elem_of_split in Hf as (fs1 & fs2 & ->).
  apply not_true_is_false. intros Hd. rewrite map_app, concat_app in Hcat. cbn [map concat] in Hcat.
  rewrite <- Hcat in Hdead. unfold is_session_dead_payload in *.
  apply orb_false_iff in Hdead as [Hd1 Hd2]. apply orb_true_iff in Hd as [Hd|Hd];
    apply (contains_infix _ (concat (map AgwpeFrame.data fs1)) _ (concat (map AgwpeFrame.data fs2))) in Hd;
    congruence.
Qed.
End Modem.

(** A page gets through: when no other task interferes and the writes succeed, the
    response the server encoded, behind any banner text, cut into any data frames
    and these into any reads that arrive in time, makes the request return, and
    at the place its header announces the payload sent is found. *)
Theorem response_delivered `{UnicodeCase} `{DebugFormat} `{Base64Laws}
    secs garbage rest tail r data fs D later w :
  0 < secs -> quiet w -> writes_succeed w ->
  contains MAGIC (garbage ++ take 3 MAGIC) = false -> response_wf r ->
  Z.of_nat (length garbage) + 3 <= 32 * 1024 ->
  concat (map AgwpeFrame.data fs) = garbage ++ encode_response r ++ rest ->
  is_session_dead_payload (concat (map AgwpeFrame.data fs)) = false ->
  Z.of_nat (length (concat (map AgwpeFrame.data fs))) <= MAX_RESPONSE_SIZE ->
  Forall (fun f => frame_wf f /\ frame_type f = SendData) fs ->
  D <= clock w + secs * 1000 -> awaits D later w (concat (map encode fs) ++ tail) ->
  exists bytes h b64 w', handle_send_request secs data w = (Ok bytes, w')
    /\ Protocol.decode_header bytes = Ok (Some h)
    /\ h_status h = status r /\ h_etag h = etag r /\ h_max_age h = max_age r
    /\ slice (E:=ProtocolError) (h_end h) (h_end h + Z.to_nat (h_len h)) bytes = Ok b64
    /\ decode_payload b64 = Ok (payload r).
Proof.
  intros Hsecs Hq Hw Hg Hwf Hshort Hcat Hdead Hsmall Hfs HD Ha. rewrite Hcat in Hdead, Hsmall.
  pose proof (frames_alive fs _ Hfs Hcat Hdead) as Hfs'.
  set (P := coming secs later tail (connection_state (app w))).
  assert (HP : P (map AgwpeFrame.data fs) w).
  { split; [done|]. exists D. split; [done|]. split; [done|]. by exists fs. }
  destruct (send_request_gets secs P (coming_feeds secs Hsecs later tail _) garbage rest r Hg Hwf Hshort
              Hdead Hsmall data (map AgwpeFrame.data fs) w Hq (eq_sym Hcat) (coming_sends secs _ _ _ _ _ _ HP))
    as (bytes & left & w' & Hr & Hdel & _).
  destruct (delivered_payload garbage rest r bytes Hdel) as (b64 & Hs & Hp).
  exists bytes, (header_of (length garbage) r), b64, w'.
  split_and!; try done. by destruct Hdel as (more & _ & Hh & _).
Qed.

(** One frame that carries a banner and a response, read in two pieces *)
Definition page : Response := mkResponse Status.Ok (bs "-") 0 (bs "page").
Definition page_frame : AgwpeFrame :=
  new_frame 0 SendData (bs "N0CALL-8") (bs "N0CALL") (bs "> " ++ encode_response page).
Definition page_world : World AgwpeTransport :=
  mkWorld
    (mkAgwpeTransport
       (Some (mkStream [(5, RdData (take 50 (encode page_frame)));
                        (9, RdData (drop 50 (encode page_frame)))] []))
       [] (bs "N0CALL") (bs "N0CALL-8") 0 true [] [])
    (new_state default_config) false 0 [] [] [] [].

Lemma response_delivered_witness :
  exists bytes h b64 w',
    @handle_send_request _ _ ToyDebug.debug_format 30 (bs "GET http://a.org/" ++ [LF]) page_world
      = (Ok bytes, w')
    /\ Protocol.decode_header bytes = Ok (Some h)
    /\ h_status h = Status.Ok /\ h_etag h = bs "-" /\ h_max_age h = 0
    /\ slice (E:=ProtocolError) (h_end h) (h_end h + Z.to_nat (h_len h)) bytes = Ok b64
    /\ decode_payload b64 = Ok (bs "page").
Proof.
  apply (@response_delivered Toy.unicode ToyDebug.debug_format rfc4648 rfc4648_laws 30 (bs "> ") []
    [] page (bs "GET http://a.org/" ++ [LF]) [page_frame] 30000 [] page_world).
  - lia.
  - split; reflexivity.
  - eexists. split; [reflexivity|constructor].
  - reflexivity.
  - unfold response_wf, i32_min, i32_max, u32_max. split; [reflexivity|]. vm_compute. by repeat split.
  - cbn. lia.
  - reflexivity.
  - reflexivity.
  - vm_compute. discriminate.
  - constructor; [|constructor]. split; [|reflexivity]. apply demo_frame_wf. vm_compute. lia.
  - cbn. lia.
  - eexists [(5, RdData (take 50 (encode page_frame))); (9, RdData (drop 50 (encode page_frame)))], [].
    split; [reflexivity|]. split; [|reflexivity].
    repeat constructor; vm_compute; discriminate.
Defined.
