(* ===== verification/Manager.v ===== *)
(** * The transport actor ([client/src/transport/manager.rs])

    The background task that owns the modem takes commands from a queue and
    answers each; the abort flag is set by the callers that close the
    session, before their command is queued. *)
From Stdlib Require Import ZArith Lia Strings.Byte.
From stdpp Require Import base decidable list.
From S2P Require Import AgwpeFrame Agwpe.
From S2P Require Import Prelude Bytes Numbers External TransportTypes ClientConfig ClientState.
From S2P Require Import Transport Session.

Inductive TransportCommand : Type :=
| ConnectModem (cfg : TransportConfig)
| DisconnectModem
| QueryPorts
| OpenSession (target : list byte) (port : Z)
| CloseSession
| SendRequest (data : list byte)
| SendRequestWithReconnect (data : list byte).

(** The answers, by the type of the command's reply channel *)
Inductive Reply : Type :=
| Done (r : Result AgwpeError unit)
| Bytes (r : Result AgwpeError (list byte)).

Section Manager.
Context {T : Type} `{Transport T} `{UnicodeCase} `{DebugFormat}.

Abbreviation Ses := (@Task T AgwpeError).

Definition handle_connect_modem (cfg : TransportConfig) : Ses unit :=
  _ ← mapE transport_err_to_agwpe (connect_modem cfg);
  push_log (debug (bs "AGWPE") (bs "Connected as " ++ tr_local_callsign cfg)).

Definition handle_disconnect_modem : Ses unit :=
  _ ← mapE transport_err_to_agwpe disconnect_modem;
  push_log (info (bs "AGWPE") (bs "Modem disconnected")).

Definition handle_query_ports : Ses unit :=
  supported ← gets (fun w => port_query_supported (modem w));
  if negb supported then mret tt else mapE transport_err_to_agwpe query_ports.

Definition handle_open_session (target : list byte) (port_num : Z) (local_callsign : list byte)
    : Ses unit :=
  _ ← reset_abort;
  cmd ← lock_read (fun a => bpq_command (ClientState.config a));
  skip ← lock_read (fun a => skip_bpq_app (ClientState.config a));
  _ ← mapE transport_err_to_agwpe
        (open_session (mkSessionConfig local_callsign target cmd skip port_num));
  (* the two updates are made under one lock *)
  _ ← set_state_with (set_agwpe_port port_num) Connecting;
  _ ← lock_update (fun a => set_config (update_target target (ClientState.config a)) a);
  _ ← ax25_open_and_await_connected;
  catch (perform_bpq_handshake local_callsign) (fun r =>
    match r with
    | inr _ => set_state CsConnected
    | inl e =>
        let msg := bs "BPQ handshake failed: " ++ display_agwpe_error e in
        _ ← push_log (info (bs "ERROR") msg);
        _ ← set_state (CsError msg);
        throw (ConnectionFailed msg)
    end).

Definition handle_close_session : Ses unit :=
  _ ← abort;
  catch close_session (fun r =>
    match r with
    | inr _ => set_state AgwpeConnected
    | inl e => throw (transport_err_to_agwpe e)
    end).

(** ** The queue *)

(** One turn of [background_task]: the reply, and the cached callsign *)
Definition step (timeout_secs : Z) (cmd : TransportCommand) (local_callsign : list byte)
    (w : World T) : Reply * list byte * World T :=
  match cmd with
  | ConnectModem cfg =>
      let (r, w') := (_ ← reset_abort; handle_connect_modem cfg) w in
      (Done r, match r with Ok _ => tr_local_callsign cfg | _ => local_callsign end, w')
  | DisconnectModem =>
      let (r, w') := handle_disconnect_modem w in (Done r, local_callsign, w')
  | QueryPorts =>
      let (r, w') := handle_query_ports w in (Done r, local_callsign, w')
  | OpenSession target port =>
      let (r, w') := handle_open_session target port local_callsign w in
      (Done r, local_callsign, w')
  | CloseSession =>
      let (r, w') := handle_close_session w in (Done r, local_callsign, w')
  | SendRequest data =>
      let (r, w') := handle_send_request timeout_secs data w in (Bytes r, local_callsign, w')
  | SendRequestWithReconnect data =>
      let (r, w') := handle_send_request_with_reconnect timeout_secs data local_callsign w in
      (Bytes r, local_callsign, w')
  end.

Fixpoint run_queue (timeout_secs : Z) (cmds : list TransportCommand) (local_callsign : list byte)
    (w : World T) : list Reply * list byte * World T :=
  match cmds with
  | [] => ([], local_callsign, w)
  | cmd :: rest =>
      let '(r, call, w') := step timeout_secs cmd local_callsign w in
      let '(rs, call', w'') := run_queue timeout_secs rest call w' in
      (r :: rs, call', w'')
  end.

(** [background_task]: the timeout is at least a second, and the end of the
    queue is logged *)
Definition background_task (response_timeout_secs : Z) (cmds : list TransportCommand)
    (w : World T) : list Reply * World T :=
  let '(rs, _, w') := run_queue (session_timeout response_timeout_secs) cmds [] w in
  (rs, (push_log (E:=unit) (info (bs "STATE") (bs "Background task shutting down")) w').2).

(** What [close_session] and [disconnect_modem] of the handle do before their
    command is queued *)
Definition raise_abort (w : World T) : World T := set_abort true w.
End Manager.

(** ** Properties *)

Section Behaviour.
Context {T : Type} `{TransportLaws T} `{UnicodeCase} `{DebugFormat}.

Abbreviation Ses := (@Task T AgwpeError).

Definition reply_returns (r : Reply) : Prop :=
  match r with Done r => returns r | Bytes r => returns r end.

(** The session was greeted, and the operator said yes before AGREE went out *)
Definition consented (call : list byte) (tl : list Act) : Prop :=
  exists d t later, tl = Opened :: t ++ [Asked (Some d :: later) (Answered true); Sent AGREE_LINE]
  /\ greeted call d t.

Lemma bind_ok_inv {W E A B} (m : M W E A) (k : A -> M W E B) w b w' :
  (m ≫= k) w = (Ok b, w') -> exists a w1, m w = (Ok a, w1) /\ k a w1 = (Ok b, w').
Proof.
  unfold mbind, M_bind. destruct (m w) as [[a|e| |] w1]; try done. intros Hk. by exists a, w1.
Qed.

Lemma open_session_does target port call :
  does (handle_open_session target port call) (fun x tl => x = inr tt -> consented call tl).
Proof.
  intros w. unfold handle_open_session.
  do 3 (apply mild_bind_at; [auto with mild|]; intros ? ? _ _).
  apply task_bind_at; [apply task_mapE, open_session_task|done|]. intros [] w3 _.
  do 2 (apply mild_bind_at; [auto with mild|]; intros ? ? _ _).
  apply open_bind_at; [done|]. intros w6.
  eapply (does_catch_at _ _ _ _ (fun x y tl => tl = [] /\ (y = inr tt -> x = inr tt)));
    [apply handshake_does| |].
  - intros [e|[]] w7 _.
    + do 2 (apply mild_bind_at; [auto with mild|]; intros [] ? _ _). by apply throw_end.
    + apply mild_end; [auto with mild|]. done.
  - intros x y t1 t2 Hx [-> Hy] ->. specialize (Hy eq_refl). subst x. rewrite app_nil_r.
    destruct Hx as [[_ [e He]]|(d & t3 & t4 & -> & Hg & later & o & -> & Ho)]; [done|].
    rewrite (Ho eq_refl). by exists d, t3, later.
Qed.

(** Every command is answered. *)
Lemma step_returns secs cmd call w : reply_returns (step secs cmd call w).1.1.
Proof.
  assert (Hdone : forall (m : Ses unit) (f : Result AgwpeError unit -> list byte), total m ->
    reply_returns (let (r, w') := m w in (Done r, f r, w')).1.1).
  { intros m f Hm. specialize (Hm w). by destruct (m w). }
  assert (Hbytes : forall (m : Ses (list byte)), returns (m w).1 ->
    reply_returns (let (r, w') := m w in (Bytes r, call, w')).1.1).
  { intros m Hm. by destruct (m w). }
  destruct cmd; unfold step.
  - apply (Hdone (_ ← reset_abort; handle_connect_modem cfg)
      (fun r => match r with Ok _ => tr_local_callsign cfg | _ => call end)).
    apply total_bind; [done|]. intros []. unfold handle_connect_modem.
    apply total_bind; [apply total_mapE, connect_modem_task|]. intros []. apply total_push_log.
  - apply (Hdone handle_disconnect_modem (fun _ => call)). unfold handle_disconnect_modem.
    apply total_bind; [apply total_mapE, disconnect_modem_task|]. intros []. apply total_push_log.
  - apply (Hdone handle_query_ports (fun _ => call)). unfold handle_query_ports.
    apply total_bind; [done|]. intros []; [|done]. apply total_mapE, query_ports_task.
  - apply (Hdone (handle_open_session target port call) (fun _ => call)).
    intros w'. eapply does_returns, open_session_does.
  - apply (Hdone handle_close_session (fun _ => call)). unfold handle_close_session.
    apply total_bind; [done|]. intros []. apply total_catch; [apply close_session_task|].
    by intros [e|[]].
  - apply Hbytes. eapply does_returns, send_request_does.
  - apply Hbytes. eapply does_returns, retry_does.
Qed.

Lemma open_session_state target port call w w' :
  handle_open_session target port call w = (Ok tt, w') -> connection_state (app w') = CsConnected.
Proof.
  unfold handle_open_session. intros Hr.
  do 7 (apply bind_ok_inv in Hr as (? & ? & _ & Hr)). revert Hr. unfold catch.
  destruct (perform_bpq_handshake call _) as [[[]|e| |] w8]; try done.
  intros [= <-]. done.
Qed.

(** ** The queue after a disconnect *)

Definition is_request (c : TransportCommand) : bool :=
  match c with SendRequest _ | SendRequestWithReconnect _ => true | _ => false end.

(** Nothing is sent or asked, and the flag stays up *)
Definition dropped (w w' : World T) : Prop :=
  trace w' = trace w /\ modem w' = modem w /\ abort_flag w' = true.

Lemma request_dropped secs data w :
  abort_flag w = true ->
  (handle_send_request secs data w).1 = Err DisconnectedByOperator
  /\ dropped w (handle_send_request secs data w).2.
Proof.
  intros Hw. unfold handle_send_request, mbind, M_bind, is_aborted.
  pose proof (sync_flag w Hw) as Hs. pose proof (sync_session w) as Ht.
  pose proof (sync_modem w) as Hm. rewrite Hs. injection Ht as _ Ht. done.
Qed.

Lemma retry_dropped secs data call w :
  abort_flag w = true ->
  (handle_send_request_with_reconnect secs data call w).1 = Err DisconnectedByOperator
  /\ dropped w (handle_send_request_with_reconnect secs data call w).2.
Proof.
  intros Hw. unfold handle_send_request_with_reconnect, check_abort, is_aborted.
  unfold mbind, M_bind.
  pose proof (sync_flag w Hw) as Hs. pose proof (sync_session w) as Ht.
  pose proof (sync_modem w) as Hm. rewrite Hs. injection Ht as _ Ht. done.
Qed.

Lemma step_dropped secs cmd call w :
  is_request cmd = true -> abort_flag w = true ->
  exists w', step secs cmd call w = (Bytes (Err DisconnectedByOperator), call, w') /\ dropped w w'.
Proof.
  intros Hc Hw. destruct cmd; try done; unfold step.
  - destruct (request_dropped secs data w Hw) as [Hr Hd].
    destruct (handle_send_request secs data w) as [r w']. cbn in *. subst r. by exists w'.
  - destruct (retry_dropped secs data call w Hw) as [Hr Hd].
    destruct (handle_send_request_with_reconnect secs data call w) as [r w']. cbn in *. subst r.
    by exists w'.
Qed.

(** Opening a session always ends, without a panic, and it succeeds, with the
    state shown as connected, only after the operator accepted the disclaimer
    received and AGREE was sent. *)
Theorem open_session_consented target port call w :
  let (r, w') := handle_open_session target port call w in
  returns r
  /\ (r = Ok tt -> connection_state (app w') = CsConnected
       /\ exists tl, trace w' = trace w ++ tl /\ consented call tl).
Proof.
  pose proof (open_session_does target port call w) as Hd.
  pose proof (does_returns _ _ _ Hd) as Hr. destruct Hd as (tl & Ht & Hx).
  destruct (handle_open_session target port call w) as [r w'] eqn:E. simpl in *.
  split; [done|]. intros ->. split; [by eapply open_session_state|]. exists tl. auto.
Qed.

(** Once a caller has raised the abort flag, every request queued before the
    disconnection is answered with the operator's disconnection and none reaches
    the modem, whatever other tasks do. *)
Theorem aborted_queue_dropped secs cmds : forall call w,
  Forall (fun c => is_request c = true) cmds ->
  let '(rs, call', w') := run_queue secs cmds call (raise_abort w) in
  rs = map (fun _ => Bytes (Err DisconnectedByOperator)) cmds
  /\ call' = call /\ dropped w w'.
Proof.
  assert (Hgen : forall cmds call w, abort_flag w = true ->
    Forall (fun c => is_request c = true) cmds ->
    let '(rs, call', w') := run_queue secs cmds call w in
    rs = map (fun _ => Bytes (Err DisconnectedByOperator)) cmds /\ call' = call /\ dropped w w').
  { clear. induction cmds as [|c cmds IH]; intros call w Hw Hc; [done|].
    apply Forall_cons in Hc as [Hc Hcs]. cbn [run_queue].
    destruct (step_dropped secs c call w Hc Hw) as (w1 & Hs & Ht & Hm & Ha). rewrite Hs.
    specialize (IH call w1 Ha Hcs). destruct (run_queue secs cmds call w1) as [[rs call'] w2].
    destruct IH as (-> & -> & Ht2 & Hm2 & Ha2). split_and!; [done|done|].
    unfold dropped. by rewrite Ht2, Hm2. }
  intros call w Hc. by apply (Hgen cmds call (raise_abort w)).
Qed.
End Behaviour.

#[local] Existing Instances ToyDebug.debug_format ToyModem.modem ToyModem.modem_laws Toy.unicode.

Lemma open_session_consented_witness :
  let w := ToyModem.world None [banner; EvData notice] [(5000, Answered true)] in
  let (r, w') := handle_open_session (bs "N0CALL-8") 0 (bs "N0CALL") w in
  returns r
  /\ (r = Ok tt -> connection_state (app w') = CsConnected
       /\ exists tl, trace w' = trace w ++ tl /\ consented (bs "N0CALL") tl).
Proof. intros w. apply (open_session_consented (bs "N0CALL-8") 0 (bs "N0CALL") w). Defined.

Lemma aborted_queue_dropped_witness :
  let w := ToyModem.world None [EvData tiny_response] [] in
  let '(rs, call', w') := run_queue 30 [SendRequest (bs "a"); SendRequestWithReconnect (bs "b")]
                            (bs "N0CALL") (raise_abort w) in
  rs = [Bytes (Err DisconnectedByOperator); Bytes (Err DisconnectedByOperator)]
  /\ call' = bs "N0CALL" /\ dropped w w'.
Proof.
  intros w. apply (aborted_queue_dropped 30 [SendRequest (bs "a"); SendRequestWithReconnect (bs "b")]
    (bs "N0CALL") w). by repeat constructor.
Defined.

(** A link that does not come up leaves the state [Connecting]: only a failed
    handshake sets an error. *)
Example link_failure_leaves_connecting :
  let w := mkWorld (mkAgwpeTransport (Some (mkStream [] [])) [] [] [] 0 true [] [])
             (new_state default_config) false 0 [] [] [] [] in
  let (r, w') := handle_open_session (bs "N0CALL-8") 0 (bs "N0CALL") w in
  r = Err AgTimeout /\ connection_state (app w') = Connecting.
Proof. vm_compute. split; reflexivity. Qed.
