(* ===== verification/Actor.v ===== *)
(** * The handles of the transport actor ([client/src/transport/manager.rs])

    The web handlers and the start-up call the methods of [TransportManager] at
    the same time: each puts a command in a channel of 32 places and awaits its
    own reply channel.  This file is the system they make with
    [background_task]: the steps of the callers, of the actor and of the other
    tasks, in any order. *)
From Stdlib Require Import ZArith Lia Strings.Byte.
From stdpp Require Import base decidable list gmap.
From S2P Require Import Prelude Bytes Numbers External TransportTypes ClientConfig ClientState.
From S2P Require Import Transport Session Manager.
From S2P Require Agwpe.

(** [mpsc::channel(32)] *)
Definition COMMAND_CAPACITY : nat := 32.

(** Where a call of a method stands: its [send] has no place yet, its command is
    queued or running, its reply channel was filled, or its future was dropped *)
Inductive Phase : Type :=
| Sending (cmd : TransportCommand)
| Waiting (cmd : TransportCommand)
| Answered (r : Reply)
| Cancelled.

(** [close_session] and [disconnect_modem] store [true] in the flag first. *)
Definition raises_abort (cmd : TransportCommand) : bool :=
  match cmd with DisconnectModem | CloseSession => true | _ => false end.

(** [map_err(|_| AgwpeError::TaskStopped)], in the type of the reply *)
Definition task_stopped (cmd : TransportCommand) : Reply :=
  match cmd with
  | SendRequest _ | SendRequestWithReconnect _ => Bytes (Err TaskStopped)
  | _ => Done (Err TaskStopped)
  end.

Definition in_flight (p : Phase) : bool :=
  match p with Sending _ | Waiting _ => true | _ => false end.

(** ** What other tasks do to the world *)

Section Disturb.
Context {T : Type}.

Definition schedule (es : list (list Interference)) (w : World T) : World T :=
  mkWorld (modem w) (app w) (abort_flag w) (clock w) (broadcast w) es (answers w) (trace w).
Definition disturb (es : list Interference) (w : World T) : World T :=
  fold_left (fun w i => interfere1 i w) es w.
(** What was to come of them, done *)
Definition settle (w : World T) : World T := disturb (concat (interference w)) (schedule [] w).
End Disturb.

(** ** The system *)

Section Actor.
Context {T : Type} `{Transport T} `{UnicodeCase} `{DebugFormat}.
Variable response_timeout_secs : Z.

Record Actor : Type := mkActor {
  (** the channel, and who waits for each reply *)
  queue : list (nat * TransportCommand);
  (** the command [background_task] runs, and what other tasks did since it
      was taken *)
  running : option (nat * TransportCommand);
  during : list Interference;
  local_callsign : list byte;
  world : World T;
  callers : gmap nat Phase;
  (** the last handle was dropped; the task has ended *)
  released : bool;
  stopped : bool }.

(** [spawn] *)
Definition spawn (w : World T) : Actor :=
  mkActor [] None [] [] (set_abort false (schedule [] w)) ∅ false false.

(** Another task acts: on the world, or between the accesses of the command that
    runs *)
Definition other (i : Interference) (s : Actor) : Actor :=
  match running s with
  | None => mkActor (queue s) None (during s) (local_callsign s) (interfere1 i (world s))
              (callers s) (released s) (stopped s)
  | Some c => mkActor (queue s) (Some c) (during s ++ [i]) (local_callsign s) (world s)
                (callers s) (released s) (stopped s)
  end.

Definition set_callers (m : gmap nat Phase) (s : Actor) : Actor :=
  mkActor (queue s) (running s) (during s) (local_callsign s) (world s) m (released s)
    (stopped s).

(** A method is called: the flag, then the wait for a place *)
Definition begin_call (id : nat) (cmd : TransportCommand) (s : Actor) : Actor :=
  set_callers (<[id := Sending cmd]> (callers s))
    (if raises_abort cmd then other SetAbort s else s).

(** [command_tx.send(..).await] gets its place. *)
Definition enqueue (id : nat) (cmd : TransportCommand) (s : Actor) : Actor :=
  mkActor (queue s ++ [(id, cmd)]) (running s) (during s) (local_callsign s) (world s)
    (<[id := Waiting cmd]> (callers s)) (released s) (stopped s).

(** [command_rx.recv().await] *)
Definition take (c : nat * TransportCommand) (rest : list (nat * TransportCommand))
    (s : Actor) : Actor :=
  mkActor rest (Some c) [] (local_callsign s) (world s) (callers s) (released s) (stopped s).

(** [let _ = reply.send(result)] *)
Definition deliver (id : nat) (r : Reply) (m : gmap nat Phase) : gmap nat Phase :=
  match m !! id with Some (Waiting _) => <[id := Answered r]> m | _ => m end.

(** The command ends, what other tasks did meanwhile spread over its accesses *)
Definition finish (id : nat) (cmd : TransportCommand) (es : list (list Interference))
    (s : Actor) : Reply * Actor :=
  let '(r, call, w) :=
    step (session_timeout response_timeout_secs) cmd (local_callsign s) (schedule es (world s)) in
  (r, mkActor (queue s) None [] call (settle w) (deliver id r (callers s)) (released s)
        (stopped s)).

(** A handler panics: the task unwinds, and its end of the channel is dropped with the
    commands in it and their reply channels. *)
Definition crash (s : Actor) : Actor :=
  mkActor [] None [] (local_callsign s) (world s) (callers s) (released s) true.
Definition reply_panics (r : Reply) : Prop := r = Done Panic \/ r = Bytes Panic.

(** The channel is closed and empty: the loop ends. *)
Definition shut_down (s : Actor) : Actor :=
  mkActor (queue s) (running s) (during s) (local_callsign s)
    (push_log (E:=unit) (info (bs "STATE") (bs "Background task shutting down")) (world s)).2
    (callers s) (released s) true.

Inductive Label : Type :=
| LCall (id : nat) (cmd : TransportCommand)
| LSend (id : nat) (cmd : TransportCommand)
| LTake
| LFinish (id : nat) (cmd : TransportCommand) (es : list (list Interference)) (r : Reply)
| LOther (f : AppState -> AppState)
| LCancel (id : nat)
| LRelease
| LStop
| LFail (id : nat)
| LPanic (id : nat).

(** A command is finished when its handler has returned a value or an error; one that
    loops forever never is. *)
Inductive moves : Actor -> Label -> Actor -> Prop :=
| do_call s id cmd :
    callers s !! id = None -> released s = false ->
    moves s (LCall id cmd) (begin_call id cmd s)
| do_send s id cmd :
    callers s !! id = Some (Sending cmd) -> stopped s = false ->
    (length (queue s) < COMMAND_CAPACITY)%nat ->
    moves s (LSend id cmd) (enqueue id cmd s)
| do_take s c rest :
    running s = None -> stopped s = false -> queue s = c :: rest ->
    moves s LTake (take c rest s)
| do_finish s id cmd es :
    running s = Some (id, cmd) -> concat es = during s -> reply_returns (finish id cmd es s).1 ->
    moves s (LFinish id cmd es (finish id cmd es s).1) (finish id cmd es s).2
| do_other s f : moves s (LOther f) (other (Update f) s)
| do_cancel s id p :
    callers s !! id = Some p -> in_flight p = true ->
    moves s (LCancel id) (set_callers (<[id := Cancelled]> (callers s)) s)
| do_release s :
    (forall id p, callers s !! id = Some p -> in_flight p = false) ->
    moves s LRelease (mkActor (queue s) (running s) (during s) (local_callsign s) (world s)
                        (callers s) true (stopped s))
| do_stop s :
    released s = true -> stopped s = false -> running s = None -> queue s = [] ->
    moves s LStop (shut_down s)
| do_fail s id p cmd :
    callers s !! id = Some p -> p = Sending cmd \/ p = Waiting cmd -> stopped s = true ->
    moves s (LFail id) (set_callers (<[id := Answered (task_stopped cmd)]> (callers s)) s)
| do_panic s id cmd es :
    running s = Some (id, cmd) -> concat es = during s -> reply_panics (finish id cmd es s).1 ->
    moves s (LPanic id) (crash s).

Inductive run (s0 : Actor) : list Label -> Actor -> Prop :=
| run_nil : run s0 [] s0
| run_more ls s l s' : run s0 ls s -> moves s l s' -> run s0 (ls ++ [l]) s'.

(** ** The specification: one command after the other *)

(** What other tasks did before a command, and while it ran *)
Record Turn : Type := mkTurn {
  caller : nat;
  command : TransportCommand;
  before : list Interference;
  while_running : list (list Interference) }.

Definition turn (t : Turn) (call : list byte) (w : World T) : Reply * list byte * World T :=
  let '(r, call', w') :=
    step (session_timeout response_timeout_secs) (command t) call
      (schedule (while_running t) (disturb (before t) w)) in
  (r, call', settle w').

Fixpoint sequential (ts : list Turn) (call : list byte) (w : World T)
    : list Reply * list byte * World T :=
  match ts with
  | [] => ([], call, w)
  | t :: rest =>
      let '(r, call', w') := turn t call w in
      let '(rs, call'', w'') := sequential rest call' w' in
      (r :: rs, call'', w'')
  end.

(** *** What a run did *)

Definition sent (l : Label) : list (nat * TransportCommand) :=
  match l with LSend id cmd => [(id, cmd)] | _ => [] end.
Definition served (l : Label) : list (nat * TransportCommand * Reply) :=
  match l with LFinish id cmd _ r => [(id, cmd, r)] | _ => [] end.
(** The effects on what the tasks share *)
Definition effects (l : Label) : list Interference :=
  match l with
  | LCall _ cmd => if raises_abort cmd then [SetAbort] else []
  | LOther f => [Update f]
  | _ => []
  end.

Definition history {A} (f : Label -> list A) (ls : list Label) : list A := concat (map f ls).

(** What is to be served, the one that runs first *)
Definition pipeline (s : Actor) : list (nat * TransportCommand) :=
  option_list (running s) ++ queue s.
End Actor.

Arguments mkActor {T}.
Arguments queue {T}.
Arguments running {T}.
Arguments during {T}.
Arguments local_callsign {T}.
Arguments world {T}.
Arguments callers {T}.
Arguments released {T}.
Arguments stopped {T}.

(** ** Lemmas *)

Section Behaviour.
Context {T : Type} `{TransportLaws T} `{UnicodeCase} `{DebugFormat}.
Variable secs : Z.

Abbreviation run := (run secs).
Abbreviation moves := (moves secs).

Lemma disturb_app (es es' : list Interference) (w : World T) :
  disturb (es ++ es') w = disturb es' (disturb es w).
Proof. apply fold_left_app. Qed.

Lemma disturb_flag (es : list Interference) (w : World T) :
  abort_flag w = true -> abort_flag (disturb es w) = true.
Proof. revert w. induction es as [|[|f] es IH]; intros w Hw; [done|..]; by apply IH. Qed.
Lemma disturb_keeps {A} (f : World T -> A) (es : list Interference) (w : World T) :
  (forall i w, f (interfere1 i w) = f w) -> f (disturb es w) = f w.
Proof.
  intros Hf. revert w. induction es as [|i es IH]; intros w; [done|].
  change (f (disturb es (interfere1 i w)) = f w). by rewrite IH.
Qed.

Lemma settle_idle (w : World T) : interference (settle w) = [].
Proof. unfold settle. rewrite (disturb_keeps interference); [done|]. by intros []. Qed.
Lemma settle_trace (w : World T) : trace (settle w) = trace w.
Proof. unfold settle. rewrite (disturb_keeps trace); [done|]. by intros []. Qed.
Lemma settle_modem (w : World T) : modem (settle w) = modem w.
Proof. unfold settle. rewrite (disturb_keeps modem); [done|]. by intros []. Qed.
Lemma settle_flag (w : World T) : abort_flag w = true -> abort_flag (settle w) = true.
Proof. intros Hw. by apply disturb_flag. Qed.

(** *** The history of a run *)

Lemma run_then s0 ls1 s1 ls2 s2 : run s0 ls1 s1 -> run s1 ls2 s2 -> run s0 (ls1 ++ ls2) s2.
Proof.
  intros Hr1 Hr2. induction Hr2 as [|ls s l s' _ IH Hm]; [by rewrite app_nil_r|].
  rewrite app_assoc. by eapply run_more.
Qed.
Lemma history_snoc {A} (f : Label -> list A) ls l : history f (ls ++ [l]) = history f ls ++ f l.
Proof. unfold history. by rewrite map_app, concat_app; simpl; rewrite app_nil_r. Qed.

Lemma run_after s0 l s1 ls s : moves s0 l s1 -> run s1 ls s -> run s0 (l :: ls) s.
Proof.
  intros Hm Hr. apply (run_then s0 [l] s1 ls s); [|done].
  apply (run_more _ _ [] s0 l s1); [constructor|done].
Qed.

(** No handler panics or hangs. *)
Lemma finish_returns id cmd es (s : Actor (T:=T)) : reply_returns (finish secs id cmd es s).1.
Proof.
  unfold finish. pose proof (step_returns (session_timeout secs) cmd (local_callsign s)
    (schedule es (world s))) as Hr.
  by destruct (step _ _ _ _) as [[r call] w].
Qed.
Lemma no_panic s id s' : ~ moves s (LPanic id) s'.
Proof.
  intros Hm. inversion Hm as [| | | | | | | | |? ? cmd es _ _ Hp]; subst.
  pose proof (finish_returns id cmd es s) as Hr. by destruct Hp as [Hp|Hp]; rewrite Hp in Hr.
Qed.

Lemma finish_moves s id cmd es r s' :
  running s = Some (id, cmd) -> concat es = during s -> finish secs id cmd es s = (r, s') ->
  moves s (LFinish id cmd es r) s'.
Proof.
  intros Hr He Hf. pose proof (do_finish secs s id cmd es Hr He (finish_returns _ _ _ _)) as Hm.
  by rewrite Hf in Hm.
Qed.

(** Another task's act leaves the queue and the calls alone. *)
Lemma other_same i (s : Actor (T:=T)) :
  queue (other i s) = queue s /\ running (other i s) = running s
  /\ callers (other i s) = callers s /\ released (other i s) = released s
  /\ stopped (other i s) = stopped s.
Proof. unfold other. destruct (running s) eqn:E; cbn; rewrite ?E; auto. Qed.

Lemma begin_call_same id cmd (s : Actor (T:=T)) :
  queue (begin_call id cmd s) = queue s /\ running (begin_call id cmd s) = running s
  /\ callers (begin_call id cmd s) = <[id := Sending cmd]> (callers s)
  /\ released (begin_call id cmd s) = released s /\ stopped (begin_call id cmd s) = stopped s.
Proof.
  unfold begin_call. destruct (raises_abort cmd); [|auto].
  destruct (other_same SetAbort s) as (Hq & Hr & _ & Hl & Ht). auto.
Qed.

Lemma finish_same id cmd es (s : Actor (T:=T)) :
  let (r, s') := finish secs id cmd es s in
  queue s' = queue s /\ running s' = None /\ callers s' = deliver id r (callers s)
  /\ released s' = released s /\ stopped s' = stopped s.
Proof. unfold finish. destruct (step _ _ _ _) as [[r call] w]. auto. Qed.

(** The commands leave the channel in the order they entered it. *)
Lemma served_in_order s0 ls s :
  run s0 ls s -> pipeline s0 ++ history sent ls = map fst (history served ls) ++ pipeline s.
Proof.
  induction 1 as [|ls s l s' _ IH Hm]; [cbn; by rewrite app_nil_r|].
  rewrite !history_snoc, app_assoc, IH, map_app, <- !app_assoc. f_equal. unfold pipeline.
  pose proof Hm as Hmove.
  destruct Hm as [s id cmd|s id cmd|s c rest Hr _ Hq|s id cmd es Hr|s f| | | | |]; cbn [sent served map].
  - destruct (begin_call_same id cmd s) as (-> & -> & _). by rewrite app_nil_r.
  - cbn. by rewrite app_assoc.
  - cbn. by rewrite Hr, Hq, app_nil_r.
  - pose proof (finish_same id cmd es s) as Hf. destruct (finish secs id cmd es s) as [r s'].
    destruct Hf as (Hq & Hn & _). cbn. by rewrite Hr, Hq, Hn, app_nil_r.
  - destruct (other_same (Update f) s) as (-> & -> & _). by rewrite app_nil_r.
  - cbn. by rewrite app_nil_r.
  - cbn. by rewrite app_nil_r.
  - cbn. by rewrite app_nil_r.
  - cbn. by rewrite app_nil_r.
  - by apply no_panic in Hmove.
Qed.

(** *** The life of the task *)

Record life (s : Actor (T:=T)) : Prop := {
  life_capacity : (length (queue s) <= COMMAND_CAPACITY)%nat;
  life_released : released s = true ->
    forall id p, callers s !! id = Some p -> in_flight p = false;
  life_stopped : stopped s = true ->
    released s = true /\ running s = None /\ queue s = [] }.

Lemma deliver_flight id r (m : gmap nat Phase) id' p :
  (forall i q, m !! i = Some q -> in_flight q = false) ->
  deliver id r m !! id' = Some p -> in_flight p = false.
Proof.
  intros Hm. unfold deliver. destruct (m !! id) as [[| | |]|] eqn:E; try apply Hm.
  apply Hm in E. done.
Qed.

Lemma life_run w ls s : run (spawn w) ls s -> life s.
Proof.
  induction 1 as [|ls s l s' _ IH Hm].
  { split; [cbn; lia|done|done]. }
  destruct IH as [Hc Hl Ht]. pose proof Hm as Hmove.
  destruct Hm as [s id cmd Hn Hr|s id cmd Hp Hs Hlt|s c rest Hr Hs Hq|s id cmd es Hr _|s f
    |s id p Hp Hf|s Hp|s Hr Hs Hn Hq|s id p cmd Hp Hw Hs|]; [..|by apply no_panic in Hmove].
  - destruct (begin_call_same id cmd s) as (Hq & Hu & _ & Hl' & Ht').
    split; rewrite ?Hq, ?Hu, ?Hl', ?Ht'; [done| |done]. congruence.
  - split; cbn; [rewrite length_app; simpl; lia| |congruence]. intros Hr.
    apply (Hl Hr) in Hp. done.
  - split; cbn; [rewrite Hq in Hc; simpl in Hc; lia|done|congruence].
  - pose proof (finish_same id cmd es s) as Hf. destruct (finish secs id cmd es s) as [r s'].
    destruct Hf as (Hq & Hn & Hcs & Hl' & Ht'). split; cbn; rewrite ?Hq, ?Hcs, ?Hl', ?Ht'; [done| |].
    + intros Hrel id' p. apply deliver_flight, Hl, Hrel.
    + intros Hst. apply Ht in Hst as (_ & Hx & _). congruence.
  - destruct (other_same (Update f) s) as (Hq & Hu & Hcs & Hl' & Ht').
    split; rewrite ?Hq, ?Hu, ?Hcs, ?Hl', ?Ht'; done.
  - split; cbn; [done| |done]. intros Hrel id' p'. rewrite lookup_insert_Some.
    intros [[_ <-]|[_ Hp']]; [done|]. by eapply Hl.
  - split; cbn; [done|done|]. intros Hs. destruct (Ht Hs) as (_ & ? & ?). auto.
  - split; cbn; [done|done|auto].
  - destruct (Ht Hs) as (Hrel & _). specialize (Hl Hrel id p Hp). by destruct Hw; subst p.
Qed.

(** No call fails because the task has stopped: a call holds its handle. *)
Lemma no_fail w ls s id s' : run (spawn w) ls s -> ~ moves s (LFail id) s'.
Proof.
  intros Hr Hm. apply life_run in Hr. inversion Hm as [| | | | | | | |? ? p cmd Hp Hw Hs|]; subst.
  destruct (life_stopped _ Hr Hs) as (Hrel & _).
  pose proof (life_released _ Hr Hrel id p Hp). by destruct Hw; subst p.
Qed.

(** *** The calls *)

Record calls (ls : list Label) (s : Actor (T:=T)) : Prop := {
  calls_sent : forall id cmd, (id, cmd) ∈ history sent ls ->
    exists p, callers s !! id = Some p /\ (forall c, p <> Sending c);
  calls_once : NoDup (map fst (history sent ls));
  calls_waiting : forall id cmd, callers s !! id = Some (Waiting cmd) -> (id, cmd) ∈ pipeline s;
  calls_answered : forall id r, callers s !! id = Some (Answered r) ->
    exists cmd, (id, cmd, r) ∈ history served ls }.

Lemma calls_same ls l s s' :
  calls ls s -> sent l = [] -> served l = [] -> callers s' = callers s ->
  pipeline s' = pipeline s -> calls (ls ++ [l]) s'.
Proof.
  intros [Hs Ho Hw Ha] H1' H2' Hc Hp.
  split; rewrite ?history_snoc, ?H1', ?H2', ?app_nil_r, ?Hc, ?Hp; done.
Qed.

(** A call that begins, is cancelled or fails gets a phase that is no wait. *)
Lemma calls_insert ls l s s' id p :
  calls ls s -> sent l = [] -> served l = [] -> callers s' = <[id := p]> (callers s) ->
  pipeline s' = pipeline s -> p = Cancelled \/ callers s !! id = None /\ (exists c, p = Sending c) ->
  calls (ls ++ [l]) s'.
Proof.
  intros [Hs Ho Hw Ha] H1' H2' Hc Hp Hk.
  split; rewrite ?history_snoc, ?H1', ?H2', ?app_nil_r, ?Hc, ?Hp; [|done| |].
  - intros i cmd Hi. destruct (Hs i cmd Hi) as (q & Hq & Hn). destruct (decide (i = id)) as [->|Hd].
    + rewrite lookup_insert_eq. destruct Hk as [->|[Hk _]]; [|congruence]. by exists Cancelled.
    + rewrite lookup_insert_ne by done. eauto.
  - intros i cmd. rewrite lookup_insert_Some. intros [[_ ->]|[_ Hi]]; [|by apply Hw].
    by destruct Hk as [|[_ [c ?]]].
  - intros i r. rewrite lookup_insert_Some. intros [[_ ->]|[_ Hi]]; [|by apply Ha].
    by destruct Hk as [|[_ [c ?]]].
Qed.

Lemma calls_send ls s id cmd :
  calls ls s -> callers s !! id = Some (Sending cmd) ->
  calls (ls ++ [LSend id cmd]) (enqueue id cmd s).
Proof.
  intros [Hs Ho Hw Ha] Hp. split; rewrite ?history_snoc; cbn [sent served]; rewrite ?app_nil_r; cbn.
  - intros i c. rewrite elem_of_app, list_elem_of_singleton. intros [Hi|[= -> ->]].
    + destruct (Hs i c Hi) as (q & Hq & Hn). destruct (decide (i = id)) as [->|Hd].
      * rewrite lookup_insert_eq. by eexists.
      * rewrite lookup_insert_ne by done. eauto.
    + rewrite lookup_insert_eq. by eexists.
  - rewrite map_app. apply NoDup_app. split_and!; [done| |apply NoDup_singleton].
    intros i Hi Hx. apply list_elem_of_singleton in Hx as ->.
    apply list_elem_of_fmap in Hi as ([i c] & Hic & Hi). simpl in Hic. subst i.
    destruct (Hs _ _ Hi) as (q & Hq & Hn). rewrite Hq in Hp. injection Hp as ->. by apply (Hn cmd).
  - intros i c. rewrite lookup_insert_Some. unfold pipeline. cbn. rewrite app_assoc, elem_of_app.
    intros [[-> [= ->]]|[_ Hi]]; [right; by apply list_elem_of_singleton|left; by apply Hw].
  - intros i r. rewrite lookup_insert_Some. intros [[_ ?]|[_ Hi]]; [done|by apply Ha].
Qed.

Lemma calls_finish ls s id cmd es :
  calls ls s -> running s = Some (id, cmd) ->
  calls (ls ++ [LFinish id cmd es (finish secs id cmd es s).1]) (finish secs id cmd es s).2.
Proof.
  intros [Hs Ho Hw Ha] Hr. pose proof (finish_same id cmd es s) as Hf.
  destruct (finish secs id cmd es s) as [r s'].
  destruct Hf as (Hq & Hn & Hc & _). cbn [fst snd].
  split; rewrite ?history_snoc; cbn [sent served]; rewrite ?app_nil_r, ?Hc; unfold deliver.
  - intros i c Hi. destruct (Hs i c Hi) as (q & Hq' & Hx).
    destruct (callers s !! id) as [[| | |]|] eqn:E; eauto.
    destruct (decide (i = id)) as [->|Hd]; [rewrite lookup_insert_eq|rewrite lookup_insert_ne by done];
      eauto.
  - done.
  - intros i c Hi. assert (Hi' : callers s !! i = Some (Waiting c) /\ i <> id).
    { revert Hi. destruct (callers s !! id) as [[| | |]|] eqn:E;
        try (intros Hi; split; [done|congruence]).
      rewrite lookup_insert_Some. intros [[_ ?]|[Hd Hi]]; [done|auto]. }
    destruct Hi' as [Hi' Hd]. apply Hw in Hi'. revert Hi'. unfold pipeline. rewrite Hr, Hn, Hq. cbn.
    rewrite elem_of_cons. intros [[= -> ->]|?]; done.
  - intros i r0. setoid_rewrite elem_of_app.
    assert (Hold : callers s !! i = Some (Answered r0) ->
      exists c, (i, c, r0) ∈ history served ls \/ (i, c, r0) ∈ [(id, cmd, r)]).
    { intros Hi. destruct (Ha i r0 Hi) as [c Hi']. eauto. }
    destruct (callers s !! id) as [[| | |]|] eqn:E; try done.
    rewrite lookup_insert_Some. intros [[-> [= ->]]|[_ Hi]]; [|auto].
    exists cmd. right. by apply list_elem_of_singleton.
Qed.

Lemma calls_run w ls s : run (spawn w) ls s -> calls ls s.
Proof.
  intros Hrun. induction Hrun as [|ls s l s' Hrun IH Hm].
  { split; [by intros ? ? ?%elem_of_nil|by constructor|done|done]. }
  pose proof Hm as Hmove.
  destruct Hm as [s id cmd Hn Hr|s id cmd Hp Hs Hlt|s c rest Hr Hs Hq|s id cmd es Hr He|s f
    |s id p Hp Hf|s Hp|s Hr Hs Hn Hq|s id p cmd Hp Hw Hs|]; [..|by apply no_panic in Hmove].
  - destruct (begin_call_same id cmd s) as (Hq & Hu & Hc & _).
    apply (calls_insert _ _ _ _ id (Sending cmd) IH); [done|done|done| |eauto].
    unfold pipeline. by rewrite Hq, Hu.
  - by apply calls_send.
  - apply (calls_same _ _ _ _ IH); [done|done|done|]. unfold pipeline. cbn. by rewrite Hr, Hq.
  - by apply calls_finish.
  - destruct (other_same (Update f) s) as (Hq & Hu & Hc & _).
    apply (calls_same _ _ _ _ IH); [done|done|done|]. unfold pipeline. by rewrite Hq, Hu.
  - apply (calls_insert _ _ _ _ id Cancelled IH); [done..|by left].
  - by apply (calls_same _ _ _ _ IH).
  - by apply (calls_same _ _ _ _ IH).
  - by apply (no_fail _ _ _ _ _ Hrun) in Hmove.
Qed.
(** *** The sequential execution behind a run *)

Lemma sequential_snoc ts t : forall call w,
  sequential secs (ts ++ [t]) call w =
  let '(rs, call1, w1) := sequential secs ts call w in
  let '(r, call2, w2) := turn secs t call1 w1 in (rs ++ [r], call2, w2).
Proof.
  induction ts as [|t0 ts IH]; intros call w; cbn [sequential Datatypes.app].
  - by destruct (turn secs t call w) as [[r c] w1].
  - destruct (turn secs t0 call w) as [[r0 c0] w0]. rewrite IH.
    destruct (sequential secs ts c0 w0) as [[rs c1] w1].
    by destruct (turn secs t c1 w1) as [[r c2] w2].
Qed.

Definition own (t : Turn) : nat * TransportCommand := (caller t, command t).
Definition turn_effects (t : Turn) : list Interference := before t ++ concat (while_running t).

(** The commands served so far, run one after the other, give the replies and the
    state of the actor; [since] is what other tasks did after the last. *)
Record explains (w : World T) (ls : list Label) (s : Actor (T:=T)) (ts : list Turn)
    (since : list Interference) : Prop := {
  explains_turns : exists rs w',
    sequential secs ts [] (set_abort false (schedule [] w)) = (rs, local_callsign s, w')
    /\ (stopped s = false -> world s = disturb since w')
    /\ history served ls = zip (map own ts) rs /\ length rs = length ts;
  explains_effects : history effects ls = concat (map turn_effects ts) ++ since ++ during s;
  explains_idle : running s = None -> during s = [] }.

Lemma explains_same w ls l s s' ts since :
  explains w ls s ts since -> served l = [] -> effects l = [] ->
  local_callsign s' = local_callsign s -> world s' = world s \/ stopped s' = true ->
  (stopped s' = false -> stopped s = false) ->
  during s' = during s -> (running s' = None -> running s = None) ->
  explains w (ls ++ [l]) s' ts since.
Proof.
  intros [(rs & w' & Hs & Hw & Hh & Hlen) He Hi] Hsl Hel Hc Hworld Hst Hd Hr.
  split; rewrite ?history_snoc, ?Hsl, ?Hel, ?app_nil_r, ?Hd; [|done|auto].
  exists rs, w'. rewrite Hc. split_and!; [done| |done|done]. intros Hx.
  destruct Hworld as [->|]; [auto|congruence].
Qed.

(** An effect goes before the next command, or into the one that runs. *)
Lemma explains_other w ls l s s' i ts since :
  explains w ls s ts since -> served l = [] -> effects l = [i] ->
  running s' = running (other i s) -> during s' = during (other i s) ->
  local_callsign s' = local_callsign (other i s) -> world s' = world (other i s) ->
  stopped s' = stopped s ->
  exists since', explains w (ls ++ [l]) s' ts since'.
Proof.
  intros [(rs & w' & Hs & Hw & Hh & Hlen) He Hi] Hsl Hel Hrun Hdur Hcall Hworld Hstop.
  unfold other in *. destruct (running s) as [c|] eqn:E; cbn in *.
  - exists since. split; rewrite ?history_snoc, ?Hsl, ?Hel, ?app_nil_r, ?Hdur, ?Hrun; [| |done].
    + exists rs, w'. rewrite Hcall, Hworld, Hstop. auto.
    + by rewrite He, <- !app_assoc.
  - specialize (Hi eq_refl). exists (since ++ [i]).
    split; rewrite ?history_snoc, ?Hsl, ?Hel, ?app_nil_r, ?Hdur, ?Hrun; [| |done].
    + exists rs, w'. rewrite Hcall, Hworld, Hstop, disturb_app. split_and!; try done. intros Hx.
      by rewrite (Hw Hx).
    + by rewrite He, Hi, !app_nil_r, <- app_assoc.
Qed.

Lemma explains_finish w ls s id cmd es ts since :
  explains w ls s ts since -> running s = Some (id, cmd) -> concat es = during s ->
  stopped s = false ->
  explains w (ls ++ [LFinish id cmd es (finish secs id cmd es s).1]) (finish secs id cmd es s).2
    (ts ++ [mkTurn id cmd since es]) [].
Proof.
  intros [(rs & w' & Hs & Hw & Hh & Hlen) He Hi] Hr Hes Hst. specialize (Hw Hst).
  unfold finish. rewrite Hw. split; rewrite ?history_snoc.
  - rewrite sequential_snoc, Hs. unfold turn. cbn [command while_running before].
    destruct (step _ _ _ _) as [[r call] w1]. exists (rs ++ [r]), (settle w1).
    split_and!; [done|done| |by rewrite !length_app, Hlen].
    cbn. rewrite Hh, map_app, zip_with_app by (by rewrite length_map). done.
  - destruct (step _ _ _ _) as [[r call] w1]. cbn. rewrite map_app, concat_app. cbn.
    unfold turn_effects. cbn. by rewrite Hes, !app_nil_r, He.
  - destruct (step _ _ _ _) as [[r call] w1]. done.
Qed.

Lemma run_explained w ls s :
  run (spawn w) ls s -> exists ts since, explains w ls s ts since.
Proof.
  intros Hrun. induction Hrun as [|ls s l s' Hrun (ts & since & IH) Hm].
  { exists [], []. split; [|done|done]. by exists [], (set_abort false (schedule [] w)). }
  pose proof Hm as Hmove.
  destruct Hm as [s id cmd Hn Hr|s id cmd Hp Hs Hlt|s c rest Hr Hs Hq|s id cmd es Hr He|s f
    |s id p Hp Hf|s Hp|s Hr Hs Hn Hq|s id p cmd Hp Hw Hs|]; [..|by apply no_panic in Hmove].
  - exists ts. unfold begin_call. destruct (raises_abort cmd) eqn:E.
    + apply (explains_other _ _ _ _ _ SetAbort _ _ IH); try done; cbn; [by rewrite E|].
      apply (other_same SetAbort s).
    + exists since. apply (explains_same _ _ _ _ _ _ _ IH); try done; [cbn; by rewrite E|by left].
  - exists ts, since. apply (explains_same _ _ _ _ _ _ _ IH); try done. by left.
  - exists ts, since. pose proof (explains_idle _ _ _ _ _ IH Hr) as Hd.
    apply (explains_same _ _ _ _ _ _ _ IH); try done. by left.
  - exists (ts ++ [mkTurn id cmd since es]), []. apply explains_finish; [done|done|done|].
    pose proof (life_stopped _ (life_run _ _ _ Hrun)) as Hl. destruct (stopped s); [|done].
    destruct (Hl eq_refl) as (_ & Hx & _). congruence.
  - exists ts. apply (explains_other _ _ _ _ _ (Update f) _ _ IH); try done.
    apply (other_same (Update f) s).
  - exists ts, since. apply (explains_same _ _ _ _ _ _ _ IH); try done. by left.
  - exists ts, since. apply (explains_same _ _ _ _ _ _ _ IH); try done. by left.
  - exists ts, since. apply (explains_same _ _ _ _ _ _ _ IH); try done. by right.
  - exists ts, since. apply (explains_same _ _ _ _ _ _ _ IH); try done. by left.
Qed.
(** *** Progress *)

Lemma history_app {A} (f : Label -> list A) ls1 ls2 :
  history f (ls1 ++ ls2) = history f ls1 ++ history f ls2.
Proof. unfold history. by rewrite map_app, concat_app. Qed.

(** The task goes on while it has commands. *)
Lemma actor_moves w ls s :
  run (spawn w) ls s -> pipeline s <> [] ->
  (exists s', moves s LTake s')
  \/ exists id cmd es r s', moves s (LFinish id cmd es r) s' /\ reply_returns r.
Proof.
  intros Hrun Hp. destruct (running s) as [[id cmd]|] eqn:E.
  - right. exists id, cmd, [during s], (finish secs id cmd [during s] s).1,
      (finish secs id cmd [during s] s).2.
    split; [|apply finish_returns]. apply do_finish; [done| |apply finish_returns].
    simpl. by rewrite app_nil_r.
  - left. unfold pipeline in Hp. rewrite E in Hp. destruct (queue s) as [|c rest] eqn:Eq; [done|].
    exists (take c rest s). apply do_take; [done| |done].
    pose proof (life_stopped _ (life_run _ _ _ Hrun)) as Hl. destruct (stopped s); [|done].
    destruct (Hl eq_refl) as (_ & _ & Hx). congruence.
Qed.

Lemma served_returns s0 ls s k id cmd r :
  run s0 ls s -> history served ls !! k = Some (id, cmd, r) -> reply_returns r.
Proof.
  intros Hrun Hk. apply list_elem_of_lookup_2 in Hk. revert Hk.
  induction Hrun as [|ls s l s' Hrun IH Hm]; [by intros ?%elem_of_nil|].
  rewrite history_snoc, elem_of_app. intros [Hk|Hk]; [by apply IH|].
  destruct Hm; cbn in Hk; try (by apply elem_of_nil in Hk).
  apply list_elem_of_singleton in Hk. by injection Hk as -> -> ->.
Qed.

(** The command is served in its place, and its call has the reply then. *)
Lemma served_answered w ls s id cmd r :
  run (spawn w) ls s -> (id, cmd, r) ∈ history served ls ->
  callers s !! id = Some (Answered r) \/ callers s !! id = Some Cancelled.
Proof.
  intros Hrun Hin. pose proof (served_in_order _ _ _ Hrun) as Hf. cbn [Datatypes.app] in Hf.
  pose proof (calls_run _ _ _ Hrun) as [Hs Ho Hw Ha].
  assert (Hin' : (id, cmd) ∈ map fst (history served ls)).
  { apply (list_elem_of_fmap_2 fst _ _ Hin). }
  change (pipeline (spawn w)) with (@nil (nat * TransportCommand)) in Hf. cbn in Hf.
  rewrite Hf, map_app in Ho. apply NoDup_app in Ho as (Ho & Hd & _).
  destruct (Hs id cmd) as (p & Hp & Hx); [rewrite Hf; apply elem_of_app; auto|].
  destruct p as [c|c|r'|]; [by destruct (Hx c)| | |by right].
  - apply Hw in Hp. destruct (Hd id); [|apply (list_elem_of_fmap_2 fst _ _ Hp)].
    apply (list_elem_of_fmap_2 fst _ _ Hin').
  - destruct (Ha id r' Hp) as [c Hin2]. left. rewrite Hp. do 2 f_equal. clear - Ho Hin Hin2.
    induction (history served ls) as [|[[i c'] q] l IH]; [by apply elem_of_nil in Hin|].
    cbn in Ho. apply NoDup_cons in Ho as [Hn Ho].
    assert (Hnot : forall c q, (id, c, q) ∈ l -> i <> id).
    { intros c0 q0 Hl ->. apply Hn. apply (list_elem_of_fmap_2 fst _ (id, c0)).
      apply (list_elem_of_fmap_2 fst _ _ Hl). }
    apply elem_of_cons in Hin as [[= -> -> ->]|Hin], Hin2 as [[= E1 E2]|Hin2]; try congruence.
    + by destruct (Hnot _ _ Hin2).
    + by destruct (Hnot _ _ Hin).
    + by apply IH.
Qed.
(** *** After a disconnection *)

(** [reset_abort] is called by these two only. *)
Definition resets_abort (cmd : TransportCommand) : bool :=
  match cmd with ConnectModem _ | OpenSession _ _ => true | _ => false end.

Lemma polite_closed {A} (m : @Task T AgwpeError A) w :
  polite m -> abort_flag w = true ->
  trace (m w).2 = trace w /\ abort_flag (m w).2 = true.
Proof.
  intros [Hs _ Hf] Hw. specialize (Hs w). injection Hs as _ Hs. split; [exact Hs|by apply Hf].
Qed.

Lemma step_closed n cmd call w :
  resets_abort cmd = false -> abort_flag w = true ->
  let '(r, call', w') := step n cmd call w in
  trace w' = trace w /\ abort_flag w' = true /\ call' = call
  /\ (is_request cmd = true -> r = Bytes (Err DisconnectedByOperator)).
Proof.
  intros Hc Hw. destruct (is_request cmd) eqn:E.
  { destruct (step_dropped n cmd call w E Hw) as (w' & -> & Ht & _ & Ha). auto. }
  assert (Hpol : forall m : @Task T AgwpeError unit, polite m ->
    let '(r, call', w') := (let (r, w') := m w in (Done r, call, w')) in
    trace w' = trace w /\ abort_flag w' = true /\ call' = call /\ (false = true ->
      r = Bytes (Err DisconnectedByOperator))).
  { intros m Hm. destruct (polite_closed m w Hm Hw) as [Ht Ha]. by destruct (m w) as [r w']. }
  destruct cmd; try done; unfold step.
  - apply Hpol. unfold handle_disconnect_modem. polite. apply task_polite, disconnect_modem_task.
  - apply Hpol. unfold handle_query_ports. polite. apply task_polite, query_ports_task.
  - unfold handle_close_session. apply sync_flag in Hw as Hw'.
    change ((abort ≫= ?k) w) with (k tt (set_abort true (sync w))).
    destruct (polite_closed (catch close_session (fun r =>
      match r with inr _ => set_state AgwpeConnected | inl e => throw (transport_err_to_agwpe e) end))
      (set_abort true (sync w))) as [Ht Ha]; [|done|].
    + apply polite_catch; [apply task_polite, close_session_task|]. intros [e|[]]; auto with polite.
    + pose proof (sync_session w) as Hs. injection Hs as _ Hs. cbn beta.
      destruct (catch _ _ _) as [r w']. cbn in *. by rewrite Ht, Hs.
Qed.

Definition no_reset (l : Label) : Prop :=
  match l with LFinish _ cmd _ _ => resets_abort cmd = false | _ => True end.

Lemma closed_run s0 ls s :
  run s0 ls s -> Forall no_reset ls -> abort_flag (world s0) = true ->
  trace (world s) = trace (world s0) /\ abort_flag (world s) = true
  /\ Forall (fun '(_, cmd, r) => is_request cmd = true ->
        r = Bytes (Err DisconnectedByOperator)) (history served ls).
Proof.
  intros Hrun Hn H0'. induction Hrun as [|ls s l s' Hrun IH Hm]; [done|].
  apply Forall_app in Hn as [Hn Hl]. destruct (IH Hn) as (Ht & Ha & Hr).
  apply Forall_cons in Hl as [Hl _]. rewrite history_snoc, Forall_app.
  assert (Hsame : forall s' : Actor (T:=T), world s' = world s -> served l = [] ->
    trace (world s') = trace (world s0) /\ abort_flag (world s') = true
    /\ Forall (fun '(_, cmd, r) => is_request cmd = true ->
        r = Bytes (Err DisconnectedByOperator)) (history served ls)
    /\ Forall (fun '(_, cmd, r) => is_request cmd = true ->
        r = Bytes (Err DisconnectedByOperator)) (served l)).
  { intros s1 -> ->. auto. }
  assert (Hother : forall i, trace (world (other i s)) = trace (world s0)
    /\ abort_flag (world (other i s)) = true).
  { intros i. unfold other. destruct (running s); [auto|]. cbn. by destruct i. }
  destruct Hm as [s id cmd _ _|s id cmd _ _ _|s c rest _ _ _|s id cmd es Hrun' _ _|s f
    |s id p _ _|s _|s _ _ _ _|s id p cmd _ _ _|]; try (by apply Hsame).
  - unfold begin_call. destruct (raises_abort cmd); [|by apply Hsame].
    destruct (Hother SetAbort) as [Ht' Ha']. auto.
  - cbn in Hl. unfold finish.
    pose proof (step_closed (session_timeout secs) cmd (local_callsign s) (schedule es (world s)) Hl Ha)
      as Hst.
    destruct (step _ _ _ _) as [[r call] w']. cbn in *. destruct Hst as (Ht' & Ha' & _ & Hq).
    rewrite settle_trace, Ht'. split_and!; [done|by apply settle_flag|done|by repeat constructor].
  - destruct (Hother (Update f)) as [Ht' Ha']. cbn. auto.
  - cbn. pose proof (polite_closed (push_log (info (bs "STATE") (bs "Background task shutting down")))
      (world s) (polite_push_log _) Ha) as [Ht' Ha'].
    split_and!; [by rewrite <- Ht|done|done|done].
Qed.
(** The flag may go up while a command runs; it stays up then, when the command is none
    that lowers it. *)
Definition raised (s : Actor (T:=T)) : Prop :=
  abort_flag (world s) = true \/ SetAbort ∈ during s /\ running s <> None.

Lemma step_stops n cmd call w :
  resets_abort cmd = false -> will_stop w -> will_stop (step n cmd call w).2.
Proof.
  intros Hc Hw. pose proof disconnect_modem_task. pose proof query_ports_task.
  pose proof close_session_task.
  assert (Hdone : forall m : @Task T AgwpeError unit, stays will_stop m ->
    will_stop (let (r, w') := m w in (Done r, call, w')).2).
  { intros m Hm. specialize (Hm w Hw). by destruct (m w). }
  assert (Hbytes : forall m : @Task T AgwpeError (list byte), stays will_stop m ->
    will_stop (let (r, w') := m w in (Bytes r, call, w')).2).
  { intros m Hm. specialize (Hm w Hw). by destruct (m w). }
  destruct cmd; try done; unfold step.
  - apply Hdone. unfold handle_disconnect_modem. stops; by apply stops_task.
  - apply Hdone. unfold handle_query_ports. stops; by apply stops_task.
  - apply Hdone. unfold handle_close_session. stops; by apply stops_task.
  - apply Hbytes, stops_send_request.
  - apply Hbytes, stops_retry.
Qed.

Lemma disturb_stop (es : list Interference) (w : World T) :
  SetAbort ∈ es -> abort_flag (disturb es w) = true.
Proof. apply disturbed_flag. Qed.
Lemma settle_stop (w : World T) : will_stop w -> abort_flag (settle w) = true.
Proof. intros [Hw|Hw]; [by apply settle_flag|]. by apply disturb_stop. Qed.

(** Until the command in flight ends, the world is as it was; then the flag is up. *)
Lemma step_trace n cmd call w :
  resets_abort cmd = false ->
  exists tl, trace (step n cmd call w).2 = trace w ++ tl.
Proof.
  intros Hc. pose proof disconnect_modem_task. pose proof query_ports_task.
  pose proof close_session_task.
  assert (Hdoes : forall {A} (m : @Task T AgwpeError A) R (f : Result AgwpeError A -> Reply), does m R ->
    exists tl, trace (let (r, w') := m w in (f r, call, w')).2 = trace w ++ tl).
  { intros A m R f Hm. destruct (Hm w) as (tl & Ht & _). exists tl. by destruct (m w). }
  assert (Hkeep : forall m : @Task T AgwpeError unit, polite m ->
    exists tl, trace (let (r, w') := m w in (Done r, call, w')).2 = trace w ++ tl).
  { intros m [Hm _ _ _]. specialize (Hm w). injection Hm as _ Hm. exists []. rewrite app_nil_r.
    by destruct (m w). }
  destruct cmd; try done; unfold step.
  - apply Hkeep. unfold handle_disconnect_modem. polite. by apply task_polite.
  - apply Hkeep. unfold handle_query_ports. polite. by apply task_polite.
  - unfold handle_close_session.
    change ((abort ≫= ?k) w) with (k tt (set_abort true (sync w))). cbv beta.
    assert (Hp : polite (catch close_session (fun r =>
      match r with inr _ => set_state AgwpeConnected | inl e => throw (transport_err_to_agwpe e) end)
      : @Task T AgwpeError unit)).
    { apply polite_catch; [by apply task_polite|]. intros [e|[]]; auto with polite. }
    destruct Hp as [Hs _ _ _]. specialize (Hs (set_abort true (sync w))). injection Hs as _ Hs.
    exists []. rewrite app_nil_r. pose proof (sync_session w) as Hw. injection Hw as _ Hw.
    destruct (catch _ _ _) as [r w']. cbn in *. by rewrite Hs, Hw.
  - eapply (Hdoes _ _ _ Bytes), send_request_does.
  - eapply (Hdoes _ _ _ Bytes), retry_does.
Qed.

(** Until the command in flight ends, the world is as it was. *)
Lemma in_flight_run s0 c ls s :
  run s0 ls s -> running s0 = Some c ->
  (history served ls = [] /\ world s = world s0 /\ running s = Some c
   /\ local_callsign s = local_callsign s0 /\ exists more, during s = during s0 ++ more)
  \/ exists ls1 s1 es ls2,
       run s0 ls1 s1 /\ history served ls1 = [] /\ world s1 = world s0 /\ running s1 = Some c
       /\ local_callsign s1 = local_callsign s0
       /\ (exists more, during s1 = during s0 ++ more) /\ concat es = during s1
       /\ ls = ls1 ++ LFinish c.1 c.2 es (finish secs c.1 c.2 es s1).1 :: ls2
       /\ run (finish secs c.1 c.2 es s1).2 ls2 s.
Proof.
  intros Hrun Hc. induction Hrun as [|ls s l s' Hrun IH Hm].
  { left. split_and!; try done. exists []. by rewrite app_nil_r. }
  destruct IH as [(Hh & Hw & Hr & Hl & more & Hd)|(ls1 & s1 & es & ls2 & IH)].
  2: { right. exists ls1, s1, es, (ls2 ++ [l]). destruct IH as (? & ? & ? & ? & ? & ? & ? & -> & Hrest).
       split_and!; try done; [by rewrite <- app_assoc|by eapply run_more]. }
  rewrite history_snoc, Hh. pose proof Hm as Hmove.
  assert (Hother : forall i, world (other i s) = world s0 /\ running (other i s) = Some c
    /\ local_callsign (other i s) = local_callsign s0 /\ exists more, during (other i s) = during s0 ++ more).
  { intros i. unfold other. rewrite Hr. cbn. split_and!; try done. rewrite Hd, <- app_assoc. by eexists. }
  destruct Hm as [s id cmd _ _|s id cmd _ _ _|s d rest Hn _ _|s id cmd es Hr' He Hret|s f
    |s id p _ _|s _|s _ _ Hn _|s id p cmd _ _ _|]; try congruence; try (by apply no_panic in Hmove);
    try (left; split_and!; try done; by exists more).
  - left. unfold begin_call. destruct (raises_abort cmd).
    + destruct (Hother SetAbort) as (? & ? & ? & ?). by split_and!.
    + split_and!; try done. by exists more.
  - right. rewrite Hr in Hr'. injection Hr' as ->. exists ls, s, es, []. cbn [fst snd].
    split_and!; try done; [by exists more|constructor].
  - left. destruct (Hother (Update f)) as (? & ? & ? & ?). by split_and!.
Qed.

Lemma disconnected_run s ls s' :
  raised s -> run s ls s' -> Forall no_reset ls ->
  exists tl, trace (world s') = trace (world s) ++ tl
  /\ (tl <> [] -> exists id cmd r rest,
       running s = Some (id, cmd) /\ history served ls = (id, cmd, r) :: rest
       /\ exists es more call w, concat es = during s ++ more
          /\ step (session_timeout secs) cmd (local_callsign s) (schedule es (world s)) = (r, call, w)
          /\ trace w = trace (world s) ++ tl)
  /\ forall k id cmd r, history served ls !! k = Some (id, cmd, r) -> is_request cmd = true ->
       running s = None \/ (0 < k)%nat \/ abort_flag (world s) = true ->
       r = Bytes (Err DisconnectedByOperator).
Proof.
  intros Hraised Hr Hn.
  destruct (decide (abort_flag (world s) = true)) as [Ha|Ha].
  { destruct (closed_run _ _ _ Hr Hn Ha) as (Ht & _ & Hs). exists []. rewrite app_nil_r.
    split_and!; [done|done|]. intros k id cmd r Hk Hq _. rewrite Forall_forall in Hs.
    exact (Hs _ (list_elem_of_lookup_2 _ _ _ Hk) Hq). }
  destruct Hraised as [?|[Hd Hrun]]; [done|]. destruct (running s) as [c|] eqn:Ec; [|done].
  destruct (in_flight_run s c ls s' Hr Ec) as [(Hh & Hw & _)|(ls1 & s1 & es & ls2 & Hr0 & Hh1 & Hw1 & Hr1 & Hl1 & [more Hd1] & He & -> & Hend)].
  { exists []. rewrite app_nil_r, Hw, Hh. by split_and!. }
  apply Forall_app in Hn as [_ [Hc Hn]%Forall_cons]. cbn in Hc.
  destruct c as [id cmd]. cbn [fst snd] in *.
  unfold finish in Hend. rewrite Hw1, Hl1 in Hend.
  pose proof (step_stops (session_timeout secs) cmd (local_callsign s) (schedule es (world s)) Hc) as Hst.
  destruct (step_trace (session_timeout secs) cmd (local_callsign s) (schedule es (world s)) Hc) as [tl Htl].
  assert (Hrep : (finish secs id cmd es s1).1 = (step (session_timeout secs) cmd (local_callsign s) (schedule es (world s))).1.1).
  { unfold finish. rewrite Hw1, Hl1. by destruct (step _ _ _ _) as [[r call] w]. }
  rewrite Hrep.
  destruct (step (session_timeout secs) cmd _ _) as [[r call] w] eqn:Es. cbn [fst snd] in *.
  assert (Hup : abort_flag (settle w) = true).
  { apply settle_stop, Hst. right. cbn. rewrite He, Hd1. apply elem_of_app. by left. }
  destruct (closed_run _ _ _ Hend Hn Hup) as (Ht & _ & Hs). cbn [world] in Ht.
  exists tl. rewrite history_app, Hh1.
  change (history served (LFinish id cmd es r :: ls2)) with ((id, cmd, r) :: history served ls2).
  cbn [Datatypes.app]. split_and!.
  - by rewrite Ht, settle_trace.
  - intros _. exists id, cmd, r, (history served ls2). split_and!; [done..|]. exists es, more, call, w. split_and!; [by rewrite He|done|by rewrite Htl].
  - intros [|k] i c q Hk Hq Hcase; [by destruct Hcase as [?|[?|?]]; [|lia|]|].
    cbn in Hk. rewrite Forall_forall in Hs. exact (Hs _ (list_elem_of_lookup_2 _ _ _ Hk) Hq).
Qed.

(** *** How many calls wait *)

Definition is_waiting (p : Phase) : bool := match p with Waiting _ => true | _ => false end.
Definition waiting_calls (s : Actor (T:=T)) : gset nat :=
  dom (filter (fun x => is_waiting x.2 = true) (callers s)).

Lemma waiting_bounded w ls s :
  run (spawn w) ls s -> (size (waiting_calls s) <= length (pipeline s))%nat.
Proof.
  intros Hrun. pose proof (calls_run _ _ _ Hrun) as [_ Ho Hw _].
  rewrite (served_in_order _ _ _ Hrun : history sent ls = _), map_app in Ho.
  apply NoDup_app in Ho as (_ & _ & Ho). rewrite <- (length_map fst), <- (size_list_to_set (C:=gset nat) _ Ho).
  apply subseteq_size. intros id Hid. unfold waiting_calls in Hid.
  apply elem_of_dom in Hid as [p Hp].
  apply map_lookup_filter_Some in Hp as [Hp Hx]. destruct p as [|cmd| |]; try done.
  apply elem_of_list_to_set, (list_elem_of_fmap_2 fst _ (id, cmd)), Hw, Hp.
Qed.

(** C17: the actor refines the sequential specification: whatever the callers, the
    actor and the other tasks do in whatever order, the commands served are run one
    after the other, whole, in the order their sends completed, each at most once;
    their replies, the cached callsign and the state are those of that execution,
    every reply a caller got is its own command's, and what the other tasks did is
    all there, in its order. *)
Theorem actor_refines w ls s :
  run (spawn w) ls s ->
  exists ts rs since w',
    sequential secs ts [] (set_abort false (schedule [] w)) = (rs, local_callsign s, w')
    /\ (stopped s = false -> world s = disturb since w')
    /\ history sent ls = map own ts ++ pipeline s
    /\ NoDup (map fst (history sent ls))
    /\ history effects ls = concat (map turn_effects ts) ++ since ++ during s
    /\ forall id r, callers s !! id = Some (Answered r) ->
         exists k t, ts !! k = Some t /\ caller t = id /\ rs !! k = Some r.
Proof.
  intros Hrun. destruct (run_explained _ _ _ Hrun) as (ts & since & [(rs & w' & Hs & Hw & Hh & Hl) He _]).
  pose proof (calls_run _ _ _ Hrun) as [_ Ho _ Ha].
  pose proof (served_in_order _ _ _ Hrun) as Hf. cbn [pipeline] in Hf.
  assert (Hlen : length (map own ts) = length rs) by (by rewrite length_map).
  exists ts, rs, since, w'. split_and!; [done|done| |done|done|].
  - change (history sent ls = map fst (history served ls) ++ pipeline s) in Hf.
    rewrite Hf, Hh. f_equal. apply fst_zip. lia.
  - intros id r Hr. destruct (Ha id r Hr) as [cmd Hin]. rewrite Hh in Hin.
    apply list_elem_of_lookup in Hin as [k Hk]. apply lookup_zip_Some in Hk as [Hk Hr'].
    change (map own ts) with (own <$> ts) in Hk. apply list_lookup_fmap_Some in Hk as (t & Ht & Hk).
    exists k, t. unfold own in Ht. injection Ht as -> _. auto.
Qed.

(** At most 32 commands are queued and at most 33 calls await their reply, one
    of them the command that runs; the others wait for a place. *)
Theorem calls_bounded w ls s :
  run (spawn w) ls s ->
  (length (queue s) <= 32)%nat /\ (size (waiting_calls s) <= 33)%nat.
Proof.
  intros Hrun. pose proof (life_capacity _ (life_run _ _ _ Hrun)) as Hc.
  pose proof (waiting_bounded _ _ _ Hrun) as Hw. unfold COMMAND_CAPACITY in Hc.
  split; [done|]. etransitivity; [exact Hw|]. unfold pipeline. rewrite length_app.
  destruct (running s); cbn; lia.
Qed.

(** C18: a call whose command is queued has at most 32 commands before it, and it is
    answered, with a value or an error, once the task has served that many and one more,
    whatever the other calls and tasks do meanwhile, unless its own future is dropped;
    the task can always go on to the next command or end the one it runs, whose handler
    neither hangs nor panics; and no call fails for want of the task. *)
Theorem call_answered w ls0 s id cmd :
  run (spawn w) ls0 s -> callers s !! id = Some (Waiting cmd) ->
  exists k, pipeline s !! k = Some (id, cmd) /\ (k <= 32)%nat
  /\ ((exists s', moves s LTake s')
      \/ exists i c es r s', moves s (LFinish i c es r) s' /\ reply_returns r)
  /\ forall ls s', run s ls s' -> (forall i s'', ~ moves s' (LPanic i) s'')
     /\ ((k < length (history served ls))%nat ->
       exists r, history served ls !! k = Some (id, cmd, r) /\ reply_returns r
       /\ (callers s' !! id = Some (Answered r) \/ callers s' !! id = Some Cancelled)
       /\ forall s'', ~ moves s' (LFail id) s'').
Proof.
  intros Hrun Hw. pose proof (calls_waiting _ _ (calls_run _ _ _ Hrun) _ _ Hw) as Hin.
  apply list_elem_of_lookup in Hin as [k Hk]. exists k.
  pose proof (lookup_lt_Some _ _ _ Hk) as Hlt. split_and!; [done| | |].
  - pose proof (life_capacity _ (life_run _ _ _ Hrun)) as Hc. unfold COMMAND_CAPACITY in Hc.
    unfold pipeline in Hlt. rewrite length_app in Hlt. destruct (running s); cbn in Hlt; lia.
  - apply (actor_moves _ _ _ Hrun). intros Hx. by rewrite Hx in Hk.
  - intros ls s' Hr. split; [intros i s''; apply no_panic|]. intros Hserved. pose proof (run_then _ _ _ _ _ Hrun Hr) as Hall.
    pose proof (served_in_order _ _ _ Hr) as Hf.
    apply lookup_lt_is_Some in Hserved as [[[i c] r] Hkr].
    assert (Hik : (map fst (history served ls) ++ pipeline s') !! k = Some (i, c)).
    { rewrite lookup_app_l; [by rewrite list_lookup_fmap, Hkr|].
      rewrite length_map. by eapply lookup_lt_Some. }
    rewrite <- Hf, lookup_app_l in Hik by done. rewrite Hk in Hik. injection Hik as <- <-.
    exists r. split_and!; [done|exact (served_returns _ _ _ _ _ _ _ Hr Hkr)| |
      intros s''; by apply (no_fail _ _ _ _ _ Hall)].
    apply (served_answered _ _ _ _ cmd r Hall). rewrite history_app. apply elem_of_app. right.
    by eapply list_elem_of_lookup_2.
Qed.

(** C19: once the operator has disconnected, the flag up or the store of it among what
    happened while a command runs, and until a modem is connected or a session opened
    again, no command that is begun later sends or receives session data, opens the link,
    reopens the modem or asks the operator, and every request among them is refused with
    the operator's disconnection, whatever the callers and the other tasks do.  Only the
    command in flight, if there is one, may still do so: what it was at
    ([Session.retry_at_most_once] says how far a request goes).  The frames that end the
    link or ask the modem for its ports are no session data, and are still written. *)
Theorem disconnect_refuses s ls s' :
  raised s -> run s ls s' -> Forall no_reset ls ->
  exists tl, trace (world s') = trace (world s) ++ tl
  /\ (tl <> [] -> exists id cmd r rest,
       running s = Some (id, cmd) /\ history served ls = (id, cmd, r) :: rest
       /\ exists es more call w, concat es = during s ++ more
          /\ step (session_timeout secs) cmd (local_callsign s) (schedule es (world s)) = (r, call, w)
          /\ trace w = trace (world s) ++ tl)
  /\ forall k id cmd r, history served ls !! k = Some (id, cmd, r) -> is_request cmd = true ->
       running s = None \/ (0 < k)%nat \/ abort_flag (world s) = true ->
       r = Bytes (Err DisconnectedByOperator).
Proof. apply disconnected_run. Qed.
End Behaviour.

(** ** A run *)

#[local] Existing Instances ToyDebug.debug_format ToyModem.modem ToyModem.modem_laws Toy.unicode.

(** A request runs when another caller closes the session. *)
Module Demo.
Definition world : World ToyModem.Script := ToyModem.world None [EvData tiny_response] [].
Definition req : TransportCommand := SendRequest (bs "a").
Definition requested := take (0%nat, req) [] (enqueue 0 req (begin_call 0 req (spawn world))).
Definition closing := enqueue 1 CloseSession (begin_call 1 CloseSession requested).
Definition aborted := (finish 30 0 req [[SetAbort]] closing).2.
Definition closed := (finish 30 1 CloseSession [] (take (1%nat, CloseSession) [] aborted)).2.

Lemma run_requested : run 30 (spawn world) [LCall 0 req; LSend 0 req; LTake] requested.
Proof.
  eapply run_after; [by apply do_call|]. eapply run_after; [apply do_send; cbv; [done|done|lia]|].
  eapply run_after; [by apply do_take|]. constructor.
Qed.
Lemma run_closing : run 30 requested [LCall 1 CloseSession; LSend 1 CloseSession] closing.
Proof.
  eapply run_after; [by apply do_call|]. eapply run_after; [apply do_send; cbv; [done|done|lia]|].
  constructor.
Qed.
Lemma run_aborted :
  run 30 closing [LFinish 0 req [[SetAbort]] (Bytes (Err DisconnectedByOperator))] aborted.
Proof. eapply run_after; [by apply (finish_moves 30 _ 0 req [[SetAbort]])|]. constructor. Qed.
Lemma run_closed :
  run 30 aborted [LTake; LFinish 1 CloseSession [] (Done (Ok tt))] closed.
Proof.
  eapply run_after; [by apply do_take|].
  eapply run_after; [by apply finish_moves|].
  constructor.
Qed.
Lemma run_all : run 30 (spawn world)
  ([LCall 0 req; LSend 0 req; LTake] ++ [LCall 1 CloseSession; LSend 1 CloseSession]
   ++ [LFinish 0 req [[SetAbort]] (Bytes (Err DisconnectedByOperator))]) aborted.
Proof. eapply run_then; [apply run_requested|]. eapply run_then; [apply run_closing|apply run_aborted]. Qed.
End Demo.

Lemma actor_refines_witness :
  exists ts rs since w',
    sequential 30 ts [] (set_abort false (schedule [] Demo.world))
      = (rs, local_callsign Demo.aborted, w')
    /\ (stopped Demo.aborted = false -> world Demo.aborted = disturb since w')
    /\ history sent ([LCall 0 Demo.req; LSend 0 Demo.req; LTake]
          ++ [LCall 1 CloseSession; LSend 1 CloseSession]
          ++ [LFinish 0 Demo.req [[SetAbort]] (Bytes (Err DisconnectedByOperator))])
       = map own ts ++ pipeline Demo.aborted
    /\ NoDup [0%nat; 1%nat]
    /\ [SetAbort] = concat (map turn_effects ts) ++ since ++ during Demo.aborted
    /\ forall id r, callers Demo.aborted !! id = Some (Answered r) ->
         exists k t, ts !! k = Some t /\ caller t = id /\ rs !! k = Some r.
Proof. exact (actor_refines 30 Demo.world _ Demo.aborted Demo.run_all). Defined.

Lemma calls_bounded_witness :
  (length (queue Demo.aborted) <= 32)%nat /\ (size (waiting_calls Demo.aborted) <= 33)%nat.
Proof. apply (calls_bounded 30 Demo.world _ Demo.aborted Demo.run_all). Defined.

Lemma call_answered_witness :
  exists k, pipeline Demo.aborted !! k = Some (1%nat, CloseSession) /\ (k <= 32)%nat
  /\ ((exists s', moves 30 Demo.aborted LTake s')
      \/ exists i c es r s', moves 30 Demo.aborted (LFinish i c es r) s' /\ reply_returns r)
  /\ forall ls s', run 30 Demo.aborted ls s' -> (forall i s'', ~ moves 30 s' (LPanic i) s'')
     /\ ((k < length (history served ls))%nat ->
       exists r, history served ls !! k = Some (1%nat, CloseSession, r) /\ reply_returns r
       /\ (callers s' !! 1%nat = Some (Answered r) \/ callers s' !! 1%nat = Some Cancelled)
       /\ forall s'', ~ moves 30 s' (LFail 1) s'').
Proof.
  apply (call_answered 30 Demo.world _ Demo.aborted 1 CloseSession Demo.run_all). reflexivity.
Defined.

Lemma disconnect_refuses_witness :
  exists tl, trace (world Demo.closed) = trace (world Demo.closing) ++ tl
  /\ (tl <> [] -> exists id cmd r rest,
       running Demo.closing = Some (id, cmd)
       /\ [(0%nat, Demo.req, Bytes (Err DisconnectedByOperator)); (1%nat, CloseSession, Done (Ok tt))]
          = (id, cmd, r) :: rest
       /\ exists es more call w, concat es = during Demo.closing ++ more
          /\ step (session_timeout 30) cmd (local_callsign Demo.closing) (schedule es (world Demo.closing)) = (r, call, w)
          /\ trace w = trace (world Demo.closing) ++ tl)
  /\ forall k id cmd r,
       [(0%nat, Demo.req, Bytes (Err DisconnectedByOperator)); (1%nat, CloseSession, Done (Ok tt))] !! k
         = Some (id, cmd, r) -> is_request cmd = true ->
       running Demo.closing = None \/ (0 < k)%nat \/ abort_flag (world Demo.closing) = true ->
       r = Bytes (Err DisconnectedByOperator).
Proof.
  apply (disconnect_refuses 30 Demo.closing
    ([LFinish 0 Demo.req [[SetAbort]] (Bytes (Err DisconnectedByOperator))]
     ++ [LTake; LFinish 1 CloseSession [] (Done (Ok tt))]) Demo.closed).
  - right. split; [by left|done].
  - eapply run_then; [exact Demo.run_aborted|exact Demo.run_closed].
  - by repeat constructor.
Defined.

(** The request was answered while the modem was left alone. *)
Example demo_aborted :
  callers Demo.aborted !! 0%nat = Some (Answered (Bytes (Err DisconnectedByOperator)))
  /\ trace (world Demo.aborted) = [].
Proof. split; reflexivity. Qed.
