(* ===== verification/HostGuard.v ===== *)
(** * The guard of the web interface ([client/src/proxy.rs])

    Which hosts the client answers for, against DNS rebinding, and which origins
    may post, against cross-site requests. *)
From Stdlib Require Import ZArith Lia Strings.Byte.
From stdpp Require Import base decidable list countable gmap.
From S2P Require Import Prelude Bytes Numbers External NetAddr.

Record HostAllowlist : Type := mkHostAllowlist {
  hostnames : gset (list byte);
  bound_ip : option IpAddr;
  allow_lan : bool }.

(** [HostAllowlist::new] *)
Definition extra_hostname (h : list byte) : list byte := to_ascii_lowercase (trim h).
Definition new_allowlist (listen_ip : IpAddr) (extra_hostnames : list (list byte)) : HostAllowlist :=
  mkHostAllowlist
    (fold_left (fun hs h => let h := extra_hostname h in
                  if bool_decide (h = []) then hs else {[h]} ∪ hs)
       extra_hostnames {[bs "localhost"]})
    (if negb (is_loopback listen_ip) && negb (is_unspecified listen_ip) then Some listen_ip else None)
    (is_unspecified listen_ip).

Definition OPEN_BRACKET : byte := x5b.
Definition CLOSE_BRACKET : byte := x5d.
Definition COLON : byte := x3a.

Definition strip_port_from_host (host : list byte) : list byte :=
  let bare := match rsplit_once COLON host with Some (h, _) => h | None => host end in
  match strip_prefix [OPEN_BRACKET] host with
  | Some rest =>
      match position (Byte.eqb CLOSE_BRACKET) rest with
      | Some e => take (e + 2) host
      | None => bare
      end
  | None => bare
  end.

Definition is_lan_ip (ip : IpAddr) : bool :=
  match ip with
  | V4 a b _ _ => v4_is_private a b || v4_is_link_local a b
  | V6 o =>
      let ula := Z.land (octet o 0) 0xfe =? 0xfc in
      let link_local := (octet o 0 =? 0xfe) && (Z.land (octet o 1) 0xc0 =? 0x80) in
      ula || link_local
  end.

(** The text of an address in a host name, which has brackets for IPv6 *)
Definition ip_text (hostname : list byte) : list byte :=
  match strip_prefix [OPEN_BRACKET] hostname ≫= strip_suffix [CLOSE_BRACKET] with
  | Some s => s
  | None => hostname
  end.

Definition contains_host_header (al : HostAllowlist) (host_header : list byte) : bool :=
  let hostname := strip_port_from_host host_header in
  match parse_ip (ip_text hostname) with
  | Some ip =>
      if is_loopback ip then true
      else if bool_decide (bound_ip al = Some ip) then true
      else if allow_lan al && is_lan_ip ip then true
      else false
  | None => bool_decide (to_ascii_lowercase hostname ∈ hostnames al)
  end.

Definition HTTP : list byte := Eval vm_compute in bs "http://".
Definition HTTPS : list byte := Eval vm_compute in bs "https://".

Definition origin_matches_host (origin host : list byte) : bool :=
  let authority :=
    match strip_prefix HTTP origin with
    | Some a => Some a
    | None => strip_prefix HTTPS origin
    end in
  match authority with
  | Some a => bool_decide (a = host)
  | None => false
  end.

(** ** The middleware *)

Inductive Method : Type := GET | POST | OtherMethod.
#[export] Instance Method_eq_dec : EqDecision Method.
Proof. solve_decision. Defined.

(** The headers in the order received; names are in lower case, and [get] returns
    the first. *)
Abbreviation Headers := (list (list byte * list byte)).
Definition get_header (name : list byte) (hs : Headers) : option (list byte) :=
  snd <$> List.find (fun nv => bool_decide (nv.1 = name)) hs.

Record WebRequest : Type := mkWebRequest {
  method : Method;
  path : list byte;
  req_headers : Headers }.

Definition FORBIDDEN : Z := 403.

Section Guard.
Context `{HttpHeaders}.

(** [headers.get(name).and_then(|v| v.to_str().ok())] *)
Definition header_text (name : list byte) (hs : Headers) : option (list byte) :=
  get_header name hs ≫= header_to_str.

Definition security_guard {W E A} (al : HostAllowlist) (req : WebRequest)
    (next : M W E A) (refuse : Z -> M W E A) : M W E A :=
  match header_text (bs "host") (req_headers req) with
  | Some host =>
      if contains_host_header al host then
        if bool_decide (method req = POST) then
          if match header_text (bs "origin") (req_headers req) with
             | Some o => origin_matches_host o host
             | None => false
             end
          then next
          else refuse FORBIDDEN
        else next
      else refuse FORBIDDEN
  | None => refuse FORBIDDEN
  end.
End Guard.

(** ** Parsed addresses have the characters of addresses only *)

Definition ip_char (b : byte) : bool :=
  match hex_digit b with Some _ => true | None => Byte.eqb b "."%byte || Byte.eqb b COLON end.

(** What a parser step consumed *)
Definition consumed (l rest : list byte) : Prop := exists p, l = p ++ rest /\ forallb ip_char p = true.

Lemma consumed_refl l : consumed l l.
Proof. by exists []. Qed.
Lemma consumed_trans l l1 l2 : consumed l l1 -> consumed l1 l2 -> consumed l l2.
Proof.
  intros (p & -> & Hp) (q & -> & Hq). exists (p ++ q). rewrite forallb_app, Hp, Hq.
  by rewrite <- app_assoc.
Qed.
Lemma consumed_cons b l rest : ip_char b = true -> consumed l rest -> consumed (b :: l) rest.
Proof. intros Hb (p & -> & Hp). exists (b :: p). simpl. by rewrite Hb. Qed.

Lemma read_digits_consumed radix hi m l : forall acc c n k rest,
  read_digits radix hi m acc c l = Some (n, k, rest) -> consumed l rest.
Proof.
  induction l as [|b t IH]; intros acc c n k rest; simpl.
  { intros [= _ _ <-]. apply consumed_refl. }
  destruct (to_digit radix b) as [d|] eqn:Hd; [|intros [= _ _ <-]; apply consumed_refl].
  destruct (hi <? _); [done|]. destruct (m <? _)%nat; [done|]. intros Hr.
  apply consumed_cons; [|by eapply IH]. unfold ip_char. unfold to_digit in Hd.
  by destruct (hex_digit b).
Qed.

Lemma read_number_consumed radix hi m z l n rest :
  read_number radix hi m z l = Some (n, rest) -> consumed l rest.
Proof.
  unfold read_number. destruct (read_digits _ _ _ _ _ _) as [[[n' k] r]|] eqn:Hr; [|done]. simpl.
  destruct (k =? 0)%nat; [done|]. destruct (_ && _); [done|]. intros [= _ <-].
  by eapply read_digits_consumed.
Qed.

Lemma read_separator_consumed {A} sep i (inner : list byte -> option (A * list byte)) l a rest :
  ip_char sep = true -> (forall l a rest, inner l = Some (a, rest) -> consumed l rest) ->
  read_separator sep i inner l = Some (a, rest) -> consumed l rest.
Proof.
  intros Hs Hi. unfold read_separator. destruct (i =? 0)%nat; [apply Hi|].
  unfold read_given_char. destruct l as [|b t]; [done|].
  destruct (Byte.eqb b sep) eqn:Hb; [|done]. apply byte_eqb_eq in Hb as ->.
  intros Hr. by apply consumed_cons, (Hi t a rest).
Qed.

Lemma read_ipv4_consumed l ip rest : read_ipv4_addr l = Some (ip, rest) -> consumed l rest.
Proof.
  unfold read_ipv4_addr.
  assert (Hsep : forall i l a rest, read_separator "."%byte i read_octet l = Some (a, rest) -> consumed l rest).
  { intros i l0 a r. apply read_separator_consumed; [done|]. intros ? ? ?. apply read_number_consumed. }
  destruct (read_separator _ 0 _ l) as [[a l1]|] eqn:H1; [|done]. simpl.
  destruct (read_separator _ 1 _ l1) as [[b l2]|] eqn:H2; [|done]. simpl.
  destruct (read_separator _ 2 _ l2) as [[c l3]|] eqn:H3; [|done]. simpl.
  destruct (read_separator _ 3 _ l3) as [[d l4]|] eqn:H4; [|done]. simpl. intros [= _ <-].
  eapply consumed_trans; [by eapply Hsep|]. eapply consumed_trans; [by eapply Hsep|].
  eapply consumed_trans; by eapply Hsep.
Qed.

Lemma read_groups_consumed n : forall i l o v4 rest,
  read_groups n i l = (o, v4, rest) -> consumed l rest.
Proof.
  induction n as [|n IH]; intros i l o v4 rest; cbn [read_groups].
  { intros [= _ _ <-]. apply consumed_refl. }
  assert (Hv4 : forall l a rest, read_separator COLON i read_ipv4_addr l = Some (a, rest) -> consumed l rest).
  { intros ? ? ?. apply read_separator_consumed; [done|]. apply read_ipv4_consumed. }
  assert (Hg : forall l a rest, read_separator COLON i (read_number 16 65535 4 true) l = Some (a, rest)
    -> consumed l rest).
  { intros ? ? ?. apply read_separator_consumed; [done|]. intros ? ? ?. apply read_number_consumed. }
  change ":"%byte with COLON.
  destruct (if (2 <=? S n)%nat then _ else None) as [[[[[a b] c] d] r]|] eqn:E.
  - destruct (2 <=? S n)%nat; [|done]. intros [= _ _ <-]. by eapply Hv4.
  - destruct (read_separator COLON i (read_number 16 65535 4 true) l) as [[g r]|] eqn:Hr.
    + destruct (read_groups n (S i) r) as [[gs v] r'] eqn:Hn. intros [= _ _ <-].
      eapply consumed_trans; [by eapply Hg|by eapply IH].
    + intros [= _ _ <-]. apply consumed_refl.
Qed.

Lemma read_given_char_consumed l rest : read_given_char COLON l = Some rest -> consumed l rest.
Proof.
  unfold read_given_char. destruct l as [|b t]; [done|].
  destruct (Byte.eqb b COLON) eqn:Hb; [|done]. apply byte_eqb_eq in Hb as ->. intros [= <-].
  apply consumed_cons; [done|apply consumed_refl].
Qed.

Lemma parse_ip_chars s ip : parse_ip s = Some ip -> forallb ip_char s = true.
Proof.
  assert (Hend : consumed s [] -> forallb ip_char s = true).
  { intros (p & -> & Hp). by rewrite app_nil_r. }
  intros Hp. apply Hend. revert Hp. unfold parse_ip.
  destruct (read_ipv4_addr s) as [[[[[a b] c] d] [|? ?]]|] eqn:H4; [|done|].
  { intros _. by eapply read_ipv4_consumed. }
  unfold read_ipv6_addr. destruct (read_groups 8 0 s) as [[head v4] r0] eqn:Hg.
  apply read_groups_consumed in Hg. destruct (length head =? 16)%nat.
  { by destruct r0. }
  destruct v4; [done|]. change ":"%byte with COLON.
  destruct (read_given_char COLON r0) as [r1|] eqn:H1; [|done]. cbn [mbind option_bind].
  destruct (read_given_char COLON r1) as [r2|] eqn:H2; [|done]. cbn [mbind option_bind].
  destruct (read_groups _ 0 r2) as [[tl tv] r3] eqn:H3. destruct r3; [|done]. intros _.
  eapply consumed_trans; [exact Hg|]. eapply consumed_trans; [by apply read_given_char_consumed|].
  eapply consumed_trans; [by apply read_given_char_consumed|]. by eapply read_groups_consumed.
Qed.

(** ** What the guard admits *)

(** The name in a Host header, and what is left out of it *)
Definition bracketed (h : list byte) : Prop :=
  exists a junk, h = OPEN_BRACKET :: a ++ CLOSE_BRACKET :: junk.
Inductive host_name : list byte -> list byte -> Prop :=
| hn_bracket a junk :
    no_byte CLOSE_BRACKET a = true ->
    host_name (OPEN_BRACKET :: a ++ CLOSE_BRACKET :: junk) (OPEN_BRACKET :: a ++ [CLOSE_BRACKET])
| hn_port name port :
    ~ bracketed (name ++ COLON :: port) -> no_byte COLON port = true ->
    host_name (name ++ COLON :: port) name
| hn_bare name : ~ bracketed name -> no_byte COLON name = true -> host_name name name.

Lemma rsplit_once_spec c l :
  match rsplit_once c l with
  | Some (a, b) => l = a ++ c :: b /\ no_byte c b = true
  | None => no_byte c l = true
  end.
Proof.
  assert (Hrev : forall x, no_byte c (rev x) = no_byte c x).
  { intros x. apply eq_true_iff_eq. unfold no_byte. rewrite !forallb_forall.
    split; intros H y Hy; apply H; by apply in_rev in Hy || apply in_rev; rewrite ?rev_involutive. }
  unfold rsplit_once. destruct (position (Byte.eqb c) (rev l)) as [i|] eqn:Hp; cbn [mbind option_bind].
  - apply position_Some in Hp as (u & x & v & Hl & <- & Hx & Hu). apply byte_eqb_eq in Hx as <-.
    apply (f_equal (@rev byte)) in Hl. rewrite rev_involutive, rev_app_distr in Hl. simpl in Hl.
    rewrite <- app_assoc in Hl. simpl in Hl. subst l.
    assert (Hlen : length (rev v ++ c :: rev u) = (S (length u) + length (rev v))%nat) by len.
    rewrite Hlen. rewrite take_app_length' by lia.
    replace (S (length u) + length (rev v) - length u)%nat with (length (rev v ++ [c])) by len.
    replace (rev v ++ c :: rev u) with ((rev v ++ [c]) ++ rev u) by (by rewrite <- app_assoc).
    rewrite drop_app_length. split; [by rewrite <- app_assoc|]. by rewrite Hrev.
  - apply position_None in Hp. by rewrite <- Hrev.
Qed.

Lemma strip_prefix_bracket h :
  strip_prefix [OPEN_BRACKET] h = match h with x :: r => if Byte.eqb OPEN_BRACKET x then Some r else None | [] => None end.
Proof. destruct h as [|x r]; [done|]. unfold strip_prefix. cbn [starts_with]. by destruct (Byte.eqb _ x). Qed.

Lemma bracketed_position r :
  match position (Byte.eqb CLOSE_BRACKET) r with
  | Some e => exists a junk, r = a ++ CLOSE_BRACKET :: junk /\ length a = e /\ no_byte CLOSE_BRACKET a = true
  | None => no_byte CLOSE_BRACKET r = true
  end.
Proof.
  destruct (position _ r) as [e|] eqn:Hp; [|by apply position_None in Hp].
  apply position_Some in Hp as (a & x & b & -> & <- & Hx & Ha). apply byte_eqb_eq in Hx as <-.
  by exists a, b.
Qed.

(** The function finds the one name a header has. *)
Lemma strip_port_spec h : host_name h (strip_port_from_host h).
Proof.
  unfold strip_port_from_host. rewrite strip_prefix_bracket.
  assert (Hbare : ~ bracketed h ->
    host_name h (match rsplit_once COLON h with Some (h, _) => h | None => h end)).
  { intros Hb. pose proof (rsplit_once_spec COLON h) as Hr. destruct (rsplit_once COLON h) as [[a b]|].
    - destruct Hr as [-> Hr]. by constructor.
    - by constructor. }
  destruct h as [|x r]; [apply Hbare; intros (? & ? & ?); done|].
  destruct (Byte.eqb OPEN_BRACKET x) eqn:Hx.
  - apply byte_eqb_eq in Hx as <-. pose proof (bracketed_position r) as Hp.
    destruct (position _ r) as [e|].
    + destruct Hp as (a & junk & -> & <- & Ha).
      replace (length a + 2)%nat with (length (OPEN_BRACKET :: a ++ [CLOSE_BRACKET])) by len.
      replace (OPEN_BRACKET :: a ++ CLOSE_BRACKET :: junk)
        with ((OPEN_BRACKET :: a ++ [CLOSE_BRACKET]) ++ junk) at 2 by (cbn; by rewrite <- app_assoc).
      rewrite take_app_length. by constructor.
    + apply Hbare. intros (a & junk & [= ->]). unfold no_byte in Hp. rewrite forallb_app in Hp.
      by apply andb_true_iff in Hp as [_ Hp].
  - apply Hbare. intros (a & junk & [= -> _]). by rewrite byte_eqb_refl in Hx.
Qed.

Lemma last_colon_unique a b a' b' :
  a ++ COLON :: b = a' ++ COLON :: b' -> no_byte COLON b = true -> no_byte COLON b' = true -> a = a'.
Proof.
  assert (Hlt : forall a b a' b', a ++ COLON :: b = a' ++ COLON :: b' ->
    no_byte COLON b = true -> (length a' <= length a)%nat).
  { intros u v u' v' H Hv. destruct (Nat.le_gt_cases (length u') (length u)) as [|Hl]; [done|].
    replace (u ++ COLON :: v) with ((u ++ [COLON]) ++ v) in H by (by rewrite <- app_assoc).
    destruct (take_app_prefix _ _ _ _ H) as (e & -> & ->); [len|].
    unfold no_byte in Hv. rewrite forallb_app in Hv. by apply andb_true_iff in Hv as [_ Hv]. }
  intros H Hb Hb'. pose proof (Hlt _ _ _ _ H Hb). pose proof (Hlt _ _ _ _ (eq_sym H) Hb').
  destruct (app_inj_1 a a' _ _ ltac:(lia) H) as [Ha _]. done.
Qed.

Lemma host_name_unique h n : host_name h n -> strip_port_from_host h = n.
Proof.
  intros Hn. pose proof (strip_port_spec h) as Hs. revert Hs. generalize (strip_port_from_host h). intros m Hm.
  destruct Hn as [a junk Ha|name port Hb Hp|name Hb Hp].
  - inversion Hm as [a' j' Ha' Heq|name port Hb Hp Heq|name Hb Hp Heq]; subst.
    + f_equal. assert (Hl : forall a j a' j', a ++ CLOSE_BRACKET :: j = a' ++ CLOSE_BRACKET :: j' ->
        no_byte CLOSE_BRACKET a = true -> (length a <= length a')%nat).
      { clear. intros u v u' v' H Hu. destruct (Nat.le_gt_cases (length u) (length u')) as [|Hl]; [done|].
        symmetry in H. replace (u' ++ CLOSE_BRACKET :: v') with ((u' ++ [CLOSE_BRACKET]) ++ v') in H by (by rewrite <- app_assoc).
        destruct (take_app_prefix _ _ _ _ H) as (e & -> & _); [len|].
        unfold no_byte in Hu. rewrite !forallb_app in Hu.
        apply andb_true_iff in Hu as [Hu _]. by apply andb_true_iff in Hu as [_ Hu]. }
      pose proof (Hl _ _ _ _ Heq Ha'). pose proof (Hl _ _ _ _ (eq_sym Heq) Ha).
      by destruct (app_inj_1 a' a _ _ ltac:(lia) Heq) as [-> _].
    + destruct Hb. rewrite Heq. by exists a, junk.
    + destruct Hb. by exists a, junk.
  - inversion Hm as [a' j' Ha' Heq|name' port' Hb' Hp' Heq|name' Hb' Hp' Heq]; subst.
    + destruct Hb. rewrite <- Heq. by exists a', j'.
    + by apply (last_colon_unique _ port' _ port).
    + unfold no_byte in Hp'. rewrite forallb_app in Hp'. by apply andb_true_iff in Hp' as [_ Hp'].
  - inversion Hm as [a' j' Ha' Heq|name' port' Hb' Hp' Heq|name' Hb' Hp' Heq]; subst; [| |done].
    + destruct Hb. by exists a', j'.
    + unfold no_byte in Hp. rewrite forallb_app in Hp. by apply andb_true_iff in Hp as [_ Hp].
Qed.

(** ** What the guard admits *)

(** The addresses and names trusted for a listening address and configured names *)
Definition trusted_ip (listen ip : IpAddr) : Prop :=
  is_loopback ip = true
  \/ ip = listen /\ is_unspecified listen = false
  \/ is_unspecified listen = true /\ is_lan_ip ip = true.
Definition trusted_name (extras : list (list byte)) (name : list byte) : Prop :=
  to_ascii_lowercase name = bs "localhost"
  \/ exists e, e ∈ extras /\ extra_hostname e <> [] /\ to_ascii_lowercase name = extra_hostname e.
Definition trusted_host (listen : IpAddr) (extras : list (list byte)) (h : list byte) : Prop :=
  exists name, host_name h name /\
    match parse_ip (ip_text name) with
    | Some ip => trusted_ip listen ip
    | None => trusted_name extras name
    end.

Lemma allowlist_names extras : forall hs n,
  n ∈ fold_left (fun hs h => let h := extra_hostname h in
        if bool_decide (h = []) then hs else {[h]} ∪ hs) extras (hs : gset (list byte))
  <-> n ∈ hs \/ exists e, e ∈ extras /\ extra_hostname e <> [] /\ n = extra_hostname e.
Proof.
  induction extras as [|e extras IH]; intros hs n; cbn [fold_left].
  - split; [by left|]. intros [H|(e & H & _)]; [done|by apply not_elem_of_nil in H].
  - rewrite IH. cbv zeta. case_bool_decide as He.
    + split; (intros [H|(e' & H & Hx)]; [by left|right]).
      * exists e'. split; [by right|done].
      * apply elem_of_cons in H as [->|H]; [by destruct Hx|by exists e'].
    + rewrite elem_of_union, elem_of_singleton. split.
      * intros [[->|H]|(e' & H & Hx)]; [right; exists e; split; [by left|done]|by left|].
        right. exists e'. split; [by right|done].
      * intros [H|(e' & H & Hx & ->)]; [by left; right|].
        apply elem_of_cons in H as [->|H]; [by left; left|by right; exists e'].
Qed.

Lemma contains_host_header_spec listen extras h :
  contains_host_header (new_allowlist listen extras) h = true <-> trusted_host listen extras h.
Proof.
  unfold contains_host_header, trusted_host.
  transitivity (match parse_ip (ip_text (strip_port_from_host h)) with
    | Some ip => trusted_ip listen ip
    | None => trusted_name extras (strip_port_from_host h)
    end).
  2: { split; [exists (strip_port_from_host h); split; [apply strip_port_spec|done]|].
       intros (name & Hn%host_name_unique & Hx). by subst. }
  generalize (strip_port_from_host h). intros name.
  destruct (parse_ip (ip_text name)) as [ip|] eqn:Hip.
  - unfold trusted_ip. cbn [bound_ip allow_lan new_allowlist].
    destruct (is_loopback ip) eqn:Hl; [split; auto|].
    destruct (is_unspecified listen) eqn:Hu; rewrite ?andb_false_r.
    + rewrite bool_decide_false by done. cbn [andb].
      destruct (is_lan_ip ip); split; try done; [by auto|]. intros [?|[[_ ?]|[_ ?]]]; done.
    + rewrite andb_true_r. cbn [andb]. destruct (is_loopback listen) eqn:Hll; cbn [negb].
      * rewrite bool_decide_false by done. split; [done|].
        intros [?|[[-> _]|[? _]]]; [done|congruence|done].
      * case_bool_decide as Hb; (split; [try done|try done]).
        -- injection Hb as ->. auto.
        -- intros [?|[[-> _]|[? _]]]; done.
  - rewrite bool_decide_eq_true. unfold new_allowlist. cbn [hostnames]. rewrite allowlist_names.
    unfold trusted_name. by rewrite elem_of_singleton.
Qed.

(** The origin of the page the client itself serves *)
Lemma origin_matches_host_spec o h :
  origin_matches_host o h = true <-> o = HTTP ++ h \/ o = HTTPS ++ h.
Proof.
  assert (Hsp : forall p, strip_prefix p o = if starts_with p o then Some (drop (length p) o) else None) by done.
  unfold origin_matches_host. rewrite !Hsp.
  destruct (starts_with HTTP o) eqn:H1.
  - apply starts_with_spec in H1 as [r ->]. rewrite drop_app_length, bool_decide_eq_true.
    split; [intros ->; by left|]. intros [H|H]; [by apply app_inv_head in H|]. done.
  - assert (Hn : o <> HTTP ++ h) by (intros ->; by rewrite starts_with_app in H1).
    destruct (starts_with HTTPS o) eqn:H2.
    + apply starts_with_spec in H2 as [r ->]. rewrite drop_app_length, bool_decide_eq_true.
      split; [intros ->; by right|]. intros [H|H]; [done|by apply app_inv_head in H].
    + split; [done|]. intros [->| ->]; [done|]. by rewrite starts_with_app in H2.
Qed.

(** The requests a guard for these hosts lets through *)
Definition admitted `{HttpHeaders} (listen : IpAddr) (extras : list (list byte)) (req : WebRequest) : Prop :=
  exists h, header_text (bs "host") (req_headers req) = Some h /\ trusted_host listen extras h
  /\ (method req = POST -> exists o, header_text (bs "origin") (req_headers req) = Some o
        /\ (o = HTTP ++ h \/ o = HTTPS ++ h)).

Lemma security_guard_cases `{HttpHeaders} {W E A} listen extras req
    (next : M W E A) (refuse : Z -> M W E A) :
  let guarded := security_guard (new_allowlist listen extras) req next refuse in
  (admitted listen extras req -> guarded = next)
  /\ (~ admitted listen extras req -> guarded = refuse 403).
Proof.
  cbv zeta. unfold security_guard, admitted.
  destruct (header_text (bs "host") _) as [h|];
    [|split; [intros (? & ? & _); done|done]].
  pose proof (contains_host_header_spec listen extras h) as Hc.
  destruct (contains_host_header _ h).
  2: { split; [|done]. intros (? & [= <-] & Ht & _). by apply Hc in Ht. }
  assert (Ht : trusted_host listen extras h) by (by apply Hc). case_bool_decide as Hp.
  2: { split; [done|]. intros Hn. destruct Hn. exists h. done. }
  destruct (header_text (bs "origin") _) as [o|].
  - pose proof (origin_matches_host_spec o h) as Ho. destruct (origin_matches_host o h).
    + split; [done|]. intros Hn. destruct Hn. exists h. split_and!; [done..|]. intros _. exists o.
      split; [done|]. by apply Ho.
    + split; [|done]. intros (? & [= <-] & _ & Hx). destruct (Hx Hp) as (? & [= <-] & Hx'). by apply Ho in Hx'.
  - split; [|done]. intros (? & _ & _ & Hx). by destruct (Hx Hp) as (? & ? & _).
Qed.

(** C9: a request reaches its handler exactly when its Host names the loopback, the
    listening address, with a wide binding an address of the local network, or a configured
    name, and, for a POST, its Origin is that very host; every other request is
    refused with 403 before any handler runs. *)
Theorem security_guard_spec `{HttpHeaders} {W E A} listen extras req
    (next : M W E A) (refuse : Z -> M W E A) :
  let guarded := security_guard (new_allowlist listen extras) req next refuse in
  (admitted listen extras req -> guarded = next)
  /\ (~ admitted listen extras req -> guarded = refuse 403).
Proof. apply security_guard_cases. Qed.

(** No name can be rebound: whatever the listening address, a request whose Host has a
    character that no address has, and is not a configured name, is refused. *)
Theorem rebinding_refused `{HttpHeaders} {W E A} listen extras req h name
    (next : M W E A) (refuse : Z -> M W E A) :
  header_text (bs "host") (req_headers req) = Some h -> host_name h name ->
  forallb ip_char (ip_text name) = false -> ~ trusted_name extras name ->
  security_guard (new_allowlist listen extras) req next refuse = refuse 403.
Proof.
  intros Hh Hn Hc Ht. apply security_guard_cases. intros (h' & Hh' & (n & Hn' & Hx) & _).
  rewrite Hh in Hh'. injection Hh' as <-.
  apply host_name_unique in Hn, Hn'. subst name n.
  destruct (parse_ip (ip_text (strip_port_from_host h))) as [ip|] eqn:Hip; [|done].
  apply parse_ip_chars in Hip. congruence.
Qed.

(** ** Concrete requests *)

#[local] Existing Instances ToyHttp.http_headers ToyHttp.http_headers_laws.

Definition wildcard : IpAddr := V4 x00 x00 x00 x00.
Definition post_from (host origin : list byte) : WebRequest :=
  mkWebRequest POST (bs "/api/connect") [(bs "host", host); (bs "origin", origin)].

Lemma security_guard_spec_witness :
  security_guard (new_allowlist wildcard [])
    (post_from (bs "192.168.1.10:8080") (bs "http://192.168.1.10:8080"))
    (mret 200 : M unit unit Z) (fun c => mret c) = mret 200.
Proof.
  apply (security_guard_spec wildcard []
    (post_from (bs "192.168.1.10:8080") (bs "http://192.168.1.10:8080"))).
  exists (bs "192.168.1.10:8080"). split; [reflexivity|]. split.
  - exists (bs "192.168.1.10"). split.
    + apply (hn_port (bs "192.168.1.10") (bs "8080")); [|reflexivity]. intros (a & j & Hb). discriminate Hb.
    + replace (parse_ip (ip_text (bs "192.168.1.10"))) with (Some (V4 xc0 xa8 x01 x0a)) by (vm_compute; reflexivity).
      right. right. split; reflexivity.
  - intros _. exists (bs "http://192.168.1.10:8080"). split; [reflexivity|]. left. reflexivity.
Defined.

Lemma rebinding_refused_witness :
  security_guard (new_allowlist wildcard [bs "radio.lan"]) (post_from (bs "evil.com:8080") (bs "http://evil.com:8080"))
    (mret 200 : M unit unit Z) (fun c => mret c) = mret 403.
Proof.
  apply (rebinding_refused wildcard [bs "radio.lan"]
    (post_from (bs "evil.com:8080") (bs "http://evil.com:8080")) (bs "evil.com:8080") (bs "evil.com")).
  - reflexivity.
  - apply (hn_port (bs "evil.com") (bs "8080")); [|reflexivity]. intros (a & j & Hb). discriminate Hb.
  - vm_compute. reflexivity.
  - intros [H|(e & He & _ & H)]; [discriminate H|].
    apply elem_of_cons in He as [->|He]; [discriminate H|by apply not_elem_of_nil in He].
Defined.

(** Whatever follows the closing bracket is left out. *)
Example bracket_junk :
  contains_host_header (new_allowlist (V4 x7f x00 x00 x01) []) (bs "[::1].evil.com") = true.
Proof. vm_compute. reflexivity. Qed.
(** A page of another site may make the browser send a GET: it has no Origin check. *)
Example cross_site_get_admitted :
  security_guard (new_allowlist wildcard [])
    (mkWebRequest GET (bs "/browse") [(bs "host", bs "127.0.0.1:8080"); (bs "origin", bs "http://evil.com")])
    (mret 200 : M unit unit Z) (fun c => mret c) = mret 200.
Proof. reflexivity. Qed.
