(* ===== verification/Ui.v ===== *)
(** * The pages ([client/src/ui.rs])

    The escaping of text into HTML and into scripts, and the pages that use it. *)
From Stdlib Require Import ZArith Lia Strings.Byte.
From stdpp Require Import base decidable list.
From S2P Require Import Prelude Bytes Numbers TransportTypes UiText.

(** ** Escaping *)

Definition AMP : byte := x26.
Definition LT : byte := x3c.
Definition GT : byte := x3e.
Definition DQUOTE : byte := x22.
Definition SQUOTE : byte := x27.

Definition h_char (c : byte) : list byte :=
  if Byte.eqb c AMP then bs "&amp;"
  else if Byte.eqb c LT then bs "&lt;"
  else if Byte.eqb c GT then bs "&gt;"
  else if Byte.eqb c DQUOTE then bs "&quot;"
  else if Byte.eqb c SQUOTE then bs "&#39;"
  else [c].
(** Only ASCII characters are escaped, so characters can be taken by their bytes. *)
Definition h (s : list byte) : list byte := mjoin (map h_char s).

(** [s.replace(needle, rep)]; [skip] bytes still belong to a needle replaced *)
Fixpoint replace_from (needle rep : list byte) (skip : nat) (s : list byte) : list byte :=
  match s with
  | [] => []
  | x :: t =>
      match skip with
      | S k => replace_from needle rep k t
      | O =>
          if starts_with needle s then rep ++ replace_from needle rep (length needle - 1) t
          else x :: replace_from needle rep 0 t
      end
  end.
Definition replace (needle rep s : list byte) : list byte := replace_from needle rep 0 s.

Definition BACKSLASH : byte := x5c.
Definition U2028 : list byte := [xe2; x80; xa8].
Definition U2029 : list byte := [xe2; x80; xa9].
Definition u_escape (code : list byte) : list byte := BACKSLASH :: x75 :: code.

Definition json_for_script (s : list byte) : list byte :=
  replace U2029 (u_escape (bs "2029"))
    (replace U2028 (u_escape (bs "2028"))
      (replace [AMP] (u_escape (bs "0026"))
        (replace [GT] (u_escape (bs "003e"))
          (replace [LT] (u_escape (bs "003c")) s)))).

(** ** The pages *)

Definition selected (b : bool) : list byte := if b then bs " selected" else [].
Definition hidden (b : bool) : list byte := if b then bs " hidden" else [].

#[export] Instance VaraBandwidth_eq_dec : EqDecision VaraBandwidth.
Proof. solve_decision. Defined.

(** The form of the transport's parameters *)
Definition transport_fields (transport_default : TransportKind) (v : VaraParams) : list byte :=
  let kind_is k := bool_decide (transport_default = k) in
  let bw b := selected (bool_decide (bandwidth v = b)) in
  CONNECT_AX25 ++ selected (kind_is Ax25)
  ++ CONNECT_VARA_FM ++ selected (kind_is VaraFm)
  ++ CONNECT_VARA_HF ++ selected (kind_is VaraHf)
  ++ CONNECT_AX25_FIELDS ++ hidden (negb (kind_is Ax25))
  ++ CONNECT_VARA_FIELDS ++ hidden (kind_is Ax25)
  ++ CONNECT_CMD_HOST ++ h (cmd_host v)
  ++ CONNECT_CMD_PORT ++ display (cmd_port v)
  ++ CONNECT_DATA_HOST ++ h (data_host v)
  ++ CONNECT_DATA_PORT ++ display (data_port v)
  ++ CONNECT_VNARROW ++ bw VNarrow
  ++ CONNECT_VWIDE ++ bw VWide
  ++ CONNECT_BW250 ++ bw Bw250
  ++ CONNECT_BW500 ++ bw Bw500
  ++ CONNECT_BW2300 ++ bw Bw2300
  ++ CONNECT_BW2750 ++ bw Bw2750.

Definition connect_page (my_callsign target_callsign connection_state connection_state_class
    ports_json : list byte) (transport_default : TransportKind) (v : VaraParams) : list byte :=
  CONNECT_HEAD ++ CSS
  ++ CONNECT_STATUS_CLASS ++ h connection_state_class
  ++ CONNECT_STATUS ++ h connection_state
  ++ CONNECT_CALL ++ h my_callsign
  ++ CONNECT_TARGET ++ h target_callsign
  ++ transport_fields transport_default v
  ++ CONNECT_PORTS ++ json_for_script ports_json
  ++ CONNECT_SCRIPT ++ h connection_state
  ++ CONNECT_TAIL.

Definition configuration_page (agwpe_host : list byte) (agwpe_port : Z)
    (my_callsign target_callsign bpq_command : list byte) (skip_bpq_app : bool) : list byte :=
  CONFIG_HEAD ++ CSS
  ++ CONFIG_HOST ++ h agwpe_host
  ++ CONFIG_PORT ++ display agwpe_port
  ++ CONFIG_CALL ++ h my_callsign
  ++ CONFIG_TARGET ++ h target_callsign
  ++ CONFIG_SKIP ++ (if skip_bpq_app then bs "checked" else [])
  ++ CONFIG_COMMAND ++ h bpq_command
  ++ CONFIG_TAIL.

Definition error_page (message : list byte) : list byte :=
  ERROR_HEAD ++ CSS ++ ERROR_BODY ++ h message ++ ERROR_TAIL.

Definition render_session_error_page (message : list byte) (show_reconnect_link : bool) : list byte :=
  SESSION_HEAD ++ CSS ++ SESSION_BODY ++ h message
  ++ SESSION_MID ++ (if show_reconnect_link then RECONNECT_LINK else [])
  ++ SESSION_TAIL.

Definition browse_page (html_content url : list byte) : list byte :=
  BROWSE_HEAD ++ h url ++ BROWSE_URL ++ h url ++ BROWSE_CONTENT ++ html_content ++ BROWSE_TAIL.

Record CachePageRow : Type := mkCachePageRow {
  row_url : list byte;
  row_size_bytes : Z;
  row_fetched_at_iso : list byte;
  row_last_used_iso : list byte;
  row_ttl_remaining_secs : Z;
  row_etag : list byte }.

Definition cache_row (row : CachePageRow) : list byte :=
  ROW_URL ++ h (row_url row)
  ++ ROW_SIZE ++ display (row_size_bytes row)
  ++ ROW_FETCHED ++ h (row_fetched_at_iso row)
  ++ ROW_USED ++ h (row_last_used_iso row)
  ++ ROW_TTL ++ display (row_ttl_remaining_secs row)
  ++ ROW_FORM ++ h (row_url row)
  ++ ROW_TAIL.

Definition cache_page (rows : list CachePageRow) (total_bytes cap_bytes : Z) : list byte :=
  CACHE_HEAD ++ CSS ++ CACHE_BODY
  ++ (bs "<p>" ++ display (Z.of_nat (length rows)) ++ bs " entries — " ++ display total_bytes
      ++ bs " / " ++ display cap_bytes ++ bs " bytes used.</p>"
      ++ CACHE_CLEAR_FORM ++ CACHE_TABLE ++ CACHE_TABLE_HEAD
      ++ mjoin (map cache_row rows)
      ++ bs "</tbody></table>")
  ++ CACHE_TAIL.

(** ** Escaped text is inert *)

(** The bytes that open or close a tag or an attribute value *)
Definition is_markup (b : byte) : bool :=
  Byte.eqb b LT || Byte.eqb b GT || Byte.eqb b DQUOTE || Byte.eqb b SQUOTE.
Definition markup (l : list byte) : list byte := List.filter is_markup l.
(** Those that open or close a tag *)
Definition tags (l : list byte) : list byte := List.filter (fun b => Byte.eqb b LT || Byte.eqb b GT) l.

Lemma markup_app a b : markup (a ++ b) = markup a ++ markup b.
Proof. apply List.filter_app. Qed.
Lemma tags_app a b : tags (a ++ b) = tags a ++ tags b.
Proof. apply List.filter_app. Qed.

Lemma filter_nil {A} (p : A -> bool) l : forallb (fun x => negb (p x)) l = true -> List.filter p l = [].
Proof.
  induction l as [|x l IH]; [done|]. simpl. intros [Hx Hl]%andb_true_iff.
  apply negb_true_iff in Hx as ->. by apply IH.
Qed.

Lemma h_cons c s : h (c :: s) = h_char c ++ h s.
Proof. done. Qed.

Lemma markup_h s : markup (h s) = [].
Proof.
  induction s as [|c s IH]; [done|]. rewrite h_cons, markup_app, IH, app_nil_r. by destruct c.
Qed.
Lemma tags_of_markup l : tags l = tags (markup l).
Proof.
  induction l as [|b l IH]; [done|]. unfold tags, markup, is_markup in *. simpl.
  destruct (Byte.eqb b LT) eqn:E1, (Byte.eqb b GT) eqn:E2; simpl; rewrite ?E1, ?E2; simpl;
    try (by f_equal); destruct (_ || _); simpl; rewrite ?E1, ?E2; done.
Qed.
Lemma markup_display n : markup (display n) = [].
Proof.
  apply filter_nil. pose proof (display_ascii n) as Hd. rewrite forallb_forall in *.
  intros x Hx. specialize (Hd x Hx). by destruct x.
Qed.
Lemma markup_selected b : markup (selected b) = [].
Proof. by destruct b. Qed.
Lemma markup_hidden b : markup (hidden b) = [].
Proof. by destruct b. Qed.
Lemma markup_checked (b : bool) : markup (if b then bs "checked" else []) = [].
Proof. by destruct b. Qed.
Create Rewrite HintDb markup.
#[export] Hint Rewrite markup_app markup_h markup_display markup_selected markup_hidden
  markup_checked : markup.

(** What the browser makes of an escaped text *)
Fixpoint unescape (fuel : nat) (l : list byte) : list byte :=
  match fuel with
  | O => []
  | S k =>
      match l with
      | [] => []
      | x :: t =>
          match strip_prefix (bs "&amp;") l with
          | Some r => AMP :: unescape k r
          | None =>
              match strip_prefix (bs "&lt;") l with
              | Some r => LT :: unescape k r
              | None =>
                  match strip_prefix (bs "&gt;") l with
                  | Some r => GT :: unescape k r
                  | None =>
                      match strip_prefix (bs "&quot;") l with
                      | Some r => DQUOTE :: unescape k r
                      | None =>
                          match strip_prefix (bs "&#39;") l with
                          | Some r => SQUOTE :: unescape k r
                          | None => x :: unescape k t
                          end
                      end
                  end
              end
          end
      end
  end.

Lemma unescape_h s : forall fuel, (length s < fuel)%nat -> unescape fuel (h s) = s.
Proof.
  induction s as [|c s IH]; intros fuel Hf; (destruct fuel as [|k]; [lia|]); [done|].
  rewrite h_cons. simpl in Hf. specialize (IH k ltac:(lia)).
  revert IH. generalize (h s). intros t IH. destruct c; cbn; rewrite ?drop_0, IH; reflexivity.
Qed.

(** ** Replacing *)

Lemma replace_from_absent needle rep s p :
  (forall b, b ∈ needle -> p b = true) -> needle <> [] -> forallb (fun b => negb (p b)) s = true ->
  replace_from needle rep 0 s = s.
Proof.
  intros Hn Hne Hs. induction s as [|x s IH]; [done|]. cbn [replace_from].
  simpl in Hs. apply andb_true_iff in Hs as [Hx Hs].
  destruct (starts_with needle (x :: s)) eqn:E; [|by rewrite IH].
  apply starts_with_spec in E as [r E]. destruct needle as [|y n]; [done|]. injection E as <- _.
  rewrite (Hn x) in Hx; [done|by left].
Qed.

(** A byte that is neither in the replacement nor can be left over does not come
    back. *)
Lemma replace_single c rep s :
  no_byte c rep = true -> no_byte c (replace [c] rep s) = true.
Proof.
  intros Hr. unfold replace. induction s as [|x s IH]; [done|]. cbn [replace_from starts_with].
  destruct (Byte.eqb c x) eqn:E; cbn [andb].
  - unfold no_byte in *. rewrite forallb_app, Hr. exact IH.
  - unfold no_byte in *. cbn [forallb]. by rewrite E, IH.
Qed.

Lemma replace_keeps_absent needle rep c s : forall k,
  no_byte c rep = true -> no_byte c s = true -> no_byte c (replace_from needle rep k s) = true.
Proof.
  unfold no_byte. induction s as [|x s IH]; intros k Hr Hs; [done|]. simpl in Hs.
  apply andb_true_iff in Hs as [Hx Hs]. cbn [replace_from].
  destruct k as [|k]; [|by apply IH]. destruct (starts_with needle (x :: s)).
  - rewrite forallb_app, Hr. by apply IH.
  - cbn [forallb]. rewrite Hx. by apply IH.
Qed.

Lemma json_for_script_no c s :
  c ∈ [LT; GT; AMP] -> no_byte c (json_for_script s) = true.
Proof.
  intros Hc. unfold json_for_script, replace.
  repeat (apply elem_of_cons in Hc as [->|Hc]; [|]); [..|by apply not_elem_of_nil in Hc];
    repeat (first [apply replace_single; done | apply replace_keeps_absent; [done|]]).
Qed.

(** Escaping loses nothing and lets nothing through: the browser reads back exactly
    the text, which has no byte that could open or close a tag or an attribute; and the
    JSON put into a script has none that could close it. *)
Theorem escape_inert s :
  (forall fuel, (length s < fuel)%nat -> unescape fuel (h s) = s)
  /\ markup (h s) = []
  /\ forall c, c ∈ [LT; GT; AMP] -> no_byte c (json_for_script s) = true.
Proof. split_and!; [apply unescape_h|apply markup_h|intros c; apply json_for_script_no]. Qed.

Lemma escape_inert_witness : unescape 40 (h (bs "<a href='x'>b & c")) = bs "<a href='x'>b & c".
Proof. destruct (escape_inert (bs "<a href='x'>b & c")) as [Hu _]. apply Hu. cbv. lia. Defined.

Lemma tags_json s : tags (json_for_script s) = [].
Proof.
  apply filter_nil. pose proof (json_for_script_no LT s) as H1. pose proof (json_for_script_no GT s) as H2.
  unfold no_byte in *. rewrite forallb_forall in *. intros x Hx.
  rewrite negb_orb. apply andb_true_iff.
  split; rewrite byte_eqb_sym; [apply H1|apply H2]; try done; by repeat constructor.
Qed.

(** ** The pages keep their structure *)

#[local] Opaque q markup display h.

(** A page's markup, piece by piece *)
Ltac pieces := autorewrite with markup; rewrite ?app_nil_l, ?app_nil_r.

Lemma markup_fields k v v' :
  bandwidth v = bandwidth v' -> markup (transport_fields k v) = markup (transport_fields k v').
Proof. intros Hb. unfold transport_fields. cbv zeta. rewrite Hb. pieces. reflexivity. Qed.

Lemma markup_row row :
  markup (cache_row row)
  = markup (ROW_URL ++ ROW_SIZE ++ ROW_FETCHED ++ ROW_USED ++ ROW_TTL ++ ROW_FORM ++ ROW_TAIL).
Proof. unfold cache_row. pieces. reflexivity. Qed.
Lemma mjoin_map_cons {A B} (f : A -> list B) a l : mjoin (map f (a :: l)) = f a ++ mjoin (map f l).
Proof. done. Qed.
Lemma markup_rows rows rows' :
  length rows = length rows' ->
  markup (mjoin (map cache_row rows)) = markup (mjoin (map cache_row rows')).
Proof.
  revert rows'. induction rows as [|r rows IH]; intros [|r' rows'] Hl;
    [reflexivity|discriminate Hl|discriminate Hl|].
  rewrite !mjoin_map_cons, !markup_app, !markup_row. injection Hl as Hl. by rewrite (IH rows' Hl).
Qed.

Lemma markup_error m m' : markup (error_page m) = markup (error_page m').
Proof. unfold error_page. pieces. reflexivity. Qed.
Lemma markup_session m m' b :
  markup (render_session_error_page m b) = markup (render_session_error_page m' b).
Proof. unfold render_session_error_page. pieces. reflexivity. Qed.
Lemma markup_browse content url :
  markup (browse_page content url)
  = markup (BROWSE_HEAD ++ BROWSE_URL ++ BROWSE_CONTENT) ++ markup content ++ markup BROWSE_TAIL.
Proof. unfold browse_page. pieces. rewrite <- !app_assoc. reflexivity. Qed.
Lemma markup_configuration host host' p p' c c' t t' k k' s :
  markup (configuration_page host p c t k s) = markup (configuration_page host' p' c' t' k' s).
Proof. unfold configuration_page. pieces. reflexivity. Qed.
Lemma markup_connect c c' t t' st st' cl cl' json k v v' :
  bandwidth v = bandwidth v' ->
  markup (connect_page c t st cl json k v) = markup (connect_page c' t' st' cl' json k v').
Proof. intros Hb. unfold connect_page. pieces. rewrite (markup_fields k v v' Hb). reflexivity. Qed.
(** The ports are JSON in a script: their quotes are the script's, their tags are none. *)
Lemma tags_connect c c' t t' st st' cl cl' json json' k v v' :
  bandwidth v = bandwidth v' ->
  tags (connect_page c t st cl json k v) = tags (connect_page c' t' st' cl' json' k v').
Proof.
  intros Hb. rewrite (tags_of_markup (connect_page c t st cl json k v)),
    (tags_of_markup (connect_page c' t' st' cl' json' k v')).
  unfold connect_page. pieces. rewrite (markup_fields k v v' Hb), !tags_app.
  by rewrite <- !(tags_of_markup (json_for_script _)), !tags_json.
Qed.
Lemma markup_cache_page rows rows' n n' cap cap' :
  length rows = length rows' ->
  markup (cache_page rows n cap) = markup (cache_page rows' n' cap').
Proof. intros Hr. unfold cache_page. pieces. rewrite (markup_rows rows rows' Hr). reflexivity. Qed.

(** C31: whatever text they are given, the pages have the tags and the quotes of their
    templates, those of the page being browsed excepted, which come in their place; the
    ports put into the script of the connect page as JSON add no tag and nothing that
    could end the script, whatever their descriptions hold, and only the quotes of the
    JSON itself. *)
Theorem pages_keep_structure m m' (b : bool) content url host host' p p' c c' t t' k k' s
    st st' cl cl' json json' tk v v' rows rows' n n' cap cap' :
  bandwidth v = bandwidth v' -> length rows = length rows' ->
  markup (error_page m) = markup (error_page m')
  /\ markup (render_session_error_page m b) = markup (render_session_error_page m' b)
  /\ markup (browse_page content url)
     = markup (BROWSE_HEAD ++ BROWSE_URL ++ BROWSE_CONTENT) ++ markup content ++ markup BROWSE_TAIL
  /\ markup (configuration_page host p c t k s) = markup (configuration_page host' p' c' t' k' s)
  /\ markup (connect_page c t st cl json tk v) = markup (connect_page c' t' st' cl' json tk v')
  /\ tags (connect_page c t st cl json tk v) = tags (connect_page c' t' st' cl' json' tk v')
  /\ markup (cache_page rows n cap) = markup (cache_page rows' n' cap').
Proof.
  intros Hb Hr. split; [apply markup_error|]. split; [apply markup_session|].
  split; [apply markup_browse|]. split; [apply markup_configuration|].
  split; [by apply markup_connect|]. split; [by apply tags_connect|by apply markup_cache_page].
Qed.

Lemma pages_keep_structure_witness :
  let v := mkVaraParams [] 0 [] 0 Fm VWide in
  markup (error_page (bs "<script>alert(1)</script>")) = markup (error_page [])
  /\ tags (connect_page [] [] [] [] (bs "[{q:</script><script>}]") Ax25 v)
     = tags (connect_page [] [] [] [] (bs "[]") Ax25 v).
Proof.
  intros v.
  destruct (pages_keep_structure (bs "<script>alert(1)</script>") [] false [] [] [] [] 0 0 [] [] [] [] [] []
    true [] [] [] [] (bs "[{q:</script><script>}]") (bs "[]") Ax25 v v [] [] 0 0 0 0
    eq_refl eq_refl) as (He & _ & _ & _ & _ & Ht & _).
  exact (conj He Ht).
Defined.

(** The state is written into a script between quotes, where a line feed in it, which
    the reason of a lost session may have, is not escaped. *)
Example newline_in_script :
  let page := connect_page [] [] (bs "Reconnecting: bye" ++ [LF]) [] (bs "[]") Ax25
                (mkVaraParams [] 0 [] 0 Fm VWide) in
  contains (bs "updateUI('Reconnecting: bye" ++ [LF]) page = true.
Proof. vm_compute. reflexivity. Qed.
