(* ===== verification/AnyTransport.v ===== *)
(** * Either transport ([Box<dyn Transport>])

    The actor owns a transport of one kind or the other, and calls the methods of the
    one it has.  The laws of [Transport] carry over, and with them what is proved of
    the session code and of the actor. *)
From Stdlib Require Import ZArith Lia Strings.Byte.
From stdpp Require Import base decidable list.
From S2P Require Import Agwpe Vara.
From S2P Require Import Prelude Bytes Numbers External TransportTypes ClientConfig ClientState Transport.

(** The same world around another modem *)
Definition with_modem {T U} (u : U) (w : World T) : World U :=
  mkWorld u (app w) (abort_flag w) (clock w) (broadcast w) (interference w) (answers w) (trace w).

Section Sum.
Context {A B : Type}.

(** A task of one modem, among the two *)
Definition through {C E X} (inj : C -> A + B) (m : @Task C E X) (c : C) : @Task (A + B) E X := fun w =>
  let (r, w') := m (with_modem c w) in (r, with_modem (inj (modem w')) w').
Definition either {E X} (f : @Task A E X) (g : @Task B E X) : @Task (A + B) E X := fun w =>
  match modem w with
  | inl a => through inl f a w
  | inr b => through inr g b w
  end.
End Sum.

#[export] Instance either_transport {A B} `{Transport A} `{Transport B} : Transport (A + B) := {|
  connect_modem cfg := either (connect_modem cfg) (connect_modem cfg);
  disconnect_modem := either disconnect_modem disconnect_modem;
  open_session cfg := either (open_session cfg) (open_session cfg);
  close_session := either close_session close_session;
  send data := either (send data) (send data);
  recv deadline := either (recv deadline) (recv deadline);
  port_query_supported m :=
    match m with inl a => port_query_supported a | inr b => port_query_supported b end;
  open_ax25_link := either open_ax25_link open_ax25_link;
  reopen_modem_connection := either reopen_modem_connection reopen_modem_connection;
  query_ports := either query_ports query_ports;
  supply m := match m with inl a => supply a | inr b => supply b end |}.

Section Laws.
Context {A B : Type}.

Lemma through_task {C E X} (inj : C -> A + B) (m : @Task C E X) (w : World (A + B)) c :
  modem_task m ->
  let r := through inj m c w in
  returns r.1 /\ session_part r.2 = session_part w
  /\ (interference w = [] -> interference r.2 = [] /\ abort_flag r.2 = abort_flag w
       /\ operator_part (app r.2) = operator_part (app w))
  /\ (flag_up w -> flag_up r.2) /\ (will_stop w -> will_stop r.2).
Proof.
  intros [Ht [Hs Ha Hf Hst]] r. subst r. unfold through. specialize (Hst (with_modem c w)).
  specialize (Ht (with_modem c w)). specialize (Hs (with_modem c w)).
  specialize (Ha (with_modem c w)). specialize (Hf (with_modem c w)).
  destruct (m (with_modem c w)) as [x w']. cbn in *. split_and!; done.
Qed.

Lemma either_task {E X} (f : @Task A E X) (g : @Task B E X) :
  modem_task f -> modem_task g -> modem_task (either f g).
Proof.
  intros Hf Hg. split; [|split]; intros w; unfold either; destruct (modem w) as [a|b].
  - apply (through_task inl f w a Hf).
  - apply (through_task inr g w b Hg).
  - apply (through_task inl f w a Hf).
  - apply (through_task inr g w b Hg).
  - apply (through_task inl f w a Hf).
  - apply (through_task inr g w b Hg).
  - apply (through_task inl f w a Hf).
  - apply (through_task inr g w b Hg).
  - apply (through_task inl f w a Hf).
  - apply (through_task inr g w b Hg).
Qed.
End Laws.

#[export] Instance either_laws {A B} `{TransportLaws A} `{TransportLaws B} : TransportLaws (A + B).
Proof.
  split; intros; try (apply either_task; apply _ || auto using connect_modem_task, disconnect_modem_task,
    open_session_task, close_session_task, send_task, recv_task, open_ax25_link_task,
    reopen_modem_connection_task, query_ports_task).
  cbn [recv supply either_transport] in *. unfold either, through in *.
  destruct (modem w) as [a|b]; destruct (recv deadline _) as [r w1] eqn:E;
    match goal with Hr : (_, _) = (Ok _, _) |- _ => injection Hr as -> <- end;
    by apply recv_supply in E.
Qed.

(** The transports the client has *)
Abbreviation AnyTransport := (AgwpeTransport + VaraTransport)%type.

(** Whichever transport the actor was given, it keeps the contract of the trait:
    its calls end, keep out of what the session and the operator own, and use up what
    there is to receive. *)
Theorem any_transport_laws `{DebugFormat} : TransportLaws AnyTransport.
Proof. apply _. Qed.
