(* ===== verification/Rewrite.v ===== *)
(** * The rewriting of fetched pages ([client/src/rewrite.rs])

    The handlers the program registers with the [lol_html] rewriter, on an element's
    start tag, and the links they put in.  The rewriter and the [url] crate are
    interfaces with their documented behaviour. *)
From Stdlib Require Import ZArith Lia Strings.Byte.
From stdpp Require Import base decidable list countable gmap.
From S2P Require Import Prelude Bytes.

(** ** The crates *)

(** A fallible call of a crate: its message, or the value *)
Abbreviation Fallible A := (list byte + A)%type.
Definition and_then {A B} (r : Fallible A) (k : A -> Fallible B) : Fallible B :=
  match r with inl e => inl e | inr a => k a end.

(** [url::Url], and the query string as [axum]'s [Query] reads it *)
Class UrlCrate : Type := {
  Url : Type;
  url_parse : list byte -> Fallible Url;
  url_join : Url -> list byte -> option Url;
  url_as_str : Url -> list byte;
  append_pair : list byte -> list byte -> Url -> Url;
  url_query : Url -> option (list byte);
  parse_query : list byte -> list (list byte * list byte) }.

Definition LOCAL_BROWSE : list byte := bs "http://localhost/browse".

Class UrlCrateLaws `{UrlCrate} : Prop := {
  local_browse_parses : exists u, url_parse LOCAL_BROWSE = inr u /\ url_query u = None;
  appended_pair_read n v u :
    url_query u = None ->
    exists q, url_query (append_pair n v u) = Some q /\ parse_query q = [(n, v)] }.

(** The CSS selectors used: a list of alternatives *)
Inductive Simple : Type :=
| STag (t : list byte)
| STagAttr (t a : list byte)
| STagAttrIs (t a v : list byte)
| SAny.

(** [lol_html]: an element's start tag and what a handler can do to it *)
Class HtmlElement : Type := {
  Element : Type;
  tag_name : Element -> list byte;
  attributes : Element -> list (list byte * list byte);
  get_attribute : list byte -> Element -> option (list byte);
  attribute_is : list byte -> list byte -> Element -> bool;
  set_attribute : list byte -> list byte -> Element -> Fallible Element;
  remove_attribute : list byte -> Element -> Element;
  remove : Element -> Element;
  removed : Element -> bool;
  (** what is written for a tag *)
  start_tag_text : Element -> list byte }.

(** What the rewriter makes of a document: start tags, and everything between them *)
Inductive Token `{HtmlElement} : Type :=
| StartTag (e : Element)
| Raw (text : list byte).
Definition write `{HtmlElement} (t : Token) : list byte :=
  match t with StartTag e => start_tag_text e | Raw text => text end.

Class LolHtml `{HtmlElement} : Type := {
  tokens : list byte -> list Token;
  rewrite_str : list (list Simple * (Element -> Fallible Element)) -> list byte -> Fallible (list byte) }.

Section Handlers.
Context `{HtmlElement}.

Definition has_attribute (a : list byte) (e : Element) : bool :=
  match get_attribute a e with Some _ => true | None => false end.
Definition matches_simple (s : Simple) (e : Element) : bool :=
  match s with
  | STag t => bool_decide (tag_name e = t)
  | STagAttr t a => bool_decide (tag_name e = t) && has_attribute a e
  | STagAttrIs t a v => bool_decide (tag_name e = t) && attribute_is a v e
  | SAny => true
  end.
Definition matches (sel : list Simple) (e : Element) : bool :=
  existsb (fun s => matches_simple s e) sel.

(** The handlers whose selector matches the tag as it came in run in the order they
    were registered. *)
Fixpoint run_handlers (hs : list (list Simple * (Element -> Fallible Element)))
    (e0 e : Element) : Fallible Element :=
  match hs with
  | [] => inr e
  | (sel, f) :: rest =>
      if matches sel e0 then and_then (f e) (run_handlers rest e0)
      else run_handlers rest e0 e
  end.

(** What is written for a token that is kept: what the handlers left of a tag, and what
    is not a tag as it came in *)
Definition rewrites (hs : list (list Simple * (Element -> Fallible Element))) (t t' : Token) : Prop :=
  match t, t' with
  | StartTag e0, StartTag e1 => run_handlers hs e0 e0 = inr e1 /\ removed e1 = false
  | Raw text, Raw text' => text' = text
  | _, _ => False
  end.
End Handlers.

(** What the documentation says of names: they are in lower case. *)
Definition is_name (n : list byte) : Prop := to_ascii_lowercase n = n.
Definition attribute_names `{HtmlElement} (e : Element) : list (list byte) := (attributes e).*1.
(** No attribute is given twice. *)
Definition distinct `{HtmlElement} (e : Element) : Prop := NoDup (attribute_names e).

Class LolHtmlLaws `{LolHtml} : Prop := {
  attributes_named e n : n ∈ attribute_names e -> is_name n;
  attributes_listed e n v : is_name n -> get_attribute n e = Some v -> n ∈ attribute_names e;
  attribute_is_exact a v e : get_attribute a e = Some v -> attribute_is a v e = true;
  set_attribute_ok n v e e' : is_name n -> set_attribute n v e = inr e' ->
    tag_name e' = tag_name e /\ removed e' = removed e /\ (distinct e -> distinct e')
    /\ forall m, is_name m -> get_attribute m e' = if bool_decide (m = n) then Some v else get_attribute m e;
  remove_attribute_ok n e : is_name n -> distinct e ->
    tag_name (remove_attribute n e) = tag_name e /\ removed (remove_attribute n e) = removed e
    /\ distinct (remove_attribute n e)
    /\ forall m, is_name m -> get_attribute m (remove_attribute n e)
         = if bool_decide (m = n) then None else get_attribute m e;
  remove_ok e :
    tag_name (remove e) = tag_name e /\ removed (remove e) = true
    /\ (distinct e -> distinct (remove e))
    /\ forall m, is_name m -> get_attribute m (remove e) = get_attribute m e;
  tags_not_removed doc e : StartTag e ∈ tokens doc -> removed e = false;
  (** Tokens are written one after the other; only removed elements are left out.  What
      is written is not read again. *)
  rewrite_str_writes hs doc out : rewrite_str hs doc = inr out ->
    exists kept ts, kept `sublist_of` tokens doc /\ Forall2 (rewrites hs) kept ts
      /\ out = mjoin (map write ts)
      /\ ((forall e0 e1, StartTag e0 ∈ tokens doc -> run_handlers hs e0 e0 = inr e1 -> removed e1 = false)
          -> kept = tokens doc) }.

(** ** The handlers *)

Inductive RewriteError : Type :=
| InvalidUrl (e : list byte)
| RewriteFailed (e : list byte).
Definition display_rewrite_error (e : RewriteError) : list byte :=
  match e with
  | InvalidUrl m => bs "Invalid base URL: " ++ m
  | RewriteFailed m => bs "Rewrite failed: " ++ m
  end.

Definition HREF : list byte := bs "href".
Definition ACTION : list byte := bs "action".
Definition METHOD : list byte := bs "method".

(** A link the page may not keep *)
Definition not_browsable (trimmed : list byte) : bool :=
  bool_decide (trimmed = [])
  || starts_with (bs "javascript:") trimmed
  || starts_with (bs "data:") trimmed
  || starts_with (bs "mailto:") trimmed
  || starts_with (bs "tel:") trimmed.

Section Rewrite.
Context `{UrlCrate} `{LolHtml}.

Definition build_proxy_url (url : list byte) (base : Url) : option (list byte) :=
  let trimmed := trim url in
  if not_browsable trimmed then None
  else if starts_with (bs "#") trimmed then Some trimmed
  else
    resolved ← url_join base trimmed;
    match url_parse LOCAL_BROWSE with
    | inl _ => None
    | inr proxy_url =>
        query ← url_query (append_pair (bs "url") (url_as_str resolved) proxy_url);
        Some (bs "/browse?" ++ query)
    end.

Definition a_handler (base : Url) (el : Element) : Fallible Element :=
  let href := default [] (get_attribute HREF el) in
  match build_proxy_url href base with
  | Some proxy_url => set_attribute HREF proxy_url el
  | None => set_attribute HREF (bs "#") el
  end.

Definition form_handler (base : Url) (el : Element) : Fallible Element :=
  let action := default [] (get_attribute ACTION el) in
  match build_proxy_url action base with
  | Some proxy_url =>
      and_then (set_attribute ACTION proxy_url el) (fun el =>
        match get_attribute METHOD el with
        | None => set_attribute METHOD (bs "POST") el
        | Some _ => inr el
        end)
  | None => inr (remove el)
  end.

Definition meta_handler (el : Element) : Fallible Element :=
  let eq := default [] (get_attribute (bs "http-equiv") el) in
  if eq_ignore_ascii_case eq (bs "refresh") || eq_ignore_ascii_case eq (bs "content-security-policy")
  then inr (remove el) else inr el.

Definition url_attribute (name : list byte) : bool :=
  bool_decide (name ∈ [bs "src"; HREF; ACTION; bs "formaction"; bs "background"; bs "poster"]).
Definition script_url (v : list byte) : bool :=
  starts_with (bs "javascript:") (to_ascii_lowercase (trim_start v)).

Definition scrub_attribute (el : Element) (name : list byte) : Element :=
  if starts_with (bs "on") name then remove_attribute name el
  else if url_attribute name then
    match get_attribute name el with
    | Some v => if script_url v then remove_attribute name el else el
    | None => el
    end
  else el.
Definition any_handler (el : Element) : Fallible Element :=
  inr (foldl scrub_attribute el (attribute_names el)).

Definition STRIPPED : list Simple :=
  [STag (bs "script"); STagAttrIs (bs "link") (bs "rel") (bs "stylesheet"); STag (bs "iframe");
   STag (bs "frame"); STag (bs "frameset"); STag (bs "object"); STag (bs "embed"); STag (bs "applet");
   STag (bs "noscript"); STag (bs "base")].

Definition element_content_handlers (base : Url)
    : list (list Simple * (Element -> Fallible Element)) :=
  [([STagAttr (bs "a") HREF], a_handler base);
   ([STagAttr (bs "form") ACTION], form_handler base);
   (STRIPPED, fun el => inr (remove el));
   ([STagAttr (bs "meta") (bs "http-equiv")], meta_handler);
   ([SAny], any_handler)].

Definition rewrite_html (html base_url : list byte) : RewriteError + list byte :=
  match url_parse base_url with
  | inl e => inl (InvalidUrl e)
  | inr base =>
      match rewrite_str (element_content_handlers base) html with
      | inl e => inl (RewriteFailed e)
      | inr result => inr result
      end
  end.
End Rewrite.

(** ** Links *)

(** Where a rewritten link may lead: within the page, or back to the program *)
Definition stays_home (v : list byte) : bool := starts_with (bs "#") v || starts_with (bs "/browse?") v.

Section Links.
Context `{UrlCrateLaws}.

Lemma build_proxy_url_home url base p : build_proxy_url url base = Some p -> stays_home p = true.
Proof.
  unfold build_proxy_url, stays_home. destruct (not_browsable _); [done|].
  destruct (starts_with (bs "#") (trim url)) eqn:E; [by intros [= <-]; rewrite E|].
  destruct (url_join base (trim url)) as [r|]; [|done]. cbn [mbind option_bind].
  destruct (url_parse LOCAL_BROWSE) as [|u]; [done|].
  destruct (url_query _) as [q|]; [|done]. cbn [mbind option_bind]. intros Hp. apply (inj Some) in Hp as <-.
  apply orb_true_iff. right. apply starts_with_app.
Qed.

(** C32: a link becomes a fragment of the page, or a link to the program from which
    its query reader gets back exactly the URL that the link meant on that page; it is
    dropped when it is empty, has a scheme that is not browsed or cannot be resolved. *)
Theorem build_proxy_url_spec url base :
  match build_proxy_url url base with
  | None => not_browsable (trim url) = true \/ url_join base (trim url) = None
  | Some p =>
      not_browsable (trim url) = false
      /\ ((p = trim url /\ starts_with (bs "#") p = true)
          \/ exists resolved query,
               url_join base (trim url) = Some resolved /\ p = bs "/browse?" ++ query
               /\ parse_query query = [(bs "url", url_as_str resolved)])
  end.
Proof.
  unfold build_proxy_url. destruct (not_browsable (trim url)) eqn:Hn; [by left|].
  destruct (starts_with (bs "#") (trim url)) eqn:E; [by split; [|left]|].
  destruct (url_join base (trim url)) as [r|]; [|by right]. cbn [mbind option_bind].
  destruct local_browse_parses as (u & -> & Hu).
  destruct (appended_pair_read (bs "url") (url_as_str r) u Hu) as (q & -> & Hq).
  cbn [mbind option_bind]. split; [done|]. right. by exists r, q.
Qed.
End Links.

(** ** What is left of a page *)

Section Clean.
Context `{UrlCrateLaws} `{LolHtmlLaws}.

(** What a handler leaves alone: the tag, its removal, and the attributes other than
    those it may set. *)
Definition evolves (e e' : Element) : Prop :=
  tag_name e' = tag_name e /\ (removed e = true -> removed e' = true) /\ distinct e'
  /\ forall m v, is_name m -> m ∉ [HREF; ACTION; METHOD] ->
       get_attribute m e' = Some v -> get_attribute m e = Some v.
(** No attribute changes *)
Definition same_attributes (e e' : Element) : Prop :=
  forall m, is_name m -> get_attribute m e' = get_attribute m e.

Lemma evolves_refl e : distinct e -> evolves e e.
Proof. by repeat split. Qed.
Lemma evolves_trans e1 e2 e3 : evolves e1 e2 -> evolves e2 e3 -> evolves e1 e3.
Proof. intros (T1 & R1 & _ & A1) (T2 & R2 & D2 & A2). split_and!; [congruence|auto|done|auto]. Qed.
Lemma same_attributes_refl e : same_attributes e e.
Proof. by intros m. Qed.

Lemma set_evolves n v e e' :
  n ∈ [HREF; ACTION; METHOD] -> distinct e -> set_attribute n v e = inr e' -> evolves e e'.
Proof.
  intros Hn Hd Hs. assert (Hl : is_name n).
  { repeat (apply elem_of_cons in Hn as [->|Hn]; [done|]). by apply not_elem_of_nil in Hn. }
  destruct (set_attribute_ok n v e e' Hl Hs) as (T & R & D & A).
  split_and!; [done|congruence|auto|]. intros m w Hm Hnot. rewrite A by done.
  rewrite bool_decide_false; [done|]. by intros ->.
Qed.
Lemma remove_evolves e : distinct e -> evolves e (remove e) /\ same_attributes e (remove e).
Proof.
  intros Hd. destruct (remove_ok e) as (T & R & D & A). split.
  - split_and!; [done|done|auto|]. intros m w Hm _. by rewrite A.
  - intros m Hm. by rewrite A.
Qed.

(** *** Scrubbing *)

Definition scrubbed (m : list byte) (e : Element) : option (list byte) :=
  match get_attribute m e with
  | Some v => if starts_with (bs "on") m || (url_attribute m && script_url v) then None else Some v
  | None => None
  end.

Lemma scrub_one e n :
  is_name n -> distinct e ->
  let e' := scrub_attribute e n in
  tag_name e' = tag_name e /\ removed e' = removed e /\ distinct e'
  /\ forall m, is_name m -> get_attribute m e' = if bool_decide (m = n) then scrubbed m e else get_attribute m e.
Proof.
  intros Hn Hd e'. destruct (remove_attribute_ok n e Hn Hd) as (T & R & D & A).
  assert (Hsame : scrubbed n e = get_attribute n e -> e' = e ->
    tag_name e' = tag_name e /\ removed e' = removed e /\ distinct e'
    /\ forall m, is_name m -> get_attribute m e' = if bool_decide (m = n) then scrubbed m e else get_attribute m e).
  { intros Hs ->. split_and!; [done|done|done|]. intros m _. case_bool_decide; by subst. }
  assert (Hgone : scrubbed n e = None -> e' = remove_attribute n e ->
    tag_name e' = tag_name e /\ removed e' = removed e /\ distinct e'
    /\ forall m, is_name m -> get_attribute m e' = if bool_decide (m = n) then scrubbed m e else get_attribute m e).
  { intros Hs ->. split_and!; [done|done|done|]. intros m Hm. rewrite A by done.
    case_bool_decide; by subst. }
  unfold e', scrub_attribute, scrubbed in *. destruct (get_attribute n e) as [v|];
    destruct (starts_with (bs "on") n), (url_attribute n); cbn [orb andb] in *; auto.
  destruct (script_url v); auto.
Qed.

Lemma scrubbed_again m e e' :
  get_attribute m e' = scrubbed m e \/ get_attribute m e' = get_attribute m e ->
  scrubbed m e' = scrubbed m e.
Proof.
  unfold scrubbed. intros [->| ->]; destruct (get_attribute m e) as [v|]; try done.
  destruct (_ || _) eqn:E; [done|]. by rewrite E.
Qed.

Lemma scrub_all names : forall e,
  Forall is_name names -> distinct e ->
  let e' := foldl scrub_attribute e names in
  tag_name e' = tag_name e /\ removed e' = removed e /\ distinct e'
  /\ forall m, is_name m -> get_attribute m e' = if bool_decide (m ∈ names) then scrubbed m e else get_attribute m e.
Proof.
  induction names as [|n names IH]; intros e Hn Hd; cbn [foldl].
  { split_and!; [done|done|done|]. intros m _. by rewrite bool_decide_false by apply not_elem_of_nil. }
  apply Forall_cons in Hn as [Hn Hns].
  destruct (scrub_one e n Hn Hd) as (T & R & D & A).
  destruct (IH (scrub_attribute e n) Hns D) as (T' & R' & D' & A').
  split_and!; [congruence|congruence|done|]. intros m Hm. rewrite A' by done.
  rewrite (scrubbed_again m e) by (rewrite A by done; case_bool_decide; auto). rewrite A by done.
  destruct (decide (m ∈ names)) as [Hin|Hin].
  - rewrite !bool_decide_true; [done|by right|done].
  - rewrite (bool_decide_false (m ∈ names)) by done.
    rewrite (bool_decide_ext (m ∈ n :: names) (m = n)); [done|]. rewrite elem_of_cons. naive_solver.
Qed.

Lemma any_handler_ok e e' :
  distinct e -> any_handler e = inr e' ->
  evolves e e' /\ forall m, is_name m -> get_attribute m e' = scrubbed m e.
Proof.
  intros Hd [= <-]. destruct (scrub_all (attribute_names e) e) as (T & R & D & A); [|done|].
  { apply Forall_forall. intros n. apply attributes_named. }
  assert (Hall : forall m, is_name m ->
    get_attribute m (foldl scrub_attribute e (attribute_names e)) = scrubbed m e).
  { intros m Hm. rewrite A by done. case_bool_decide as Hin; [done|]. unfold scrubbed.
    destruct (get_attribute m e) as [v|] eqn:E; [|done]. by apply attributes_listed in E. }
  split; [|done]. split_and!; [done|congruence|done|]. intros m v Hm _. rewrite Hall by done.
  unfold scrubbed. destruct (get_attribute m e) as [w|]; [|done]. by destruct (_ || _).
Qed.

(** *** The handlers in order *)

Lemma and_then_ok {A B} (r : Fallible A) (k : A -> Fallible B) b :
  and_then r k = inr b -> exists a, r = inr a /\ k a = inr b.
Proof. destruct r as [|a]; [done|]. by exists a. Qed.

(** A handler ran if its selector matches *)
Definition ran (sel : list Simple) (f : Element -> Fallible Element) (e0 e e' : Element) : Prop :=
  if matches sel e0 then f e = inr e' else e' = e.

Lemma run_cons sel f hs e0 e e' :
  run_handlers ((sel, f) :: hs) e0 e = inr e' ->
  exists e1, ran sel f e0 e e1 /\ run_handlers hs e0 e1 = inr e'.
Proof.
  cbn [run_handlers]. unfold ran. destruct (matches sel e0); [apply and_then_ok|by exists e].
Qed.

Lemma a_handler_ok base e e' :
  distinct e -> a_handler base e = inr e' ->
  evolves e e' /\ exists p, get_attribute HREF e' = Some p /\ stays_home p = true.
Proof.
  intros Hd He.
  assert (Hs : exists p, set_attribute HREF p e = inr e' /\ stays_home p = true).
  { unfold a_handler in He. destruct (build_proxy_url _ base) as [p|] eqn:Hb.
    - exists p. split; [done|]. by eapply build_proxy_url_home.
    - by exists (bs "#"). }
  destruct Hs as (p & Hs & Hp). split; [by apply (set_evolves HREF p); [repeat constructor| |]|].
  exists p. split; [|done].
  destruct (set_attribute_ok HREF p e e' eq_refl Hs) as (_ & _ & _ & A). rewrite A by done.
  by rewrite bool_decide_true.
Qed.

Lemma form_handler_ok base e e' :
  distinct e -> form_handler base e = inr e' ->
  evolves e e'
  /\ (removed e' = true
      \/ (is_Some (get_attribute METHOD e')
          /\ exists p, get_attribute ACTION e' = Some p /\ stays_home p = true)).
Proof.
  unfold form_handler. intros Hd. destruct (build_proxy_url _ base) as [p|] eqn:Hb; cbv zeta.
  2:{ intros [= <-]. split; [by apply remove_evolves|left; by apply remove_ok]. }
  intros (e1 & Hs & Hm)%and_then_ok. apply build_proxy_url_home in Hb.
  destruct (set_attribute_ok ACTION p e e1 eq_refl Hs) as (_ & _ & D & A).
  pose proof (set_evolves ACTION p e e1 ltac:(by repeat constructor) Hd Hs) as Hev.
  assert (Hact : get_attribute ACTION e1 = Some p) by (rewrite A by done; by rewrite bool_decide_true).
  destruct (get_attribute METHOD e1) as [m|] eqn:E.
  - injection Hm as <-. split; [done|]. right. split; [by exists m|]. by exists p.
  - destruct (set_attribute_ok METHOD (bs "POST") e1 e' eq_refl Hm) as (_ & _ & _ & A').
    split; [eapply evolves_trans; [done|apply (set_evolves METHOD (bs "POST"));
      [by repeat constructor|auto|done]]|].
    right. rewrite !A' by done. rewrite bool_decide_true by done. split; [by eexists|].
    exists p. by rewrite bool_decide_false.
Qed.

Lemma meta_handler_ok e e' :
  distinct e -> meta_handler e = inr e' -> evolves e e' /\ same_attributes e e'
  /\ forall v, get_attribute (bs "http-equiv") e = Some v -> removed e' = false ->
       eq_ignore_ascii_case v (bs "refresh") = false
       /\ eq_ignore_ascii_case v (bs "content-security-policy") = false.
Proof.
  unfold meta_handler. cbv zeta. intros Hd. destruct (_ || _) eqn:E; intros [= <-].
  - destruct (remove_evolves e Hd). split_and!; [done|done|]. intros v _ Hr.
    destruct (remove_ok e) as (_ & R & _). congruence.
  - split_and!; [by apply evolves_refl|apply same_attributes_refl|]. intros v Hv _. rewrite Hv in E.
    by apply orb_false_iff in E.
Qed.

Definition A_LINKS : list Simple := [STagAttr (bs "a") HREF].
Definition FORMS : list Simple := [STagAttr (bs "form") ACTION].
Definition METAS : list Simple := [STagAttr (bs "meta") (bs "http-equiv")].

Lemma stages base e0 e1 :
  run_handlers (element_content_handlers base) e0 e0 = inr e1 ->
  exists ea ef es em,
    ran A_LINKS (a_handler base) e0 e0 ea /\ ran FORMS (form_handler base) e0 ea ef
    /\ ran STRIPPED (fun el => inr (remove el)) e0 ef es /\ ran METAS meta_handler e0 es em
    /\ any_handler em = inr e1.
Proof.
  unfold element_content_handlers. intros Hr.
  apply run_cons in Hr as (ea & Ha & Hr). apply run_cons in Hr as (ef & Hf & Hr).
  apply run_cons in Hr as (es & Hs & Hr). apply run_cons in Hr as (em & Hm & Hr).
  apply run_cons in Hr as (e' & He & [= <-]). by exists ea, ef, es, em.
Qed.

Lemma ran_evolves sel f e0 e e' :
  (distinct e -> f e = inr e' -> evolves e e') -> distinct e -> ran sel f e0 e e' -> evolves e e'.
Proof. unfold ran. intros Hf Hd. destruct (matches sel e0); [auto|]. intros ->. by apply evolves_refl. Qed.
Lemma ran_same_attributes sel f e0 e e' :
  (f e = inr e' -> same_attributes e e') -> ran sel f e0 e e' -> same_attributes e e'.
Proof. unfold ran. intros Hf. destruct (matches sel e0); [auto|]. intros ->. apply same_attributes_refl. Qed.

Lemma matches_one s e : matches [s] e = matches_simple s e.
Proof. unfold matches. simpl. apply orb_false_r. Qed.

(** After the two handlers of links, nothing is added. *)
Lemma links_stay_home base e0 ea ef :
  distinct e0 -> ran A_LINKS (a_handler base) e0 e0 ea -> ran FORMS (form_handler base) e0 ea ef ->
  (tag_name e0 = bs "a" -> forall v, get_attribute HREF ef = Some v -> stays_home v = true)
  /\ (tag_name e0 = bs "form" -> removed ef = false -> forall v, get_attribute ACTION ef = Some v ->
       stays_home v = true /\ is_Some (get_attribute METHOD ef)).
Proof.
  intros Hd Ha Hf. unfold ran, A_LINKS, FORMS in *. rewrite matches_one in *.
  cbn [matches_simple] in *. split; intros Ht.
  - rewrite Ht in Hf. rewrite bool_decide_false in Hf by done. cbn [andb] in Hf. subst ef.
    rewrite Ht, bool_decide_true in Ha by done. cbn [andb] in Ha. intros v Hv.
    destruct (has_attribute HREF e0) eqn:Eh.
    + destruct (a_handler_ok base e0 ea Hd Ha) as (_ & p & Hp & Hh). congruence.
    + subst ea. unfold has_attribute in Eh. by rewrite Hv in Eh.
  - rewrite Ht, bool_decide_false in Ha by done. cbn [andb] in Ha. subst ea.
    rewrite Ht, bool_decide_true in Hf by done. cbn [andb] in Hf. intros Hr v Hv.
    destruct (has_attribute ACTION e0) eqn:Eh.
    + destruct (form_handler_ok base e0 ef Hd Hf) as (_ & [Hx|(Hm & p & Hp & Hh)]); [congruence|].
      split; [congruence|done].
    + subst ef. unfold has_attribute in Eh. by rewrite Hv in Eh.
Qed.

Lemma scrubbed_ok e m v :
  scrubbed m e = Some v ->
  get_attribute m e = Some v /\ starts_with (bs "on") m = false
  /\ (url_attribute m = true -> script_url v = false).
Proof.
  unfold scrubbed. destruct (get_attribute m e) as [w|]; [|done].
  destruct (starts_with (bs "on") m), (url_attribute m), (script_url w) eqn:E; try done;
    intros [= <-]; by rewrite ?E.
Qed.

(** A start tag as the rules leave it *)
Definition clean (e : Element) : Prop :=
  tag_name e ∉ [bs "script"; bs "iframe"; bs "frame"; bs "frameset"; bs "object"; bs "embed";
                bs "applet"; bs "noscript"; bs "base"]
  /\ ~ (tag_name e = bs "link" /\ get_attribute (bs "rel") e = Some (bs "stylesheet"))
  /\ (forall v, tag_name e = bs "meta" -> get_attribute (bs "http-equiv") e = Some v ->
       eq_ignore_ascii_case v (bs "refresh") = false
       /\ eq_ignore_ascii_case v (bs "content-security-policy") = false)
  /\ (forall n v, is_name n -> get_attribute n e = Some v ->
       starts_with (bs "on") n = false /\ (url_attribute n = true -> script_url v = false))
  /\ (forall v, tag_name e = bs "a" -> get_attribute HREF e = Some v -> stays_home v = true)
  /\ (forall v, tag_name e = bs "form" -> get_attribute ACTION e = Some v ->
       stays_home v = true /\ is_Some (get_attribute METHOD e)).

Lemma strip_handler_ok e e' :
  distinct e -> (inr (remove e) : Fallible Element) = inr e' -> evolves e e' /\ same_attributes e e'.
Proof. intros Hd [= <-]. by apply remove_evolves. Qed.

Lemma not_stripped e :
  matches STRIPPED e = false ->
  tag_name e ∉ [bs "script"; bs "iframe"; bs "frame"; bs "frameset"; bs "object"; bs "embed";
                bs "applet"; bs "noscript"; bs "base"]
  /\ ~ (tag_name e = bs "link" /\ get_attribute (bs "rel") e = Some (bs "stylesheet")).
Proof.
  intros Hm. assert (Hno : forall s, s ∈ STRIPPED -> matches_simple s e = false).
  { intros s Hs%list_elem_of_In. unfold matches in Hm.
    destruct (matches_simple s e) eqn:E; [|done].
    rewrite <- Hm. symmetry. apply existsb_exists. by exists s. }
  split.
  - intros Ht. assert (Hs : STag (tag_name e) ∈ STRIPPED).
    { unfold STRIPPED. repeat (apply elem_of_cons in Ht as [->|Ht]; [by repeat constructor|]).
      by apply not_elem_of_nil in Ht. }
    apply Hno in Hs. cbn [matches_simple] in Hs. by rewrite bool_decide_true in Hs.
  - intros [Ht Hr]. specialize (Hno (STagAttrIs (bs "link") (bs "rel") (bs "stylesheet"))).
    cbn [matches_simple] in Hno. rewrite bool_decide_true in Hno by done.
    rewrite (attribute_is_exact _ _ _ Hr) in Hno. discriminate Hno. by repeat constructor.
Qed.

(** The tag through all stages: where it comes from, and what was not removed *)
Lemma handled_evolves base e0 e1 :
  distinct e0 -> run_handlers (element_content_handlers base) e0 e0 = inr e1 ->
  exists ea ef es em,
    ran A_LINKS (a_handler base) e0 e0 ea /\ ran FORMS (form_handler base) e0 ea ef
    /\ ran STRIPPED (fun el => inr (remove el)) e0 ef es /\ ran METAS meta_handler e0 es em
    /\ any_handler em = inr e1
    /\ evolves e0 ef /\ evolves ef es /\ evolves es em /\ evolves em e1
    /\ same_attributes ef es /\ same_attributes es em.
Proof.
  intros Hd Hr. destruct (stages base e0 e1 Hr) as (ea & ef & es & em & Ha & Hf & Hs & Hm & He).
  assert (Va : evolves e0 ea) by (eapply ran_evolves; [|done|done]; intros; by eapply a_handler_ok).
  pose proof Va as (_ & _ & Da & _).
  assert (Vf : evolves ea ef) by (eapply ran_evolves; [|done|done]; intros; by eapply form_handler_ok).
  pose proof Vf as (_ & _ & Df & _).
  assert (Vs : evolves ef es) by (eapply ran_evolves; [|done|done]; intros; by apply strip_handler_ok).
  assert (Ss : same_attributes ef es) by (eapply ran_same_attributes; [|done]; intros; by apply strip_handler_ok).
  pose proof Vs as (_ & _ & Ds & _).
  assert (Vm : evolves es em) by (eapply ran_evolves; [|done|done]; intros; by eapply meta_handler_ok).
  assert (Sm : same_attributes es em) by (eapply ran_same_attributes; [|done]; intros; by eapply meta_handler_ok).
  pose proof Vm as (_ & _ & Dm & _).
  destruct (any_handler_ok em e1 Dm He) as (V1 & _).
  exists ea, ef, es, em. split_and!; try done. by eapply evolves_trans.
Qed.

(** What the attributes left come from *)
Lemma handled_attributes base e0 e1 :
  distinct e0 -> run_handlers (element_content_handlers base) e0 e0 = inr e1 ->
  forall m, is_name m -> m ∉ [HREF; ACTION; METHOD] ->
  forall v, get_attribute m e1 = Some v -> get_attribute m e0 = Some v.
Proof.
  intros Hd Hr. destruct (handled_evolves base e0 e1 Hd Hr) as
    (ea & ef & es & em & _ & _ & _ & _ & _ & (_ & _ & _ & Af) & (_ & _ & _ & As)
     & (_ & _ & _ & Am) & (_ & _ & _ & A1) & _).
  intros m Hm Hn v Hv. by apply Af, As, Am, A1.
Qed.

Lemma not_removed e e' : evolves e e' -> removed e' = false -> removed e = false.
Proof. intros (_ & R & _) Hk. destruct (removed e); [|done]. by rewrite R in Hk. Qed.

Lemma handled_clean base e0 e1 :
  distinct e0 -> run_handlers (element_content_handlers base) e0 e0 = inr e1 ->
  removed e1 = false -> clean e1.
Proof.
  intros Hd Hr Hk. pose proof (handled_attributes base e0 e1 Hd Hr) as Hback.
  destruct (handled_evolves base e0 e1 Hd Hr) as
    (ea & ef & es & em & Ha & Hf & Hs & Hm & He & Vf & Vs & Vm & V1 & Ss & Sm).
  pose proof (not_removed _ _ V1 Hk) as Km. pose proof (not_removed _ _ Vm Km) as Ks.
  pose proof (not_removed _ _ Vs Ks) as Kf.
  assert (Ht : tag_name e1 = tag_name e0).
  { destruct Vf as (Tf & _), Vs as (Ts & _), Vm as (Tm & _), V1 as (T1 & _). congruence. }
  pose proof Vm as (_ & _ & Dm & _). pose proof Vs as (_ & _ & Ds & _).
  destruct (any_handler_ok em e1 Dm He) as [_ Hscrub]. clear He V1 Vf Vm Vs.
  destruct (links_stay_home base e0 ea ef Hd Ha Hf) as [Hlinks Hforms].
  assert (Hfrom : forall m, is_name m -> get_attribute m e1 = scrubbed m ef).
  { intros m Hn. rewrite Hscrub by done. unfold scrubbed. by rewrite Sm, Ss. }
  unfold clean. rewrite !Ht. destruct (not_stripped e0) as [Hstrip Hlink].
  { unfold ran in Hs. destruct (matches STRIPPED e0); [|done]. injection Hs as <-.
    destruct (remove_ok ef) as (_ & R & _). congruence. }
  split; [exact Hstrip|]. split.
  { intros [Hl Hrel]. apply Hlink. split; [exact Hl|]. apply Hback; [done|by apply (bool_decide_eq_true_1 _)|exact Hrel]. }
  split.
  { intros v Hmeta Hv. assert (Hves : get_attribute (bs "http-equiv") es = Some v).
    { rewrite Hfrom in Hv by done. apply scrubbed_ok in Hv as [Hv _]. by rewrite Ss. }
    apply Hback in Hv; [|done|by apply (bool_decide_eq_true_1 _)].
    unfold ran, METAS in Hm. rewrite matches_one in Hm. cbn [matches_simple] in Hm.
    unfold has_attribute in Hm. rewrite Hv, bool_decide_true in Hm by exact Hmeta.
    by apply (meta_handler_ok es em Ds Hm). }
  split.
  { intros n v Hn Hv. rewrite Hscrub in Hv by done. by apply scrubbed_ok in Hv as (_ & ? & ?). }
  split.
  { intros v Ha' Hv. rewrite Hfrom in Hv by done. apply scrubbed_ok in Hv as [Hv _]. by apply Hlinks. }
  intros v Hf' Hv. rewrite Hfrom in Hv by done. apply scrubbed_ok in Hv as [Hv _].
  destruct (Hforms Hf' Kf v Hv) as [Hh [w Hw]]. split; [exact Hh|]. exists w.
  rewrite Hfrom by done. unfold scrubbed. by rewrite Hw.
Qed.

(** *** Exactly *)

(** The tags that are left out, with what is inside their elements *)
Definition dropped (base : Url) (e : Element) : bool :=
  matches STRIPPED e
  || (matches FORMS e
      && bool_decide (build_proxy_url (default [] (get_attribute ACTION e)) base = None))
  || (matches METAS e
      && let v := default [] (get_attribute (bs "http-equiv") e) in
         eq_ignore_ascii_case v (bs "refresh") || eq_ignore_ascii_case v (bs "content-security-policy")).

(** The attributes with the links led back to the program *)
Definition led_back (base : Url) (e : Element) (m : list byte) : option (list byte) :=
  let v := get_attribute m e in
  if matches A_LINKS e && bool_decide (m = HREF)
  then Some (default (bs "#") (build_proxy_url (default [] v) base))
  else if matches FORMS e && bool_decide (m = ACTION) then build_proxy_url (default [] v) base
  else if matches FORMS e && bool_decide (m = METHOD) then Some (default (bs "POST") v)
  else v.
(** ... and scrubbed *)
Definition left_attribute (base : Url) (e : Element) (m : list byte) : option (list byte) :=
  v ← led_back base e m;
  if starts_with (bs "on") m || (url_attribute m && script_url v) then None else Some v.

(** What becomes of a token that is kept *)
Definition becomes (base : Url) (t t' : Token) : Prop :=
  match t, t' with
  | StartTag e0, StartTag e1 =>
      dropped base e0 = false /\ tag_name e1 = tag_name e0 /\ clean e1
      /\ forall m, is_name m -> get_attribute m e1 = left_attribute base e0 m
  | Raw text, Raw text' => text' = text
  | _, _ => False
  end.

Lemma a_form_apart e : matches A_LINKS e = true -> matches FORMS e = false.
Proof.
  unfold A_LINKS, FORMS. rewrite !matches_one. cbn [matches_simple].
  intros [->%bool_decide_eq_true_1 _]%andb_true_iff. by rewrite bool_decide_false.
Qed.

Lemma links_exact base e0 ea ef :
  distinct e0 -> removed e0 = false ->
  ran A_LINKS (a_handler base) e0 e0 ea -> ran FORMS (form_handler base) e0 ea ef ->
  removed ef = matches FORMS e0
    && bool_decide (build_proxy_url (default [] (get_attribute ACTION e0)) base = None)
  /\ (removed ef = false -> forall m, is_name m -> get_attribute m ef = led_back base e0 m).
Proof.
  intros Hd Hk Ha Hf. unfold ran, led_back in *. pose proof (a_form_apart e0) as Hapart.
  destruct (matches A_LINKS e0) eqn:EA.
  - rewrite Hapart in * by done. subst ef. cbn [andb].
    assert (Hs : set_attribute HREF (default (bs "#") (build_proxy_url (default [] (get_attribute HREF e0)) base)) e0
      = inr ea) by (unfold a_handler in Ha; by destruct (build_proxy_url _ base)).
    destruct (set_attribute_ok _ _ _ _ eq_refl Hs) as (_ & R & _ & A). split; [congruence|].
    intros _ m Hm. rewrite A by done. case_bool_decide; by subst.
  - subst ea. clear Hapart. destruct (matches FORMS e0); cbn [andb]; [|by subst ef].
    unfold form_handler in Hf. destruct (build_proxy_url _ base) as [p|] eqn:Hb; cbv zeta in Hf.
    2:{ injection Hf as <-. destruct (remove_ok e0) as (_ & R & _). by rewrite R, bool_decide_true. }
    rewrite bool_decide_false by done. apply and_then_ok in Hf as (e1 & Hs & Hm).
    destruct (set_attribute_ok ACTION p e0 e1 eq_refl Hs) as (_ & R & _ & A).
    assert (Hmethod : get_attribute METHOD e1 = get_attribute METHOD e0) by (by rewrite A).
    rewrite Hmethod in Hm. destruct (get_attribute METHOD e0) as [q|] eqn:EM.
    + injection Hm as <-. split; [congruence|]. intros _ m Hn. rewrite A by done.
      case_bool_decide as Hx; [subst m; by rewrite Hb|]. case_bool_decide as Hy; [|done]. subst m. by rewrite EM.
    + destruct (set_attribute_ok METHOD (bs "POST") e1 ef eq_refl Hm) as (_ & R' & _ & A').
      split; [congruence|]. intros _ m Hn. rewrite A' by done.
      destruct (decide (m = METHOD)) as [->|Hne]; [by rewrite bool_decide_true, EM|].
      rewrite (bool_decide_false (m = METHOD)) by done. rewrite A by done.
      case_bool_decide as Hx; [subst m; by rewrite Hb|done].
Qed.

Lemma handled_exact base e0 e1 :
  distinct e0 -> removed e0 = false ->
  run_handlers (element_content_handlers base) e0 e0 = inr e1 ->
  tag_name e1 = tag_name e0 /\ removed e1 = dropped base e0
  /\ (removed e1 = false -> forall m, is_name m -> get_attribute m e1 = left_attribute base e0 m).
Proof.
  intros Hd Hk0 Hr. pose proof (handled_attributes base e0 e1 Hd Hr) as Hback.
  destruct (handled_evolves base e0 e1 Hd Hr) as
    (ea & ef & es & em & Ha & Hf & Hs & Hm & He & Vf & Vs & Vm & V1 & Ss & Sm).
  destruct (links_exact base e0 ea ef Hd Hk0 Ha Hf) as [Rf Af].
  pose proof Vm as (_ & _ & Dm & _).
  destruct (any_handler_ok em e1 Dm He) as [_ Hscrub].
  assert (R1 : removed e1 = removed em).
  { injection He as <-. destruct (scrub_all (attribute_names em) em) as (_ & R & _); [|done|done].
    apply Forall_forall. intros n. apply attributes_named. }
  assert (Ht : tag_name e1 = tag_name e0).
  { destruct Vf as (Tf & _), Vs as (Ts & _), Vm as (Tm & _), V1 as (T1 & _). congruence. }
  assert (Rs : removed es = matches STRIPPED e0 || removed ef).
  { unfold ran in Hs. destruct (matches STRIPPED e0); [|by subst es]. injection Hs as <-. by apply remove_ok. }
  assert (Hequiv : removed ef = false -> get_attribute (bs "http-equiv") es = get_attribute (bs "http-equiv") e0).
  { intros Hk. rewrite Ss, Af by done. unfold led_back. by rewrite !(bool_decide_false (bs "http-equiv" = _)), !andb_false_r. }
  split; [done|]. rewrite R1. split.
  - unfold dropped. rewrite <- Rf, <- Rs. unfold ran in Hm. destruct (matches METAS e0); cbn [andb];
      [|by subst em; rewrite orb_false_r].
    unfold meta_handler in Hm. cbv zeta in Hm. destruct (removed ef) eqn:Ef.
    { assert (removed es = true) as Es by (by rewrite Rs, orb_true_r). rewrite Es. cbn [orb]. by apply Vm. }
    rewrite <- Hequiv by done. destruct (_ || eq_ignore_ascii_case _ (bs "content-security-policy"));
      injection Hm as <-; [by rewrite orb_true_r; apply remove_ok|by rewrite orb_false_r].
  - intros Hk m Hn. pose proof (not_removed _ _ Vm Hk) as Ks. pose proof (not_removed _ _ Vs Ks) as Kf.
    rewrite Hscrub by done. unfold scrubbed, left_attribute. rewrite Sm, Ss, Af by done.
    by destruct (led_back base e0 m).
Qed.

Definition start_tags (ts : list Token) : list Element :=
  omap (fun t => match t with StartTag e => Some e | Raw _ => None end) ts.
Lemma start_tags_in ts e : e ∈ start_tags ts <-> StartTag e ∈ ts.
Proof.
  unfold start_tags. rewrite list_elem_of_omap. split.
  - by intros ([e'|] & Hin & [= ->]).
  - intros Hin. by exists (StartTag e).
Qed.

(** C11: of a document whose tags give no attribute twice the rewriter writes, in order,
    tokens of the document, and each is exactly this.  No tag of an element that runs or
    frames something, of [base], of a [link] whose [rel] is [stylesheet], of a refresh or
    a policy of the page's own, or of a form whose action cannot be browsed is among
    them; of every other tag the [on...] attributes and the values of six attributes that
    start with [javascript:] go, the links of [a] and the actions of forms stay within
    the page or lead back to the program, and all else, text included, is as it came.
    With nothing to leave out, nothing is.  What is written is not looked at again
    ([text_joins]), and other links are not looked at ([area_link_kept],
    [tab_in_scheme]). *)
Theorem rewrite_html_exact html base_url out :
  Forall distinct (start_tags (tokens html)) -> rewrite_html html base_url = inr out ->
  exists base kept ts,
    url_parse base_url = inr base
    /\ kept `sublist_of` tokens html /\ Forall2 (becomes base) kept ts
    /\ out = mjoin (map write ts)
    /\ (Forall (fun e => dropped base e = false) (start_tags (tokens html)) -> kept = tokens html).
Proof.
  intros Hd Hr. unfold rewrite_html in Hr. destruct (url_parse base_url) as [|base]; [done|].
  destruct (rewrite_str _ html) as [|res] eqn:E; [done|]. injection Hr as ->.
  rewrite Forall_forall in Hd. setoid_rewrite start_tags_in in Hd.
  destruct (rewrite_str_writes _ _ _ E) as (kept & ts & Hsub & Hts & Hout & Hall).
  exists base, kept, ts. split_and!; [done|done| |done|].
  - assert (Hin : forall t, t ∈ kept -> t ∈ tokens html) by (intros t Ht; by eapply elem_of_sublist).
    clear Hsub Hall Hout E. induction Hts as [|t t' kept ts Ht Hts IH]; [constructor|].
    constructor; [|apply IH; intros t2 Ht2; apply Hin; by right].
    destruct t as [e0|text], t' as [e1|text']; try done. destruct Ht as [Hrun Hk].
    assert (Ht0 : StartTag e0 ∈ tokens html) by (apply Hin; by left).
    destruct (handled_exact base e0 e1 (Hd e0 Ht0) (tags_not_removed _ _ Ht0) Hrun) as (Htag & Hdrop & Hattr).
    split_and!; [congruence|done|by eapply handled_clean; [apply Hd|..]|by apply Hattr].
  - rewrite Forall_forall. setoid_rewrite start_tags_in. intros Hno. apply Hall. intros e0 e1 Hin Hrun.
    destruct (handled_exact base e0 e1 (Hd e0 Hin) (tags_not_removed _ _ Hin) Hrun) as (_ & -> & _). by apply Hno.
Qed.
End Clean.

(** ** Concrete instances

    A URL is its text and its query, and relative links start with a slash; the name's
    length comes first in a query. *)
Module ToyUrl.
Definition append (n v : list byte) (u : list byte * option (list byte)) :=
  (u.1, Some (map (fun _ => x78) n ++ bs "=" ++ n ++ v)).
Definition parse (q : list byte) : list (list byte * list byte) :=
  match split_once (bs "=") q with
  | Some (xs, rest) => [(take (length xs) rest, drop (length xs) rest)]
  | None => []
  end.
#[export] Instance url_crate : UrlCrate := {|
  Url := list byte * option (list byte);
  url_parse := fun s => inr (s, None);
  url_join := fun base rel => Some (if starts_with (bs "/") rel then base.1 ++ rel else rel, None);
  url_as_str := fst;
  append_pair := append;
  url_query := snd;
  parse_query := parse |}.

Lemma split_xs (n v : list byte) :
  split_once (bs "=") (map (fun _ => x78) n ++ bs "=" ++ v) = Some (map (fun _ => x78) n, v).
Proof.
  apply split_once_first; [done|]. cbn [length bs String.list_byte_of_string take Nat.sub]. rewrite app_nil_r.
  unfold contains. assert (Hf : find_sub (bs "=") (map (fun _ => x78) n) = None).
  { induction n as [|x n IH]; [done|]. cbn in *. by rewrite IH. }
  by rewrite Hf.
Qed.
#[export] Instance url_crate_laws : UrlCrateLaws.
Proof.
  split; [by eexists|]. intros n v u _. eexists. split; [done|].
  unfold parse_query, url_crate, parse. rewrite split_xs, length_map.
  by rewrite take_app_length, drop_app_length.
Qed.
End ToyUrl.

(** A document is pieces of text and start tags with a bar between them, which is not
    written; a tag begins with [<], and its name and the names and values of its
    attributes are each on a line. *)
Module ToyHtml.
Record Tag : Type := mkTag { name : list byte; attrs : gmap (list byte) (list byte); gone : bool }.

#[export] Instance is_name_dec n : Decision (is_name n).
Proof. unfold is_name. apply _. Defined.

Fixpoint pairs (l : list (list byte)) : list (list byte * list byte) :=
  match l with n :: v :: t => (n, v) :: pairs t | _ => [] end.
Definition print (e : Tag) : list byte :=
  bs "<" ++ name e
  ++ mjoin (map (fun nv : list byte * list byte => LF :: nv.1 ++ LF :: nv.2) (map_to_list (attrs e))).

Definition listed (e : Tag) : list (list byte * list byte) :=
  map_to_list (filter (fun nv : list byte * list byte => is_name nv.1) (attrs e)).

#[export] Instance element : HtmlElement := {|
  Element := Tag;
  tag_name := name;
  attributes := listed;
  get_attribute := fun n e => attrs e !! n;
  attribute_is := fun a v e => bool_decide (attrs e !! a = Some v);
  set_attribute := fun n v e => inr (mkTag (name e) (<[n := v]> (attrs e)) (gone e));
  remove_attribute := fun n e => mkTag (name e) (delete n (attrs e)) (gone e);
  remove := fun e => mkTag (name e) (attrs e) true;
  removed := gone;
  start_tag_text := print |}.

Definition token (piece : list byte) : Token :=
  match strip_prefix (bs "<") piece with
  | Some t =>
      match split_on LF t with
      | (_ :: _) as n :: l => StartTag (mkTag n (list_to_map (pairs l)) false : Element)
      | _ => Raw piece
      end
  | None => Raw piece
  end.
Definition pieces (doc : list byte) : list Token := map token (split_on x7c doc).
Fixpoint rewrite_tokens (hs : list (list Simple * (Element -> Fallible Element))) (ts : list Token)
    : Fallible (list Token) :=
  match ts with
  | [] => inr []
  | Raw text :: rest => and_then (rewrite_tokens hs rest) (fun l => inr (Raw text :: l))
  | StartTag e :: rest =>
      and_then (run_handlers hs e e) (fun e' =>
        and_then (rewrite_tokens hs rest) (fun l => inr (if removed e' then l else StartTag e' :: l)))
  end.
#[export] Instance lol_html : LolHtml := {|
  tokens := pieces;
  rewrite_str := fun hs doc =>
    and_then (rewrite_tokens hs (pieces doc)) (fun l => inr (mjoin (map write l))) |}.

Lemma rewrite_tokens_ok hs ts : forall out,
  rewrite_tokens hs ts = inr out ->
  exists kept, kept `sublist_of` ts /\ Forall2 (rewrites hs) kept out
    /\ ((forall e0 e1, StartTag e0 ∈ ts -> run_handlers hs e0 e0 = inr e1 -> removed e1 = false) -> kept = ts).
Proof.
  induction ts as [|[e|text] ts IH]; intros out Hr; cbn [rewrite_tokens] in Hr.
  - injection Hr as <-. by exists [].
  - apply and_then_ok in Hr as (e' & Hrun & (l & Hl & [= <-])%and_then_ok).
    destruct (IH l Hl) as (kept & Hsub & Hk & Hall). change (gone e') with (removed e').
    destruct (removed e') eqn:Hrem.
    + exists kept. split_and!; [by constructor|done|]. intros Hno. by rewrite (Hno e e' (list_elem_of_here _ _) Hrun) in Hrem.
    + exists (StartTag e :: kept). split_and!; [by constructor|by constructor|].
      intros Hno. f_equal. apply Hall. intros e0 e1 Hin. apply Hno. by right.
  - apply and_then_ok in Hr as (l & Hl & [= <-]). destruct (IH l Hl) as (kept & Hsub & Hk & Hall).
    exists (Raw text :: kept). split_and!; [by constructor|by constructor|].
    intros Hno. f_equal. apply Hall. intros e0 e1 Hin. apply Hno. by right.
Qed.

Lemma listed_in n v e : (n, v) ∈ listed e <-> attrs e !! n = Some v /\ is_name n.
Proof. unfold listed. rewrite elem_of_map_to_list, map_lookup_filter_Some. done. Qed.
Lemma all_distinct e : distinct e.
Proof. unfold distinct, attribute_names. cbn. unfold listed. apply NoDup_fst_map_to_list. Qed.

#[export] Instance lol_html_laws : LolHtmlLaws.
Proof.
  split; cbn.
  - intros e n [[n' v] [-> Hn]]%list_elem_of_fmap. by apply listed_in in Hn as [_ ?].
  - intros e n v Hn Hv. apply list_elem_of_fmap. exists (n, v). split; [done|]. by apply listed_in.
  - intros a v e Hv. by apply bool_decide_true.
  - intros n v e e' _ [= <-]. split_and!; [done|done|intros _; apply all_distinct|].
    intros m _. cbn. case_bool_decide as Hm; [subst; apply lookup_insert_eq|by apply lookup_insert_ne].
  - intros n e _ _. split_and!; [done|done|apply all_distinct|].
    intros m _. case_bool_decide as Hm; [subst; apply lookup_delete_eq|by apply lookup_delete_ne].
  - intros e. split_and!; [done|done|intros _; apply all_distinct|done].
  - intros doc e (p & Hp & _)%list_elem_of_fmap. unfold token in Hp.
    destruct (strip_prefix _ p) as [t|]; [|done]. destruct (split_on LF t) as [|[|x n] l]; [done..|]. by injection Hp as ->.
  - intros hs doc out (ts & Hts & [= <-])%and_then_ok.
    destruct (rewrite_tokens_ok _ _ _ Hts) as (kept & Hsub & Hk & Hall). by exists kept, ts.
Qed.
End ToyHtml.

#[local] Existing Instances ToyUrl.url_crate ToyUrl.url_crate_laws ToyHtml.element ToyHtml.lol_html
  ToyHtml.lol_html_laws.

(** The lines of a document *)
Definition doc (ls : list (list byte)) : list byte :=
  match ls with [] => [] | l :: t => l ++ mjoin (map (fun x => LF :: x) t) end.

Definition example_org : Url := (bs "https://e.org", None).

Lemma build_proxy_url_spec_witness :
  match build_proxy_url (bs " /page ") example_org with
  | None => False
  | Some p => exists query, p = bs "/browse?" ++ query /\ parse_query query = [(bs "url", bs "https://e.org/page")]
  end.
Proof.
  pose proof (build_proxy_url_spec (bs " /page ") example_org) as Hs.
  destruct (build_proxy_url (bs " /page ") example_org) as [p|].
  - destruct Hs as (_ & [[-> Hp]|(r & q & Hr & Hp & Hq)]); [discriminate Hp|].
    exists q. split; [exact Hp|]. vm_compute in Hr. injection Hr as <-. exact Hq.
  - destruct Hs as [Hs|Hs]; discriminate Hs.
Defined.

Definition sample : list byte :=
  doc [bs "<a"; bs "href"; bs "/page"; bs "onclick"; bs "alert(1)"] ++ bs "|link|<script|</a>".
Definition rewritten : list byte :=
  match rewrite_html sample (bs "https://e.org") with inr out => out | inl _ => [] end.

Lemma rewrite_html_exact_witness :
  exists base kept ts,
    url_parse (bs "https://e.org") = inr base
    /\ kept `sublist_of` tokens sample /\ Forall2 (becomes base) kept ts
    /\ rewritten = mjoin (map write ts)
    /\ (Forall (fun e => dropped base e = false) (start_tags (tokens sample)) -> kept = tokens sample).
Proof.
  apply (rewrite_html_exact sample (bs "https://e.org") rewritten).
  - apply Forall_forall. intros e _. apply ToyHtml.all_distinct.
  - vm_compute. reflexivity.
Defined.

(** ** What the rules leave *)

Definition handled (ls : list (list byte)) (a : list byte) : option (list byte) :=
  match tokens (bs "<" ++ doc ls) with
  | StartTag e :: _ =>
      match run_handlers (element_content_handlers example_org) e e with
      | inr e' => get_attribute a e'
      | inl _ => None
      end
  | _ => None
  end.

(** What is written is not read again: the text on either side of an element that is left
    out may make a tag, which nothing has looked at. *)
Example text_joins :
  match rewrite_html (bs "<|<script|script") (bs "https://e.org") with
  | inr out => map tag_name (start_tags (tokens out))
  | inl _ => []
  end = [bs "script"].
Proof. vm_compute. reflexivity. Qed.

(** A form that is sent with GET same_attributes its method: the browser then replaces the query
    of its action, the address of the page with it, by the form's fields. *)
Example get_form_keeps_method :
  let form := [bs "form"; ACTION; bs "/search"; METHOD; bs "get"] in
  handled form METHOD = Some (bs "get")
  /\ starts_with (bs "/browse?") (default [] (handled form ACTION)) = true.
Proof. vm_compute. split; reflexivity. Qed.

(** A browser drops tabs from a URL before it looks at the scheme. *)
Example tab_in_scheme :
  let v := bs "java" ++ [x09] ++ bs "script:alert(1)" in
  handled [bs "img"; bs "src"; v] (bs "src") = Some v.
Proof. vm_compute. reflexivity. Qed.

(** The links of an image map are left as they are. *)
Example area_link_kept :
  handled [bs "area"; HREF; bs "https://e.org/x"] HREF = Some (bs "https://e.org/x").
Proof. vm_compute. reflexivity. Qed.
