(* ===== verification/Browse.v ===== *)
(** * Browsing ([client/src/proxy.rs], [/browse])

    A request of the browser is answered from the page cache, or sent through the
    transport's actor; its answer is decoded, cached, rewritten and shown.  Other
    requests of the browser run in between: they have commands in the actor's queue
    before ours, and use the cache between our accesses to it. *)
From Stdlib Require Import ZArith Lia Strings.Byte.
From stdpp Require Import base decidable list countable gmap.
From S2P Require Import TransportTypes AgwpeFrame.
From S2P Require Import Prelude Bytes Numbers External Protocol Cache Rewrite Ui HostGuard.
From S2P Require Import ClientConfig ClientState Transport Session Manager Delivery.

(** ** The cache, shared with the other requests *)

(** What another request does to the cache: it has an answer [data] to a request for a
    page, and caches it; it has it confirmed; it uses it; or the operator deletes. *)
Inductive CacheEvent : Type :=
| OtherReply (faults : SqlFaults) (now : Z) (url : list byte) (inm : option (list byte)) (data : list byte)
| OtherConfirm (now : Z) (url : list byte)
| OtherUse (now : Z) (url : list byte)
| OtherDelete (url : list byte)
| OtherClear.

(** The clock in nanoseconds and the failures met at an access, after what others did *)
Record Tick : Type := mkTick {
  others : list CacheEvent;
  wall : Z;
  poisoned : bool;
  statement_fails : bool;
  insert_faults : SqlFaults }.
Definition quiet_tick : Tick := mkTick [] 0 false false no_faults.

Record Web (T : Type) : Type := mkWeb {
  world : World T;
  actor_callsign : list byte;
  cache : option Cache;
  ticks : list Tick;
  ahead : list (list TransportCommand);
  replies : list (Request * list byte) }.
Arguments mkWeb {T}. Arguments world {T}. Arguments actor_callsign {T}. Arguments cache {T}.
Arguments ticks {T}. Arguments ahead {T}. Arguments replies {T}.

(** The parts of [AppContext] that stay as they are at start-up *)
Record Settings : Type := mkSettings {
  timeout_secs : Z;
  auto_reconnect : bool;
  cache_max_ttl : Z }.

Inductive HttpResponse : Type :=
| SeeOther (location : list byte)
| HtmlResponse (body : list byte) (cache_control etag_header : option (list byte))
| NotModified304 (etag_header : list byte).

(** Handlers answer: they have no error of their own. *)
Inductive Never : Type := .

Definition display_protocol_error (e : ProtocolError) : list byte :=
  match e with
  | InvalidRequest => bs "Invalid request format"
  | InvalidResponse => bs "Invalid response format"
  | UrlTooLong => bs "URL too long"
  | PayloadTooLarge => bs "Payload too large"
  end.
Definition display_compression_error (e : CompressionError) : list byte :=
  match e with
  | CompressFailed m => bs "Compression failed: " ++ m
  | DecompressFailed m => bs "Decompression failed: " ++ m
  | TooLarge => bs "Decompressed data too large"
  end.

(** The seconds since the epoch, 0 before it *)
Definition wall_secs (nanoseconds : Z) : Z := Z.max nanoseconds 0 / 1000000000.

Section Browse.
Context {T : Type} `{Transport T} `{UnicodeCase} `{DebugFormat} `{Base64} `{Brotli} `{HttpHeaders}.
Context `{Sqlite} `{UrlCrate} `{LolHtml}.

Abbreviation Handler := (M (Web T) Never).

(** What an answer to a request for a page holds, when it can be cached *)
Definition page_of (data : list byte) : option (list byte * list byte * Z) :=
  match decode_header data with
  | Ok (Some h) =>
      let b64_end := (h_end h + Z.to_nat (h_len h))%nat in
      if (length data <? b64_end)%nat then None
      else
        match h_status h with
        | Status.Ok =>
            match (seg ← slice (h_end h) b64_end data; decode_payload seg) with
            | Ok compressed => Some (h_etag h, compressed, h_max_age h)
            | _ => None
            end
        | _ => None
        end
  | _ => None
  end.

Definition run_event (ev : CacheEvent) (c : Cache) : Cache :=
  match ev with
  | OtherReply faults now url _ data =>
      match page_of data with
      | Some (tag, body, age) => insert_page faults now url tag body age c
      | None => c
      end
  | OtherConfirm now url => touch_fresh false now url c
  | OtherUse now url => touch_last_used false now url c
  | OtherDelete url => delete_url false url c
  | OtherClear => clear false c
  end.
Definition event_reply (ev : CacheEvent) : list (Request * list byte) :=
  match ev with OtherReply _ _ url inm data => [(Get url inm, data)] | _ => [] end.

Definition set_world (wd : World T) (w : Web T) : Web T :=
  mkWeb wd (actor_callsign w) (cache w) (ticks w) (ahead w) (replies w).
Definition set_cache (c : option Cache) (w : Web T) : Web T :=
  mkWeb (world w) (actor_callsign w) c (ticks w) (ahead w) (replies w).
Definition log_reply (r : Request) (data : list byte) (w : Web T) : Web T :=
  mkWeb (world w) (actor_callsign w) (cache w) (ticks w) (ahead w) (replies w ++ [(r, data)]).

(** The others' requests up to the next access *)
Definition tick (w : Web T) : Tick * Web T :=
  let t := default quiet_tick (head (ticks w)) in
  (t, mkWeb (world w) (actor_callsign w)
        (fold_left (fun c ev => run_event ev c) (others t) <$> cache w)
        (tail (ticks w)) (ahead w) (replies w ++ mjoin (map event_reply (others t)))).

(** A method of the cache, when there is one *)
Definition on_cache {A} (absent : A) (f : Tick -> Cache -> A * Cache) : Handler A := fun w =>
  let (t, w') := tick w in
  match cache w' with
  | Some c => let (a, c') := f t c in (Ok a, set_cache (Some c') w')
  | None => (Ok absent, w')
  end.
Definition wall_now : Handler Z := fun w => let (t, w') := tick w in (Ok (wall t), w').

Definition lookup_page (url : list byte) : Handler (option Hit) :=
  on_cache None (fun t c => (lookup_url (poisoned t) url c, c)).
Definition mark_used (url : list byte) : Handler unit :=
  on_cache tt (fun t c => (tt, touch_last_used (statement_fails t) (wall_secs (wall t)) url c)).
Definition mark_fresh (url : list byte) : Handler unit :=
  on_cache tt (fun t c => (tt, touch_fresh (statement_fails t) (wall_secs (wall t)) url c)).
Definition store_page (url tag body : list byte) (age : Z) : Handler unit :=
  on_cache tt (fun t c => (tt, insert_page (insert_faults t) (wall_secs (wall t)) url tag body age c)).

(** [state.connection_state != ConnectionState::Connected] *)
Definition is_connected (a : AppState) : bool :=
  match connection_state a with CsConnected => true | _ => false end.
Definition connected : Handler bool := fun w =>
  let wd := sync (world w) in (Ok (is_connected (app wd)), set_world wd w).

(** A command of the actor: the commands queued before it, then it *)
Definition call_manager (cfg : Settings) (cmd : TransportCommand) : M (Web T) AgwpeError (list byte) := fun w =>
  let secs := session_timeout (timeout_secs cfg) in
  let '(_, call, wd) := run_queue secs (default [] (head (ahead w))) (actor_callsign w) (world w) in
  let '(r, call', wd') := step secs cmd call wd in
  (match r with Bytes b => b | Done _ => Err TaskStopped end,
   mkWeb wd' call' (cache w) (ticks w) (tail (ahead w)) (replies w)).

(** ** Answers *)

Definition DQ : list byte := [x22].
Definition error_response (msg : list byte) : HttpResponse := HtmlResponse (error_page msg) None None.

Definition effective_ttl_secs (server_max_age config_cap_secs : Z) : Z :=
  if server_max_age <=? 0 then 0 else Z.min (as_u64 server_max_age) config_cap_secs.

Definition build_cached_html_response (body tag : list byte) (ttl_secs : Z) : HttpResponse :=
  HtmlResponse body (header_from_str (bs "private, max-age=" ++ display ttl_secs))
    (header_from_str (DQ ++ tag ++ DQ)).

(** The page shown for a body, or what is wrong with it *)
Definition render (not_utf8 url compressed : list byte) (shown : list byte -> HttpResponse) : Handler HttpResponse :=
  catch (lift (brotli_decompress compressed)) (fun r =>
    match r with
    | inl e => mret (error_response (bs "Decompression failed: " ++ display_compression_error e))
    | inr decompressed =>
        match from_utf8 decompressed with
        | None => mret (error_response not_utf8)
        | Some html =>
            match rewrite_html html url with
            | inl e => mret (error_response (bs "Failed to rewrite HTML: " ++ display_rewrite_error e))
            | inr rewritten => mret (shown (browse_page rewritten url))
            end
        end
    end).

(** The seconds a hit has left *)
Definition remaining_secs (now : Z) (h : Hit) : Z :=
  let age := now - hit_fetched_at h in
  if age <? 0 then 0 else Z.max (hit_max_age h - age) 0 / 1000000000.

Definition serve_from_hit (hit : Hit) (url : list byte) : Handler HttpResponse :=
  now ← wall_now;
  render (bs "Invalid UTF-8 in cached response") url (hit_body hit)
    (fun body => build_cached_html_response body (hit_etag hit) (remaining_secs now hit)).

(** ** A request over the radio *)

Definition request_etag (r : Request) : option (list byte) :=
  match r with Get _ inm => inm | Post _ _ => None end.

Definition NOT_CACHED : list byte := bs "Server sent NotModified but no cache entry is available".

(** The answer's payload, decoded *)
Definition payload_of (data : list byte) (h : Header) : Result ProtocolError (list byte) :=
  seg ← slice (h_end h) (h_end h + Z.to_nat (h_len h))%nat data; decode_payload seg.
Definition with_payload (data : list byte) (h : Header) (k : list byte -> Handler HttpResponse)
    : Handler HttpResponse :=
  catch (lift (payload_of data h)) (fun r =>
    match r with
    | inl e => mret (error_response (bs "Base64 decode failed: " ++ display_protocol_error e))
    | inr compressed => k compressed
    end).

(** The body of an error is its text. *)
Definition show_error_text (compressed : list byte) : Handler HttpResponse :=
  catch (lift (brotli_decompress compressed)) (fun r =>
    match r with
    | inl e => mret (error_response (bs "Decompression failed: " ++ display_compression_error e))
    | inr d => mret (error_response (default (bs "Invalid UTF-8") (from_utf8 d)))
    end).

Definition handle_not_modified (url tag : list byte) (may_write : bool) (sent : option (list byte))
    : Handler HttpResponse :=
  cached ← gets (fun w => match cache w with Some _ => may_write | None => false end);
  if cached && bool_decide (sent = Some tag) then
    _ ← mark_fresh url;
    hit ← lookup_page url;
    match hit with
    | Some hit => serve_from_hit hit url
    | None => mret (error_response NOT_CACHED)
    end
  else mret (error_response NOT_CACHED).

Definition handle_ok (cfg : Settings) (url compressed : list byte) (h : Header) (may_write : bool)
    : Handler HttpResponse :=
  _ ← (if may_write then store_page url (h_etag h) compressed (h_max_age h) else mret tt);
  render (bs "Invalid UTF-8 in response") url compressed
    (fun body => build_cached_html_response body (h_etag h)
                   (effective_ttl_secs (h_max_age h) (cache_max_ttl cfg))).

Definition handle_response (cfg : Settings) (url : list byte) (sent : option (list byte))
    (may_write : bool) (data : list byte) : Handler HttpResponse :=
  catch (lift (decode_header data)) (fun r =>
    match r with
    | inl e => mret (error_response (bs "Invalid response header: " ++ display_protocol_error e))
    | inr None => mret (error_response (bs "Incomplete response header"))
    | inr (Some h) =>
        if (length data <? h_end h + Z.to_nat (h_len h))%nat
        then mret (error_response (bs "Incomplete response payload"))
        else
          match h_status h with
          | Status.NotModified => handle_not_modified url (h_etag h) may_write sent
          | Status.Ok => with_payload data h (fun compressed => handle_ok cfg url compressed h may_write)
          | Status.Err | Status.Blocked => with_payload data h show_error_text
          end
    end).

Definition session_error (msg : list byte) : HttpResponse :=
  HtmlResponse (render_session_error_page msg true) None None.

Definition failure_response (e : AgwpeError) : HttpResponse :=
  match e with
  | NeedsReconsent =>
      session_error (bs "Session dropped and the disclaimer text changed. Please reconnect and re-consent.")
  | SessionDied reason => session_error (bs "Session lost: " ++ reason ++ bs ". Please reconnect.")
  | DisconnectedByOperator => session_error (bs "Request cancelled by operator disconnect.")
  | e => error_response (bs "Request failed: " ++ display_agwpe_error e)
  end.

Definition dispatch_ax25 (cfg : Settings) (url : list byte) (request : Request) (may_write : bool)
    : Handler HttpResponse :=
  let encoded := encode_request request in
  catch (call_manager cfg (if auto_reconnect cfg then SendRequestWithReconnect encoded
                           else SendRequest encoded)) (fun r =>
    match r with
    | inl e => mret (failure_response e)
    | inr data =>
        _ ← modify (log_reply request data);
        handle_response cfg url (request_etag request) may_write data
    end).

(** ** The handlers *)

Definition serve_cached (url : list byte) (browser_if_none_match : option (list byte))
    : Handler (option HttpResponse) :=
  hit ← lookup_page url;
  match hit with
  | None => mret None
  | Some hit =>
      now ← wall_now;
      if is_fresh now hit then
        _ ← mark_used url;
        if bool_decide (browser_if_none_match = Some (hit_etag hit)) then
          match header_from_str (DQ ++ hit_etag hit ++ DQ) with
          | Some v => mret (Some (NotModified304 v))
          | None => lift Panic
          end
        else r ← serve_from_hit hit url; mret (Some r)
      else mret None
  end.

Definition handle_browse (cfg : Settings) (url : list byte) (post_body : option (list byte))
    (nocache : bool) (browser_if_none_match : option (list byte)) : Handler HttpResponse :=
  up ← connected;
  if negb up then mret (SeeOther (bs "/connect"))
  else
    match post_body with
    | Some body => dispatch_ax25 cfg url (Post url body) false
    | None =>
        served ← (if nocache then mret None else serve_cached url browser_if_none_match);
        match served with
        | Some r => mret r
        | None =>
            cached_etag ← (if nocache then mret None
                           else hit ← lookup_page url; mret (hit_etag <$> hit));
            dispatch_ax25 cfg url (Get url cached_etag) true
        end
    end.

Definition trim_matches (c : byte) (s : list byte) : list byte :=
  trim_end_matches (Byte.eqb c) (trim_start_matches (Byte.eqb c) s).

Record BrowseParams : Type := mkBrowseParams {
  param_url : option (list byte);
  param_nocache : option (list byte) }.

Definition browse_get_handler (cfg : Settings) (params : BrowseParams) (hs : Headers)
    : Handler HttpResponse :=
  match param_url params with
  | None | Some [] =>
      up ← connected;
      mret (if negb up then SeeOther (bs "/connect") else HtmlResponse (browse_page [] []) None None)
  | Some url =>
      let nocache := bool_decide (param_nocache params = Some (bs "1")) in
      let browser_inm := trim_matches x22 <$> header_text (bs "if-none-match") hs in
      handle_browse cfg url None nocache browser_inm
  end.

Record BrowsePostParams : Type := mkBrowsePostParams { post_url : option (list byte) }.

Definition browse_post_handler (cfg : Settings) (params : BrowsePostParams) (body : list byte)
    : Handler HttpResponse :=
  match post_url params with
  | None | Some [] => mret (SeeOther (bs "/connect"))
  | Some url => handle_browse cfg url (Some body) true None
  end.
End Browse.

(** ** Where pages come from *)

Section Provenance.
Context {T : Type} `{TransportLaws T} `{UnicodeCase} `{DebugFormat} `{Base64} `{Brotli} `{HttpHeadersLaws}.
Context `{Sqlite} `{UrlCrate} `{LolHtml}.

Abbreviation Replies := (list (Request * list byte)).

(** A tag and a body that came as the answer to a request for the page, or to this
    POST of it *)
Definition sourced (reps : Replies) (url : list byte) (post : option (list byte))
    (tag body : list byte) : Prop :=
  exists req data age, (req, data) ∈ reps /\ page_of data = Some (tag, body, age)
    /\ match post with
       | None => exists inm, req = Get url inm
       | Some b => req = Post url b
       end.
Definition cache_sourced (reps : Replies) (c : Cache) : Prop :=
  forall url r, entries c !! url = Some r -> sourced reps url None (Cache.etag r) (brotli_body r).
Definition web_wf (w : Web T) : Prop :=
  match cache w with Some c => cache_sourced (replies w) c | None => True end.

Lemma sourced_mono reps reps' url post tag body :
  reps `prefix_of` reps' -> sourced reps url post tag body -> sourced reps' url post tag body.
Proof.
  intros [more ->] (req & data & age & Hin & Hrest). exists req, data, age.
  split; [|done]. apply elem_of_app. by left.
Qed.

Lemma evict_subset fails url victims : forall over t k r,
  evict fails url over victims t !! k = Some r -> t !! k = Some r.
Proof.
  induction victims as [|[v rv] rest IH]; intros over t k r; simpl; [done|].
  destruct (over <=? 0); [done|]. case_bool_decide; [apply IH|].
  destruct (fails v); [apply IH|]. intros Hk. apply IH in Hk.
  by apply lookup_delete_Some in Hk as [_ Hk].
Qed.

(** A row after an insertion is the new one, or was there. *)
Lemma insert_page_rows faults now url tag body age c k r :
  entries (insert_page faults now url tag body age c) !! k = Some r ->
  (k = url /\ Cache.etag r = tag /\ brotli_body r = body) \/ entries c !! k = Some r.
Proof.
  unfold insert_page. destruct (_ <? 0); [by right|]. destruct (begin_fails faults); [by right|].
  destruct (upsert_fails faults); [by right|]. destruct (commit_fails faults); [by right|].
  cbn [entries with_entries]. intros Hk.
  assert (Hi : <[url := new_row now tag body age c]> (entries c) !! k = Some r).
  { revert Hk. case_match; [apply evict_subset|done]. }
  apply lookup_insert_Some in Hi as [[<- <-]|[_ Hi]]; [by left|by right].
Qed.

Lemma alter_rows (f : Row -> Row) (t : gmap (list byte) Row) url k r :
  (forall r, Cache.etag (f r) = Cache.etag r /\ brotli_body (f r) = brotli_body r) ->
  alter f url t !! k = Some r ->
  exists r', t !! k = Some r' /\ Cache.etag r = Cache.etag r' /\ brotli_body r = brotli_body r'.
Proof.
  intros Hf Hk. apply lookup_alter_Some in Hk as [(-> & r' & Hr & ->)|[_ Hk]].
  - exists r'. split; [done|]. apply Hf.
  - by exists r.
Qed.

Lemma touched_sourced reps f c url :
  (forall r, Cache.etag (f r) = Cache.etag r /\ brotli_body (f r) = brotli_body r) ->
  cache_sourced reps c -> cache_sourced reps (with_entries (alter f url (entries c)) c).
Proof.
  intros Hf Hc k r Hk. apply (alter_rows f) in Hk as (r' & Hk & -> & ->); [|done]. by apply Hc.
Qed.
Lemma touch_fresh_sourced reps fails now url c :
  cache_sourced reps c -> cache_sourced reps (touch_fresh fails now url c).
Proof. intros Hc. unfold touch_fresh. destruct fails; [done|]. by apply touched_sourced. Qed.
Lemma touch_last_used_sourced reps fails now url c :
  cache_sourced reps c -> cache_sourced reps (touch_last_used fails now url c).
Proof. intros Hc. unfold touch_last_used. destruct fails; [done|]. by apply touched_sourced. Qed.
Lemma insert_sourced reps faults now url tag body age c :
  sourced reps url None tag body -> cache_sourced reps c ->
  cache_sourced reps (insert_page faults now url tag body age c).
Proof.
  intros Hs Hc k r Hk. apply insert_page_rows in Hk as [(-> & -> & ->)|Hk]; [done|by apply Hc].
Qed.

Lemma run_event_sourced reps ev c :
  cache_sourced reps c -> cache_sourced (reps ++ event_reply ev) (run_event ev c).
Proof.
  intros Hc. assert (Hc' : cache_sourced (reps ++ event_reply ev) c).
  { intros k r Hk. eapply sourced_mono; [by apply prefix_app_r|by apply Hc]. }
  destruct ev as [faults now url inm data|now url|now url|url|]; cbn [run_event event_reply] in *.
  - destruct (page_of data) as [[[tag body] age]|] eqn:E; [|done]. apply insert_sourced; [|done].
    exists (Get url inm), data, age. split_and!; [apply elem_of_app; right; by left|done|by exists inm].
  - by apply touch_fresh_sourced.
  - by apply touch_last_used_sourced.
  - intros k r Hk. unfold delete_url in Hk. cbn in Hk. apply lookup_delete_Some in Hk as [_ Hk].
    by apply Hc'.
  - intros k r Hk. unfold clear in Hk. cbn in Hk. by rewrite lookup_empty in Hk.
Qed.

Lemma run_events_sourced evs : forall reps c,
  cache_sourced reps c ->
  cache_sourced (reps ++ mjoin (map event_reply evs)) (fold_left (fun c ev => run_event ev c) evs c).
Proof.
  induction evs as [|ev evs IH]; intros reps c Hc; cbn [fold_left map].
  - by rewrite app_nil_r.
  - change (mjoin (event_reply ev :: map event_reply evs))
      with (event_reply ev ++ mjoin (map event_reply evs)).
    rewrite app_assoc. by apply IH, run_event_sourced.
Qed.

(** ** Runs of handlers

    From a state with at least these replies, a run returns, keeps the cache sourced,
    and a value it gives is as [Q] says of the replies there are then. *)
Definition runs {E A} (reps : Replies) (m : M (Web T) E A) (Q : Replies -> A -> Prop) : Prop :=
  forall w, web_wf w -> reps `prefix_of` replies w ->
    returns (m w).1 /\ web_wf (m w).2 /\ replies w `prefix_of` replies (m w).2
    /\ forall a, (m w).1 = Ok a -> Q (replies (m w).2) a.

Lemma runs_ret {E A} reps (a : A) (Q : Replies -> A -> Prop) :
  (forall reps', reps `prefix_of` reps' -> Q reps' a) -> runs reps (mret a : M (Web T) E A) Q.
Proof. intros Ha w Hw Hp. split_and!; [done|done|done|]. intros b [= <-]. by apply Ha. Qed.

Lemma runs_bind {E A B} reps (m : M (Web T) E A) (k : A -> M (Web T) E B) Q1 Q2 :
  runs reps m Q1 ->
  (forall reps' a, reps `prefix_of` reps' -> Q1 reps' a -> runs reps' (k a) Q2) ->
  runs reps (m ≫= k) Q2.
Proof.
  intros Hm Hk w Hw Hp. destruct (Hm w Hw Hp) as (Hr & Hw1 & Hp1 & Hq).
  unfold mbind, M_bind. destruct (m w) as [[a|e| |] w1]; cbn in *; [|by split_and!|done..].
  destruct (Hk (replies w1) a) with (w := w1) as (Hr2 & Hw2 & Hp2 & Hq2); auto.
  { by etrans. }
  split_and!; [done|done|by etrans|done].
Qed.

Lemma runs_catch {E F A B} reps (m : M (Web T) E A) (k : E + A -> M (Web T) F B) Q1 Q2 :
  runs reps m Q1 ->
  (forall reps' e, reps `prefix_of` reps' -> runs reps' (k (inl e)) Q2) ->
  (forall reps' a, reps `prefix_of` reps' -> Q1 reps' a -> runs reps' (k (inr a)) Q2) ->
  runs reps (catch m k) Q2.
Proof.
  intros Hm He Hk w Hw Hp. destruct (Hm w Hw Hp) as (Hr & Hw1 & Hp1 & Hq).
  unfold catch. destruct (m w) as [[a|e| |] w1]; cbn in *; [..|done|done].
  - destruct (Hk (replies w1) a) with (w := w1) as (Hr2 & Hw2 & Hp2 & Hq2); auto.
    { by etrans. }
    split_and!; [done|done|by etrans|done].
  - destruct (He (replies w1) e) with (w := w1) as (Hr2 & Hw2 & Hp2 & Hq2); auto.
    { by etrans. }
    split_and!; [done|done|by etrans|done].
Qed.

Lemma runs_lift {E A} reps (r : Result E A) : returns r -> runs reps (lift r) (fun _ a => r = Ok a).
Proof. intros Hr w Hw Hp. by split_and!. Qed.
Lemma runs_gets {E A} reps (f : Web T -> A) (P : A -> Prop) :
  (forall w, P (f w)) -> runs (E:=E) reps (gets f) (fun _ a => P a).
Proof. intros Hf w Hw Hp. split_and!; [done..|]. by intros a [= <-]. Qed.

(** A weaker claim, from more replies *)
Lemma runs_mono {E A} reps (m : M (Web T) E A) (Q Q' : Replies -> A -> Prop) :
  runs reps m Q -> (forall reps' a, reps `prefix_of` reps' -> Q reps' a -> Q' reps' a) -> runs reps m Q'.
Proof.
  intros Hm HQ w Hw Hp. destruct (Hm w Hw Hp) as (Hr & Hw' & Hp' & Hq).
  split_and!; [done|done|done|]. intros a Ha. apply HQ; [by etrans|by apply Hq].
Qed.

(** *** The cache *)

Lemma tick_wf w : web_wf w ->
  web_wf (tick w).2 /\ replies w `prefix_of` replies (tick w).2
  /\ world (tick w).2 = world w.
Proof.
  intros Hw. unfold tick. cbn [snd]. split_and!; [|by apply prefix_app_r|done].
  unfold web_wf in *. cbn [cache replies]. destruct (cache w) as [c|]; [|done].
  cbn [fmap option_fmap option_map]. by apply run_events_sourced.
Qed.

Lemma runs_on_cache {A} reps (absent : A) (f : Tick -> Cache -> A * Cache) (Q : Replies -> A -> Prop) :
  (forall reps', reps `prefix_of` reps' -> Q reps' absent) ->
  (forall reps' t c, reps `prefix_of` reps' -> cache_sourced reps' c ->
     cache_sourced reps' (f t c).2 /\ Q reps' (f t c).1) ->
  runs reps (on_cache absent f) Q.
Proof.
  intros Ha Hf w Hw Hp. destruct (tick_wf w Hw) as (Hw1 & Hp1 & _). unfold on_cache.
  destruct (tick w) as [t w1]. cbn [snd] in *. unfold web_wf in Hw1.
  destruct (cache w1) as [c|] eqn:Ec.
  - destruct (Hf (replies w1) t c) as [Hc Hq]; [by etrans|done|].
    destruct (f t c) as [a c']. cbn in *. split_and!; [done|done|done|by intros b [= <-]].
  - cbn. split_and!; [done|by unfold web_wf; rewrite Ec|done|]. intros b [= <-]. apply Ha. by etrans.
Qed.

Lemma runs_wall_now reps : runs reps wall_now (fun _ _ => True).
Proof.
  intros w Hw Hp. unfold wall_now. destruct (tick_wf w Hw) as (Hw1 & Hp1 & _).
  destruct (tick w) as [t w1]. by split_and!.
Qed.

(** A hit with the tag and the body of an answer for the page *)
Definition hit_sourced (reps : Replies) (url : list byte) (h : Hit) : Prop :=
  sourced reps url None (hit_etag h) (hit_body h).

Lemma runs_lookup reps url :
  runs reps (lookup_page url) (fun reps' o => forall h, o = Some h -> hit_sourced reps' url h).
Proof.
  apply runs_on_cache; [done|]. intros reps' t c _ Hc. cbn [fst snd]. split; [done|].
  unfold lookup_url. destruct (poisoned t); [done|].
  destruct (entries c !! url) as [r|] eqn:E; [|done]. intros h [= <-]. by apply Hc in E.
Qed.
Lemma runs_mark_used reps url : runs reps (mark_used url) (fun _ _ => True).
Proof. apply runs_on_cache; [done|]. intros reps' t c _ Hc. split; [|done]. by apply touch_last_used_sourced. Qed.
Lemma runs_mark_fresh reps url : runs reps (mark_fresh url) (fun _ _ => True).
Proof. apply runs_on_cache; [done|]. intros reps' t c _ Hc. split; [|done]. by apply touch_fresh_sourced. Qed.
Lemma runs_store reps url tag body age :
  sourced reps url None tag body -> runs reps (store_page url tag body age) (fun _ _ => True).
Proof.
  intros Hs. apply runs_on_cache; [done|]. intros reps' t c Hp Hc. split; [|done].
  apply insert_sourced; [|done]. by eapply sourced_mono.
Qed.

(** *** The actor *)

Lemma step_request secs cmd call wd :
  is_request cmd = true ->
  exists r call' wd', step secs cmd call wd = (Bytes r, call', wd') /\ returns r.
Proof.
  destruct cmd; try done; intros _; unfold step.
  - pose proof (does_returns _ _ _ (send_request_does secs data wd)) as Hr.
    destruct (handle_send_request secs data wd) as [r w']. by eexists _, _, _.
  - pose proof (does_returns _ _ _ (retry_does secs data call wd)) as Hr.
    destruct (handle_send_request_with_reconnect secs data call wd) as [r w']. by eexists _, _, _.
Qed.

Lemma runs_call reps cfg cmd :
  is_request cmd = true -> runs reps (call_manager cfg cmd) (fun _ _ => True).
Proof.
  intros Hc w Hw Hp. unfold call_manager. destruct (run_queue _ _ _ _) as [[rs call] wd].
  destruct (step_request (session_timeout (timeout_secs cfg)) cmd call wd Hc) as (r & call' & wd' & -> & Hr).
  by split_and!.
Qed.

Lemma runs_connected reps : runs reps connected (fun _ _ => True).
Proof. intros w Hw Hp. by split_and!. Qed.

Lemma runs_log reps req data :
  runs (E:=Never) reps (modify (log_reply req data)) (fun reps' _ => (req, data) ∈ reps').
Proof.
  intros w Hw Hp. cbn. split_and!; [done| |by apply prefix_app_r|].
  - unfold web_wf in *. cbn. destruct (cache w) as [c|]; [|done]. intros k r Hk.
    apply (sourced_mono (replies w)); [by apply prefix_app_r|exact (Hw k r Hk)].
  - intros _ _. apply elem_of_app. right. by left.
Qed.

(** *** Responses *)

(** What a response of [/browse] is *)
Inductive shows (reps : Replies) (url : list byte) (post : option (list byte)) : HttpResponse -> Prop :=
| shows_redirect : shows reps url post (SeeOther (bs "/connect"))
| shows_error msg : shows reps url post (error_response msg)
| shows_session_error msg : shows reps url post (session_error msg)
| shows_not_modified tag body :
    post = None -> sourced reps url None tag body ->
    shows reps url post (NotModified304 (DQ ++ tag ++ DQ))
| shows_page tag compressed decompressed html rewritten ttl :
    sourced reps url post tag compressed ->
    brotli_decompress compressed = Ok decompressed -> from_utf8 decompressed = Some html ->
    rewrite_html html url = inr rewritten ->
    shows reps url post (build_cached_html_response (browse_page rewritten url) tag ttl).

Lemma shows_mono reps reps' url post r :
  reps `prefix_of` reps' -> shows reps url post r -> shows reps' url post r.
Proof.
  intros Hp [|msg|msg|tag body Hpost Hs|tag compressed d html rewritten ttl Hs Hd Hu Hr].
  - apply shows_redirect.
  - apply shows_error.
  - apply shows_session_error.
  - eapply shows_not_modified; [exact Hpost|by eapply sourced_mono].
  - eapply shows_page; [by eapply sourced_mono|exact Hd|exact Hu|exact Hr].
Qed.

Lemma decompress_loop_returns reads : forall output, returns (decompress_loop reads output).
Proof.
  induction reads as [|[e|b] rest IH]; intros output; cbn; [done..|].
  destruct (length b =? 0)%nat; [done|]. destruct (_ <? _); [done|apply IH].
Qed.
Lemma decompress_returns data : returns (brotli_decompress data).
Proof. apply decompress_loop_returns. Qed.

Lemma runs_done reps url post resp :
  (forall reps', reps `prefix_of` reps' -> shows reps' url post resp) ->
  runs (E:=Never) reps (mret resp) (fun reps' r => shows reps' url post r).
Proof. intros Hs. by apply runs_ret. Qed.
#[local] Opaque error_response session_error build_cached_html_response.
Ltac shown := apply runs_done; intros ? ?; apply shows_error.

Lemma runs_render reps bad url post compressed tag ttl :
  sourced reps url post tag compressed ->
  runs reps (render bad url compressed (fun body => build_cached_html_response body tag ttl))
    (fun reps' r => shows reps' url post r).
Proof.
  intros Hs. unfold render. eapply runs_catch; [apply runs_lift, decompress_returns|by intros; shown|].
  intros reps' d Hp Hd. destruct (from_utf8 d) as [html|] eqn:Eu; [|shown].
  destruct (rewrite_html html url) as [e|rewritten] eqn:Er; [shown|].
  apply runs_done. intros reps'' Hp'. eapply shows_page; [|exact Hd|exact Eu|exact Er].
  eapply sourced_mono; [|exact Hs]. by etrans.
Qed.

Lemma runs_serve reps hit url :
  hit_sourced reps url hit -> runs reps (serve_from_hit hit url) (fun reps' r => shows reps' url None r).
Proof.
  intros Hs. unfold serve_from_hit. eapply runs_bind; [apply runs_wall_now|].
  intros reps' now Hp _. apply runs_render. by eapply sourced_mono.
Qed.

Lemma payload_of_returns data h :
  (h_end h + Z.to_nat (h_len h) <= length data)%nat -> returns (payload_of data h).
Proof.
  intros Hl. unfold payload_of. rewrite slice_ok by lia. cbn [mbind Result_bind].
  unfold decode_payload, ok_or. by destruct (b64_decode _).
Qed.

Lemma runs_with_payload reps url post data h k :
  (h_end h + Z.to_nat (h_len h) <= length data)%nat ->
  (forall reps' compressed, reps `prefix_of` reps' -> payload_of data h = Ok compressed ->
     runs reps' (k compressed) (fun reps' r => shows reps' url post r)) ->
  runs reps (with_payload data h k) (fun reps' r => shows reps' url post r).
Proof.
  intros Hl Hk. unfold with_payload.
  eapply runs_catch; [by apply runs_lift, payload_of_returns|by intros; shown|]. auto.
Qed.

Lemma runs_error_text reps url post compressed :
  runs reps (show_error_text compressed) (fun reps' r => shows reps' url post r).
Proof.
  unfold show_error_text. eapply runs_catch; [apply runs_lift, decompress_returns|by intros; shown|].
  intros. shown.
Qed.

Lemma runs_not_modified reps url post tag may_write sent :
  (may_write = true -> post = None) ->
  runs reps (handle_not_modified url tag may_write sent) (fun reps' r => shows reps' url post r).
Proof.
  intros Hpost. unfold handle_not_modified.
  eapply runs_bind; [apply (runs_gets _ _ (fun b : bool => b = true -> post = None));
    intros w; by destruct (cache w)|].
  intros reps1 b Hp1 Hb. destruct (b && _) eqn:E; [|shown].
  apply andb_true_iff in E as [-> _]. rewrite (Hb eq_refl).
  eapply runs_bind; [apply runs_mark_fresh|]. intros reps2 [] Hp2 _.
  eapply runs_bind; [apply runs_lookup|]. intros reps3 [hit|] Hp3 Hh; [|shown].
  by apply runs_serve, Hh.
Qed.

(** The request the answer is to, as [sourced] asks *)
Definition asks_for (url : list byte) (post : option (list byte)) (req : Request) : Prop :=
  match post with None => exists inm, req = Get url inm | Some b => req = Post url b end.

Lemma page_of_ok data h compressed :
  decode_header data = Ok (Some h) -> (h_end h + Z.to_nat (h_len h) <= length data)%nat ->
  h_status h = Status.Ok -> payload_of data h = Ok compressed ->
  page_of data = Some (h_etag h, compressed, h_max_age h).
Proof.
  intros Hh Hl Hs Hc. unfold page_of. rewrite Hh. rewrite (proj2 (Nat.ltb_ge _ _)) by done.
  rewrite Hs. unfold payload_of in Hc. by rewrite Hc.
Qed.

Lemma runs_handle_ok reps cfg url post compressed h may_write :
  sourced reps url post (h_etag h) compressed -> (may_write = true -> post = None) ->
  runs reps (handle_ok cfg url compressed h may_write) (fun reps' r => shows reps' url post r).
Proof.
  intros Hs Hpost. unfold handle_ok. eapply (runs_bind _ _ _ (fun _ _ => True)).
  - destruct may_write; [|by apply runs_ret]. apply runs_store. by rewrite (Hpost eq_refl) in Hs.
  - intros reps' [] Hp _. apply runs_render. by eapply sourced_mono.
Qed.

Lemma runs_handle_response reps cfg url post req may_write data :
  asks_for url post req -> (req, data) ∈ reps -> (may_write = true -> post = None) ->
  runs reps (handle_response cfg url (request_etag req) may_write data)
    (fun reps' r => shows reps' url post r).
Proof.
  intros Hasks Hin Hpost. unfold handle_response.
  eapply runs_catch; [apply runs_lift, decode_header_returns|by intros; shown|].
  intros reps1 [h|] Hp1 Hh; [|shown].
  destruct (Nat.ltb_spec (length data) (h_end h + Z.to_nat (h_len h))) as [|Hl]; [shown|].
  destruct (h_status h) eqn:Est.
  - apply runs_with_payload; [done|]. intros reps2 compressed Hp2 Hc. apply runs_handle_ok; [|done].
    exists req, data, (h_max_age h). split; [eapply elem_of_prefix; [exact Hin|by etrans]|].
    split; [by apply page_of_ok|exact Hasks].
  - apply runs_with_payload; [done|]. intros. apply runs_error_text.
  - apply runs_with_payload; [done|]. intros. apply runs_error_text.
  - by apply runs_not_modified.
Qed.

Lemma runs_dispatch reps cfg url post req may_write :
  asks_for url post req -> (may_write = true -> post = None) ->
  runs reps (dispatch_ax25 cfg url req may_write) (fun reps' r => shows reps' url post r).
Proof.
  intros Hasks Hpost. unfold dispatch_ax25.
  eapply runs_catch; [apply runs_call; by destruct (auto_reconnect cfg)| |].
  - intros reps' e _. apply runs_done. intros reps2 _. destruct e; cbn [failure_response];
      (apply shows_session_error || apply shows_error).
  - intros reps' data _ _. eapply runs_bind; [apply runs_log|]. intros reps2 [] Hp2 Hin.
    by apply runs_handle_response.
Qed.

(** *** From the cache *)

Lemma page_etag data tag body age : page_of data = Some (tag, body, age) -> valid_etag tag = true.
Proof.
  unfold page_of. destruct (decode_header data) as [[h|]| | |] eqn:Eh; try done.
  destruct (_ <? _)%nat; [done|]. destruct (h_status h); try done.
  destruct (slice _ _ _ ≫= _); try done. intros [= <- _ _].
  by destruct (decode_header_ok _ _ Eh).
Qed.

Lemma valid_etag_visible tag : valid_etag tag = true -> forallb visible_ascii tag = true.
Proof.
  unfold valid_etag. intros [Hd|Hd]%orb_true_iff.
  - apply bool_decide_eq_true_1 in Hd as ->. done.
  - apply andb_true_iff in Hd as [_ Hd]. rewrite forallb_forall in *. intros b Hb.
    specialize (Hd b Hb). clear Hb. by destruct b.
Qed.

Lemma quoted_header tag : valid_etag tag = true -> header_from_str (DQ ++ tag ++ DQ) = Some (DQ ++ tag ++ DQ).
Proof.
  intros Hv. apply header_from_str_visible. by rewrite !forallb_app, (valid_etag_visible tag Hv).
Qed.

Lemma runs_serve_cached reps url inm :
  runs reps (serve_cached url inm) (fun reps' o => forall r, o = Some r -> shows reps' url None r).
Proof.
  unfold serve_cached. eapply runs_bind; [apply runs_lookup|].
  intros reps1 [hit|] Hp1 Hh; [|by apply runs_ret]. specialize (Hh hit eq_refl).
  eapply runs_bind; [apply runs_wall_now|]. intros reps2 now Hp2 _.
  destruct (is_fresh now hit); [|by apply runs_ret].
  eapply runs_bind; [apply runs_mark_used|]. intros reps3 [] Hp3 _.
  assert (Hs : sourced reps3 url None (hit_etag hit) (hit_body hit))
    by (eapply sourced_mono; [|done]; by etrans).
  case_bool_decide as Hinm.
  - assert (Hv : valid_etag (hit_etag hit) = true)
      by (destruct Hs as (? & ? & ? & _ & Hpg & _); by eapply page_etag).
    rewrite (quoted_header _ Hv). apply runs_ret. intros reps4 Hp4 r [= <-].
    eapply shows_not_modified; [done|by eapply sourced_mono].
  - eapply runs_bind; [by apply runs_serve|]. intros reps4 r Hp4 Hr. apply runs_ret.
    intros reps5 Hp5 r' [= <-]. by eapply shows_mono.
Qed.
End Provenance.

(** ** What the browser is shown *)

Section Theorems.
Context {T : Type} `{TransportLaws T} `{UnicodeCase} `{DebugFormat} `{Base64Laws} `{Brotli} `{HttpHeadersLaws}.
Context `{Sqlite} `{UrlCrate} `{LolHtml}.

Abbreviation Replies := (list (Request * list byte)).

Lemma runs_browse reps cfg url post nocache inm :
  runs reps (handle_browse (T:=T) cfg url post nocache inm) (fun reps' r => shows reps' url post r).
Proof.
  unfold handle_browse. eapply runs_bind; [apply runs_connected|]. intros reps1 up Hp1 _.
  destruct (negb up); [apply runs_done; intros; apply shows_redirect|].
  destruct post as [body|]; [by apply runs_dispatch|].
  eapply (runs_bind _ _ _ (fun reps' o => forall r, o = Some r -> shows reps' url None r)).
  { destruct nocache; [by apply runs_ret|apply runs_serve_cached]. }
  intros reps2 [resp|] Hp2 Hs.
  { apply runs_ret. intros reps3 Hp3. eapply shows_mono; [exact Hp3|by apply Hs]. }
  eapply (runs_bind _ _ _ (fun _ _ => True)).
  - destruct nocache; [by apply runs_ret|]. eapply runs_bind; [apply runs_lookup|].
    intros. by apply runs_ret.
  - intros reps3 tag Hp3 _. apply runs_dispatch; [by exists tag|done].
Qed.

(** What [runs] says of one run, for a handler *)
Lemma runs_handler {A} (m : M (Web T) Never A) (Q : Replies -> A -> Prop) w :
  runs [] m Q -> web_wf w ->
  let (r, w') := m w in web_wf w' /\ exists a, r = Ok a /\ Q (replies w') a.
Proof.
  intros Hr Hw. destruct (Hr w Hw (prefix_nil _)) as (Hret & Hw' & _ & Hq).
  destruct (m w) as [[a|[]| |] w']; cbn in *; [|done..]. split; [done|]. exists a. auto.
Qed.

(** C15: a request of the browser is always answered, whatever the node, the cache and
    other requests do: with a redirection, an error or a page, and the page is one that
    came over the radio as the answer to a request for this URL, now or when it was
    cached; a cached page always came so, with the tag it is kept under. *)
Theorem browse_answers cfg url post nocache inm (w : Web T) :
  web_wf w ->
  let (r, w') := handle_browse cfg url post nocache inm w in
  web_wf w' /\ exists resp, r = Ok resp /\ shows (replies w') url post resp.
Proof. intros Hw. exact (runs_handler _ _ w (runs_browse [] cfg url post nocache inm) Hw). Qed.

(** *** The cache alone *)

(** No other request uses the cache meanwhile, and its lock is not poisoned. *)
Definition cache_quiet (w : Web T) : Prop := Forall (fun t => others t = [] /\ poisoned t = false) (ticks w).
(** Nothing but the cache's rows differs *)
Definition offline (w w' : Web T) : Prop :=
  world w' = world w /\ replies w' = replies w /\ ahead w' = ahead w /\ actor_callsign w' = actor_callsign w.

Lemma tick_quiet (w : Web T) :
  cache_quiet w ->
  let (t, w') := tick w in
  t = default quiet_tick (head (ticks w)) /\ poisoned t = false /\ cache w' = cache w
  /\ offline w w' /\ cache_quiet w' /\ ticks w' = tail (ticks w).
Proof.
  intros Hq. unfold tick, cache_quiet in *. destruct (ticks w) as [|t ts] eqn:E; cbn.
  - rewrite app_nil_r. split_and!; try done. by destruct (cache w).
  - apply Forall_cons in Hq as [[Ho Hp] Hts]. rewrite Ho. cbn. rewrite app_nil_r.
    split_and!; try done. by destruct (cache w).
Qed.

Lemma offline_trans w1 w2 w3 : offline w1 w2 -> offline w2 w3 -> offline w1 w3.
Proof. intros (? & ? & ? & ?) (? & ? & ? & ?). split_and!; congruence. Qed.

Lemma on_cache_quiet {A} (absent : A) f (w : Web T) :
  cache_quiet w ->
  exists w' , on_cache absent f w = (Ok (match cache w with
                                        | Some c => (f (default quiet_tick (head (ticks w))) c).1
                                        | None => absent end), w')
  /\ offline w w' /\ cache_quiet w' /\ ticks w' = tail (ticks w).
Proof.
  intros Hq. unfold on_cache. pose proof (tick_quiet w Hq) as Ht. destruct (tick w) as [t w1].
  destruct Ht as (-> & _ & Hc & Ho & Hq1 & Ht1). rewrite Hc.
  destruct (cache w) as [c|]; [|by exists w1].
  destruct (f _ c) as [a c']. exists (set_cache (Some c') w1). by split_and!.
Qed.

(** What is shown for a body *)
Definition rendered (bad url compressed tag : list byte) (ttl : Z) : HttpResponse :=
  match brotli_decompress compressed with
  | Ok d =>
      match from_utf8 d with
      | Some html =>
          match rewrite_html html url with
          | inr rewritten => build_cached_html_response (browse_page rewritten url) tag ttl
          | inl e => error_response (bs "Failed to rewrite HTML: " ++ display_rewrite_error e)
          end
      | None => error_response bad
      end
  | Err e => error_response (bs "Decompression failed: " ++ display_compression_error e)
  | Panic | Spin => error_response []
  end.

Lemma render_rendered bad url compressed tag ttl (w : Web T) :
  render bad url compressed (fun body => build_cached_html_response body tag ttl) w
  = (Ok (rendered bad url compressed tag ttl), w).
Proof.
  unfold render, rendered, catch, lift. pose proof (decompress_returns compressed) as Hr.
  destruct (brotli_decompress compressed) as [d|e| |]; [|reflexivity|done..].
  destruct (from_utf8 d) as [html|]; [|reflexivity].
  by destruct (rewrite_html html url).
Qed.

(** The clock at the n-th access from here *)
Definition nth_wall (n : nat) (w : Web T) : Z := wall (default quiet_tick (head (drop n (ticks w)))).

Lemma wall_now_quiet (w : Web T) :
  cache_quiet w ->
  exists w', wall_now w = (Ok (nth_wall 0 w), w') /\ cache w' = cache w
    /\ offline w w' /\ cache_quiet w' /\ ticks w' = tail (ticks w).
Proof.
  intros Hq. unfold wall_now, nth_wall. rewrite drop_0. pose proof (tick_quiet w Hq) as Ht.
  destruct (tick w) as [t w1]. destruct Ht as (-> & _ & Hc & Ho & Hq1 & Ht1). by exists w1.
Qed.

Lemma lookup_quiet url (w : Web T) :
  cache_quiet w ->
  exists w', lookup_page url w = (Ok (cache w ≫= lookup_url false url), w') /\ cache w' = cache w
    /\ offline w w' /\ cache_quiet w' /\ ticks w' = tail (ticks w).
Proof.
  intros Hq. unfold lookup_page, on_cache. pose proof (tick_quiet w Hq) as Ht.
  destruct (tick w) as [t w1]. destruct Ht as (-> & Hp & Hc & Ho & Hq1 & Ht1). rewrite Hc.
  destruct (cache w) as [c|] eqn:Ec; [|exists w1; by split_and!]. rewrite Hp.
  exists (set_cache (Some c) w1). by split_and!.
Qed.

Lemma mark_used_quiet url (w : Web T) :
  cache_quiet w ->
  exists w', mark_used url w = (Ok tt, w') /\ offline w w' /\ cache_quiet w' /\ ticks w' = tail (ticks w).
Proof.
  intros Hq. destruct (on_cache_quiet tt (fun t c => (tt, touch_last_used (statement_fails t)
    (wall_secs (wall t)) url c)) w Hq) as (w1 & He & Ho). exists w1.
  split; [|done]. unfold mark_used. rewrite He. by destruct (cache w).
Qed.

(** C29: a page that is fresh in the cache is served without the radio, to a browser
    that asked for it with its tag by a 304, to others by the page with the seconds it
    has left; only the cache's rows may differ afterwards. *)
Theorem fresh_page_offline cfg url inm (w : Web T) c hit :
  web_wf w -> interference (world w) = [] -> is_connected (app (world w)) = true -> cache_quiet w ->
  cache w = Some c -> lookup_url false url c = Some hit -> is_fresh (nth_wall 1 w) hit = true ->
  exists w', offline w w'
    /\ handle_browse cfg url None false inm w
       = (Ok (if bool_decide (inm = Some (hit_etag hit)) then NotModified304 (DQ ++ hit_etag hit ++ DQ)
              else rendered (bs "Invalid UTF-8 in cached response") url (hit_body hit) (hit_etag hit)
                     (remaining_secs (nth_wall 3 w) hit)), w').
Proof.
  intros Hw Hi Hup Hq Hc Hl Hf. unfold handle_browse.
  assert (Hcon : connected w = (Ok true, set_world (world w) w)).
  { unfold connected. by rewrite (sync_alone _ Hi), Hup. }
  rewrite (bind_ok _ _ _ _ _ Hcon). cbn [negb].
  assert (Hsame : set_world (world w) w = w) by (by destruct w). rewrite Hsame. clear Hcon Hsame.
  assert (Hv : valid_etag (hit_etag hit) = true).
  { unfold web_wf in Hw. rewrite Hc in Hw. unfold lookup_url in Hl.
    destruct (entries c !! url) as [r|] eqn:E; [|done]. injection Hl as <-.
    destruct (Hw url r E) as (? & ? & ? & _ & Hpg & _). by eapply page_etag. }
  cut (exists w', offline w w' /\ serve_cached url inm w
       = (Ok (Some (if bool_decide (inm = Some (hit_etag hit)) then NotModified304 (DQ ++ hit_etag hit ++ DQ)
              else rendered (bs "Invalid UTF-8 in cached response") url (hit_body hit) (hit_etag hit)
                     (remaining_secs (nth_wall 3 w) hit))), w')).
  { intros (w' & Ho & Hs). exists w'. split; [exact Ho|]. by rewrite (bind_ok _ _ _ _ _ Hs). }
  unfold serve_cached. destruct (lookup_quiet url w Hq) as (w1 & E1 & C1 & O1 & Q1 & T1).
  rewrite (bind_ok _ _ _ _ _ E1), Hc. cbn [mbind option_bind]. rewrite Hl.
  destruct (wall_now_quiet w1 Q1) as (w2 & E2 & C2 & O2 & Q2 & T2). rewrite (bind_ok _ _ _ _ _ E2).
  assert (Hn : nth_wall 0 w1 = nth_wall 1 w).
  { unfold nth_wall. rewrite T1. by destruct (ticks w). }
  rewrite Hn, Hf. destruct (mark_used_quiet url w2 Q2) as (w3 & E3 & O3 & Q3 & T3).
  rewrite (bind_ok _ _ _ _ _ E3).
  assert (O : offline w w3) by (eapply offline_trans; [|eapply offline_trans]; done).
  case_bool_decide.
  - rewrite (quoted_header _ Hv). by exists w3.
  - unfold serve_from_hit. destruct (wall_now_quiet w3 Q3) as (w4 & E4 & _ & O4 & _).
    exists w4. split; [by eapply offline_trans|].
    assert (Hn3 : nth_wall 0 w3 = nth_wall 3 w).
    { unfold nth_wall. rewrite T3, T2, T1. by destruct (ticks w) as [|? [|? [|? ?]]]. }
    assert (Hserve : (now ← wall_now; render (bs "Invalid UTF-8 in cached response") url (hit_body hit)
        (fun body => build_cached_html_response body (hit_etag hit) (remaining_secs now hit))) w3
      = (Ok (rendered (bs "Invalid UTF-8 in cached response") url (hit_body hit) (hit_etag hit)
               (remaining_secs (nth_wall 3 w) hit)), w4)).
    { rewrite (bind_ok _ _ _ _ _ E4), Hn3. apply render_rendered. }
    by rewrite (bind_ok _ _ _ _ _ Hserve).
Qed.

(** *** The radio *)

(** The row left of an answer with a page *)
Definition stored_page (url : list byte) (r : Response) (w : Web T) : option Cache :=
  let t := default quiet_tick (head (ticks w)) in
  insert_page (insert_faults t) (wall_secs (wall t)) url (Protocol.etag r) (payload r) (Protocol.max_age r)
  <$> (fold_left (fun c ev => run_event ev c) (others t) <$> cache w).

(** After an answer the session goes on: nobody else runs, and of the chunks those are
    left that came behind the payload. *)
Definition goes_on (P : list (list byte) -> World T -> Prop) (rest : list byte) (chunks : list (list byte))
    (w' : Web T) : Prop :=
  exists used left, chunks = used ++ left /\ (exists before, LF :: rest = before ++ concat left)
  /\ quiet (world w') /\ P left (world w') /\ ahead w' = [].

Lemma call_manager_gets cfg P garbage rest r data chunks (w : Web T) :
  feeds (session_timeout (timeout_secs cfg)) P ->
  contains MAGIC (garbage ++ take 3 MAGIC) = false -> response_wf r ->
  Z.of_nat (length garbage) + 3 <= 32 * 1024 ->
  is_session_dead_payload (garbage ++ encode_response r ++ rest) = false ->
  Z.of_nat (length (garbage ++ encode_response r ++ rest)) <= MAX_RESPONSE_SIZE ->
  quiet (world w) -> ahead w = [] -> garbage ++ encode_response r ++ rest = concat chunks ->
  sends_to P data chunks (world w) ->
  exists bytes evs w', call_manager cfg (if auto_reconnect cfg then SendRequestWithReconnect data
                                     else SendRequest data) w = (Ok bytes, w')
    /\ delivered garbage rest r bytes
    /\ cache w' = cache w /\ ticks w' = ticks w /\ goes_on P rest chunks w'
    /\ trace (world w') = trace (world w) ++ Sent data :: received evs.
Proof.
  intros HP Hg Hwf Hs Hd Hm Hq Ha Hc Hans.
  destruct (send_request_gets _ P HP garbage rest r Hg Hwf Hs Hd Hm data chunks (world w) Hq Hc Hans)
    as (bytes & left & wd & Hr & Hdel & Hfull & [used ->] & Hq' & HP').
  pose proof (delivered_left garbage rest r bytes _ Hdel Hfull) as Hleft.
  pose proof (send_request_does (session_timeout (timeout_secs cfg)) data (world w)) as (tl & Htl & Hreq).
  rewrite Hr in Htl, Hreq. cbn in Htl, Hreq. destruct Hreq as [[_ Hx]|(evs & -> & _)]; [done|].
  exists bytes, evs. unfold call_manager. rewrite Ha. cbn [head default run_queue].
  destruct (auto_reconnect cfg); cbn [step].
  - assert (Hrr : handle_send_request_with_reconnect (session_timeout (timeout_secs cfg)) data
      (actor_callsign w) (world w) = (Ok bytes, wd)).
    { unfold handle_send_request_with_reconnect.
      assert (Hab : check_abort (world w) = (Ok tt, world w))
        by (unfold check_abort, mbind, M_bind, is_aborted; rewrite (sync_alone _ (proj1 Hq)); by rewrite (proj2 Hq)).
      rewrite (bind_ok _ _ _ _ _ Hab). unfold catch. by rewrite Hr. }
    rewrite Hrr. eexists. split_and!; try done. exists used, left. by split_and!.
  - rewrite Hr. eexists. split_and!; try done. exists used, left. by split_and!.
Qed.

(** An answer with a page, from the radio to the browser *)
Lemma dispatch_shown cfg P url garbage rest r chunks (w : Web T) decompressed html rewritten :
  feeds (session_timeout (timeout_secs cfg)) P ->
  response_wf r -> status r = Status.Ok -> brotli_decompress (payload r) = Ok decompressed ->
  from_utf8 decompressed = Some html -> rewrite_html html url = inr rewritten ->
  contains MAGIC (garbage ++ take 3 MAGIC) = false -> Z.of_nat (length garbage) + 3 <= 32 * 1024 ->
  is_session_dead_payload (garbage ++ encode_response r ++ rest) = false ->
  Z.of_nat (length (garbage ++ encode_response r ++ rest)) <= MAX_RESPONSE_SIZE ->
  garbage ++ encode_response r ++ rest = concat chunks ->
  quiet (world w) -> ahead w = [] ->
  sends_to P (encode_request (Get url None)) chunks (world w) ->
  exists evs w', dispatch_ax25 cfg url (Get url None) true w
    = (Ok (build_cached_html_response (browse_page rewritten url) (Protocol.etag r)
             (effective_ttl_secs (Protocol.max_age r) (cache_max_ttl cfg))), w')
  /\ cache w' = stored_page url r w /\ ticks w' = tail (ticks w) /\ goes_on P rest chunks w'
  /\ trace (world w') = trace (world w) ++ Sent (encode_request (Get url None)) :: received evs.
Proof.
  intros HP Hwf Hst Hd Hu Hrw Hg Hs Hdead Hm Hc Hq Ha Hans.
  unfold dispatch_ax25.
  destruct (call_manager_gets cfg P garbage rest r (encode_request (Get url None)) chunks w)
    as (bytes & evs & w1 & Hcall & Hdel & Hc1 & Ht1 & Hon & Htr1); [done..|]. exists evs.
  unfold catch at 1. rewrite Hcall.
  rewrite (bind_ok _ _ _ tt (log_reply (Get url None) bytes w1)) by done.
  cbn [request_etag]. unfold handle_response, catch at 1, lift at 1.
  destruct (delivered_payload garbage rest r bytes Hdel) as (b64 & Hsl & Hpay).
  destruct Hdel as (more & _ & Hh & Hl). rewrite Hh.
  unfold payload_end in Hl, Hsl. set (h := header_of (length garbage) r) in *.
  rewrite (proj2 (Nat.ltb_ge _ _)) by done.
  assert (Hsth : h_status h = Status.Ok) by (by rewrite <- Hst). rewrite Hsth.
  unfold with_payload, catch at 1, lift at 1, payload_of. rewrite Hsl. cbn [mbind Result_bind].
  rewrite Hpay. unfold handle_ok, store_page.
  assert (Hq2 : forall k : unit -> M (Web T) Never HttpResponse, exists w',
    (on_cache tt (fun t c => (tt, insert_page (insert_faults t) (wall_secs (wall t)) url
       (h_etag h) (payload r) (h_max_age h) c)) ≫= k) (log_reply (Get url None) bytes w1) = k tt w'
    /\ cache w' = stored_page url r w /\ world w' = world w1 /\ ahead w' = ahead w1 /\ ticks w' = tail (ticks w)).
  { intros k. unfold on_cache, tick, mbind, M_bind, stored_page. cbn [cache log_reply ticks].
    rewrite Hc1, Ht1. destruct (cache w) as [c|]; cbn; eexists; by split_and!. }
  match goal with |- context [(on_cache tt ?f ≫= ?k) ?w2] =>
    destruct (Hq2 k) as (w' & -> & Hcache & Hwd & Hah & Hti) end.
  exists w'. split; [|split_and!; [exact Hcache|exact Hti| |by rewrite Hwd]].
  2:{ unfold goes_on in *. by rewrite Hwd, Hah. }
  rewrite render_rendered. unfold rendered. by rewrite Hd, Hu, Hrw.
Qed.

(** The page is asked for again, or it is not in the cache. *)
Definition unseen (nocache : bool) (url : list byte) (w : Web T) : Prop :=
  nocache = true \/ cache_quiet w /\ cache w ≫= lookup_url false url = None.

(** Such a page is asked for over the radio. *)
Lemma browse_unseen cfg url nocache inm (w : Web T) :
  quiet (world w) -> is_connected (app (world w)) = true -> unseen nocache url w ->
  exists w1, handle_browse cfg url None nocache inm w = dispatch_ax25 cfg url (Get url None) true w1
  /\ offline w w1 /\ cache w1 = cache w /\ (cache_quiet w -> cache_quiet w1) /\ (nocache = true -> w1 = w).
Proof.
  intros Hq Hup Hun. unfold handle_browse.
  assert (Hcon : connected w = (Ok true, w)).
  { unfold connected. rewrite (sync_alone _ (proj1 Hq)), Hup. by destruct w. }
  rewrite (bind_ok _ _ _ _ _ Hcon). cbn [negb]. destruct nocache.
  { exists w. by split_and!. }
  destruct Hun as [|[Hcq Hmiss]]; [done|].
  destruct (lookup_quiet url w Hcq) as (w1 & Hl1 & Hc1 & Ho1 & Hcq1 & _).
  destruct (lookup_quiet url w1 Hcq1) as (w2 & Hl2 & Hc2 & Ho2 & Hcq2 & _).
  rewrite Hmiss in Hl1. rewrite Hc1, Hmiss in Hl2.
  exists w2. split_and!; [|by apply (offline_trans w w1)|congruence|done|done].
  assert (Hs : serve_cached url inm w = (Ok None, w1)) by (unfold serve_cached; by rewrite (bind_ok _ _ _ _ _ Hl1)).
  rewrite (bind_ok _ _ _ _ _ Hs).
  match goal with |- (?m ≫= ?k) w1 = _ =>
    assert (Hm : m w1 = (Ok None, w2)) by (by rewrite (bind_ok _ _ _ _ _ Hl2)) end.
  by rewrite (bind_ok _ _ _ _ _ Hm).
Qed.

(** Of the pages that were not in the cache, only this one may be now. *)
Definition fills (url : list byte) (w w' : Web T) : Prop :=
  cache_quiet w -> cache_quiet w' /\ forall k, k <> url ->
    cache w ≫= lookup_url false k = None -> cache w' ≫= lookup_url false k = None.

Lemma insert_unseen faults now url tag body age c k :
  k <> url -> lookup_url false k c = None -> lookup_url false k (insert_page faults now url tag body age c) = None.
Proof.
  unfold lookup_url. intros Hk Hc. destruct (entries (insert_page _ _ _ _ _ _ _) !! k) eqn:E; [|done].
  apply insert_page_rows in E as [[-> _]|E]; [done|]. by rewrite E in Hc.
Qed.

Lemma answer_shown cfg P url nocache inm garbage rest r chunks (w : Web T) decompressed html rewritten :
  feeds (session_timeout (timeout_secs cfg)) P ->
  response_wf r -> status r = Status.Ok -> brotli_decompress (payload r) = Ok decompressed ->
  from_utf8 decompressed = Some html -> rewrite_html html url = inr rewritten ->
  contains MAGIC (garbage ++ take 3 MAGIC) = false -> Z.of_nat (length garbage) + 3 <= 32 * 1024 ->
  is_session_dead_payload (garbage ++ encode_response r ++ rest) = false ->
  Z.of_nat (length (garbage ++ encode_response r ++ rest)) <= MAX_RESPONSE_SIZE ->
  garbage ++ encode_response r ++ rest = concat chunks ->
  quiet (world w) -> is_connected (app (world w)) = true -> ahead w = [] -> unseen nocache url w ->
  sends_to P (encode_request (Get url None)) chunks (world w) ->
  exists evs w', handle_browse cfg url None nocache inm w
    = (Ok (build_cached_html_response (browse_page rewritten url) (Protocol.etag r)
             (effective_ttl_secs (Protocol.max_age r) (cache_max_ttl cfg))), w')
  /\ (nocache = true -> cache w' = stored_page url r w) /\ fills url w w' /\ goes_on P rest chunks w'
  /\ trace (world w') = trace (world w) ++ Sent (encode_request (Get url None)) :: received evs.
Proof.
  intros HP Hwf Hst Hd Hu Hrw Hg Hs Hdead Hm Hc Hq Hup Ha Hun Hans.
  destruct (browse_unseen cfg url nocache inm w Hq Hup Hun) as (w1 & -> & (Hwd & _ & Hah & _) & Hc1 & Hcq & Hno).
  rewrite <- Hwd in Hans, Hq |- *. rewrite <- Hah in Ha.
  destruct (dispatch_shown cfg P url garbage rest r chunks w1 decompressed html rewritten)
    as (evs & w' & Hrun & Hcache & Hticks & Hon & Htr); [done..|].
  exists evs, w'. split_and!; [exact Hrun|intros Hn; by rewrite <- (Hno Hn)| |done|done].
  intros Hcw. specialize (Hcq Hcw). split; [unfold cache_quiet in *; rewrite Hticks; by apply Forall_tail|].
  intros k Hk Hmiss. rewrite Hcache. unfold stored_page. rewrite Hc1.
  assert (Ho : others (default quiet_tick (head (ticks w1))) = []).
  { unfold cache_quiet in Hcq. destruct (ticks w1) as [|t ts]; [done|]. cbn.
    by apply Forall_cons in Hcq as [[? _] _]. }
  rewrite Ho. destruct (cache w) as [c|]; [|done]. cbn in *. by apply insert_unseen.
Qed.

(** C14: a page the server encoded, received by the transport behind any
    banner and in any pieces, is what the browser is shown, rewritten, with the
    server's tag and lifetime, and it is what the cache keeps; only the request
    for it was sent. *)
Theorem browse_delivers cfg url inm garbage rest r chunks (w : Web T) decompressed html rewritten :
  response_wf r -> status r = Status.Ok -> brotli_decompress (payload r) = Ok decompressed ->
  from_utf8 decompressed = Some html -> rewrite_html html url = inr rewritten ->
  contains MAGIC (garbage ++ take 3 MAGIC) = false -> Z.of_nat (length garbage) + 3 <= 32 * 1024 ->
  is_session_dead_payload (garbage ++ encode_response r ++ rest) = false ->
  Z.of_nat (length (garbage ++ encode_response r ++ rest)) <= MAX_RESPONSE_SIZE ->
  garbage ++ encode_response r ++ rest = concat chunks ->
  quiet (world w) -> is_connected (app (world w)) = true -> ahead w = [] ->
  answers_with (session_timeout (timeout_secs cfg)) (encode_request (Get url None)) chunks (world w) ->
  exists evs w', handle_browse cfg url None true inm w
    = (Ok (build_cached_html_response (browse_page rewritten url) (Protocol.etag r)
             (effective_ttl_secs (Protocol.max_age r) (cache_max_ttl cfg))), w')
  /\ cache w' = stored_page url r w
  /\ trace (world w') = trace (world w) ++ Sent (encode_request (Get url None)) :: received evs.
Proof.
  intros Hwf Hst Hd Hu Hrw Hg Hs Hdead Hm Hc Hq Hup Ha Hans.
  destruct (answer_shown cfg (delivers (session_timeout (timeout_secs cfg))) url true inm garbage rest r chunks w
    decompressed html rewritten) as (evs & w' & Hr & Hcache & _ & _ & Htr);
    [apply delivers_feeds|done..|by left|by apply answers_sends|].
  exists evs, w'. split_and!; [done|by apply Hcache|done].
Qed.

(** *** Lifetimes *)

Lemma inserted_hit now url tag body age c :
  0 <= age <= i32_max -> 0 <= now <= i64_max -> 0 <= max_ttl c <= u64_max ->
  lookup_url false url (insert_page no_faults now url tag body age c)
  = Some (mkHit tag body (nanos now) (nanos (Z.min age (max_ttl c)))).
Proof.
  unfold i32_max, i64_max, u64_max. intros Ha Hn Ht. unfold insert_page, lookup_url.
  rewrite (proj2 (Z.ltb_ge age 0)) by lia. cbn [begin_fails upsert_fails commit_fails no_faults entries with_entries].
  assert (Hrow : forall t : Table, t !! url = Some (new_row now tag body age c) ->
    (r ← t !! url; Some (mkHit (Cache.etag r) (brotli_body r) (nanos (Z.max (fetched_at r) 0))
                           (nanos (Z.max (Cache.max_age r) 0))))
    = Some (mkHit tag body (nanos now) (nanos (Z.min age (max_ttl c))))).
  { intros t ->. cbn. rewrite as_u64_small by (unfold u64_max; lia).
    rewrite !as_i64_small by (unfold i64_min, i64_max; lia). by rewrite !Z.max_l by lia. }
  apply Hrow. case_match; rewrite ?evict_keeps_url; apply lookup_insert_eq.
Qed.

(** C30: the lifetime told to the browser is the server's capped by the configured one,
    never negative, and the same whether the page just came or is taken from the cache
    later, less the whole seconds it has been there. *)
Theorem lifetimes_agree now url tag body age c hit secs :
  0 <= age <= i32_max -> 0 <= now <= i64_max -> 0 <= max_ttl c <= u64_max -> 0 <= secs ->
  lookup_url false url (insert_page no_faults now url tag body age c) = Some hit ->
  let ttl := effective_ttl_secs age (max_ttl c) in
  0 <= ttl <= age /\ ttl <= max_ttl c
  /\ remaining_secs (nanos (now + secs)) hit = Z.max (ttl - secs) 0
  /\ is_fresh (nanos (now + secs)) hit = (secs <? ttl).
Proof.
  intros Ha Hn Ht Hs Hl ttl. rewrite inserted_hit in Hl by done. injection Hl as <-.
  assert (Htl : ttl = Z.min age (max_ttl c)).
  { unfold ttl, effective_ttl_secs. destruct (Z.leb_spec age 0); [lia|].
    rewrite as_u64_small; [done|]. unfold i32_max, u64_max in *. lia. }
  rewrite Htl. split_and!; try lia.
  - unfold remaining_secs. cbn [hit_fetched_at hit_max_age]. unfold nanos.
    rewrite (proj2 (Z.ltb_ge _ _)) by lia.
    destruct (Z.max_spec (Z.min age (max_ttl c) * 1000000000
      - ((now + secs) * 1000000000 - now * 1000000000)) 0) as [[Hx ->]|[Hx ->]];
      [|rewrite Z.max_l by lia].
    + rewrite Z.max_r by lia. reflexivity.
    + replace (Z.min age (max_ttl c) * 1000000000 - ((now + secs) * 1000000000 - now * 1000000000))
        with ((Z.min age (max_ttl c) - secs) * 1000000000) by lia. by rewrite Z.div_mul.
  - unfold is_fresh. cbn [hit_fetched_at hit_max_age]. unfold nanos.
    rewrite (proj2 (Z.leb_le _ _)) by lia. cbn [andb].
    destruct (Z.ltb_spec secs (Z.min age (max_ttl c))); [apply Z.ltb_lt|apply Z.ltb_ge]; lia.
Qed.

(** *** What is not cached *)

Definition cache_part (w : Web T) : option Cache * list Tick := (cache w, ticks w).

Lemma render_keeps bad url compressed shown : keeps cache_part (render bad url compressed shown).
Proof.
  unfold render. apply keeps_catch; [apply keeps_lift|]. intros [e|d]; [apply keeps_ret|].
  destruct (from_utf8 d); [|apply keeps_ret]. destruct (rewrite_html _ _); apply keeps_ret.
Qed.
Lemma with_payload_keeps data h k :
  (forall c, keeps cache_part (k c)) -> keeps cache_part (with_payload data h k).
Proof.
  intros Hk. unfold with_payload. apply keeps_catch; [apply keeps_lift|].
  intros [e|c]; [apply keeps_ret|apply Hk].
Qed.
Lemma error_text_keeps c : keeps cache_part (show_error_text (T:=T) c).
Proof. apply keeps_catch; [apply keeps_lift|]. intros [e|d]; apply keeps_ret. Qed.
Lemma call_manager_keeps cfg cmd : keeps cache_part (call_manager cfg cmd).
Proof.
  intros w. unfold call_manager. destruct (run_queue _ _ _ _) as [[rs call] wd].
  by destruct (step _ _ _ _) as [[r call'] wd'].
Qed.

Lemma unwritten_keeps cfg url data : keeps cache_part (handle_response cfg url None false data).
Proof.
  unfold handle_response. apply keeps_catch; [apply keeps_lift|].
  intros [e|[h|]]; try apply keeps_ret. destruct (_ <? _)%nat; [apply keeps_ret|].
  destruct (h_status h).
  - apply with_payload_keeps. intros c. unfold handle_ok. apply keeps_bind; [apply keeps_ret|].
    intros []. apply render_keeps.
  - apply with_payload_keeps, error_text_keeps.
  - apply with_payload_keeps, error_text_keeps.
  - unfold handle_not_modified. intros w. unfold mbind, M_bind, gets.
    destruct (cache w); by rewrite ?andb_false_l.
Qed.

(** A POST is neither answered from the cache nor kept in it, and it is shown only
    what answers it. *)
Theorem post_bypasses_cache cfg url body nocache inm (w : Web T) :
  web_wf w ->
  let (r, w') := handle_browse cfg url (Some body) nocache inm w in
  cache w' = cache w /\ exists resp, r = Ok resp /\ shows (replies w') url (Some body) resp.
Proof.
  intros Hw. assert (Hk : keeps cache_part (handle_browse cfg url (Some body) nocache inm)).
  { unfold handle_browse. apply keeps_bind; [by intros ?|]. intros up.
    destruct (negb up); [apply keeps_ret|]. unfold dispatch_ax25.
    apply keeps_catch; [apply call_manager_keeps|]. intros [e|data]; [apply keeps_ret|].
    apply keeps_bind; [by intros ?|]. intros []. apply unwritten_keeps. }
  specialize (Hk w).
  pose proof (runs_handler _ _ w (runs_browse [] cfg url (Some body) nocache inm) Hw) as Hr.
  destruct (handle_browse cfg url (Some body) nocache inm w) as [r w'].
  injection Hk as Hk _. split; [exact Hk|apply Hr].
Qed.
End Theorems.

(** ** Concrete runs *)

#[local] Existing Instances ToyDebug.debug_format ToyModem.modem ToyModem.modem_laws Toy.unicode
  ToyHttp.http_headers ToyHttp.http_headers_laws Toy.brotli ToySqlite.sqlite
  ToyUrl.url_crate ToyHtml.element ToyHtml.lol_html.

Definition demo_url : list byte := bs "http://a.org/".
Definition demo : Response := mkResponse Status.Ok (bs "-") 60 (bs "hello").
Definition demo_settings : Settings := mkSettings 30 true 3600.
Definition demo_row : Row := mkRow (bs "-") (bs "hello") 0 0 5 60.
Definition demo_web (script : list TransportEvent) (t : gmap (list byte) Row) : Web (list TransportEvent) :=
  mkWeb (mkWorld script (put_connection_state CsConnected (new_state default_config)) false 0 [] [] [] [])
    [] (Some (mkCache t 1000 3600)) [] [] [(Get demo_url None, encode_response demo)].

Lemma demo_page : page_of (encode_response demo) = Some (bs "-", bs "hello", 60).
Proof. vm_compute. reflexivity. Qed.

Lemma demo_wf script : web_wf (demo_web script {[demo_url := demo_row]}).
Proof.
  intros url r Hr. change (({[demo_url := demo_row]} : gmap (list byte) Row) !! url = Some r) in Hr.
  apply lookup_singleton_Some in Hr as [<- <-].
  exists (Get demo_url None), (encode_response demo), 60. split; [by left|].
  split; [exact demo_page|]. by exists None.
Qed.
Lemma empty_wf script : web_wf (demo_web script ∅).
Proof. intros url r Hr. change ((∅ : gmap (list byte) Row) !! url = Some r) in Hr. by rewrite lookup_empty in Hr. Qed.

Lemma browse_answers_witness :
  let (r, w') := handle_browse demo_settings demo_url None false None
                   (demo_web [EvData (encode_response demo)] ∅) in
  web_wf w' /\ exists resp, r = Ok resp /\ shows (replies w') demo_url None resp.
Proof.
  apply (browse_answers demo_settings demo_url None false None
    (demo_web [EvData (encode_response demo)] ∅) (empty_wf _)).
Defined.

Lemma post_bypasses_cache_witness :
  let w := demo_web [EvData (encode_response demo)] ∅ in
  let (r, w') := handle_browse demo_settings demo_url (Some (bs "q=1")) true None w in
  cache w' = cache w /\ exists resp, r = Ok resp /\ shows (replies w') demo_url (Some (bs "q=1")) resp.
Proof.
  intros w. apply (post_bypasses_cache demo_settings demo_url (bs "q=1") true None w (empty_wf _)).
Defined.

Lemma fresh_page_offline_witness :
  let w := demo_web [] {[demo_url := demo_row]} in
  exists w', offline w w'
    /\ handle_browse demo_settings demo_url None false (Some (bs "-")) w
       = (Ok (NotModified304 (DQ ++ bs "-" ++ DQ)), w').
Proof.
  intros w. destruct (fresh_page_offline demo_settings demo_url (Some (bs "-")) w
    (mkCache {[demo_url := demo_row]} 1000 3600) (mkHit (bs "-") (bs "hello") 0 (nanos 60)))
    as (w' & Ho & Hr).
  - apply demo_wf.
  - reflexivity.
  - reflexivity.
  - constructor.
  - reflexivity.
  - vm_compute. reflexivity.
  - vm_compute. reflexivity.
  - exists w'. split; [exact Ho|exact Hr].
Defined.

Lemma lifetimes_agree_witness :
  exists hit, lookup_url false demo_url
      (insert_page no_faults 10 demo_url (bs "-") (bs "hello") 60 (mkCache ∅ 1000 3600)) = Some hit
    /\ remaining_secs (nanos (10 + 25)) hit = 35.
Proof.
  eexists. split; [apply inserted_hit; vm_compute; by split|].
  refine (proj1 (proj2 (proj2 (lifetimes_agree 10 demo_url (bs "-") (bs "hello") 60
    (mkCache ∅ 1000 3600) _ 25 _ _ _ _ _)))); [vm_compute; by split..|lia|].
  apply inserted_hit; vm_compute; by split.
Defined.

Lemma browse_delivers_witness :
  let w := demo_web [EvData (take 9 (encode_response demo)); EvData (drop 9 (encode_response demo))] ∅ in
  exists evs w', handle_browse demo_settings demo_url None true None w
    = (Ok (build_cached_html_response (browse_page (bs "hello") demo_url) (bs "-") 60), w')
  /\ cache w' = stored_page demo_url demo w
  /\ trace (world w') = trace (world w) ++ Sent (encode_request (Get demo_url None)) :: received evs.
Proof.
  intros w. apply (browse_delivers demo_settings demo_url None [] [] demo
    [take 9 (encode_response demo); drop 9 (encode_response demo)] w (bs "hello") (bs "hello") (bs "hello")).
  - unfold response_wf, i32_min, i32_max, u32_max. split; [reflexivity|]. vm_compute. by repeat split.
  - reflexivity.
  - vm_compute. reflexivity.
  - reflexivity.
  - vm_compute. reflexivity.
  - reflexivity.
  - cbn. lia.
  - vm_compute. reflexivity.
  - vm_compute. discriminate.
  - vm_compute. reflexivity.
  - by split.
  - reflexivity.
  - reflexivity.
  - intros w1 (Hm & Hc & Hq). exists w1. split; [reflexivity|].
    intros w2 (Hm2 & Hc2 & Hq2). cbn [recv ToyModem.modem]. unfold ToyModem.scripted_recv.
    rewrite Hm2, Hm. eexists. split; [reflexivity|].
    intros w3 (Hm3 & Hc3 & Hq3). unfold ToyModem.scripted_recv. cbn [recv ToyModem.modem].
    unfold ToyModem.scripted_recv. rewrite Hm3. eexists. split; reflexivity.
Defined.

(** A body is cached before it is known to be readable: an answer that is not UTF-8
    makes the page an error now and, from the cache, for as long as it is fresh. *)
Example unreadable_page_cached :
  let bad := mkResponse Status.Ok (bs "-") 60 [xff] in
  let get := handle_browse demo_settings demo_url None false None in
  let (r1, w1) := get (demo_web [EvData (encode_response bad)] ∅) in
  let (r2, w2) := get w1 in
  r1 = Ok (error_response (bs "Invalid UTF-8 in response"))
  /\ r2 = Ok (error_response (bs "Invalid UTF-8 in cached response"))
  /\ length (replies w2) = length (replies w1).
Proof. vm_compute. repeat split; reflexivity. Qed.
