(* ===== verification/WebApi.v ===== *)
(** * The operator's interface ([client/src/proxy.rs], all but [/browse])

    The pages and the JSON calls by which the operator connects, consents, configures
    and looks after the cache; the router in front of all handlers, with its guard. *)
From Stdlib Require Import ZArith Lia Strings.Byte.
From stdpp Require Import base decidable list countable gmap.
From S2P Require Import NetAddr TcpStream Agwpe Vara AnyTransport.
From S2P Require Import Prelude Bytes Numbers External Callsign Protocol TransportTypes Cache Rewrite Ui HostGuard.
From S2P Require Import ClientConfig ClientState Transport Session Manager Browse.

(** [serde_json::to_string] of the list of ports, if it succeeds, and [chrono]'s text of
    a UTC time in a format *)
Class Formats : Type := {
  ports_to_json : list PortInfo -> option (list byte);
  utc_format : list byte -> Z -> list byte }.

(** ** The answers of the calls *)

Record AgwpeStatusResponse : Type := mkAgwpeStatusResponse {
  status_ok : bool;
  status_state : list byte;
  status_ports : option (list PortInfo);
  status_error : option (list byte) }.
Record ConnectResponse : Type := mkConnectResponse {
  connect_ok : bool;
  connect_state : option (list byte);
  connect_error : option (list byte) }.
Record ConsentInfoResponse : Type := mkConsentInfoResponse {
  awaiting : bool;
  consent_disclaimer : option (list byte) }.
Record ConsentResponse : Type := mkConsentResponse {
  consent_ok : bool;
  consent_error : option (list byte) }.
Record ConfigResponse : Type := mkConfigResponse {
  cr_agwpe_host : list byte;
  cr_agwpe_port : Z;
  cr_my_callsign : list byte;
  cr_target_callsign : list byte;
  cr_bpq_command : list byte;
  cr_skip_bpq_app : bool }.
Record ConfigSaveResponse : Type := mkConfigSaveResponse {
  save_ok : bool;
  save_error : option (list byte) }.
Record StateResponse : Type := mkStateResponse {
  sr_agwpe_host : list byte;
  sr_agwpe_port : Z;
  sr_transport : list byte;
  sr_vara_cmd_host : list byte;
  sr_vara_cmd_port : Z;
  sr_vara_data_host : list byte;
  sr_vara_data_port : Z;
  sr_vara_mode : list byte;
  sr_vara_bandwidth : list byte }.

(** ** What the calls ask *)

Record ConnectRequest : Type := mkConnectRequest {
  req_target_callsign : list byte;
  req_port_num : Z;
  req_transport : option (list byte);
  req_vara_cmd_host : option (list byte);
  req_vara_cmd_port : option Z;
  req_vara_data_host : option (list byte);
  req_vara_data_port : option Z;
  req_vara_mode : option (list byte);
  req_vara_bandwidth : option (list byte) }.
Record ConfigUpdate : Type := mkConfigUpdate {
  up_agwpe_host : option (list byte);
  up_agwpe_port : option Z;
  up_my_callsign : option (list byte);
  up_target_callsign : option (list byte);
  up_bpq_command : option (list byte);
  up_skip_bpq_app : option bool }.

(** [^[a-zA-Z0-9]{1,3}[0-9][a-zA-Z0-9]{0,3}[a-zA-Z]$] *)
Definition TARGET_REGEX : list Atom :=
  [mkAtom is_alnum 1 3; mkAtom is_digit 1 1; mkAtom is_alnum 0 3; mkAtom is_alpha 1 1].
Definition valid_target (target : list byte) : bool := is_match TARGET_REGEX (base_call target).

Section Api.
Context {T : Type} `{Transport T} `{UnicodeCase} `{DebugFormat} `{Base64} `{Brotli} `{HttpHeaders}.
Context `{Sqlite} `{UrlCrate} `{LolHtml} `{Formats} `{IniStore}.

Abbreviation Handler := (M (Web T) Never).

(** One access under the lock of the shared state *)
Definition with_state {A} (f : AppState -> A * AppState) : Handler A := fun w =>
  let wd := sync (world w) in
  let (a, s) := f (app wd) in (Ok a, set_world (set_app s wd) w).
Definition read_state {A} (f : AppState -> A) : Handler A := with_state (fun s => (f s, s)).

(** A command whose reply is only that it is done *)
Definition call_unit (cfg : Settings) (cmd : TransportCommand) : M (Web T) AgwpeError unit := fun w =>
  let secs := session_timeout (timeout_secs cfg) in
  let '(_, call, wd) := run_queue secs (default [] (head (ahead w))) (actor_callsign w) (world w) in
  let '(r, call', wd') := step secs cmd call wd in
  (match r with Done d => d | Bytes _ => Err TaskStopped end,
   mkWeb wd' call' (Browse.cache w) (ticks w) (tail (ahead w)) (replies w)).

(** [TransportManager::close_session]: the flag is up before the command is queued *)
Definition manager_close_session (cfg : Settings) : M (Web T) AgwpeError unit := fun w =>
  call_unit cfg CloseSession (set_world (raise_abort (world w)) w).

(** ** Pages *)

Definition state_class (cs : ConnectionState) : list byte :=
  match cs with
  | CsDisconnected => bs "status-disconnected"
  | AgwpeConnected => bs "status-agwpe-connected"
  | Connecting => bs "status-connecting"
  | AwaitingConsent _ => bs "status-connecting"
  | CsConnected => bs "status-connected"
  | Reconnecting _ => bs "status-reconnecting"
  | CsError _ => bs "status-error"
  end.

Definition connect_page_handler : Handler HttpResponse :=
  read_state (fun s =>
    let c := ClientState.config s in
    HtmlResponse (connect_page (my_callsign c) (target_callsign c)
      (display_connection_state (connection_state s)) (state_class (connection_state s))
      (default (bs "[]") (ports_to_json (available_ports s))) (transport_default c) (vara_section c)) None None).

Definition configuration_page_handler : Handler HttpResponse :=
  read_state (fun s =>
    let c := ClientState.config s in
    HtmlResponse (configuration_page (agwpe_host c) (agwpe_port c) (my_callsign c)
      (target_callsign c) (bpq_command c) (skip_bpq_app c)) None None).

Definition iso_from_system_time (t : Z) : list byte := utc_format (bs "%Y-%m-%dT%H:%M:%SZ") t.

(** One row of the page of the cache, at the time [now] *)
Definition cache_page_row (now : Z) (e : CacheEntry) : CachePageRow :=
  let age := now - entry_fetched_at e in
  mkCachePageRow (entry_url e) (entry_size e) (iso_from_system_time (entry_fetched_at e))
    (iso_from_system_time (entry_last_used e))
    (if age <? 0 then 0 else as_i64 (Z.max (entry_max_age e - age) 0 / 1000000000))
    (entry_etag e).

Definition cache_page_handler : Handler HttpResponse :=
  now ← wall_now;
  shown ← on_cache ([], 0, 0) (fun t c =>
    let es := list_entries (statement_fails t) c in
    ((es, fold_left (fun acc e => as_u64 (acc + entry_size e)) es 0, cap_bytes c), c));
  let '(es, total, cap) := shown in
  mret (HtmlResponse (cache_page (map (cache_page_row now) es) total cap) None None).

(** ** State and ports *)

Definition api_agwpe_status_get : Handler AgwpeStatusResponse :=
  read_state (fun s => mkAgwpeStatusResponse true (display_connection_state (connection_state s))
                         (Some (available_ports s)) None).

Definition status_failure (msg : list byte) : AgwpeStatusResponse :=
  mkAgwpeStatusResponse false (bs "Error") None (Some msg).

Definition api_agwpe_status_post (cfg : Settings) : Handler AgwpeStatusResponse :=
  what ← read_state (fun s => let c := ClientState.config s in
                              (agwpe_host c, agwpe_port c, my_callsign c));
  let '(host, port, callsign) := what in
  if bool_decide (callsign = []) then mret (status_failure (bs "My callsign not configured"))
  else
    agwpe_cfg ← read_state (fun s =>
      mkTransportConfig Ax25 (mkAgwpeParams host port) (vara_section (ClientState.config s)) callsign);
    catch (call_unit cfg (ConnectModem agwpe_cfg)) (fun r =>
      match r with
      | inl e => mret (status_failure (display_agwpe_error e))
      | inr _ =>
          catch (call_unit cfg QueryPorts) (fun r =>
            match r with
            | inl e => mret (status_failure (bs "Connected but port query failed: " ++ display_agwpe_error e))
            | inr _ =>
                read_state (fun s => mkAgwpeStatusResponse true
                  (display_connection_state (connection_state s)) (Some (available_ports s)) None)
            end)
      end).

Definition api_state_get : Handler StateResponse :=
  read_state (fun s =>
    let c := ClientState.config s in let v := vara_section c in
    mkStateResponse (agwpe_host c) (agwpe_port c) (display_kind (transport_default c))
      (cmd_host v) (cmd_port v) (data_host v) (data_port v)
      (display_mode (vara_mode v)) (display_bandwidth (bandwidth v))).

(** The entries there are; those that follow are the broadcasts *)
Definition events_handler : Handler (list DebugLogEntry) := read_state (get_logs None).

(** ** Sessions *)

Definition connect_failure (msg : list byte) : ConnectResponse := mkConnectResponse false None (Some msg).

(** [open_session] on the manager, and the answer *)
Definition open_and_answer (cfg : Settings) (target : list byte) (port : Z) : Handler ConnectResponse :=
  catch (call_unit cfg (OpenSession target port)) (fun r =>
    match r with
    | inr _ => read_state (fun s =>
        mkConnectResponse true (Some (display_connection_state (connection_state s))) None)
    | inl e => mret (connect_failure (display_agwpe_error e))
    end).

Definition api_disconnect_handler (cfg : Settings) : Handler ConnectResponse :=
  catch (manager_close_session cfg) (fun r =>
    match r with
    | inr _ =>
        _ ← with_state (fun s => (tt, clear_agreed_disclaimer s));
        mret (mkConnectResponse true (Some (bs "Disconnected")) None)
    | inl e => mret (connect_failure (display_agwpe_error e))
    end).

(** ** Consent *)

Definition api_consent_get : Handler ConsentInfoResponse :=
  read_state (fun s =>
    match awaited_disclaimer s with
    | Some d => mkConsentInfoResponse true (Some d)
    | None => mkConsentInfoResponse false None
    end).

(** [alive] is whether a handshake still waits on the channel; the decision sent on it
    is the answer that handshake gets. *)
Definition api_consent_post (alive : nat -> bool) (accepted : bool) : Handler ConsentResponse :=
  sender ← with_state (fun s => (pending_consent s, set_pending_consent None s));
  match sender with
  | Some tx =>
      _ ← (if accepted then
             text ← read_state awaited_disclaimer;
             match text with
             | Some d => with_state (fun s => (tt, record_agreed_disclaimer d s))
             | None => mret tt
             end
           else mret tt);
      mret (if alive tx then mkConsentResponse true None
            else mkConsentResponse false (Some (bs "Handshake no longer awaiting consent")))
  | None => mret (mkConsentResponse false (Some (bs "No consent prompt is pending")))
  end.

(** ** Configuration *)

Definition api_config_get : Handler ConfigResponse :=
  read_state (fun s => let c := ClientState.config s in
    mkConfigResponse (agwpe_host c) (agwpe_port c) (my_callsign c) (target_callsign c)
      (bpq_command c) (skip_bpq_app c)).

Definition apply_update (u : ConfigUpdate) (c : FileConfig) : FileConfig :=
  mkFileConfig (default (agwpe_host c) (up_agwpe_host u)) (default (agwpe_port c) (up_agwpe_port u))
    (default (my_callsign c) (up_my_callsign u)) (default (target_callsign c) (up_target_callsign u))
    (default (bpq_command c) (up_bpq_command u)) (default (skip_bpq_app c) (up_skip_bpq_app u))
    (ClientConfig.cache c) (connection c) (transport_default c) (vara_section c).

Definition display_config_error (e : ConfigError) : list byte :=
  match e with
  | CfgIo m => bs "IO error: " ++ m
  | CfgParse m => bs "Parse error: " ++ m
  | NoConfigDir => bs "Config directory not found"
  end.

(** [path] is [FileConfig::default_path()]; [mkdir] and [write] are what the file
    system makes of the saving. *)
Definition api_config_post (path : Result ConfigError (list byte)) (mkdir : option (list byte))
    (write : IniFile -> option (list byte)) (u : ConfigUpdate) : Handler ConfigSaveResponse :=
  catch (lift path) (fun r =>
    match r with
    | inl e => mret (mkConfigSaveResponse false
                       (Some (bs "Failed to get config path: " ++ display_config_error e)))
    | inr _ =>
        config ← read_state ClientState.config;
        let config := apply_update u config in
        catch (lift (save mkdir write config)) (fun r =>
          match r with
          | inr _ =>
              _ ← with_state (fun s => (tt, set_config config s));
              mret (mkConfigSaveResponse true None)
          | inl e => mret (mkConfigSaveResponse false
                             (Some (bs "Failed to save config: " ++ display_config_error e)))
          end)
    end).

(** ** The cache *)

Definition api_cache_delete (url : list byte) : Handler HttpResponse :=
  _ ← on_cache tt (fun t c => (tt, delete_url (statement_fails t) url c));
  mret (SeeOther (bs "/cache")).
Definition api_cache_clear : Handler HttpResponse :=
  _ ← on_cache tt (fun t c => (tt, clear (statement_fails t) c));
  mret (SeeOther (bs "/cache")).
Definition root_handler : Handler HttpResponse := mret (SeeOther (bs "/connect")).
End Api.

(** ** Connecting *)

Section Connect.
Context `{UnicodeCase} `{DebugFormat} `{Base64} `{Brotli} `{HttpHeaders}.
Context `{Sqlite} `{UrlCrate} `{LolHtml} `{Formats} `{IniStore}.

Abbreviation Handler := (M (Web AnyTransport) Never).

Definition requested_bandwidth (s : option (list byte)) (configured : VaraBandwidth) : VaraBandwidth :=
  if bool_decide (s = Some (bs "vnarrow")) then VNarrow
  else if bool_decide (s = Some (bs "bw250")) then Bw250
  else if bool_decide (s = Some (bs "bw500")) then Bw500
  else if bool_decide (s = Some (bs "bw2300")) then Bw2300
  else if bool_decide (s = Some (bs "bw2750")) then Bw2750
  else if bool_decide (s = Some (bs "vwide")) then VWide
  else configured.

(** The configuration of the VARA modem a request asks for *)
Definition vara_request_config (req : ConnectRequest) (transport_kind : TransportKind) (s : AppState)
    : TransportConfig :=
  let c := ClientState.config s in
  let v := vara_section c in
  mkTransportConfig transport_kind (mkAgwpeParams (agwpe_host c) (agwpe_port c))
    (mkVaraParams
       (default (cmd_host v) (req_vara_cmd_host req)) (default (cmd_port v) (req_vara_cmd_port req))
       (default (data_host v) (req_vara_data_host req)) (default (data_port v) (req_vara_data_port req))
       (if bool_decide (req_vara_mode req = Some (bs "hf")) then Hf else vara_mode v)
       (requested_bandwidth (req_vara_bandwidth req) (bandwidth v)))
    (my_callsign c).

(** A new manager, with a transport of its own and its own abort flag, connects its
    modem.  It takes the place of the one there was only if that succeeds; the flag
    raised meanwhile by another request was the old one's.  [fresh] is what the new
    transport will meet. *)
Definition install_vara (cfg : Settings) (vara_cfg : TransportConfig) (fresh : VaraTransport)
    : M (Web AnyTransport) AgwpeError unit := fun w =>
  let wd := world w in
  let '(r, call, wd1) := step (session_timeout (timeout_secs cfg)) (ConnectModem vara_cfg) []
                           (set_modem (inr fresh) (set_abort false wd)) in
  match r with
  | Done (Ok _) =>
      (Ok tt, mkWeb (set_abort false wd1) call (Browse.cache w) (ticks w) (ahead w) (replies w))
  | Done (Err e) =>
      (Err e, set_world (set_modem (modem wd) (set_abort (abort_flag wd || abort_flag wd1) wd1)) w)
  | Done Panic | Bytes Panic => (Panic, w)
  | Done Spin | Bytes Spin => (Spin, w)
  | Bytes _ => (Err TaskStopped, w)
  end.

(** A session of the kind asked for *)
Definition connect_kind (cfg : Settings) (fresh : VaraTransport) (req : ConnectRequest) (k : TransportKind)
    : Handler ConnectResponse :=
  match k with
  | Ax25 => open_and_answer cfg (req_target_callsign req) (req_port_num req)
  | VaraFm | VaraHf =>
      vara_cfg ← read_state (vara_request_config req k);
      catch (install_vara cfg vara_cfg fresh) (fun r =>
        match r with
        | inl e => mret (connect_failure (bs "VARA modem connect failed: " ++ display_agwpe_error e))
        | inr _ => open_and_answer cfg (req_target_callsign req) (req_port_num req)
        end)
  end.

Definition api_connect_handler (cfg : Settings) (fresh : VaraTransport) (req : ConnectRequest)
    : Handler ConnectResponse :=
  if negb (valid_target (req_target_callsign req))
  then mret (connect_failure (bs "Invalid target callsign format"))
  else
    match req_transport req with
    | Some s =>
        match kind_from_str s with
        | Some k => connect_kind cfg fresh req k
        | None => mret (connect_failure (bs "Unknown transport: " ++ bs "unknown transport: " ++ s))
        end
    | None => k ← read_state (fun s => transport_default (ClientState.config s)); connect_kind cfg fresh req k
    end.

(** ** The router *)

(** A request for a route, its parameters read *)
Inductive Route : Type :=
| Root | ConnectPage | ConfigurationPage
| BrowseGet (params : BrowseParams) | BrowsePost (params : BrowsePostParams) (body : list byte)
| CachePage | AgwpeStatusGet | AgwpeStatusPost
| ApiConnect (fresh : VaraTransport) (req : ConnectRequest) | ApiDisconnect
| ConsentGet | ConsentPost (alive : nat -> bool) (accepted : bool)
| ConfigGet
| ConfigPost (path : Result ConfigError (list byte)) (mkdir : option (list byte))
    (write : IniFile -> option (list byte)) (u : ConfigUpdate)
| StateGet | CacheClear | CacheDelete (url : list byte) | Events.

Definition route_method (r : Route) : Method :=
  match r with
  | BrowsePost _ _ | AgwpeStatusPost | ApiConnect _ _ | ApiDisconnect | ConsentPost _ _
  | ConfigPost _ _ _ _ | CacheClear | CacheDelete _ => POST
  | _ => GET
  end.

Inductive WebResponse : Type :=
| Http (r : HttpResponse)
| AgwpeStatus (r : AgwpeStatusResponse)
| Connect (r : ConnectResponse)
| ConsentInfo (r : ConsentInfoResponse)
| Consent (r : ConsentResponse)
| Config (r : ConfigResponse)
| ConfigSaved (r : ConfigSaveResponse)
| StateShown (r : StateResponse)
| EventStream (entries : list DebugLogEntry)
| Refused (status : Z).

Definition answer {A} (k : A -> WebResponse) (m : Handler A) : Handler WebResponse :=
  a ← m; mret (k a).

Definition handle_route (cfg : Settings) (hs : Headers) (r : Route) : Handler WebResponse :=
  match r with
  | Root => answer Http root_handler
  | ConnectPage => answer Http connect_page_handler
  | ConfigurationPage => answer Http configuration_page_handler
  | BrowseGet params => answer Http (browse_get_handler cfg params hs)
  | BrowsePost params body => answer Http (browse_post_handler cfg params body)
  | CachePage => answer Http cache_page_handler
  | AgwpeStatusGet => answer AgwpeStatus api_agwpe_status_get
  | AgwpeStatusPost => answer AgwpeStatus (api_agwpe_status_post cfg)
  | ApiConnect fresh req => answer Connect (api_connect_handler cfg fresh req)
  | ApiDisconnect => answer Connect (api_disconnect_handler cfg)
  | ConsentGet => answer ConsentInfo api_consent_get
  | ConsentPost alive accepted => answer Consent (api_consent_post alive accepted)
  | ConfigGet => answer Config api_config_get
  | ConfigPost path mkdir write u => answer ConfigSaved (api_config_post path mkdir write u)
  | StateGet => answer StateShown api_state_get
  | CacheClear => answer Http api_cache_clear
  | CacheDelete url => answer Http (api_cache_delete url)
  | Events => answer EventStream events_handler
  end.

(** [create_router]: the guard stands before every route. *)
Definition serve (cfg : Settings) (allowed : HostAllowlist) (req : WebRequest) (r : Route)
    : Handler WebResponse :=
  security_guard allowed req (handle_route cfg (req_headers req) r) (fun status => mret (Refused status)).
End Connect.

(** ** Every call is answered *)

Section Answered.
Context {T : Type} `{TransportLaws T} `{UnicodeCase} `{DebugFormat} `{Base64} `{Brotli} `{HttpHeadersLaws}.
Context `{Sqlite} `{UrlCrate} `{LolHtml} `{Formats} `{IniStore}.

(** A run returns and keeps the cache sourced. *)
Definition fine {E A} (m : M (Web T) E A) : Prop := forall reps, runs reps m (fun _ _ => True).

Lemma fine_ret {E A} (a : A) : fine (mret a : M (Web T) E A).
Proof. intros reps. by apply runs_ret. Qed.
Lemma fine_bind {E A B} (m : M (Web T) E A) (k : A -> M (Web T) E B) :
  fine m -> (forall a, fine (k a)) -> fine (m ≫= k).
Proof. intros Hm Hk reps. eapply runs_bind; [apply Hm|]. intros reps' a _ _. apply Hk. Qed.
Lemma fine_catch {E F A B} (m : M (Web T) E A) (k : E + A -> M (Web T) F B) :
  fine m -> (forall x, fine (k x)) -> fine (catch m k).
Proof. intros Hm Hk reps. eapply runs_catch; [apply Hm|..]; intros reps' ? ?; intros; apply Hk. Qed.
Lemma fine_lift {E A} (r : Result E A) : returns r -> fine (lift r : M (Web T) E A).
Proof. intros Hr reps. eapply runs_mono; [by apply runs_lift|done]. Qed.
Lemma fine_runs {E A} (m : M (Web T) E A) (Q : list (Request * list byte) -> A -> Prop) :
  (forall reps, runs reps m Q) -> fine m.
Proof. intros Hm reps. eapply runs_mono; [apply Hm|done]. Qed.

Lemma fine_with_state {A} (f : AppState -> A * AppState) : fine (with_state (T:=T) f).
Proof.
  intros reps w Hw Hp. unfold with_state. destruct (f (app (sync (world w)))) as [a s]. by split_and!.
Qed.
Lemma fine_read_state {A} (f : AppState -> A) : fine (read_state (T:=T) f).
Proof. apply fine_with_state. Qed.
Lemma fine_call_unit cfg cmd : fine (call_unit cfg cmd).
Proof.
  intros reps w Hw Hp. unfold call_unit. destruct (run_queue _ _ _ _) as [[rs call] wd].
  pose proof (step_returns (session_timeout (timeout_secs cfg)) cmd call wd) as Hs.
  destruct (step _ _ _ _) as [[r call'] wd']. cbn in *. split_and!; [|done|done|done]. by destruct r.
Qed.
Lemma fine_close cfg : fine (manager_close_session cfg).
Proof.
  intros reps w Hw Hp. apply (fine_call_unit cfg CloseSession reps (set_world (raise_abort (world w)) w));
    done.
Qed.
Lemma fine_on_cache {A} (absent : A) f :
  (forall reps t c, cache_sourced reps c -> cache_sourced reps (f t c).2) ->
  fine (on_cache (T:=T) absent f).
Proof. intros Hf reps. apply runs_on_cache; [done|]. intros reps' t c _ Hc. split; [by apply Hf|done]. Qed.
Lemma fine_wall_now : fine (wall_now (T:=T)).
Proof. intros reps. apply runs_wall_now. Qed.
End Answered.

Ltac fine_step := first
  [ apply fine_ret | apply fine_with_state | apply fine_read_state | apply fine_call_unit
  | apply fine_close | apply fine_wall_now ].
Ltac fine :=
  repeat first
    [ solve [fine_step]
    | apply fine_bind; [|intros ?]
    | apply fine_catch; [|intros ?]
    | match goal with |- fine (match ?x with _ => _ end) => destruct x end ].

Section Handlers.
Context {T : Type} `{TransportLaws T} `{UnicodeCase} `{DebugFormat} `{Base64} `{Brotli} `{HttpHeadersLaws}.
Context `{Sqlite} `{UrlCrate} `{LolHtml} `{Formats} `{IniStore}.

Lemma fine_status_post cfg : fine (api_agwpe_status_post (T:=T) cfg).
Proof.
  unfold api_agwpe_status_post. apply fine_bind; [fine|]. intros [[host port] callsign].
  fine.
Qed.
Lemma fine_disconnect cfg : fine (api_disconnect_handler (T:=T) cfg).
Proof. unfold api_disconnect_handler. fine. Qed.
Lemma fine_consent alive accepted : fine (api_consent_post (T:=T) alive accepted).
Proof. unfold api_consent_post. fine. Qed.
Lemma fine_config_post path mkdir write u :
  returns path -> fine (api_config_post (T:=T) path mkdir write u).
Proof.
  intros Hp. unfold api_config_post. apply fine_catch; [by apply fine_lift|]. intros [e|p]; fine.
  apply fine_lift. unfold save. destruct mkdir; [done|]. by destruct (write _).
Qed.
Lemma delete_sourced reps fails url c : cache_sourced reps c -> cache_sourced reps (delete_url fails url c).
Proof.
  intros Hc. unfold delete_url. destruct fails; [done|]. intros k r Hk. cbn in Hk.
  apply lookup_delete_Some in Hk as [_ Hk]. exact (Hc k r Hk).
Qed.
Lemma clear_sourced reps fails c : cache_sourced reps c -> cache_sourced reps (clear fails c).
Proof.
  intros Hc. unfold clear. destruct fails; [done|]. intros k r Hk. cbn in Hk.
  by rewrite lookup_empty in Hk.
Qed.
Lemma fine_cache_delete url : fine (api_cache_delete (T:=T) url).
Proof. unfold api_cache_delete. fine. apply fine_on_cache. intros. by apply delete_sourced. Qed.
Lemma fine_cache_clear : fine (api_cache_clear (T:=T)).
Proof. unfold api_cache_clear. fine. apply fine_on_cache. intros. by apply clear_sourced. Qed.
Lemma fine_cache_page : fine (cache_page_handler (T:=T)).
Proof.
  unfold cache_page_handler. fine. by apply fine_on_cache.
Qed.
Lemma fine_open cfg target port : fine (open_and_answer (T:=T) cfg target port).
Proof. unfold open_and_answer. fine. Qed.
End Handlers.

(** ** Consent and configuration *)

Section Operator.
Context {T : Type} `{TransportLaws T} `{UnicodeCase} `{DebugFormat} `{IniStore}.

(** The world of a handler that no other task meets *)
Definition undisturbed (w : Web T) : Prop := interference (world w) = [].
Definition app_of (w : Web T) : AppState := app (world w).
(** The shared state replaced, all else as it was *)
Definition with_app (s : AppState) (w : Web T) : Web T := set_world (set_app s (world w)) w.

Lemma with_state_alone {A} (f : AppState -> A * AppState) (w : Web T) :
  undisturbed w -> with_state f w = (Ok (f (app_of w)).1, with_app (f (app_of w)).2 w).
Proof.
  intros Hi. unfold with_state, with_app, app_of. rewrite (sync_alone _ Hi).
  by destruct (f (app (world w))).
Qed.
Lemma with_app_id (w : Web T) : with_app (app_of w) w = w.
Proof. by destruct w as [[] ? ? ? ? ?]. Qed.
Lemma with_app_again s s' (w : Web T) : with_app s (with_app s' w) = with_app s w.
Proof. done. Qed.
Lemma read_state_alone {A} (f : AppState -> A) (w : Web T) :
  undisturbed w -> read_state f w = (Ok (f (app_of w)), w).
Proof. intros Hi. unfold read_state. rewrite (with_state_alone _ w Hi). cbn. by rewrite with_app_id. Qed.

(** A decision on a disclaimer is taken once: it empties the slot of the handshake
    that waits; an acceptance, and nothing else, makes the text then asked the one the
    operator has agreed to; without a handshake that asks, nothing changes. *)
Theorem consent_post_spec alive accepted (w : Web T) :
  undisturbed w ->
  let s := app_of w in
  api_consent_post alive accepted w =
  match pending_consent s with
  | None => (Ok (mkConsentResponse false (Some (bs "No consent prompt is pending"))),
             with_app (set_pending_consent None s) w)
  | Some tx =>
      (Ok (if alive tx then mkConsentResponse true None
           else mkConsentResponse false (Some (bs "Handshake no longer awaiting consent"))),
       with_app (match awaited_disclaimer s with
                 | Some d => if accepted then record_agreed_disclaimer d (set_pending_consent None s)
                             else set_pending_consent None s
                 | None => set_pending_consent None s
                 end) w)
  end.
Proof.
  intros Hi s. unfold api_consent_post. rewrite (bind_ok _ _ _ _ _ (with_state_alone _ w Hi)).
  cbn [fst snd]. fold s. set (w1 := with_app (set_pending_consent None s) w).
  assert (Hi1 : undisturbed w1) by exact Hi.
  destruct (pending_consent s) as [tx|]; [|reflexivity].
  destruct accepted.
  2: { unfold mbind, M_bind, mret, M_ret. by destruct (alive tx), (awaited_disclaimer s). }
  assert (Hread : (text ← read_state awaited_disclaimer;
      match text with
      | Some d => with_state (fun s => (tt, record_agreed_disclaimer d s))
      | None => mret tt
      end) w1 = (Ok tt, with_app (match awaited_disclaimer s with
                 | Some d => record_agreed_disclaimer d (set_pending_consent None s)
                 | None => set_pending_consent None s end) w)).
  { rewrite (bind_ok _ _ _ _ _ (read_state_alone _ w1 Hi1)).
    change (awaited_disclaimer (app_of w1)) with (awaited_disclaimer s).
    destruct (awaited_disclaimer s) as [d|]; [|reflexivity].
    by rewrite (with_state_alone _ w1 Hi1). }
  rewrite (bind_ok _ _ _ _ _ Hread). by destruct (alive tx), (awaited_disclaimer s).
Qed.

(** A change of the configuration is in force exactly when it was saved: then the
    named settings have the values given and the others are kept; if the saving fails
    all is as before, and the answer says why. *)
Theorem config_post_spec path mkdir write u (w : Web T) :
  undisturbed w -> returns path ->
  let c := apply_update u (ClientState.config (app_of w)) in
  let (r, w') := api_config_post path mkdir write u w in
  exists resp, r = Ok resp
  /\ (save_ok resp = true ->
        (exists text, save mkdir write c = Ok text) /\ w' = with_app (set_config c (app_of w)) w
        /\ (api_config_get w').1 = Ok (mkConfigResponse (agwpe_host c) (agwpe_port c) (my_callsign c)
                                        (target_callsign c) (bpq_command c) (skip_bpq_app c)))
  /\ (save_ok resp = false -> save_error resp <> None /\ w' = w).
Proof.
  intros Hi Hp c. unfold api_config_post, catch, lift. destruct path as [p|e| |]; [..|done|done].
  2: { eexists. split; [reflexivity|]. by split. }
  rewrite (bind_ok _ _ _ _ _ (read_state_alone ClientState.config w Hi)). cbv zeta. fold c.
  destruct (save mkdir write c) as [text|e| |] eqn:Es.
  - rewrite (bind_ok _ _ _ _ _ (with_state_alone _ w Hi)). cbn [fst snd].
    eexists. split; [reflexivity|]. split; [|done]. intros _. split; [by exists text|]. split; [done|].
    unfold api_config_get. by rewrite read_state_alone.
  - eexists. split; [reflexivity|]. by split.
  - exfalso. revert Es. unfold save. destruct mkdir; [done|]. by destruct (write (ini_text (to_ini c))).
  - exfalso. revert Es. unfold save. destruct mkdir; [done|]. by destruct (write (ini_text (to_ini c))).
Qed.

Lemma close_alone cfg (w : Web T) :
  undisturbed w -> ahead w = [] ->
  let (r, w') := call_unit cfg CloseSession (set_world (raise_abort (world w)) w) in
  returns r /\ undisturbed w' /\ abort_flag (world w') = true
  /\ (r = Ok tt -> connection_state (app_of w') = AgwpeConnected).
Proof.
  intros Hi Ha. unfold call_unit. cbn [ahead set_world]. rewrite Ha. cbn [head default run_queue step].
  unfold handle_close_session.
  assert (Hab : abort (E:=AgwpeError) (raise_abort (world w)) = (Ok tt, raise_abort (world w))).
  { unfold abort. rewrite sync_alone by exact Hi. reflexivity. }
  rewrite (bind_ok _ _ _ _ _ Hab). unfold catch.
  pose proof (task_total _ close_session_task (raise_abort (world w))) as Hr.
  pose proof (task_alone _ (task_polite _ close_session_task) (raise_abort (world w)) Hi) as (Hi1 & Hf & _).
  destruct (close_session (raise_abort (world w))) as [r w1]. cbn in Hr, Hi1, Hf.
  destruct r as [[]|e| |]; [..|done|done].
  - unfold set_state, set_state_with. rewrite (sync_alone _ Hi1). by split_and!.
  - by split_and!.
Qed.

(** After the operator has disconnected, no agreement is left: the next session
    asks again, and until it starts every request still queued is dropped. *)
Theorem disconnect_forgets cfg (w : Web T) :
  undisturbed w -> ahead w = [] ->
  let (r, w') := api_disconnect_handler cfg w in
  exists resp, r = Ok resp /\ abort_flag (world w') = true
  /\ (connect_ok resp = true -> last_agreed_disclaimer (app_of w') = None
        /\ connection_state (app_of w') = AgwpeConnected).
Proof.
  intros Hi Ha. unfold api_disconnect_handler, catch, manager_close_session.
  pose proof (close_alone cfg w Hi Ha) as Hc. destruct (call_unit cfg CloseSession _) as [r w1].
  destruct Hc as (Hr & Hi1 & Hab & Hok). destruct r as [[]|e| |]; [..|done|done].
  - rewrite (bind_ok _ _ _ _ _ (with_state_alone _ w1 Hi1)). cbn [fst snd].
    eexists. split; [reflexivity|]. split; [exact Hab|]. intros _. split; [done|]. by apply Hok.
  - eexists. split; [reflexivity|]. split; [exact Hab|]. done.
Qed.
End Operator.

Section Serve.
Context `{UnicodeCase} `{DebugFormat} `{Base64Laws} `{Brotli} `{HttpHeadersLaws}.
Context `{Sqlite} `{UrlCrate} `{LolHtml} `{Formats} `{IniStore}.

Lemma install_returns cfg vara_cfg fresh (w : Web AnyTransport) :
  let (r, w') := install_vara cfg vara_cfg fresh w in
  returns r /\ Browse.cache w' = Browse.cache w /\ ticks w' = ticks w /\ replies w' = replies w.
Proof.
  unfold install_vara.
  pose proof (step_returns (session_timeout (timeout_secs cfg)) (ConnectModem vara_cfg) []
                (set_modem (inr fresh) (set_abort false (world w)))) as Hs.
  destruct (step _ _ _ _) as [[r call] wd1]. cbn in Hs. by destruct r as [[| | |]|[| | |]].
Qed.

Lemma fine_install cfg vara_cfg fresh : fine (install_vara cfg vara_cfg fresh).
Proof.
  intros reps w Hw Hp. pose proof (install_returns cfg vara_cfg fresh w) as Hi.
  destruct (install_vara cfg vara_cfg fresh w) as [r w']. destruct Hi as (Hr & Hc & _ & Hre). cbn.
  unfold web_wf in *. rewrite Hc, Hre. by split_and!.
Qed.

Lemma fine_connect_kind cfg fresh req k : fine (connect_kind cfg fresh req k).
Proof.
  unfold connect_kind. destruct k; [apply fine_open|..]; (apply fine_bind; [fine|]; intros tc;
    apply fine_catch; [apply fine_install|]; intros [e|[]]; [fine|apply fine_open]).
Qed.
Lemma fine_connect cfg fresh req : fine (api_connect_handler cfg fresh req).
Proof.
  unfold api_connect_handler. destruct (negb _); [fine|].
  destruct (req_transport req) as [s|].
  - destruct (kind_from_str s); [apply fine_connect_kind|fine].
  - apply fine_bind; [fine|]. intros k. apply fine_connect_kind.
Qed.

Lemma fine_browse_get cfg params hs : fine (browse_get_handler (T:=AnyTransport) cfg params hs).
Proof.
  assert (Hu : fine (up ← connected (T:=AnyTransport); mret (if negb up then SeeOther (bs "/connect")
    else HtmlResponse (browse_page [] []) None None) : M (Web AnyTransport) Never HttpResponse)).
  { apply fine_bind; [intros reps; apply runs_connected|]. intros up. fine. }
  unfold browse_get_handler. destruct (param_url params) as [[|x u]|]; [exact Hu| |exact Hu].
  cbv zeta. eapply fine_runs. intros reps. apply runs_browse.
Qed.
Lemma fine_browse_post cfg params body : fine (browse_post_handler (T:=AnyTransport) cfg params body).
Proof.
  unfold browse_post_handler. destruct (post_url params) as [[|x u]|]; [fine| |fine].
  eapply fine_runs. intros reps. apply runs_browse.
Qed.

(** The parameters of a route are values *)
Definition route_wf (r : Route) : Prop :=
  match r with ConfigPost path _ _ _ => returns path | _ => True end.

Lemma fine_route cfg hs r : route_wf r -> fine (handle_route cfg hs r).
Proof.
  intros Hr. destruct r; unfold handle_route, answer; (apply fine_bind; [|intros ?; apply fine_ret]);
    first [solve [fine]|apply fine_browse_get|apply fine_browse_post|apply fine_cache_page
      |apply fine_status_post|apply fine_connect|apply fine_disconnect|apply fine_consent
      |by apply fine_config_post|apply fine_cache_clear|apply fine_cache_delete].
Qed.

Lemma fine_serve cfg allowed req r : route_wf r -> fine (serve cfg allowed req r).
Proof.
  intros Hr. unfold serve, security_guard. destruct (header_text _ _); [|fine].
  destruct (contains_host_header _ _); [|fine]. case_bool_decide; [|by apply fine_route].
  destruct (match _ with Some _ => _ | None => _ end); [by apply fine_route|fine].
Qed.

(** ** Connecting *)

(** What the actor's part of the world is after a connection was asked for *)
Definition same_transport (w w' : Web AnyTransport) : Prop :=
  modem (world w') = modem (world w) /\ actor_callsign w' = actor_callsign w
  /\ trace (world w') = trace (world w).

(** A command that opens a session, with no other before it *)
Lemma call_open cfg target port (w : Web AnyTransport) :
  ahead w = [] ->
  let (r, w') := call_unit cfg (OpenSession target port) w in
  returns r /\ ahead w' = []
  /\ (r = Ok tt -> exists tl, trace (world w') = trace (world w) ++ tl /\ consented (actor_callsign w) tl).
Proof.
  intros Ha. unfold call_unit. rewrite Ha. cbn [head default run_queue step].
  pose proof (open_session_does target port (actor_callsign w) (world w)) as Hd.
  pose proof (does_returns _ _ _ Hd) as Hr. destruct Hd as (tl & Ht & Hx).
  destruct (handle_open_session target port (actor_callsign w) (world w)) as [r w1]. cbn in *.
  split_and!; [done|done|]. intros ->. exists tl. auto.
Qed.

Lemma open_consented cfg target port (w : Web AnyTransport) :
  ahead w = [] ->
  let (r, w') := open_and_answer cfg target port w in
  exists resp, r = Ok resp
  /\ (connect_ok resp = true ->
        exists tl, trace (world w') = trace (world w) ++ tl /\ consented (actor_callsign w) tl).
Proof.
  intros Ha. pose proof (call_open cfg target port w Ha) as Hc. unfold open_and_answer, catch.
  destruct (call_unit cfg (OpenSession target port) w) as [r w1]. destruct Hc as (Hr & _ & Hok).
  destruct r as [[]|e| |]; [|by eexists|done..].
  unfold read_state, with_state. cbn. eexists. split; [done|]. intros _.
  destruct (Hok eq_refl) as (tl & Ht & Hcon). exists tl. split; [|done].
  rewrite <- Ht. by pose proof (sync_session (world w1)) as [= _ ->].
Qed.

Lemma connect_vara vara_cfg b (wd : World AnyTransport) :
  modem wd = inr b ->
  let (r, wd') := (_ ← reset_abort; handle_connect_modem vara_cfg) wd in
  (exists b', modem wd' = inr b') /\ trace wd' = trace wd.
Proof.
  intros Hm. unfold mbind at 1, M_bind at 1, reset_abort. unfold handle_connect_modem.
  set (w1 := set_abort false (sync wd)).
  assert (Hm1 : modem w1 = inr b) by (unfold w1; cbn; by rewrite sync_modem).
  assert (Ht1 : trace w1 = trace wd) by apply sync_trace.
  pose proof (task_session _ (task_polite _ (connect_modem_task (T:=AnyTransport) vara_cfg)) w1) as Hs.
  assert (Hside : exists b', modem (connect_modem vara_cfg w1).2 = inr b').
  { cbn [connect_modem either_transport]. unfold either. rewrite Hm1. unfold through.
    destruct (connect_modem vara_cfg (with_modem b w1)) as [r w2]. cbn. by eexists. }
  unfold mapE. unfold mbind, M_bind. destruct (connect_modem vara_cfg w1) as [r w2].
  cbn [fst snd] in *. injection Hs as _ Hs. pose proof (eq_trans Hs Ht1) as Ht2.
  destruct r as [[]|e| |]; cbn [map_err]; try done.
  split; [|exact (eq_trans (sync_trace w2) Ht2)]. destruct Hside as [b' Hb]. exists b'. rewrite <- Hb. apply sync_modem.
Qed.

Lemma install_spec cfg vara_cfg fresh (w : Web AnyTransport) :
  let (r, w') := install_vara cfg vara_cfg fresh w in
  ahead w' = ahead w /\ trace (world w') = trace (world w)
  /\ match r with
     | Ok _ => (exists m, modem (world w') = inr m) /\ actor_callsign w' = tr_local_callsign vara_cfg
     | _ => same_transport w w'
     end.
Proof.
  unfold install_vara, same_transport. cbn [step].
  pose proof (connect_vara vara_cfg fresh (set_modem (inr fresh) (set_abort false (world w))) eq_refl) as Hc.
  destruct ((_ ← reset_abort; handle_connect_modem vara_cfg) _) as [r w1].
  destruct Hc as [Hm Ht]. cbn in Ht. by destruct r.
Qed.

Lemma read_state_run {A} (f : AppState -> A) (w : Web AnyTransport) :
  read_state f w = (Ok (f (app (sync (world w)))), set_world (sync (world w)) w).
Proof. unfold read_state, with_state. by destruct (sync (world w)). Qed.

(** A session over a new VARA modem *)
Lemma vara_consented cfg vara_cfg fresh target port (w : Web AnyTransport) :
  ahead w = [] ->
  let (r, w') := catch (install_vara cfg vara_cfg fresh) (fun r =>
      match r with
      | inl e => mret (connect_failure (bs "VARA modem connect failed: " ++ display_agwpe_error e))
      | inr _ => open_and_answer cfg target port
      end) w in
  exists resp, r = Ok resp
  /\ (connect_ok resp = true ->
        exists call tl, trace (world w') = trace (world w) ++ tl /\ consented call tl)
  /\ (forall e, (install_vara cfg vara_cfg fresh w).1 = Err e ->
        connect_ok resp = false /\ same_transport w w').
Proof.
  intros Ha. pose proof (install_spec cfg vara_cfg fresh w) as Hi.
  pose proof (install_returns cfg vara_cfg fresh w) as Hr. unfold catch.
  destruct (install_vara cfg vara_cfg fresh w) as [r w1]. destruct Hi as (Ha1 & Ht & Hi), Hr as [Hr _].
  destruct r as [[]|e| |]; [..|done|done].
  - pose proof (open_consented cfg target port w1 (eq_trans Ha1 Ha)) as Ho.
    destruct (open_and_answer cfg target port w1) as [r2 w2]. destruct Ho as (resp & -> & Hok).
    exists resp. split; [done|]. split; [|by intros e]. intros Hresp.
    destruct (Hok Hresp) as (tl & Htl & Hc). exists (actor_callsign w1), tl. by rewrite Htl, Ht.
  - eexists. split; [reflexivity|]. split; [done|]. by intros e' _.
Qed.

Definition synced (w : Web AnyTransport) : Web AnyTransport := set_world (sync (world w)) w.
Lemma same_transport_synced (w w' : Web AnyTransport) : same_transport (synced w) w' -> same_transport w w'.
Proof.
  unfold same_transport, synced. cbn. rewrite sync_modem. by rewrite sync_trace.
Qed.

Lemma connect_kind_spec cfg fresh req k (w : Web AnyTransport) :
  ahead w = [] ->
  let (r, w') := connect_kind cfg fresh req k w in
  exists resp, r = Ok resp
  /\ (connect_ok resp = true ->
        exists call tl, trace (world w') = trace (world w) ++ tl /\ consented call tl)
  /\ (forall e, k <> Ax25 ->
        (install_vara cfg (vara_request_config req k (app (sync (world w)))) fresh (synced w)).1 = Err e ->
        connect_ok resp = false /\ same_transport w w').
Proof.
  intros Ha.
  assert (Hvara : forall tc, let (r, w') := catch (install_vara cfg tc fresh) (fun r =>
      match r with
      | inl e => mret (connect_failure (bs "VARA modem connect failed: " ++ display_agwpe_error e))
      | inr _ => open_and_answer cfg (req_target_callsign req) (req_port_num req)
      end) (synced w) in
    exists resp, r = Ok resp
    /\ (connect_ok resp = true ->
          exists call tl, trace (world w') = trace (world w) ++ tl /\ consented call tl)
    /\ (forall e, (install_vara cfg tc fresh (synced w)).1 = Err e ->
          connect_ok resp = false /\ same_transport w w')).
  { intros tc. pose proof (vara_consented cfg tc fresh (req_target_callsign req) (req_port_num req)
      (synced w) Ha) as Hv.
    destruct (catch (install_vara cfg tc fresh) _ (synced w)) as [r w'].
    destruct Hv as (resp & -> & Hok & Herr). exists resp. split; [done|].
    split; [|intros e He; destruct (Herr e He) as [? ?]; split; [done|by apply same_transport_synced]].
    intros Hresp. destruct (Hok Hresp) as (call & tl & Ht & Hc). exists call, tl. split; [|done].
    rewrite Ht. cbn. by rewrite sync_trace. }
  destruct k; unfold connect_kind.
  - pose proof (open_consented cfg (req_target_callsign req) (req_port_num req) w Ha) as Ho.
    destruct (open_and_answer cfg _ _ w) as [r w']. destruct Ho as (resp & -> & Hok).
    exists resp. split; [done|]. split; [|done]. intros Hresp.
    destruct (Hok Hresp) as (tl & Ht & Hc). by exists (actor_callsign w), tl.
  - rewrite (bind_ok _ _ _ _ _ (read_state_run (vara_request_config req VaraFm) w)). cbv beta.
    specialize (Hvara (vara_request_config req VaraFm (app (sync (world w))))). unfold synced in *.
    destruct (catch _ _ _) as [r w']. destruct Hvara as (resp & -> & Hok & Herr). exists resp.
    split; [done|]. split; [exact Hok|]. intros e _. apply Herr.
  - rewrite (bind_ok _ _ _ _ _ (read_state_run (vara_request_config req VaraHf) w)). cbv beta.
    specialize (Hvara (vara_request_config req VaraHf (app (sync (world w))))). unfold synced in *.
    destruct (catch _ _ _) as [r w']. destruct Hvara as (resp & -> & Hok & Herr). exists resp.
    split; [done|]. split; [exact Hok|]. intros e _. apply Herr.
Qed.

(** C8: connecting by the web succeeds only if the operator accepted the disclaimer and
    AGREE was sent under the callsign in use; an invalid callsign changes nothing, and a
    VARA modem that cannot be reached leaves the transport that was in use in place. *)
Theorem connect_consented cfg fresh req (w : Web AnyTransport) :
  ahead w = [] ->
  let (r, w') := api_connect_handler cfg fresh req w in
  exists resp, r = Ok resp
  /\ (valid_target (req_target_callsign req) = false -> connect_ok resp = false /\ w' = w)
  /\ (connect_ok resp = true ->
        exists call tl, trace (world w') = trace (world w) ++ tl /\ consented call tl)
  /\ (forall s k e, req_transport req = Some s -> kind_from_str s = Some k -> k <> Ax25 ->
        (install_vara cfg (vara_request_config req k (app (sync (world w)))) fresh
           (synced w)).1 = Err e ->
        connect_ok resp = false /\ same_transport w w').
Proof.
  intros Ha. unfold api_connect_handler. destruct (valid_target _) eqn:Hvt; cbn [negb].
  2: { eexists. split; [reflexivity|]. split; [done|]. split; [done|]. by intros. }
  destruct (req_transport req) as [s|] eqn:Hs; [destruct (kind_from_str s) as [k|] eqn:Hk|].
  - pose proof (connect_kind_spec cfg fresh req k w Ha) as Hc.
    destruct (connect_kind cfg fresh req k w) as [r w']. destruct Hc as (resp & -> & Hok & Herr).
    exists resp. split; [done|]. split; [done|]. split; [exact Hok|].
    intros s' k' e [= <-] Hk' Hne. rewrite Hk in Hk'. injection Hk' as <-. by apply Herr.
  - eexists. split; [reflexivity|]. split; [done|]. split; [done|]. intros s' k' e [= <-]. by rewrite Hk.
  - rewrite (bind_ok _ _ _ _ _ (read_state_run (fun s => transport_default (ClientState.config s)) w)).
    cbv beta. set (k := transport_default _).
    pose proof (connect_kind_spec cfg fresh req k (synced w) Ha) as Hc.
    fold (synced w).
    destruct (connect_kind cfg fresh req k (synced w)) as [r w']. destruct Hc as (resp & -> & Hok & _).
    exists resp. split; [done|]. split; [done|]. split; [|done]. intros Hresp.
    destruct (Hok Hresp) as (call & tl & Ht & Hc). exists call, tl. rewrite Ht. cbn. by rewrite sync_trace.
Qed.

(** ** What a request can change *)

(** A run that only reads, when nothing else runs *)
Definition calm {E A} (m : M (Web AnyTransport) E A) : Prop := forall w,
  undisturbed w -> cache_quiet w ->
  Browse.cache (m w).2 = Browse.cache w /\ offline w (m w).2 /\ cache_quiet (m w).2.

Lemma calm_ret {E A} (a : A) : calm (mret a : M (Web AnyTransport) E A).
Proof. by repeat split. Qed.
Lemma calm_read_state {A} (f : AppState -> A) : calm (read_state (T:=AnyTransport) f).
Proof. intros w Hi Hq. rewrite read_state_alone by done. by repeat split. Qed.
Lemma calm_bind {E A B} (m : M (Web AnyTransport) E A) (k : A -> M (Web AnyTransport) E B) :
  calm m -> (forall a, calm (k a)) -> calm (m ≫= k).
Proof.
  intros Hm Hk w Hi Hq. destruct (Hm w Hi Hq) as (Hc & Ho & Hq1). unfold mbind, M_bind.
  destruct (m w) as [[a|e| |] w1]; cbn in *; [|by split_and!..].
  destruct (Hk a w1) as (Hc2 & Ho2 & Hq2); [|done|].
  { unfold undisturbed. by destruct Ho as (-> & _). }
  split_and!; [congruence|by eapply offline_trans|done].
Qed.
Lemma calm_wall_now : calm (wall_now (T:=AnyTransport)).
Proof.
  intros w Hi Hq. destruct (wall_now_quiet w Hq) as (w' & -> & Hc & Ho & Hq' & _). by split_and!.
Qed.
Lemma calm_query {A} (absent : A) (f : Tick -> Cache -> A) :
  calm (on_cache (T:=AnyTransport) absent (fun t c => (f t c, c))).
Proof.
  intros w Hi Hq. unfold on_cache. pose proof (tick_quiet w Hq) as Ht. destruct (tick w) as [t w1].
  destruct Ht as (_ & _ & Hc & Ho & Hq1 & _). destruct (Browse.cache w1) as [c|] eqn:Ec; cbn.
  - split_and!; [by rewrite <- Hc|done|done].
  - split_and!; [by rewrite <- Hc, Ec|done|done].
Qed.

Lemma calm_cache_page : calm (cache_page_handler (T:=AnyTransport)).
Proof.
  unfold cache_page_handler. apply calm_bind; [apply calm_wall_now|]. intros now.
  apply calm_bind; [apply (calm_query ([], 0, 0) (fun t c => _))|]. intros [[es total] cap]. apply calm_ret.
Qed.

Lemma calm_route cfg hs r :
  route_method r <> POST -> (forall p, r <> BrowseGet p) -> calm (handle_route cfg hs r).
Proof.
  intros Hm Hb. destruct r; try done; unfold handle_route, answer;
    (apply calm_bind; [|intros ?; apply calm_ret]);
    first [apply calm_read_state|apply calm_ret|apply calm_cache_page|by destruct (Hb params)].
Qed.

(** C33: a request that the guard does not admit gets 403 and changes nothing; one that
    is not a POST, and so may come from another site's page, only reads, [/browse]
    excepted. *)
Theorem other_sites_only_read cfg listen extras req r (w : Web AnyTransport) :
  undisturbed w -> cache_quiet w -> method req = route_method r ->
  let (res, w') := serve cfg (new_allowlist listen extras) req r w in
  (~ admitted listen extras req -> res = Ok (Refused 403) /\ w' = w)
  /\ (method req <> POST -> (forall p, r <> BrowseGet p) ->
       Browse.cache w' = Browse.cache w /\ offline w w').
Proof.
  intros Hi Hq Hm. unfold serve.
  pose proof (security_guard_cases listen extras req (handle_route cfg (req_headers req) r)
    (fun status => mret (Refused status))) as Hg. cbv zeta in Hg.
  assert (Hcalm : method req <> POST -> (forall p, r <> BrowseGet p) ->
    calm (security_guard (new_allowlist listen extras) req (handle_route cfg (req_headers req) r)
            (fun status => mret (Refused status)))).
  { intros Hne Hb. rewrite Hm in Hne. pose proof (calm_route cfg (req_headers req) r Hne Hb) as Hc.
    unfold security_guard. destruct (header_text _ _); [|apply calm_ret].
    destruct (contains_host_header _ _); [|apply calm_ret]. case_bool_decide; [|exact Hc].
    destruct (match _ with Some _ => _ | None => _ end); [exact Hc|apply calm_ret]. }
  destruct (security_guard _ req _ _ w) as [res w'] eqn:E. split.
  - intros Hn. destruct Hg as [_ Hg]. rewrite (Hg Hn) in E. by injection E as <- <-.
  - intros Hne Hb. destruct (Hcalm Hne Hb w Hi Hq) as (Hc & Ho & _). rewrite E in Hc, Ho. by split.
Qed.
End Serve.

(** ** Concrete runs *)

Module ToyFormats.
#[export] Instance formats : Formats := {|
  ports_to_json := fun _ => None;
  utc_format := fun _ t => display t |}.
End ToyFormats.

#[local] Existing Instances ToyDebug.debug_format Toy.unicode ToyHttp.http_headers ToyHttp.http_headers_laws
  Toy.brotli ToySqlite.sqlite ToyUrl.url_crate ToyHtml.element ToyHtml.lol_html ToyFormats.formats ToyIni.store.

(** A client with a transport and a state *)
Definition client (m : AnyTransport) (s : AppState) (others : list (list Interference)) : Web AnyTransport :=
  mkWeb (mkWorld m s false 0 [] others [] []) (bs "N0CALL") (Some (mkCache ∅ 1000 3600)) [] [] [].
Definition idle_agwpe : AnyTransport := inl (new_transport []).
Definition no_network : VaraTransport := new_vara [] [].
Definition start : Web AnyTransport := client idle_agwpe (new_state default_config) [].

Lemma client_wf m s others : web_wf (client m s others).
Proof. intros url r Hr. change ((∅ : gmap (list byte) Row) !! url = Some r) in Hr. by rewrite lookup_empty in Hr. Qed.

Definition ask (target : list byte) (transport mode : option (list byte)) : ConnectRequest :=
  mkConnectRequest target 0 transport None None None None mode None.
Definition loopback : IpAddr := V4 x7f x00 x00 x01.
Definition from_browser (m : Method) (p : list byte) : WebRequest :=
  mkWebRequest m p [(bs "host", bs "localhost:8080"); (bs "origin", bs "http://localhost:8080")].

Lemma connect_consented_witness :
  let req := ask (bs "N0CALL-8") (Some (bs "vara_fm")) None in
  let (r, w') := api_connect_handler demo_settings no_network req start in
  exists resp, r = Ok resp
  /\ (valid_target (req_target_callsign req) = false -> connect_ok resp = false /\ w' = start)
  /\ (connect_ok resp = true ->
        exists call tl, trace (world w') = trace (world start) ++ tl /\ consented call tl)
  /\ (forall s k e, req_transport req = Some s -> kind_from_str s = Some k -> k <> Ax25 ->
        (install_vara demo_settings (vara_request_config req k (app (sync (world start)))) no_network
           (synced start)).1 = Err e ->
        connect_ok resp = false /\ same_transport start w').
Proof.
  intros req. apply (connect_consented demo_settings no_network req start). reflexivity.
Defined.

Lemma consent_post_spec_witness :
  let w := client idle_agwpe (set_pending_consent (Some 4%nat)
             (put_connection_state (AwaitingConsent notice) (new_state default_config))) [] in
  exists w', api_consent_post (fun _ => true) true w = (Ok (mkConsentResponse true None), w')
    /\ last_agreed_disclaimer (app_of w') = Some notice /\ pending_consent (app_of w') = None.
Proof.
  intros w. pose proof (consent_post_spec (fun _ => true) true w eq_refl) as Hc. cbv zeta in Hc.
  rewrite Hc. eexists. split; [reflexivity|]. split; reflexivity.
Defined.

Lemma config_post_spec_witness :
  let u := mkConfigUpdate None (Some 8001) (Some (bs "N0CALL")) None None None in
  let (r, w') := api_config_post (Ok (bs "config.ini")) None (fun _ => None) u start in
  exists resp, r = Ok resp /\ save_ok resp = true
    /\ my_callsign (ClientState.config (app_of w')) = bs "N0CALL".
Proof.
  intros u. pose proof (config_post_spec (Ok (bs "config.ini")) None (fun _ => None) u start eq_refl I) as Hc.
  cbv zeta in Hc. destruct (api_config_post (Ok (bs "config.ini")) None (fun _ => None) u start) as [r w'] eqn:E.
  destruct Hc as (resp & -> & Hok & Hno). exists resp. split; [reflexivity|].
  assert (Ho : save_ok resp = true).
  { assert (E1 : (api_config_post (Ok (bs "config.ini")) None (fun _ => None) u start).1
      = Ok (mkConfigSaveResponse true None)) by (vm_compute; reflexivity).
    rewrite E in E1. cbn in E1. by injection E1 as ->. }
  split; [exact Ho|]. destruct (Hok Ho) as (_ & -> & _). reflexivity.
Defined.

Lemma disconnect_forgets_witness :
  let (r, w') := api_disconnect_handler demo_settings start in
  exists resp, r = Ok resp /\ abort_flag (world w') = true
  /\ (connect_ok resp = true -> last_agreed_disclaimer (app_of w') = None
        /\ connection_state (app_of w') = AgwpeConnected).
Proof. apply (disconnect_forgets demo_settings start); reflexivity. Defined.

Lemma other_sites_only_read_witness :
  let req := mkWebRequest POST (bs "/api/cache/clear")
               [(bs "host", bs "localhost:8080"); (bs "origin", bs "http://evil.com")] in
  serve demo_settings (new_allowlist loopback []) req CacheClear start = (Ok (Refused 403), start).
Proof.
  intros req.
  pose proof (other_sites_only_read demo_settings loopback [] req CacheClear start eq_refl) as Ho.
  destruct (serve demo_settings (new_allowlist loopback []) req CacheClear start) as [res w'].
  destruct Ho as [Hn _]; [constructor|reflexivity|]. destruct Hn as [-> ->]; [|reflexivity].
  intros (h & Hh & _ & Hp). injection Hh as <-. destruct (Hp eq_refl) as (o & Ho & [Hx|Hx]);
    injection Ho as <-; discriminate Hx.
Defined.

(** A request for AX.25 uses whatever transport is installed: after a VARA session the
    VARA modem is told to connect. *)
Example ax25_goes_over_vara :
  let modem := mkVaraTransport (Some (mkSock [(1, says (bs "OK"))] [])) (Some (mkSock [] [])) [] [] [] [] [] [] in
  let (r, w') := api_connect_handler demo_settings no_network (ask (bs "N0CALL-8") (Some (bs "ax25")) None)
                   (client (inr modem) (new_state default_config) []) in
  match Transport.modem (world w') with
  | inr v => wire_cmd v = bs "MYCALL N0CALL" ++ [CR] ++ bs "CONNECT N0CALL N0CALL-8" ++ [CR]
  | inl _ => False
  end.
Proof. vm_compute. reflexivity. Qed.

(** A mode other than "hf" is not taken from the request. *)
Example fm_request_ignored :
  let hf := mkFileConfig (bs "127.0.0.1") 8000 [] [] (bs "WEB") false default_cache default_connection VaraHf
              (mkVaraParams (bs "127.0.0.1") 8300 (bs "127.0.0.1") 8301 Hf Bw500) in
  vara_mode (TransportTypes.vara (vara_request_config (ask (bs "N0CALL") (Some (bs "vara_fm")) (Some (bs "fm"))) VaraFm
    (new_state hf))) = Hf.
Proof. reflexivity. Qed.

(** The decision names no text: it counts for what is asked when it comes, not for what
    the operator was shown. *)
Example consent_to_unseen_text :
  let asks d := set_pending_consent (Some 4%nat) (put_connection_state (AwaitingConsent d) (new_state default_config)) in
  let (shown, w1) := api_consent_get (client idle_agwpe (asks (bs "one"))
                       [[]; [Update (fun _ => asks (bs "two"))]]) in
  let (r, w2) := api_consent_post (fun _ => true) true w1 in
  shown = Ok (mkConsentInfoResponse true (Some (bs "one")))
  /\ last_agreed_disclaimer (app_of w2) = Some (bs "two").
Proof. vm_compute. split; reflexivity. Qed.
