(* ===== verification/ClientMain.v ===== *)
(** * The client's start-up ([client/src/main.rs])

    The configuration, the transport's actor with its first connection to the modem, the
    guard's host names, the cache, and then the requests of the browser one by one. *)
From Stdlib Require Import ZArith Lia Strings.Byte.
From stdpp Require Import base decidable list countable gmap.
From S2P Require Import NetAddr Agwpe Vara AnyTransport.
From S2P Require Import Prelude Bytes Numbers External Protocol TransportTypes Cache Rewrite Ui HostGuard.
From S2P Require Import ClientConfig ClientState Transport Session Manager Browse WebApi.

Inductive ClientError : Type :=
| CeAgwpe (e : AgwpeError)
| CeConfig (e : ConfigError)
| CeIo (msg : list byte).
Definition display_client_error (e : ClientError) : list byte :=
  match e with
  | CeAgwpe e => bs "AGWPE error: " ++ display_agwpe_error e
  | CeConfig e => bs "Configuration error: " ++ display_config_error e
  | CeIo m => bs "IO error: " ++ m
  end.

(** [tracing]'s levels *)
Inductive Level : Type := WARN | INFO | DEBUG | TRACE.
Definition log_level (verbosity : Z) : Level :=
  if verbosity =? 0 then WARN
  else if verbosity =? 1 then INFO
  else if verbosity =? 2 then DEBUG
  else TRACE.

(** ** The banner ([print_startup_banner]), line by line *)

(** [SocketAddr]'s text *)
Definition display_socket_addr (addr : IpAddr * Z) : list byte :=
  match addr.1 with
  | V4 _ _ _ _ => display_ip addr.1 ++ bs ":" ++ display addr.2
  | V6 _ => bs "[" ++ display_ip addr.1 ++ bs "]:" ++ display addr.2
  end.
Definition banner_bar : list byte := repeat x3d 60.
Definition exposed_warning (ip : IpAddr) : list (list byte) :=
  [[]; bs "  WARNING: bound to " ++ display_ip ip ++ bs " (non-loopback address).";
   bs "           Anyone who can reach this host on the network";
   bs "           can use this proxy and change its configuration.";
   bs "           Use --listen-addr 127.0.0.1:PORT to restrict it";
   bs "           to this machine only."].
(** [version] is [CARGO_PKG_VERSION] *)
Definition print_startup_banner (version listen_addr : list byte) (bound : option (IpAddr * Z)) : list (list byte) :=
  let shown := match bound with Some a => display_socket_addr a | None => listen_addr end in
  [[]; banner_bar; bs "  Packet Browser Client v" ++ version; [];
   bs "  Open http://" ++ shown ++ bs " in your browser"]
  ++ match bound with
     | Some a => if is_loopback a.1 then [] else exposed_warning a.1
     | None => []
     end
  ++ [banner_bar; []].

Section Main.
Context `{UnicodeCase} `{DebugFormat} `{Base64} `{Brotli} `{HttpHeaders}.
Context `{Sqlite} `{UrlCrate} `{LolHtml} `{Formats} `{IniStore}.

(** What the start finds: the modem's network, the result of binding the listening
    address, with the address bound if it is known, and the table of the cache's file,
    left by earlier runs, whose answers [earlier] lists *)
Record Surroundings : Type := mkSurroundings {
  files : ConfigFiles;
  modem_net : list (list byte + Stream);
  bound : list byte + option IpAddr;
  cache_root : option (list byte);
  cache_file : list byte -> list byte + gmap (list byte) Row;
  earlier : list (Request * list byte);
  meanwhile : list (list Interference) }.

Abbreviation Start := (M (Web AnyTransport) Never).

Definition settings_of (c : FileConfig) : Settings :=
  mkSettings (response_timeout_secs (connection c)) (ClientConfig.auto_reconnect (connection c))
    (max_ttl_seconds (ClientConfig.cache c)).

(** [config.cache.enabled], the directory and [Cache::open]; a failure leaves the
    session without a cache *)
Definition open_cache (s : Surroundings) (c : CacheSection) : option Cache :=
  if cache_enabled c then
    match effective_dir (cache_root s) c with
    | Ok dir =>
        match cache_file s dir with
        | inr t => Some (mkCache t (max_bytes c) (max_ttl_seconds c))
        | inl _ => None
        end
    | _ => None
    end
  else None.

Definition auto_connect_config (c : FileConfig) : TransportConfig :=
  mkTransportConfig Ax25 (mkAgwpeParams (agwpe_host c) (agwpe_port c)) (vara_section c) (my_callsign c).

(** The first connection to the modem; its failures are only logged *)
Definition auto_connect (cfg : Settings) (c : FileConfig) : Start unit :=
  if bool_decide (my_callsign c = []) then mret tt
  else
    catch (call_unit cfg (ConnectModem (auto_connect_config c))) (fun r =>
      match r with
      | inr _ => ignore (call_unit cfg QueryPorts)
      | inl _ => mret tt
      end).

(** The actor with the AGWPE transport, before anything has run *)
Definition first_web (s : Surroundings) (c : FileConfig) : Web AnyTransport :=
  mkWeb (mkWorld (inl (attach_state (new_transport (modem_net s)))) (new_state c) false 0 []
           (meanwhile s) [] [])
    [] None [] [] (earlier s).

(** [main] up to [axum::serve]: the settings, the guard's names and the state *)
Definition start_client (s : Surroundings) (args : RawArgs)
    : Result ClientError (Settings * HostAllowlist * Web AnyTransport) :=
  let cli := parse_args args in
  config ← map_err CeConfig (resolve_config (files s) cli);
  let cfg := settings_of config in
  match auto_connect cfg config (first_web s config) with
  | (Ok _, w) =>
      match bound s with
      | inl e => Err (CeIo e)
      | inr ip =>
          let listen_ip := default (V4 x7f x00 x00 x01) ip in
          Ok (cfg, new_allowlist listen_ip (allowed_hosts cli),
              set_cache (open_cache s (ClientConfig.cache config)) w)
      end
  | (Err e, _) => match e with end
  | (Panic, _) => Panic
  | (Spin, _) => Spin
  end.

(** [axum::serve]: the requests in the order they are taken *)
Fixpoint serve_all (cfg : Settings) (allowed : HostAllowlist) (reqs : list (WebRequest * Route))
    : M (Web AnyTransport) Never (list WebResponse) :=
  match reqs with
  | [] => mret []
  | (req, r) :: rest =>
      resp ← serve cfg allowed req r;
      resps ← serve_all cfg allowed rest;
      mret (resp :: resps)
  end.
End Main.

(** The operator is warned exactly when the interface can be reached from elsewhere,
    whatever else the banner says. *)
Lemma banner_warns version listen_addr bound :
  (exists l, l ∈ print_startup_banner version listen_addr bound /\ starts_with (bs "  WARNING") l = true)
  <-> exists ip port, bound = Some (ip, port) /\ is_loopback ip = false.
Proof.
  unfold print_startup_banner. split.
  - intros (l & Hl & Hw). destruct bound as [[ip port]|]; [destruct (is_loopback ip) eqn:E; [|by exists ip, port]|];
      cbn [fst app] in Hl; rewrite ?E in Hl; cbn [app] in Hl;
      repeat (apply elem_of_cons in Hl as [->|Hl]; [done|]); by apply not_elem_of_nil in Hl.
  - intros (ip & port & -> & E). cbn [fst]. rewrite E.
    exists (bs "  WARNING: bound to " ++ display_ip ip ++ bs " (non-loopback address)."). split; [|done].
    do 6 apply list_elem_of_further. apply list_elem_of_here.
Qed.

(** ** The client runs *)

Section Run.
Context `{UnicodeCase} `{DebugFormat} `{Base64Laws} `{Brotli} `{HttpHeadersLaws}.
Context `{Sqlite} `{UrlCrate} `{LolHtml} `{Formats} `{IniStore}.

Lemma fine_auto_connect cfg c : fine (auto_connect cfg c).
Proof.
  unfold auto_connect. destruct (bool_decide _); [fine|]. apply fine_catch; [apply fine_call_unit|].
  intros [e|[]]; [fine|]. apply fine_catch; [apply fine_call_unit|]. intros ?. fine.
Qed.

Lemma runs_serve_all cfg allowed reqs reps :
  Forall (fun qr => route_wf qr.2) reqs ->
  runs reps (serve_all cfg allowed reqs) (fun _ resps => length resps = length reqs).
Proof.
  revert reps. induction reqs as [|[req r] rest IH]; intros reps Hr; cbn [serve_all]; [by apply runs_ret|].
  apply Forall_cons in Hr as [Hr Hrest].
  eapply runs_bind; [by apply (fine_serve cfg allowed req r)|]. intros reps' resp _ _.
  eapply runs_bind; [by apply IH|]. intros reps2 resps _ Hl. apply runs_ret. intros reps3 _. cbn. by f_equal.
Qed.

Lemma resolve_config_returns fs a : returns (resolve_config fs a).
Proof.
  unfold resolve_config. apply returns_bind.
  { destruct (config_path a); [done|]. apply returns_bind; [apply returns_ok_or|done]. }
  intros path _. apply returns_bind; [|done]. unfold load. destruct (negb _); [done|].
  apply returns_bind; [|done]. apply returns_map_err, returns_of_sum.
Qed.

(** What earlier runs left in a cache file came as the answers they got. *)
Definition left_sourced (s : Surroundings) : Prop :=
  forall dir t url r, cache_file s dir = inr t -> t !! url = Some r ->
    sourced (earlier s) url None (Cache.etag r) (brotli_body r).

Lemma opened_cache_sourced s c opened reps :
  left_sourced s -> earlier s `prefix_of` reps -> open_cache s c = Some opened -> cache_sourced reps opened.
Proof.
  intros Hf Hp. unfold open_cache. destruct (cache_enabled c); [|done].
  destruct (effective_dir _ _) as [dir| | |]; try done. destruct (cache_file s dir) as [|t] eqn:E; [done|].
  intros [= <-] url r Hr. eapply sourced_mono; [exact Hp|]. exact (Hf dir t url r E Hr).
Qed.

(** Started, the client is ready: its cache is one the answers account for. *)
Lemma start_ready s args cfg allowed w :
  left_sourced s -> start_client s args = Ok (cfg, allowed, w) -> web_wf w.
Proof.
  intros Hf. unfold start_client. destruct (resolve_config _ _) as [c| | |]; cbn; try done.
  destruct (fine_auto_connect (settings_of c) c [] (first_web s c) I (prefix_nil _)) as (_ & _ & Hp & _).
  destruct (auto_connect _ _ _) as [[[]|[]| |] w1]; cbn in *; try done.
  destruct (bound s) as [|ip]; [done|]. intros [= _ _ <-]. unfold web_wf. cbn.
  destruct (open_cache _ _) as [opened|] eqn:E; [|done]. by eapply opened_cache_sourced.
Qed.

(** C16: started with a configuration that can be read and an address that can be bound,
    the client answers every request it is then sent, one after the other, whatever the
    modem does from the first connection on; and what its cache holds, also what earlier
    runs left there, came as the answers to requests for the URLs it is kept under. *)
Theorem client_serves s args reqs :
  left_sourced s -> Forall (fun qr => route_wf qr.2) reqs ->
  match start_client s args with
  | Ok (cfg, allowed, w) =>
      let (res, w') := serve_all cfg allowed reqs w in
      web_wf w' /\ exists resps, res = Ok resps /\ length resps = length reqs
  | Err e => (exists m, e = CeIo m /\ bound s = inl m)
      \/ (exists c, e = CeConfig c /\ resolve_config (files s) (parse_args args) = Err c)
  | Panic | Spin => False
  end.
Proof.
  intros Hf Hr. destruct (start_client s args) as [[[cfg allowed] w]|e| |] eqn:E.
  1: { apply (runs_handler _ _ w (runs_serve_all cfg allowed reqs [] Hr)). by eapply start_ready. }
  all: revert E; unfold start_client; pose proof (resolve_config_returns (files s) (parse_args args)) as Hc;
    destruct (resolve_config _ _) as [c|e'| |]; cbn in *; try done.
  2: { intros [= <-]. right. by exists e'. }
  all: destruct (fine_auto_connect (settings_of c) c [] (first_web s c) I (prefix_nil _)) as (Ha & _);
    destruct (auto_connect _ _ _) as [[[]|[]| |] w1]; cbn in *; try done; destruct (bound s) as [m|]; try done.
  intros [= <-]. left. by exists m.
Qed.
End Run.

(** ** The settings stay in their types *)

Section Settings.
Context `{UnicodeCaseLaws} `{IniLaws}.

(** What the crate reads from a file is text. *)
Definition reads_text (fs : ConfigFiles) : Prop :=
  forall path ini k v, ini_load fs path = inr ini -> ini_get ini k = Some v -> utf8_valid v = true.

(** A port given on the command line, or in a request to change the settings, is a [u16]. *)
Definition port_wf (p : option Z) : Prop := forall n, p = Some n -> 0 <= n <= 65535.

Lemma default_port_wf p n : port_wf p -> 0 <= n <= 65535 -> 0 <= default n p <= 65535.
Proof. intros Hp Hn. destruct p as [m|]; [by apply Hp|done]. Qed.

Lemma default_config_wf : config_wf default_config.
Proof. unfold config_wf. cbn. unfold u64_max. split_and!; lia || done. Qed.

Lemma from_ini_wf ini :
  (forall k v, ini_get ini k = Some v -> utf8_valid v = true) -> config_wf (from_ini ini).
Proof.
  intros Ht. unfold config_wf, from_ini. cbn [agwpe_port vara_section cmd_port data_port ClientConfig.cache
    max_bytes max_ttl_seconds connection response_timeout_secs cache_dir].
  split_and!; try (apply parsed_unsigned_bound; unfold u64_max; lia).
  intros d Hd. apply bind_Some in Hd as (v & Hv & Hd). case_bool_decide as Hb; [done|].
  injection Hd as <-. split; [by eapply Ht|done].
Qed.

Lemma load_wf fs path c : reads_text fs -> load fs path = Ok c -> config_wf c.
Proof.
  intros Ht. unfold load. destruct (negb _); [intros [= <-]; apply default_config_wf|].
  destruct (ini_load fs path) as [e|ini] eqn:E; [done|]. cbn. intros [= <-]. apply from_ini_wf.
  intros k v. by apply (Ht path).
Qed.

Lemma apply_update_wf u c :
  port_wf (up_agwpe_port u) -> config_wf c -> config_wf (apply_update u c).
Proof. intros Hu (Hp & Hrest). split; [by apply default_port_wf|done]. Qed.

Lemma resolved_wf fs a c :
  reads_text fs -> port_wf (raw_agwpe_port a) -> resolve_config fs (parse_args a) = Ok c -> config_wf c.
Proof.
  intros Ht Hp Hr. unfold resolve_config in Hr.
  destruct (match config_path _ with Some _ => _ | None => _ end); try done.
  cbn in Hr. destruct (load fs _) as [c0| | |] eqn:E; cbn in Hr; try done. injection Hr as <-.
  destruct (load_wf _ _ _ Ht E) as (Hp0 & Hrest). split; [by apply default_port_wf|done].
Qed.

(** C34: the settings are always values of their types: those the client starts with,
    from any file and command line, and those any request to change them leaves.  Once
    such settings are saved, each text of them on one line, the file at that path is
    read as exactly these settings with every text cut at its first comment sign and
    trimmed: so they come back as they were if and only if no text has a comment sign in
    it or white space around it.  Requests may set any text ([comment_sign_cuts]). *)
Theorem settings_reread fs a c u :
  reads_text fs -> port_wf (raw_agwpe_port a) -> port_wf (up_agwpe_port u) ->
  resolve_config fs (parse_args a) = Ok c ->
  let c' := apply_update u c in
  config_wf c /\ config_wf c'
  /\ forall path mkdir write text,
       Forall single_line (texts c') -> save mkdir write c' = Ok text ->
       load (written path text fs) path = Ok (as_read c')
       /\ (as_read c' = c' <-> Forall (fun s => ini_value s = s) (texts c')).
Proof.
  intros Ht Hp Hu Hr c'. pose proof (resolved_wf _ _ _ Ht Hp Hr) as Hc.
  pose proof (apply_update_wf u c Hu Hc) as Hw. split_and!; [done|done|].
  intros path mkdir write text Hl Hs. split; [by eapply saved_is_read|by apply as_read_same].
Qed.

(** The settings are saved under the default path, wherever they were read from: a
    client started with another file does not read them again. *)
Theorem saved_elsewhere fs a p q text :
  raw_config a = Some p -> default_path fs = Ok q -> p <> q ->
  resolve_config (written q text fs) (parse_args a) = resolve_config fs (parse_args a).
Proof.
  intros Ha Hq Hne. unfold resolve_config, parse_args. cbn [config_path]. rewrite Ha. cbn.
  unfold load, ini_load, written. cbn [exists_ read_file].
  by rewrite !bool_decide_false by done.
Qed.
End Settings.

(** ** A concrete run *)

#[local] Existing Instances ToyDebug.debug_format Toy.unicode Toy.unicode_laws ToyHttp.http_headers ToyHttp.http_headers_laws
  Toy.brotli ToySqlite.sqlite ToyUrl.url_crate ToyHtml.element ToyHtml.lol_html ToyFormats.formats ToyIni.store.

(** No modem is running, and an earlier run left one page *)
Definition left_page : Surroundings :=
  mkSurroundings
    (mkConfigFiles (fun _ => true) (fun _ => inr (ini_set (key "session" "my_callsign") (bs "N0CALL") ini_new))
       (Some (bs "/home/op/.config")))
    [] (inr None) (Some (bs "/home/op/.cache")) (fun _ => inr {[demo_url := demo_row]})
    [(Get demo_url None, encode_response demo)] [].
Definition no_args : RawArgs := mkRawArgs None None None None None 0 [].
Definition first_requests : list (WebRequest * Route) :=
  [(from_browser GET (bs "/browse"), BrowseGet (mkBrowseParams (Some demo_url) None));
   (from_browser POST (bs "/api/cache/clear"), CacheClear);
   (mkWebRequest POST (bs "/api/cache/clear") [(bs "host", bs "evil.com")], CacheClear)].

Lemma left_page_sourced : left_sourced left_page.
Proof.
  intros dir t url r [= <-] Hr. change (({[demo_url := demo_row]} : gmap (list byte) Row) !! url = Some r) in Hr.
  apply lookup_singleton_Some in Hr as [<- <-].
  exists (Get demo_url None), (encode_response demo), 60. split; [by left|].
  split; [exact demo_page|]. by exists None.
Qed.

Lemma client_serves_witness :
  match start_client left_page no_args with
  | Ok (cfg, allowed, w) =>
      let (res, w') := serve_all cfg allowed first_requests w in
      web_wf w' /\ exists resps, res = Ok resps /\ length resps = 3%nat
  | Err e => (exists m, e = CeIo m /\ bound left_page = inl m)
      \/ (exists c, e = CeConfig c /\ resolve_config (files left_page) (parse_args no_args) = Err c)
  | Panic | Spin => False
  end.
Proof.
  apply (client_serves left_page no_args first_requests left_page_sourced).
  repeat apply Forall_cons_2; [exact I..|apply Forall_nil_2].
Defined.

Lemma left_page_text : reads_text (files left_page).
Proof.
  intros path ini k v [= <-].
  change ((<[key "session" "my_callsign" := bs "N0CALL"]> ∅ : gmap (list byte * list byte) (list byte)) !! k
    = Some v -> utf8_valid v = true).
  intros Hk. apply lookup_insert_Some in Hk as [[_ <-]|[_ Hk]]; [reflexivity|].
  by rewrite lookup_empty in Hk.
Qed.

Lemma settings_reread_witness :
  let u := mkConfigUpdate None (Some 65535) None None (Some (bs "WEB;x")) None in
  exists c text, resolve_config (files left_page) (parse_args no_args) = Ok c
    /\ save None (fun _ => None) (apply_update u c) = Ok text
    /\ load (written (bs "/c") text (files left_page)) (bs "/c") = Ok (as_read (apply_update u c))
    /\ bpq_command (as_read (apply_update u c)) = bs "WEB".
Proof.
  intros u. do 2 eexists. split; [reflexivity|]. split; [reflexivity|]. split; [|by vm_compute].
  refine (proj1 (proj2 (proj2 (settings_reread (files left_page) no_args _ u left_page_text _ _ eq_refl))
    _ None (fun _ => None) _ _ eq_refl)); [done|by intros n [= <-]|].
  apply List.Forall_forall, (proj1 (List.forallb_forall (no_byte LF) _)). reflexivity.
Defined.

(** Started without a modem, the client still shows the way to the connect page, and lets
    only its own pages clear the cache. *)
Example starts_without_modem :
  match start_client left_page no_args with
  | Ok (cfg, allowed, w) =>
      is_connected (app (world w)) = false
      /\ exists cleared, (serve_all cfg allowed first_requests w).1
           = Ok [Http (SeeOther (bs "/connect")); cleared; Refused 403]
  | _ => False
  end.
Proof. vm_compute. split; [reflexivity|]. eexists. reflexivity. Qed.
