(* ===== verification/EndToEnd.v ===== *)
(** * The two programs joined

    The server's request loop ([server/src/main.rs]), the client's AGWPE modem
    ([client/src/transport/agwpe.rs]) and its browse handler ([client/src/proxy.rs]):
    what the client sends is what the server reads, and what the server writes is what
    the frames of the node carry. *)
From Stdlib Require Import ZArith Lia Strings.Byte.
From stdpp Require Import base decidable list countable gmap.
From S2P Require Import Browser.
From S2P Require Import NetAddr Blocklist Filter ServerConfig OriginCC Callsign SocketRead Server.
From S2P Require Import AgwpeFrame Agwpe.
From S2P Require Import Prelude Bytes Numbers External Protocol TransportTypes Cache Rewrite Ui HostGuard.
From S2P Require Import ClientConfig ClientState Transport Session Manager Delivery Browse.

(** The bytes each side puts on the link *)
Definition client_bytes (tl : list Transport.Act) : list byte :=
  concat (map (fun a => match a with Sent d => d | _ => [] end) tl).
Definition server_bytes `{Base64} (tl : list Server.Act) : list byte :=
  concat (map (fun a =>
    match a with
    | Server.Wrote o cut =>
        let out := match o with Server.Text s => s | Server.Frame r => encode_response r end in
        match cut with None => out | Some n => take n out end
    | _ => []
    end) tl).

Lemma client_bytes_received evs : client_bytes (received evs) = [].
Proof. unfold client_bytes. induction evs; [done|by cbn]. Qed.

Section EndToEnd.
Context `{UnicodeCase} `{DebugFormat} `{Base64Laws} `{Sha256Laws} `{BrotliLaws} `{HttpHeadersLaws}.
Context `{Sqlite} `{UrlCrate} `{LolHtml}.
Context (config : Config) (resolve_at : Z -> list byte -> Z -> option (list IpAddr)).
Context (domains_at : Z -> Blocklist.State) (url_parse : list byte -> option Filter.Url).
Context (parse_http_date : list byte -> option Z) (prober : Prober).
Context (Hdefault : i32_min <= default_max_age_seconds config <= i32_max).

(** The answer of the server for a page *)
Definition page_response (url html compressed : list byte) : Response :=
  mkResponse Status.Ok (sanitized_html_etag html) (joined_max_age config parse_http_date prober url) compressed.

(** A server that has the station's agreement and a browser, and will fetch this page *)
Definition ready (ws : Server.World) (deadline : Z) (html : list byte) : Prop :=
  idle_deadline config (Server.session ws) = Ok deadline
  /\ Server.browser ws = true /\ Server.writes ws = []
  /\ (exists d fs, Server.fetches ws = (d, inr html) :: fs)
  /\ SocketRead.quiet deadline (Server.reader ws).

Lemma page_response_wf url html compressed :
  Z.of_nat (length (encode_response (page_response url html compressed))) <= MAX_RESPONSE_SIZE ->
  response_wf (page_response url html compressed).
Proof.
  intros Hl. split; [apply sanitized_html_etag_valid|]. split; [by apply joined_max_age_range|].
  rewrite encode_response_split, !length_app in Hl. cbn [payload page_response] in *.
  unfold MAX_RESPONSE_SIZE in Hl. unfold u32_max. lia.
Qed.

(** The server once it has answered with the page, which took [d] to fetch *)
Definition page_sent (url html compressed : list byte) (d : Z) (fs : list (Z * (BrowserError + list byte)))
    (w : Server.World) : Server.World :=
  let w1 := Server.advance d (Server.record (Server.Fetched url (Server.clock w))
    (Server.mkWorld (Server.reader w) (Server.session w) (Server.browser w) (Server.writes w)
       (Server.launches w) fs (Server.cloned w) (Server.crash_loop w) (Server.trace w))) in
  let s := Server.session w in
  Server.record (Server.Wrote (Server.Frame (page_response url html compressed)) None)
    (Server.set_session (mkSession (Callsign.callsign s) (acknowledged s) (Some url) (last_activity s))
       (Server.record (Server.Logged (mkLogEntry (Server.clock w1) (Callsign.callsign s) url LogOk None)) w1)).

(** A page that is fetched is answered at once. *)
Lemma request_answers w d fs url html compressed :
  Server.browser w = true -> Server.writes w = [] -> Server.fetches w = (d, inr html) :: fs ->
  (forall t, validate_at config resolve_at domains_at url_parse t url = Ok tt) ->
  brotli_compress html (brotli_quality config) = Ok compressed ->
  handle_request config resolve_at domains_at url_parse parse_http_date prober url None w
    = (Ok tt, page_sent url html compressed d fs w).
Proof.
  intros Hb Hw Hf Hv Hz. unfold handle_request.
  change ((gets Server.clock ≫= ?k) w) with (k (Server.clock w) w). cbv beta. rewrite Hv.
  change ((gets fetch_fuel ≫= ?k) w) with (k (fetch_fuel w) w). cbv beta.
  set (w1 := Server.advance d (Server.record (Server.Fetched url (Server.clock w))
    (Server.mkWorld (Server.reader w) (Server.session w) (Server.browser w) (Server.writes w)
       (Server.launches w) fs (Server.cloned w) (Server.crash_loop w) (Server.trace w)))).
  assert (Hpage : fetch_loop (fetch_fuel w) url w = (Ok (Some html), w1)).
  { unfold fetch_fuel. rewrite Nat.add_comm. cbn [Nat.add fetch_loop]. unfold mbind, M_bind, gets.
    rewrite Hb. cbn [negb]. unfold Server.fetch_page. by rewrite Hf. }
  rewrite (bind_ok _ _ _ _ _ Hpage). rewrite bool_decide_false by done. rewrite Hz.
  unfold log_entry, set_current_url, modify, mbind, M_bind, write_out. cbn [Server.writes].
  unfold page_sent, w1. cbn. by rewrite Hw.
Qed.

(** More will be reported to the server's socket. *)
Definition feed_server (more : list (Z * SocketRead.ReadEvent)) (w : Server.World) : Server.World :=
  Server.set_reader (feed more (Server.reader w)) w.

(** One turn of the request loop: the server reads the request, however much is still
    to be read, answers it with the page, and goes on; its idle timeout counts from
    there. *)
Lemma server_turn ws deadline url html compressed d fs rest :
  ready ws deadline html -> Server.fetches ws = (d, inr html) :: fs -> sendable (Get url None) ->
  pending (Server.reader ws) = encode_request (Get url None) ++ rest ->
  (forall t, validate_at config resolve_at domains_at url_parse t url = Ok tt) ->
  brotli_compress html (brotli_quality config) = Ok compressed ->
  exists acts r' ws',
    (forall f more, serve_loop config resolve_at domains_at url_parse parse_http_date prober (S f)
                      (feed_server more ws)
                    = serve_loop config resolve_at domains_at url_parse parse_http_date prober f
                        (feed_server more ws'))
    /\ Server.trace ws' = Server.trace ws ++ acts
    /\ server_bytes acts = encode_response (page_response url html compressed)
    /\ passed (Server.reader ws) r' /\ pending r' = rest
    /\ Server.reader ws' = mkReader (buffered r') (SocketRead.incoming r') (now r' + Z.max 0 d)
    /\ last_activity (Server.session ws') = Server.clock ws'
    /\ Server.browser ws' = true /\ Server.writes ws' = [] /\ Server.fetches ws' = fs.
Proof.
  intros (Hdl & Hb & Hw & _ & Hq) Hf Hs Hp Hv Hz.
  destruct (read_encoded_request deadline (Server.reader ws) _ rest Hq Hs Hp) as (r' & Hread & Hpend & _).
  destruct (read_request_local _ _ _ _ Hread) as [Hpass Hlocal].
  set (at_request := Server.set_session (touch (Server.session ws) (now r')) (Server.set_reader r' ws)).
  set (answered := page_sent url html compressed d fs at_request).
  set (ws' := Server.set_session (touch (Server.session answered) (Server.clock answered)) answered).
  eexists [Server.Fetched url _; Server.Logged _;
     Server.Wrote (Server.Frame (page_response url html compressed)) None], r', ws'.
  split_and!; [|by unfold ws', answered, page_sent, at_request; cbn; rewrite <- !app_assoc|
    unfold server_bytes; cbn; by rewrite app_nil_r|done|done|done|done|done|done|done].
  intros f more. cbn [serve_loop]. unfold mbind at 1 2, M_bind at 1 2, gets at 1, lift at 1.
  change (Server.session (feed_server more ws)) with (Server.session ws). rewrite Hdl.
  unfold catch at 1, reading at 1. change (Server.reader (feed_server more ws)) with (feed more (Server.reader ws)).
  rewrite Hlocal.
  match goal with |- context [(touch_session ≫= ?k) ?w0] =>
    change ((touch_session ≫= k) w0) with (k tt (feed_server more at_request)) end.
  cbv beta.
  pose proof (request_answers (feed_server more at_request) d fs url html compressed) as Hr.
  match goal with |- context [(ignore ?m ≫= ?k) ?w1] =>
    assert (Hi : ignore m w1 = (@Ok IoError unit tt, feed_server more answered))
      by (unfold ignore, catch; by rewrite Hr);
    rewrite (bind_ok _ _ _ _ _ Hi) end.
  reflexivity.
Qed.

Lemma feed_server_nil ws : feed_server [] ws = ws.
Proof. unfold feed_server, feed. rewrite app_nil_r. by destruct ws as [[]]. Qed.

(** The server answers the request it reads with the page. *)
Lemma server_answers f ws deadline url html compressed more :
  ready ws deadline html -> sendable (Get url None) ->
  pending (Server.reader ws) = encode_request (Get url None) ++ more ->
  (forall t, validate_at config resolve_at domains_at url_parse t url = Ok tt) ->
  brotli_compress html (brotli_quality config) = Ok compressed ->
  exists acts tail,
    Server.trace (serve_loop config resolve_at domains_at url_parse parse_http_date prober (S f) ws).2
      = Server.trace ws ++ acts ++ tail
    /\ server_bytes acts = encode_response (page_response url html compressed).
Proof.
  intros Hready Hs Hp Hv Hz. pose proof Hready as (_ & _ & _ & (d & fs & Hf) & _).
  destruct (server_turn ws deadline url html compressed d fs more Hready Hf Hs Hp Hv Hz)
    as (acts & r' & ws' & Hrun & Htr & Hbytes & _).
  specialize (Hrun f []). rewrite !feed_server_nil in Hrun. rewrite Hrun.
  destruct (serve_loop_emits config resolve_at domains_at url_parse parse_http_date prober Hdefault f ws')
    as (tail & Htail & _).
  exists acts, tail. split; [|done]. by rewrite Htail, Htr, <- app_assoc.
Qed.

(** End to end: the operator asks for a page; what the client sends is what
    the server reads, in any pieces; what the server writes, in any data frames and
    these in any reads that arrive in time, makes the operator see that page,
    rewritten, with its tag and its lifetime. *)
Theorem page_delivered f ws deadline url html compressed rewritten cfg inm D later after fs (w : Web AgwpeTransport) :
  (* the server *)
  ready ws deadline html -> sendable (Get url None) ->
  pending (Server.reader ws) = encode_request (Get url None) ->
  (forall t, validate_at config resolve_at domains_at url_parse t url = Ok tt) ->
  brotli_compress html (brotli_quality config) = Ok compressed ->
  (* the page *)
  utf8_valid html = true -> Z.of_nat (length html) <= MAX_DECOMPRESSED_SIZE ->
  rewrite_html html url = inr rewritten ->
  (* the client *)
  Delivery.quiet (world w) -> writes_succeed (world w) -> Browse.is_connected (app (world w)) = true ->
  ahead w = [] ->
  (* the link *)
  let sent := encode_response (page_response url html compressed) in
  Z.of_nat (length sent) <= MAX_RESPONSE_SIZE ->
  Forall (fun f => frame_wf f /\ frame_type f = SendData) fs ->
  concat (map AgwpeFrame.data fs) = sent ->
  D <= Transport.clock (world w) + session_timeout (timeout_secs cfg) * 1000 ->
  awaits D later (world w) (concat (map encode fs) ++ after) ->
  exists acts tail said w',
    Server.trace (serve_loop config resolve_at domains_at url_parse parse_http_date prober (S f) ws).2
      = Server.trace ws ++ acts ++ tail
    /\ server_bytes acts = concat (map AgwpeFrame.data fs)
    /\ handle_browse cfg url None true inm w
       = (Ok (build_cached_html_response (browse_page rewritten url) (sanitized_html_etag html)
                (effective_ttl_secs (joined_max_age config parse_http_date prober url) (cache_max_ttl cfg))), w')
    /\ Transport.trace (world w') = Transport.trace (world w) ++ said
    /\ client_bytes said = pending (Server.reader ws).
Proof.
  intros Hready Hsend Hp Hv Hz Hutf Hlen Hrw Hq Hws Hup Ha sent Hsmall Hfs Hcat HD Haw.
  destruct (server_answers f ws deadline url html compressed []) as (acts & tail & Htr & Hout);
    [done|done|by rewrite app_nil_r|done|done|].
  pose proof (page_response_wf url html compressed Hsmall) as Hwf.
  assert (Hdead : is_session_dead_payload sent = false).
  { apply (response_not_session_death (page_response url html compressed) [] sent []); [done|].
    by rewrite app_nil_r. }
  set (secs := session_timeout (timeout_secs cfg)) in *.
  assert (Hpos : 0 < secs) by (unfold secs, session_timeout; lia).
  set (P := coming secs later after (connection_state (app (world w)))).
  assert (HP : P (map AgwpeFrame.data fs) (world w)).
  { split; [done|]. exists D. split; [done|]. split; [done|]. exists fs. split_and!; [done|by apply (frames_alive fs sent)|done]. }
  destruct (answer_shown cfg P url true inm [] [] (page_response url html compressed) (map AgwpeFrame.data fs) w
    html html rewritten) as (evs & w' & Hshown & _ & _ & _ & Hsaid);
    try done; [by apply coming_feeds| | | | | |by left|by apply coming_sends|].
  - rewrite (brotli_roundtrip_bounded html (brotli_quality config)) by done.
    by rewrite (proj2 (Z.leb_le _ _) Hlen).
  - unfold from_utf8. by rewrite Hutf.
  - by rewrite app_nil_r.
  - by rewrite app_nil_r.
  - by rewrite app_nil_r.
  - exists acts, tail, (Sent (encode_request (Get url None)) :: received evs), w'.
    split_and!; [done|by rewrite Hout|exact Hshown|done|].
    pose proof (client_bytes_received evs) as Hr. unfold client_bytes in *. cbn [map concat].
    by rewrite Hr, app_nil_r, Hp.
Qed.
End EndToEnd.

(** ** A page, from the web to the operator *)

#[local] Existing Instances ToyDebug.debug_format Toy.unicode rfc4648 rfc4648_laws Toy.sha256 Toy.sha256_laws
  Toy.brotli Toy.brotli_laws ToyHttp.http_headers ToyHttp.http_headers_laws ToySqlite.sqlite
  ToyUrl.url_crate ToyHtml.element ToyHtml.lol_html.

Definition web_resolve : Z -> list byte -> Z -> option (list IpAddr) := fun _ _ _ => Some [V4 x08 x08 x08 x08].
Definition no_domains : Z -> Blocklist.State := fun _ => Some ∅.
Definition web_parse : list byte -> option Filter.Url :=
  fun _ => Some (Filter.mkUrl (bs "http") (Some (Domain (bs "a.org"))) (Some 80)).
Definition no_dates : list byte -> option Z := fun _ => None.
Definition no_probe : Prober := mkProber None false (fun _ => None) (fun _ => None).
Definition agreed_server : Server.World :=
  Server.mkWorld (mkReader [] [(40, Data (bs "GET http://a"));
                               (50, Data (bs ".org/" ++ [LF]))] 0)
    (acknowledge (Callsign.new (bs "W1AW") 0) 0) true [] [] [(5000, inr (bs "hello"))] true false [].
Definition answer_frame : AgwpeFrame :=
  new_frame 0 SendData (bs "N0CALL-8") (bs "N0CALL")
    (encode_response (page_response demo_config no_dates no_probe demo_url (bs "hello") (bs "hello"))).
Definition waiting_client : Web AgwpeTransport :=
  mkWeb
    (Transport.mkWorld
       (mkAgwpeTransport
          (Some (mkStream [(5, RdData (take 50 (encode answer_frame)));
                           (9, RdData (drop 50 (encode answer_frame)))] []))
          [] (bs "N0CALL") (bs "N0CALL-8") 0 true [] [])
       (put_connection_state CsConnected (new_state default_config)) false 0 [] [] [] [])
    (bs "N0CALL") None [] [] [].

Lemma page_delivered_witness :
  exists acts tail said w',
    Server.trace (serve_loop demo_config web_resolve no_domains web_parse no_dates no_probe 8 agreed_server).2
      = Server.trace agreed_server ++ acts ++ tail
    /\ server_bytes acts = concat (map AgwpeFrame.data [answer_frame])
    /\ handle_browse demo_settings demo_url None true None waiting_client
       = (Ok (build_cached_html_response (browse_page (bs "hello") demo_url) (sanitized_html_etag (bs "hello"))
                (effective_ttl_secs (joined_max_age demo_config no_dates no_probe demo_url)
                   (cache_max_ttl demo_settings))), w')
    /\ Transport.trace (world w') = Transport.trace (world waiting_client) ++ said
    /\ client_bytes said = pending (Server.reader agreed_server).
Proof.
  apply (page_delivered demo_config web_resolve no_domains web_parse no_dates no_probe)
    with (deadline := 600000) (html := bs "hello") (compressed := bs "hello") (D := 30000)
         (later := []) (after := []).
  - vm_compute. split; discriminate.
  - unfold ready. split_and!; [vm_compute; reflexivity|reflexivity|reflexivity|by eexists _, _|].
    split; [reflexivity|]. intros t e He.
    repeat (apply elem_of_cons in He as [He|He]; [injection He as -> ->; split; [lia|discriminate]|]).
    by apply not_elem_of_nil in He.
  - split; [vm_compute; by repeat split|]. split; [apply Nat.ltb_lt; reflexivity|].
    split; [discriminate|reflexivity].
  - reflexivity.
  - intros t. vm_compute. reflexivity.
  - vm_compute. reflexivity.
  - reflexivity.
  - vm_compute. discriminate.
  - vm_compute. reflexivity.
  - by split.
  - eexists. split; [reflexivity|constructor].
  - reflexivity.
  - reflexivity.
  - vm_compute. discriminate.
  - constructor; [|constructor]. split; [|reflexivity]. apply demo_frame_wf. vm_compute. lia.
  - vm_compute. reflexivity.
  - vm_compute. discriminate.
  - eexists [(5, RdData (take 50 (encode answer_frame))); (9, RdData (drop 50 (encode answer_frame)))], [].
    split; [reflexivity|]. split; [|vm_compute; reflexivity].
    repeat constructor; vm_compute; discriminate.
Defined.
