(* ===== verification/Visits.v ===== *)
(** * A session of several pages

    The request loop of the server ([server/src/main.rs]) and the browse handler of
    the client ([client/src/proxy.rs]) over an AGWPE modem, from one page to the
    next: what one answer leaves unread comes before the next answer, the server's
    idle timeout counts from its last answer, and the operator asks when he likes. *)
From Stdlib Require Import ZArith Lia Strings.Byte.
From stdpp Require Import base decidable list countable gmap.
From S2P Require Import Browser.
From S2P Require Import NetAddr Blocklist Filter ServerConfig OriginCC Callsign SocketRead Server.
From S2P Require Import AgwpeFrame Agwpe.
From S2P Require Import Prelude Bytes Numbers External Protocol TransportTypes Cache Rewrite Ui HostGuard.
From S2P Require Import ClientConfig ClientState Transport Session Manager Delivery Browse EndToEnd.

(** ** Data *)

(** A page asked for, what becomes of it, and how it travels *)
Record Visit : Type := mkVisit {
  v_url : list byte;
  v_html : list byte;
  v_compressed : list byte;
  v_rewritten : list byte;
  (** how the request reaches the server's socket, and how long the page takes it *)
  v_asked : list (Z * SocketRead.ReadEvent);
  v_fetch : Z;
  (** when the operator asks, the data frames of the answer, and the reads they come in *)
  v_at : Z;
  v_frames : list AgwpeFrame;
  v_reads : list (Z * Agwpe.ReadEvent) }.

(** A report of a living socket *)
Definition living (e : Z * SocketRead.ReadEvent) : Prop :=
  match snd e with Data [] | Broken _ => False | Data _ | SocketRead.Tick => True end.

(** Text in front of an answer that cannot be taken for a part of it, nor for the end
    of the session *)
Definition harmless (g : list byte) : Prop := x2a ∉ g /\ x52 ∉ g /\ (length g <= 64)%nat.

Section Visits.
Context `{UnicodeCase} `{DebugFormat} `{Base64Laws} `{Sha256Laws} `{BrotliLaws} `{HttpHeadersLaws}.
Context `{Sqlite} `{UrlCrate} `{LolHtml}.
Context (config : Config) (resolve_at : Z -> list byte -> Z -> option (list IpAddr)).
Context (domains_at : Z -> Blocklist.State) (url_parse : list byte -> option Filter.Url).
Context (parse_http_date : list byte -> option Z) (prober : Prober).
Context (cfg : Settings).

Abbreviation serve := (serve_loop config resolve_at domains_at url_parse parse_http_date prober).
Abbreviation response_of := (fun v => page_response config parse_http_date prober (v_url v) (v_html v) (v_compressed v)).
Let secs : Z := session_timeout (timeout_secs cfg).

(** The page is one the server may fetch and both sides can handle. *)
Definition page_ok (v : Visit) : Prop :=
  sendable (Get (v_url v) None)
  /\ (forall t, validate_at config resolve_at domains_at url_parse t (v_url v) = Ok tt)
  /\ brotli_compress (v_html v) (brotli_quality config) = Ok (v_compressed v)
  /\ utf8_valid (v_html v) = true /\ Z.of_nat (length (v_html v)) <= MAX_DECOMPRESSED_SIZE
  /\ rewrite_html (v_html v) (v_url v) = inr (v_rewritten v)
  /\ Z.of_nat (length (encode_response (response_of v))) + 64 <= MAX_RESPONSE_SIZE.

(** The link carries the request, in any pieces, and the answer, in any data frames and
    these in any reads that come before the client gives up. *)
Definition link_ok (v : Visit) : Prop :=
  SocketRead.bytes_of (v_asked v) = encode_request (Get (v_url v) None)
  /\ Forall living (v_asked v) /\ (exists before t d, v_asked v = before ++ [(t, Data d)])
  /\ Forall (fun f => frame_wf f /\ frame_type f = SendData) (v_frames v)
  /\ concat (map AgwpeFrame.data (v_frames v)) = encode_response (response_of v)
  /\ Agwpe.bytes_of (v_reads v) = concat (map encode (v_frames v))
  /\ Forall (timely (v_at v + secs * 1000)) (v_reads v).

(** Each request reaches the server before its idle timeout; [last] is its last activity,
    [t] its clock. *)
Fixpoint on_time (last t : Z) (vs : list Visit) : Prop :=
  match vs with
  | [] => True
  | v :: vs =>
      (exists deadline, (forall s, last_activity s = last -> idle_deadline config s = Ok deadline)
        /\ t < deadline /\ Forall (fun e => fst e < deadline) (v_asked v))
      /\ let t' := arrival t (v_asked v) + Z.max 0 (v_fetch v) in on_time t' t' vs
  end.

(** The server's clock after these visits, and the time of its last activity *)
Definition clock_after (t : Z) (vs : list Visit) : Z :=
  fold_left (fun t v => arrival t (v_asked v) + Z.max 0 (v_fetch v)) vs t.
Definition activity_after (last t : Z) (vs : list Visit) : Z :=
  match vs with [] => last | _ => clock_after t vs end.

(** What the operator is shown *)
Definition shown (v : Visit) : HttpResponse :=
  build_cached_html_response (browse_page (v_rewritten v) (v_url v)) (sanitized_html_etag (v_html v))
    (effective_ttl_secs (joined_max_age config parse_http_date prober (v_url v)) (cache_max_ttl cfg)).

(** The operator asks for a page at the time [t], or once he is shown the last. *)
Definition wait_until (t : Z) (w : Web AgwpeTransport) : Web AgwpeTransport :=
  set_world (set_clock (Z.max (Transport.clock (world w)) t) (world w)) w.

(** ... for one after the other, each anew or only when it is not in the cache *)
Fixpoint browse_pages (reload : bool) (vs : list Visit) (w : Web AgwpeTransport)
    : list (Result Never HttpResponse) * Web AgwpeTransport :=
  match vs with
  | [] => ([], w)
  | v :: vs =>
      let (r, w1) := handle_browse cfg (v_url v) None reload None (wait_until (v_at v) w) in
      let (rs, w2) := browse_pages reload vs w1 in (r :: rs, w2)
  end.

(** ** The server, from request to request *)

Lemma living_bytes l t d : Forall living l -> (t, Data d) ∈ l -> SocketRead.bytes_of l <> [].
Proof.
  induction l as [|[t' ev] l IH]; intros Hl Hin; [by apply not_elem_of_nil in Hin|].
  apply Forall_cons in Hl as [He Hl]. apply elem_of_cons in Hin as [[= -> <-]|Hin].
  - by destruct d.
  - specialize (IH Hl Hin). destruct ev as [[|b d']| |]; try done.
Qed.

(** A reader that has read all there is has used up the last report. *)
Lemma used_up r r' before t d :
  passed r r' -> pending r' = [] -> Forall living (SocketRead.incoming r) ->
  SocketRead.incoming r = before ++ [(t, Data d)] ->
  r' = mkReader [] [] (arrival (now r) (SocketRead.incoming r)).
Proof.
  intros (used & Hi & Hn) Hp Hl Hlast. destruct r' as [b inc n]. cbn in *.
  apply app_eq_nil in Hp as [-> Hb]. destruct (decide (inc = [])) as [->|Hne].
  { rewrite app_nil_r in Hi. by rewrite Hi, Hn. }
  exfalso. rewrite Hi in Hl. apply Forall_app in Hl as [_ Hl]. refine (living_bytes inc t d Hl _ Hb).
  destruct (exists_last Hne) as (l & x & ->). rewrite Hlast, app_assoc in Hi.
  apply app_inj_tail in Hi as [_ <-]. apply elem_of_app. right. by left.
Qed.

Lemma feed_server_app es more ws : feed_server more (feed_server es ws) = feed_server (es ++ more) ws.
Proof. unfold feed_server, feed. cbn. by rewrite app_assoc. Qed.

(** The server waits for the next request, having read all before. *)
Definition at_rest (last t : Z) (fs : list (Z * (BrowserError + list byte))) (ws : Server.World) : Prop :=
  Server.reader ws = mkReader [] [] t /\ last_activity (Server.session ws) = last
  /\ Server.browser ws = true /\ Server.writes ws = [] /\ Server.fetches ws = fs.

Definition fetch_of (v : Visit) : Z * (BrowserError + list byte) := (v_fetch v, inr (v_html v)).

Lemma server_visits fs vs : forall last t ws,
  at_rest last t (map fetch_of vs ++ fs) ws -> Forall page_ok vs -> Forall link_ok vs -> on_time last t vs ->
  exists acts ws',
    (forall f more, serve (length vs + f) (feed_server (concat (map v_asked vs) ++ more) ws)
                    = serve f (feed_server more ws'))
    /\ Server.trace ws' = Server.trace ws ++ acts
    /\ server_bytes acts = concat (map (fun v => encode_response (response_of v)) vs)
    /\ at_rest (activity_after last t vs) (clock_after t vs) fs ws'.
Proof.
  induction vs as [|v vs IH]; intros last t ws Hrest Hpages Hlinks Htime.
  { exists [], ws. rewrite app_nil_r. by split_and!. }
  apply Forall_cons in Hpages as [Hpage Hpages]. apply Forall_cons in Hlinks as [Hlink Hlinks].
  destruct Htime as [(deadline & Hdl & Hlt & Hevs) Htime].
  destruct Hrest as (Hr & Hlast & Hb & Hw & Hf).
  destruct Hpage as (Hsend & Hvalid & Hz & _). destruct Hlink as (Hasked & Hliving & (before & te & de & Hbefore) & _).
  set (ws1 := feed_server (v_asked v) ws).
  assert (Hr1 : Server.reader ws1 = mkReader [] (v_asked v) t) by (unfold ws1, feed_server, feed; cbn; by rewrite Hr).
  destruct (server_turn config resolve_at domains_at url_parse parse_http_date prober ws1 deadline (v_url v)
    (v_html v) (v_compressed v) (v_fetch v) (map fetch_of vs ++ fs) [])
    as (acts & r' & ws2 & Hrun & Htr & Hbytes & Hpass & Hpend & Hr2 & Hact & Hb2 & Hw2 & Hf2); [|exact Hf|done| |done|done|].
  { split; [by apply Hdl|]. split_and!; [done|done|eexists _, _; exact Hf|]. split; rewrite Hr1; [done|].
    intros t' e Hin. cbn [SocketRead.incoming] in Hin. rewrite Forall_forall in Hevs, Hliving.
    split; [by apply (Hevs _ Hin)|]. intros msg ->. by apply (Hliving _ Hin). }
  { rewrite Hr1. unfold pending. cbn. by rewrite app_nil_r. }
  rewrite Hr1 in Hpass. apply (used_up _ _ before te de) in Hpass as ->; [|done..].
  cbn [buffered SocketRead.incoming now] in Hr2.
  set (t2 := arrival t (v_asked v) + Z.max 0 (v_fetch v)) in *.
  destruct (IH t2 t2 ws2) as (acts2 & ws' & Hrun2 & Htr2 & Hbytes2 & Hrest'); [|done..|].
  { split_and!; [done| |done..]. rewrite Hact. unfold Server.clock. by rewrite Hr2. }
  exists (acts ++ acts2), ws'. split_and!; [| | |by destruct vs].
  - intros f more. cbn [length map concat Nat.add]. rewrite <- app_assoc, <- feed_server_app. fold ws1.
    rewrite Hrun. apply Hrun2.
  - rewrite Htr2, Htr. by rewrite <- app_assoc.
  - unfold server_bytes in *. rewrite map_app, concat_app, Hbytes, Hbytes2. done.
Qed.

(** The link carries the answers, and the requests. *)
Lemma answers_carried vs :
  Forall link_ok vs ->
  concat (map (fun v => encode_response (response_of v)) vs)
  = concat (map AgwpeFrame.data (concat (map v_frames vs))).
Proof.
  induction 1 as [|v vs Hv _ IH]; [done|]. cbn [map concat]. rewrite map_app, concat_app, IH. f_equal.
  symmetry. apply Hv.
Qed.
Lemma bytes_of_living es1 es2 :
  Forall living es1 -> SocketRead.bytes_of (es1 ++ es2) = SocketRead.bytes_of es1 ++ SocketRead.bytes_of es2.
Proof.
  induction 1 as [|[t ev] es He _ IH]; [done|]. cbn [SocketRead.bytes_of Datatypes.app].
  destruct ev as [[|b d]| |]; try done. by rewrite IH, <- app_assoc.
Qed.
Lemma requests_carried vs :
  Forall link_ok vs ->
  concat (map (fun v => encode_request (Get (v_url v) None)) vs) = SocketRead.bytes_of (concat (map v_asked vs)).
Proof.
  induction 1 as [|v vs (Hb & Hl & _) _ IH]; [done|]. cbn [map concat].
  by rewrite bytes_of_living, Hb, IH.
Qed.
(** Each request has a byte at least. *)
Lemma asked_bytes vs :
  Forall link_ok vs -> (length vs <= length (SocketRead.bytes_of (concat (map v_asked vs))))%nat.
Proof.
  induction 1 as [|v vs (Hb & Hl & _) _ IH]; [done|]. cbn [map concat length].
  rewrite bytes_of_living, length_app, Hb by done. unfold encode_request. rewrite !length_app. cbn [length]. lia.
Qed.

(** ** The client, from page to page *)

Lemma secs_positive : 0 < secs.
Proof. unfold secs, session_timeout. lia. Qed.

Lemma harmless_before g r :
  harmless g -> response_wf r ->
  contains MAGIC (g ++ take 3 MAGIC) = false /\ is_session_dead_payload (g ++ encode_response r) = false.
Proof.
  intros (Hstar & HR & _) Hwf. split.
  - change MAGIC with (x52 :: drop 1 MAGIC). by rewrite contains_fresh.
  - pose proof (response_not_session_death r [] (encode_response r) [] Hwf) as Hd.
    rewrite app_nil_r in Hd. specialize (Hd eq_refl). unfold is_session_dead_payload in *.
    change (bs "*** DISCONNECTED") with (x2a :: bs "** DISCONNECTED") in *.
    change (bs "Returned to Node") with (x52 :: bs "eturned to Node") in *.
    by rewrite !contains_fresh.
Qed.

(** What an answer leaves unread is harmless to the next. *)
Lemma leftover_harmless before g : [LF] = before ++ g -> harmless g.
Proof.
  intros Hg. assert (Hin : forall c, c <> LF -> c ∉ g).
  { intros c Hc Hi. assert (Hl : c ∈ [LF]) by (rewrite Hg; apply elem_of_app; by right).
    by apply list_elem_of_singleton in Hl. }
  apply (f_equal length) in Hg. rewrite length_app in Hg. cbn [length] in Hg.
  split_and!; [by apply Hin|by apply Hin|lia].
Qed.

(** The client is connected and idle: [g] may still be unread, then comes [later]. *)
Definition waiting (later : list (Z * Agwpe.ReadEvent)) (g : list byte) (w : Web AgwpeTransport) : Prop :=
  Delivery.quiet (world w) /\ ahead w = []
  /\ exists left, concat left = g /\ coming secs later [] CsConnected left (world w).

(** The reads of the next answer come within the request's timeout. *)
Lemma visit_coming v later left w :
  link_ok v -> is_session_dead_payload (encode_response (response_of v)) = false ->
  coming secs (v_reads v ++ later) [] CsConnected left (world w) ->
  coming secs later [] CsConnected (left ++ map AgwpeFrame.data (v_frames v)) (world (wait_until (v_at v) w)).
Proof.
  intros (_ & _ & _ & Hfs & Hcat & Hreads & Htimely) Hdead
    (Hs & D & HD & Hw & fs & -> & Hall & (good & ws & Hst & Hgood & Hbytes)).
  split; [exact Hs|]. exists (Z.max (Transport.clock (world w)) (v_at v) + secs * 1000). split; [done|].
  split; [exact Hw|]. exists (fs ++ v_frames v). split; [by rewrite map_app|].
  split. { apply Forall_app. split; [done|]. by apply (frames_alive (v_frames v) (encode_response (response_of v))). }
  cbn [world wait_until set_world set_clock Transport.clock]. exists (good ++ v_reads v), ws.
  cbn [modem set_clock]. rewrite <- app_assoc. split; [done|]. split.
  - apply Forall_app. split; [eapply Forall_impl; [exact Hgood|]|eapply Forall_impl; [exact Htimely|]];
      intros e [He Hne]; (split; [lia|done]).
  - unfold Agwpe.bytes_of in *. rewrite app_nil_r in *.
    by rewrite map_app, concat_app, app_assoc, Hbytes, Hreads, map_app, concat_app.
Qed.

Context (Hdefault : i32_min <= default_max_age_seconds config <= i32_max).

(** The pages are asked for anew, or are different ones, none of them in the cache. *)
Definition all_unseen (reload : bool) (vs : list Visit) (w : Web AgwpeTransport) : Prop :=
  reload = true \/ cache_quiet w /\ NoDup (map v_url vs)
                 /\ Forall (fun v => cache w ≫= lookup_url false (v_url v) = None) vs.

Lemma all_unseen_next reload v vs w w' :
  fills (v_url v) (wait_until (v_at v) w) w' -> all_unseen reload (v :: vs) w -> all_unseen reload vs w'.
Proof.
  intros Hfill [Hr|(Hq & Hd & Hmiss)]; [by left|]. right. destruct (Hfill Hq) as [Hq' Hk].
  cbn [map] in Hd. apply NoDup_cons in Hd as [Hnew Hd]. apply Forall_cons in Hmiss as [_ Hmiss].
  split_and!; [done|done|]. rewrite Forall_forall in Hmiss |- *. intros u Hu.
  apply Hk; [|by apply Hmiss]. intros He. apply Hnew. rewrite <- He. by apply list_elem_of_fmap_2.
Qed.

Lemma client_turn reload v vs later g w :
  page_ok v -> link_ok v -> waiting (v_reads v ++ later) g w -> harmless g ->
  all_unseen reload (v :: vs) w ->
  exists evs w' g',
    handle_browse cfg (v_url v) None reload None (wait_until (v_at v) w) = (Ok (shown v), w')
    /\ Transport.trace (world w') = Transport.trace (world w)
         ++ Sent (encode_request (Get (v_url v) None)) :: received evs
    /\ waiting later g' w' /\ harmless g' /\ all_unseen reload vs w'.
Proof.
  intros (_ & _ & Hz & Hutf & Hlen & Hrw & Hsize) Hlink (Hq & Ha & left & <- & Hcoming) Hg Hun.
  assert (Hwf : response_wf (response_of v)) by (apply page_response_wf; [done|lia]).
  destruct (harmless_before _ _ Hg Hwf) as [Hmagic Hdead].
  assert (Halive : is_session_dead_payload (encode_response (response_of v)) = false)
    by (apply (response_not_session_death (response_of v) [] _ []); [done|by rewrite app_nil_r]).
  pose proof (visit_coming v later left w Hlink Halive Hcoming) as Hnext.
  pose proof Hlink as (_ & _ & _ & _ & Hcat & _). destruct Hg as (_ & _ & Hshort).
  destruct (answer_shown cfg (coming secs later [] CsConnected) (v_url v) reload None (concat left) []
    (response_of v) (left ++ map AgwpeFrame.data (v_frames v)) (wait_until (v_at v) w)
    (v_html v) (v_html v) (v_rewritten v))
    as (evs & w' & Hrun & _ & Hfill & (used & left' & _ & [before Hleft] & Hq' & Hc' & Ha') & Htr); try done.
  - apply coming_feeds, secs_positive.
  - rewrite (brotli_roundtrip_bounded (v_html v) (brotli_quality config)) by done.
    by rewrite (proj2 (Z.leb_le _ _) Hlen).
  - unfold from_utf8. by rewrite Hutf.
  - lia.
  - by rewrite app_nil_r.
  - rewrite app_nil_r, length_app. lia.
  - by rewrite app_nil_r, concat_app, Hcat.
  - unfold is_connected. cbn. by destruct Hcoming as (-> & _).
  - destruct Hun as [->|(Hcq & _ & Hmiss)]; [by left|right]. by apply Forall_cons in Hmiss as [Hmiss _].
  - by apply coming_sends.
  - exists evs, w', (concat left'). split_and!; [exact Hrun|exact Htr| |by apply (leftover_harmless before)|by apply (all_unseen_next reload v vs w)].
    split_and!; [done|done|by exists left'].
Qed.

Lemma client_visits reload later vs : forall g w,
  Forall page_ok vs -> Forall link_ok vs -> waiting (concat (map v_reads vs) ++ later) g w -> harmless g ->
  all_unseen reload vs w ->
  exists said w' g',
    browse_pages reload vs w = (map (fun v => Ok (shown v)) vs, w')
    /\ Transport.trace (world w') = Transport.trace (world w) ++ said
    /\ client_bytes said = concat (map (fun v => encode_request (Get (v_url v) None)) vs)
    /\ waiting later g' w' /\ harmless g'.
Proof.
  induction vs as [|v vs IH]; intros g w Hpages Hlinks Hw Hg Hun.
  { exists [], w, g. by rewrite app_nil_r. }
  apply Forall_cons in Hpages as [Hpage Hpages]. apply Forall_cons in Hlinks as [Hlink Hlinks].
  cbn [map concat] in Hw. rewrite <- app_assoc in Hw.
  destruct (client_turn reload v vs _ g w Hpage Hlink Hw Hg Hun) as (evs & w1 & g1 & Hrun & Htr & Hw1 & Hg1 & Hun1).
  destruct (IH g1 w1 Hpages Hlinks Hw1 Hg1 Hun1) as (said & w' & g' & Hrun' & Htr' & Hbytes & Hw' & Hg').
  exists ((Sent (encode_request (Get (v_url v) None)) :: received evs) ++ said), w', g'.
  split_and!; [|by rewrite Htr', Htr, <- app_assoc| |done|done].
  - cbn [browse_pages]. by rewrite Hrun, Hrun'.
  - pose proof (client_bytes_received evs) as Hr. unfold client_bytes in *.
    rewrite map_app, concat_app. cbn [map concat]. by rewrite Hr, app_nil_r, Hbytes.
Qed.

(** A whole session: the operator asks for one page after the other; what the
    client sends is what the server reads, each request before its idle timeout; what
    the server writes, in any data frames and any reads that arrive in time, is what
    the client reads, however the bytes behind one answer are left to the next; every
    page, asked for anew or not in the cache, is shown, rewritten, with its tag and its
    lifetime, in the order asked, and both sides are ready for another. *)
Theorem session_of_pages reload vs fs later last t g f more ws (w : Web AgwpeTransport) :
  Forall page_ok vs -> Forall link_ok vs ->
  (* the server *)
  at_rest last t (map fetch_of vs ++ fs) ws -> on_time last t vs ->
  (* the client *)
  waiting (concat (map v_reads vs) ++ later) g w -> harmless g -> all_unseen reload vs w ->
  exists wrote ws' said w' g',
    serve (length vs + f) (feed_server (concat (map v_asked vs) ++ more) ws) = serve f (feed_server more ws')
    /\ Server.trace ws' = Server.trace ws ++ wrote
    /\ server_bytes wrote = concat (map AgwpeFrame.data (concat (map v_frames vs)))
    /\ browse_pages reload vs w = (map (fun v => Ok (shown v)) vs, w')
    /\ Transport.trace (world w') = Transport.trace (world w) ++ said
    /\ client_bytes said = SocketRead.bytes_of (concat (map v_asked vs))
    /\ at_rest (activity_after last t vs) (clock_after t vs) fs ws' /\ waiting later g' w' /\ harmless g'.
Proof.
  intros Hpages Hlinks Hrest Htime Hw Hg Hun.
  destruct (server_visits fs vs last t ws Hrest Hpages Hlinks Htime)
    as (wrote & ws' & Hserve & Htr & Hbytes & Hrest').
  destruct (client_visits reload later vs g w Hpages Hlinks Hw Hg Hun)
    as (said & w' & g' & Hbrowse & Htr' & Hsaid & Hw' & Hg').
  exists wrote, ws', said, w', g'. split_and!; try done.
  - by rewrite Hbytes, answers_carried.
  - by rewrite Hsaid, requests_carried.
Qed.
End Visits.

(** ** Two pages, the line feed behind the first left to the second *)

#[local] Existing Instances ToyDebug.debug_format Toy.unicode rfc4648 rfc4648_laws Toy.sha256 Toy.sha256_laws
  Toy.brotli Toy.brotli_laws ToyHttp.http_headers ToyHttp.http_headers_laws ToySqlite.sqlite
  ToyUrl.url_crate ToyHtml.element ToyHtml.lol_html.

Module Demo.
Definition answer (url html : list byte) : list byte :=
  encode_response (page_response demo_config no_dates no_probe url html html).
Definition frame (d : list byte) : AgwpeFrame := new_frame 0 SendData (bs "N0CALL-8") (bs "N0CALL") d.
Definition url2 : list byte := bs "http://a.org/b".
Definition visit1 : Visit :=
  let sent := answer demo_url (bs "hello") in
  let frames := [frame (removelast sent); frame [LF]] in
  mkVisit demo_url (bs "hello") (bs "hello") (bs "hello")
    [(100040, Data (bs "GET http://a")); (130000, SocketRead.Tick); (130500, Data (bs ".org/" ++ [LF]))] 5000
    100000 frames [(140000, RdData (concat (map encode frames)))].
Definition visit2 : Visit :=
  let frames := [frame (answer url2 (bs "bye"))] in
  mkVisit url2 (bs "bye") (bs "bye") (bs "bye")
    [(600000, Data (bs "GET http://a.org/b" ++ [LF]))] 100
    595000 frames
    [(600500, RdData (take 50 (concat (map encode frames)))); (601000, RdData (drop 50 (concat (map encode frames))))].
Definition visits : list Visit := [visit1; visit2].
Definition settings : Settings := mkSettings 60 true 3600.
Definition server : Server.World :=
  Server.mkWorld (mkReader [] [] 0) (acknowledge (Callsign.new (bs "W1AW") 0) 0) true [] []
    [(5000, inr (bs "hello")); (100, inr (bs "bye"))] true false [].
Definition client : Web AgwpeTransport :=
  mkWeb
    (Transport.mkWorld
       (mkAgwpeTransport (Some (mkStream (concat (map v_reads visits)) []))
          [] (bs "N0CALL") (bs "N0CALL-8") 0 true [] [])
       (put_connection_state CsConnected (new_state default_config)) false 0 [] [] [] [])
    (bs "N0CALL") (Some (mkCache ∅ 1000000 3600)) [] [] [].
End Demo.

Lemma demo_page_ok v :
  v ∈ Demo.visits ->
  page_ok demo_config web_resolve no_domains web_parse no_dates no_probe v.
Proof.
  intros Hv. repeat (apply elem_of_cons in Hv as [->|Hv]); [..|by apply not_elem_of_nil in Hv].
  all: split; [split; [vm_compute; by repeat split|]; split; [apply Nat.ltb_lt; reflexivity|];
    split; [discriminate|reflexivity]|].
  all: split; [intros t; vm_compute; reflexivity|]; split; [reflexivity|]; split; [reflexivity|];
    split; [vm_compute; discriminate|]; split; [vm_compute; reflexivity|]; vm_compute; discriminate.
Qed.

Lemma demo_frame_sent d : (length d <= 256)%nat -> frame_wf (Demo.frame d) /\ frame_type (Demo.frame d) = SendData.
Proof. intros Hd. split; [by apply demo_frame_wf|done]. Qed.

Lemma demo_link_ok v :
  v ∈ Demo.visits -> link_ok demo_config no_dates no_probe Demo.settings v.
Proof.
  intros Hv. repeat (apply elem_of_cons in Hv as [->|Hv]); [..|by apply not_elem_of_nil in Hv].
  all: split; [reflexivity|]; split; [by repeat constructor|].
  - split; [by eexists [(100040, Data (bs "GET http://a")); (130000, SocketRead.Tick)], _, _|].
    split; [repeat constructor; apply demo_frame_sent; vm_compute; lia|].
    split; [vm_compute; reflexivity|]. split; [vm_compute; reflexivity|].
    repeat constructor; vm_compute; discriminate.
  - split; [by eexists [], _, _|].
    split; [repeat constructor; apply demo_frame_sent; vm_compute; lia|].
    split; [vm_compute; reflexivity|]. split; [vm_compute; reflexivity|].
    repeat constructor; vm_compute; discriminate.
Qed.

Lemma session_of_pages_witness :
  exists wrote ws' said w',
    serve_loop demo_config web_resolve no_domains web_parse no_dates no_probe (2 + 1)
      (feed_server (concat (map v_asked Demo.visits) ++ []) Demo.server)
      = serve_loop demo_config web_resolve no_domains web_parse no_dates no_probe 1 (feed_server [] ws')
    /\ Server.trace ws' = wrote
    /\ server_bytes wrote = concat (map AgwpeFrame.data (concat (map v_frames Demo.visits)))
    /\ browse_pages Demo.settings false Demo.visits Demo.client
       = (map (fun v => Ok (shown demo_config no_dates no_probe Demo.settings v)) Demo.visits, w')
    /\ Transport.trace (world w') = said
    /\ client_bytes said = bs "GET http://a.org/" ++ [LF] ++ bs "GET http://a.org/b" ++ [LF].
Proof.
  destruct (session_of_pages demo_config web_resolve no_domains web_parse no_dates no_probe Demo.settings)
    with (reload := false) (vs := Demo.visits) (fs := @nil (Z * (BrowserError + list byte))) (later := @nil (Z * ReadEvent))
         (last := 0) (t := 0) (g := @nil byte) (f := 1%nat) (more := @nil (Z * SocketRead.ReadEvent))
         (ws := Demo.server) (w := Demo.client)
    as (wrote & ws' & said & w' & g' & Hserve & Htr & Hbytes & Hbrowse & Htr' & Hsaid & _).
  - vm_compute. split; discriminate.
  - apply Forall_forall. apply demo_page_ok.
  - apply Forall_forall. apply demo_link_ok.
  - by split_and!.
  - split.
    + exists 600000. split; [intros s Hs; unfold idle_deadline; rewrite Hs; reflexivity|]. split; [reflexivity|].
      repeat constructor.
    + split; [|done]. exists 735500. split; [intros s Hs; unfold idle_deadline; rewrite Hs; reflexivity|].
      split; [reflexivity|]. repeat constructor.
  - split; [by split|]. split; [done|]. exists []. split; [done|]. split; [done|].
    exists 0. split; [vm_compute; discriminate|]. split; [by eexists|]. exists []. split; [done|].
    split; [constructor|]. by exists [], [].
  - split_and!; [apply not_elem_of_nil|apply not_elem_of_nil|apply Nat.leb_le; reflexivity].
  - right. split; [constructor|]. split; [|by repeat constructor].
    apply (bool_decide_unpack _). vm_compute. exact I.
  - exists wrote, ws', said, w'. split_and!; [exact Hserve|exact Htr|exact Hbytes|exact Hbrowse|exact Htr'|exact Hsaid].
Defined.
