(* ===== verification/Greeting.v ===== *)
(** * The handshakes of the two programs joined

    The client's handshake ([perform_bpq_handshake] of
    [client/src/transport/session.rs]) against the server's
    ([handle_connection] of [server/src/main.rs]), on a direct connection: what
    each writes is what the other waits for. *)
From Stdlib Require Import ZArith Lia Strings.Byte.
From stdpp Require Import base decidable list gmap.
From S2P Require Import NetAddr Blocklist Filter ServerConfig OriginCC Callsign SocketRead Server.
From S2P Require Import Prelude Bytes Numbers External Protocol TransportTypes.
From S2P Require Import ClientConfig ClientState Transport Session Delivery EndToEnd.

(** ** The client's half, over any modem *)

Section Client.
Context {T : Type} `{TransportLaws T} `{UnicodeCase} `{DebugFormat}.

Abbreviation Ses := (@Task T AgwpeError).

(** The next receptions, each within its 30 seconds, give these chunks; then [P]. *)
Fixpoint hears (chunks : list (list byte)) (P : Transport.World T -> Prop) (w : Transport.World T) : Prop :=
  match chunks with
  | [] => P w
  | c :: cs => forall w1, same w1 w ->
      exists w2, recv (Transport.clock w1 + 30 * 1000) w1 = (Ok (EvData c), w2) /\ hears cs P w2
  end.
(** This is sent without an error; then [P]. *)
Definition says (data : list byte) (P : Transport.World T -> Prop) (w : Transport.World T) : Prop :=
  forall w1, same w1 w -> exists w2, send data w1 = (Ok tt, w2) /\ P w2.

(** The operator takes [d] ms; then [P]. *)
Definition thinks (d : Z) (P : Transport.World T -> Prop) (w : Transport.World T) : Prop :=
  forall w1, same w1 w -> P (set_clock (Transport.clock w1 + d) w1).

Definition stable (P : Transport.World T -> Prop) : Prop := forall w1 w, same w1 w -> P w -> P w1.
Lemma says_stable data P : stable (says data P).
Proof. intros w1 w Hs Hw w2 Hw2. apply Hw. by eapply same_trans. Qed.
Lemma thinks_stable d P : stable (thinks d P).
Proof. intros w1 w Hs Hw w2 Hw2. apply Hw. by eapply same_trans. Qed.
Lemma hears_stable cs P : stable P -> stable (hears cs P).
Proof.
  intros HP w1 w Hs. destruct cs as [|c cs]; [by apply HP|]. intros Hw w2 Hw2. apply Hw.
  by eapply same_trans.
Qed.

(** [w] has come to [w']: quietly, with these acts, the operator's answers still to
    come *)
Definition goes (w w' : Transport.World T) (tl : list Transport.Act) : Prop :=
  Delivery.quiet w' /\ Transport.trace w' = Transport.trace w ++ tl /\ answers w' = answers w.

Lemma goes_trans w1 w2 w3 t1 t2 : goes w1 w2 t1 -> goes w2 w3 t2 -> goes w1 w3 (t1 ++ t2).
Proof. intros (_ & Ht & Ha) (Hq & Ht2 & Ha2). split; [done|]. by rewrite Ht2, Ht, Ha2, app_assoc. Qed.

(** A task of the modem, when nobody else runs *)
Lemma task_goes {E A} (m : @Task T E A) w r w' :
  modem_task m -> Delivery.quiet w -> m w = (r, w') -> goes w w' [].
Proof.
  intros [_ [Hs Ha _]] [Hi Hf] Hm. specialize (Hs w). specialize (Ha w Hi). rewrite Hm in Hs, Ha.
  cbn in Hs, Ha. injection Hs as Hans Htr. destruct Ha as (Hi' & Hf' & _).
  split; [by split; [|rewrite Hf']|]. by rewrite Htr, app_nil_r.
Qed.

Lemma log_goes {A} e w (k : unit -> Ses A) :
  Delivery.quiet w -> exists w', same w' w /\ goes w w' [] /\ (push_log e ≫= k) w = k tt w'.
Proof.
  intros [Hi Ha]. unfold mbind, M_bind, push_log. rewrite (sync_alone w Hi).
  exists (send_entry (e (Transport.clock w))
            (set_app (add_log (e (Transport.clock w)) (Transport.app w)) w)).
  split; [done|]. split; [|done]. split; [done|]. by rewrite app_nil_r.
Qed.

Lemma recv_goes {A} c cs P w (k : TransportEvent -> M (Transport.World T) AgwpeError A) :
  Delivery.quiet w -> stable P -> hears (c :: cs) P w ->
  exists w', goes w w' [Received (EvData c)] /\ hears cs P w'
  /\ (mapE transport_err_to_agwpe (transport_recv (Transport.clock w + 30 * 1000)) ≫= k) w
     = k (EvData c) w'.
Proof.
  intros Hq HP Hh. destruct (Hh w (same_refl w Hq)) as (w2 & Hr & Hh2).
  pose proof (task_goes _ _ _ _ (recv_task _) Hq Hr) as (Hq2 & Ht & Ha).
  exists (note (Received (EvData c)) w2). split_and!.
  - split; [done|]. cbn. by rewrite Ht, <- app_assoc.
  - by apply (hears_stable cs P HP _ w2).
  - unfold mbind at 1, M_bind at 1, mapE, transport_recv, mbind, M_bind. by rewrite Hr.
Qed.

Lemma send_goes data P w :
  Delivery.quiet w -> says data P w ->
  exists w', goes w w' [Sent data] /\ P w' /\ transport_send data w = (Ok tt, w').
Proof.
  intros Hq Hs. destruct (Hs (note (Sent data) w)) as (w2 & Hsend & HP); [by split|].
  assert (Hq1 : Delivery.quiet (note (Sent data) w)) by done.
  pose proof (task_goes _ _ _ _ (send_task data) Hq1 Hsend) as (Hq2 & Ht & Ha).
  exists w2. split_and!; [|done|].
  - split; [done|]. cbn in Ht, Ha. by rewrite app_nil_r in Ht.
  - unfold transport_send, act, mapE, mbind, M_bind. by rewrite Hsend.
Qed.

(** The chunks end a wait for [p] with the last of them. *)
Fixpoint reaches (p : list byte -> bool) (received : list byte) (cs : list (list byte)) : Prop :=
  match cs with
  | [] => False
  | [c] => p (received ++ c) = true
  | c :: cs => p (received ++ c) = false /\ reaches p (received ++ c) cs
  end.

Definition is_prompt (t : list byte) : bool := contains (bs "callsign") t || contains (bs "AGREE") t.
Definition is_disclaimer (t : list byte) : bool := contains (bs "AGREE") (to_uppercase t).

(** Text the handshake takes as it is *)
Definition plain (received : list byte) (cs : list (list byte)) : Prop :=
  forallb is_ascii (concat cs) = true
  /\ Z.of_nat (length received + length (concat cs)) <= MAX_HANDSHAKE_TEXT.

Lemma plain_cons received c cs :
  plain received (c :: cs) ->
  from_utf8_lossy c = c /\ text_too_long received c = false /\ plain (received ++ c) cs.
Proof.
  unfold plain. cbn [concat]. rewrite forallb_app, length_app. intros [[Hc Hcs]%andb_true_iff Hl].
  split_and!.
  - by apply from_utf8_lossy_valid, ascii_utf8_valid.
  - unfold text_too_long. apply Z.ltb_ge. lia.
  - done.
  - rewrite length_app. lia.
Qed.

Definition received_acts (cs : list (list byte)) : list Transport.Act :=
  map (fun c => Received (EvData c)) cs.

Lemma prompt_heard cs : forall fuel received P w,
  (length cs <= fuel)%nat -> Delivery.quiet w -> stable P -> hears cs P w ->
  reaches is_prompt received cs -> plain received cs ->
  exists w', prompt_loop fuel received w = (Ok tt, w') /\ goes w w' (received_acts cs) /\ P w'.
Proof.
  induction cs as [|c cs IH]; intros fuel received P w Hf Hq HP Hh Hr Hp; [done|].
  destruct fuel as [|fuel]; [simpl in Hf; lia|]. apply plain_cons in Hp as (Hc & Hl & Hp).
  cbn [prompt_loop]. change ((gets Transport.clock ≫= ?k) w) with (k (Transport.clock w) w). cbv beta.
  match goal with |- context [(_ ≫= ?k) w] =>
    destruct (recv_goes c cs P w k Hq HP Hh) as (w1 & Hg & Hh1 & ->) end.
  cbv beta iota zeta. rewrite Hc, Hl. fold (is_prompt (received ++ c)).
  destruct cs as [|c2 cs].
  - cbn [reaches] in Hr. rewrite Hr. by exists w1.
  - destruct Hr as [Hn Hr]. rewrite Hn. simpl in Hf.
    destruct (IH fuel (received ++ c) P w1) as (w2 & Hloop & Hg2 & HP2); [simpl; lia|apply Hg|done..|].
    exists w2. split; [done|]. split; [|done]. by apply (goes_trans _ _ _ [Received (EvData c)] _ Hg).
Qed.

Lemma disclaimer_heard cs : forall fuel received P w,
  (length cs <= fuel)%nat -> Delivery.quiet w -> stable P -> hears cs P w ->
  reaches is_disclaimer received cs -> plain received cs ->
  exists w', disclaimer_loop fuel received w = (Ok (received ++ concat cs), w')
    /\ goes w w' (received_acts cs) /\ P w'.
Proof.
  induction cs as [|c cs IH]; intros fuel received P w Hf Hq HP Hh Hr Hp; [done|].
  destruct fuel as [|fuel]; [simpl in Hf; lia|]. apply plain_cons in Hp as (Hc & Hl & Hp).
  cbn [disclaimer_loop]. change ((gets Transport.clock ≫= ?k) w) with (k (Transport.clock w) w). cbv beta.
  match goal with |- context [(_ ≫= ?k) w] =>
    destruct (recv_goes c cs P w k Hq HP Hh) as (w1 & Hg & Hh1 & ->) end.
  cbv beta iota zeta. rewrite Hc, Hl.
  match goal with |- context [(push_log ?e ≫= ?k) w1] =>
    destruct (log_goes e w1 k (proj1 Hg)) as (w2 & Hs2 & Hg2 & ->) end.
  pose proof (goes_trans _ _ _ _ _ Hg Hg2) as Hg12. rewrite app_nil_r in Hg12.
  apply (hears_stable cs P HP _ _ Hs2) in Hh1. fold (is_disclaimer (received ++ c)).
  destruct cs as [|c2 cs].
  - cbn [reaches] in Hr. rewrite Hr. exists w2. cbn [concat]. by rewrite app_nil_r.
  - destruct Hr as [Hn Hr]. rewrite Hn. simpl in Hf.
    destruct (IH fuel (received ++ c) P w2) as (w3 & Hloop & Hg3 & HP3); [simpl; lia|apply Hg2|done..|].
    exists w3. rewrite Hloop, <- app_assoc. split; [done|]. split; [|done].
    by apply (goes_trans _ _ _ [Received (EvData c)] _ Hg12).
Qed.

Lemma hears_supply cs P : forall w,
  Delivery.quiet w -> hears cs P w -> (length cs <= supply (modem w))%nat.
Proof.
  induction cs as [|c cs IH]; intros w Hq Hh; [simpl; lia|].
  destruct (Hh w (same_refl w Hq)) as (w2 & Hr & Hh2).
  pose proof (recv_supply _ _ _ _ Hr) as Hlt.
  specialize (IH w2 (proj1 (task_goes _ _ _ _ (recv_task _) Hq Hr)) Hh2). simpl. lia.
Qed.
Lemma accepted_in_time d : 0 <= d < CONSENT_TIMEOUT -> consent_outcome (d, Answered true) = (d, Answered true).
Proof.
  intros [Hd Hlt]. unfold consent_outcome. cbn [fst snd]. apply Z.ltb_lt in Hlt as ->. by rewrite Z.max_r.
Qed.

(** The operator accepts, and AGREE goes out. *)
Lemma asked_agrees text d w rest P :
  Delivery.quiet w -> answers w = (d, Answered true) :: rest -> 0 <= d < CONSENT_TIMEOUT ->
  stable P -> thinks d (says AGREE_LINE P) w ->
  exists w', ask_operator text w = (Ok tt, w') /\ Delivery.quiet w' /\ P w' /\ answers w' = rest
  /\ Transport.trace w' = Transport.trace w ++ [Asked [Some text] (Answered true); Sent AGREE_LINE].
Proof.
  intros [Hi Hf] Ha Hd HP Hs. unfold ask_operator.
  change ((gets next_channel ≫= ?k) w) with (k (next_channel w) w). cbv beta.
  unfold set_state_with, broadcast_entry, await_consent. unfold mbind at 1, M_bind at 1.
  rewrite (sync_alone w Hi). cbn [set_connection_state]. unfold mbind at 1, M_bind at 1.
  unfold mbind at 1, M_bind at 1. rewrite sync_alone by exact Hi. cbn [answers send_entry set_app].
  rewrite Ha, (accepted_in_time d Hd). unfold next_batch. cbn [interference send_entry set_app].
  rewrite Hi. cbv beta iota zeta. cbn [default head displays from_option id].
  match goal with |- context [(push_log ?e ≫= ?k) ?w0] =>
    destruct (log_goes e w0 k) as (w2 & Hs2 & (Hq2 & Ht2 & Ha2) & ->); [by split|] end.
  destruct (send_goes AGREE_LINE P w2 Hq2) as (w3 & (Hq3 & Ht3 & Ha3) & HP3 & Hsend).
  { apply (says_stable AGREE_LINE P _ _ Hs2). apply (says_stable AGREE_LINE P _ (set_clock (Transport.clock w + d) w)).
    - by split_and!.
    - apply Hs, same_refl. by split. }
  rewrite (bind_ok _ _ _ _ _ Hsend).
  match goal with |- context [push_log ?e w3] =>
    destruct (log_goes (A:=unit) e w3 (fun _ => mret tt) Hq3) as (w4 & Hs4 & (Hq4 & Ht4 & Ha4) & Heq) end.
  unfold mbind, M_bind, mret, M_ret in Heq. exists w4. split_and!.
  - unfold push_log in *. congruence.
  - done.
  - by apply (HP _ _ Hs4).
  - rewrite Ha4, Ha3, Ha2. done.
  - rewrite Ht4, Ht3, Ht2. cbn. by rewrite !app_nil_r, <- app_assoc.
Qed.

Lemma callsign_said call heard P w :
  Delivery.quiet w -> hears heard (says (call ++ [LF]) P) w -> reaches is_prompt [] heard -> plain [] heard ->
  exists w', bpq_await_callsign_prompt_and_send_callsign call w = (Ok tt, w') /\ P w'
  /\ goes w w' (received_acts heard ++ [Sent (call ++ [LF])]).
Proof.
  intros Hq Hh Hr Hp. unfold bpq_await_callsign_prompt_and_send_callsign.
  match goal with |- context [(push_log ?e ≫= ?k) w] =>
    destruct (log_goes e w k Hq) as (w2 & Hs2 & Hg2 & ->) end.
  apply (hears_stable heard _ (says_stable _ _) _ _ Hs2) in Hh.
  change ((recv_fuel ≫= ?k) w2) with (k (S (supply (modem w2))) w2). cbv beta.
  pose proof (hears_supply heard _ w2 (proj1 Hg2) Hh) as Hfuel.
  destruct (prompt_heard heard (S (supply (modem w2))) [] _ w2 (le_S _ _ Hfuel) (proj1 Hg2)
    (says_stable _ _) Hh Hr Hp) as (w3 & Hloop & Hg3 & Hs3).
  rewrite (bind_ok _ _ _ _ _ Hloop). cbv zeta.
  match goal with |- context [(push_log ?e ≫= ?k) w3] =>
    destruct (log_goes e w3 k (proj1 Hg3)) as (w4 & Hs4 & Hg4 & ->) end.
  apply (says_stable _ _ _ _ Hs4) in Hs3.
  destruct (send_goes (call ++ [LF]) P w4 (proj1 Hg4) Hs3) as (w5 & Hg5 & HP5 & Hsend).
  exists w5. split; [exact Hsend|]. split; [done|].
  pose proof (goes_trans _ _ _ _ _ Hg2 (goes_trans _ _ _ _ _ Hg3 (goes_trans _ _ _ _ _ Hg4 Hg5))) as Hg.
  exact Hg.
Qed.

Lemma disclaimer_said heard P w :
  Delivery.quiet w -> stable P -> hears heard P w -> reaches is_disclaimer [] heard -> plain [] heard ->
  exists w', bpq_await_disclaimer w = (Ok (concat heard), w') /\ P w' /\ goes w w' (received_acts heard).
Proof.
  intros Hq HP Hh Hr Hp. unfold bpq_await_disclaimer.
  match goal with |- context [(push_log ?e ≫= ?k) w] =>
    destruct (log_goes e w k Hq) as (w6 & Hs6 & Hg6 & ->) end.
  apply (hears_stable heard P HP _ _ Hs6) in Hh.
  change ((recv_fuel ≫= ?k) w6) with (k (S (supply (modem w6))) w6). cbv beta.
  pose proof (hears_supply heard _ w6 (proj1 Hg6) Hh) as Hfuel.
  destruct (disclaimer_heard heard (S (supply (modem w6))) [] _ w6 (le_S _ _ Hfuel) (proj1 Hg6)
    HP Hh Hr Hp) as (w7 & Hloop & Hg7 & HP7).
  exists w7. split; [exact Hloop|]. split; [done|]. exact (goes_trans _ _ _ _ _ Hg6 Hg7).
Qed.

(** The handshake on a direct connection, with prompts that come in pieces *)
Lemma handshake_heard call heard1 heard2 d' w rest P :
  Delivery.quiet w -> answers w = (d', Answered true) :: rest ->
  0 <= d' < CONSENT_TIMEOUT -> skip_bpq_app (ClientState.config (Transport.app w)) = true -> stable P ->
  hears heard1 (says (call ++ [LF]) (hears heard2 (thinks d' (says AGREE_LINE P)))) w ->
  reaches is_prompt [] heard1 -> plain [] heard1 ->
  reaches is_disclaimer [] heard2 -> plain [] heard2 ->
  exists w', perform_bpq_handshake call w = (Ok tt, w') /\ Delivery.quiet w' /\ P w' /\ answers w' = rest
  /\ Transport.trace w' = Transport.trace w ++ received_acts heard1 ++ [Sent (call ++ [LF])]
       ++ received_acts heard2 ++ [Asked [Some (concat heard2)] (Answered true); Sent AGREE_LINE].
Proof.
  intros [Hi Hf] Ha Hd Hskip HP Hh Hr1 Hp1 Hr2 Hp2. unfold perform_bpq_handshake.
  unfold mbind at 1, M_bind at 1, lock_read at 1. rewrite (sync_alone w Hi), Hskip.
  match goal with |- context [(push_log ?e ≫= ?k) w] =>
    destruct (log_goes e w k) as (w1 & Hs1 & Hg1 & ->); [by split|] end.
  apply (hears_stable heard1 _ (says_stable _ _) _ _ Hs1) in Hh.
  destruct (callsign_said call heard1 _ w1 (proj1 Hg1) Hh Hr1 Hp1) as (w2 & Hcall & Hh2 & Hg2).
  rewrite (bind_ok _ _ _ _ _ Hcall).
  destruct (disclaimer_said heard2 _ w2 (proj1 Hg2) (thinks_stable _ _) Hh2 Hr2 Hp2)
    as (w3 & Hdis & Hs3 & Hg3).
  rewrite (bind_ok _ _ _ _ _ Hdis).
  destruct (goes_trans _ _ _ _ _ Hg1 (goes_trans _ _ _ _ _ Hg2 Hg3)) as (Hq3 & Ht3 & Ha3). rewrite Ha in Ha3.
  destruct (asked_agrees (concat heard2) d' w3 rest P Hq3 Ha3 Hd HP Hs3) as (w4 & Hask & Hq4 & HP4 & Ha4 & Ht4).
  exists w4. split_and!; [exact Hask|done|done|done|].
  rewrite Ht4, Ht3. cbn [Datatypes.app]. by rewrite <- !app_assoc.
Qed.
End Client.

(** ** The server's half *)

Section Server.
Context `{UnicodeCaseLaws} `{Base64} `{Sha256} `{Brotli}.
Context (config : Config) (resolve_at : Z -> list byte -> Z -> option (list IpAddr)).
Context (domains_at : Z -> Blocklist.State) (url_parse : list byte -> option Filter.Url).
Context (parse_http_date : list byte -> option Z) (prober : Prober).

Abbreviation serve := (serve_loop config resolve_at domains_at url_parse parse_http_date prober).
Abbreviation connection := (handle_connection config resolve_at domains_at url_parse parse_http_date prober).

Definition CALLSIGN_PROMPT : list byte := bs "Enter your callsign: ".
Definition DISCLAIMER : list byte :=
  bs "All activity is logged including your callsign." ++ [LF] ++ bs "Type AGREE to proceed: ".

Lemma agree_line_read : to_uppercase (trim AGREE_LINE) = bs "AGREE".
Proof. rewrite to_uppercase_ascii by reflexivity. reflexivity. Qed.

Lemma write_free o ws : Server.writes ws = [] -> write_out o ws = (Ok tt, record (Wrote o None) ws).
Proof. intros Hw. unfold write_out. by rewrite Hw. Qed.

Lemma reading_ok {A} (m : M Reader IoError A) ws a r' :
  m (Server.reader ws) = (Ok a, r') -> reading m ws = (Ok a, set_reader r' ws).
Proof. intros Hm. unfold reading. by rewrite Hm. Qed.

Lemma agree_read deadline cs ws more :
  SocketRead.quiet deadline (Server.reader ws) -> pending (Server.reader ws) = AGREE_LINE ++ more ->
  cs <> bs "AGREE" ->
  exists r', (forall later fuel, preauth_loop (S fuel) deadline cs (feed_server later ws)
                = (Ok (Some AGREE_LINE), feed_server later (set_reader r' ws)))
  /\ passed (Server.reader ws) r' /\ pending r' = more.
Proof.
  intros Hq Hp Hne.
  destruct (read_line_quiet deadline (Server.reader ws) (bs "AGREE") more Hq Hp) as (r' & Hr & Hp' & _);
    [done|done|apply Nat.ltb_lt; done|].
  destruct (read_line_local _ _ _ _ Hr) as [Hpass Hlocal].
  exists r'. split; [|done]. intros later fuel. cbn [preauth_loop].
  rewrite (bind_ok _ _ _ _ _ (reading_ok _ (feed_server later ws) _ _ (Hlocal later))).
  change (bs "AGREE" ++ [LF]) with AGREE_LINE. unfold classify_preauth_line. rewrite agree_line_read.
  rewrite bool_decide_false by congruence. reflexivity.
Qed.

(** A station gives a callsign the server takes, then AGREE, in any pieces, however much
    follows later; the browser takes [d] to start. *)
Lemma connection_agreed ws call cs more d ls :
  Server.cloned ws = true ->
  let deadline := Server.clock ws + PRE_AUTH_TIMEOUT_SECS * 1000 in
  SocketRead.quiet deadline (Server.reader ws) ->
  Server.writes ws = [] -> Server.launches ws = (d, true) :: ls ->
  pending (Server.reader ws) = (call ++ [LF]) ++ AGREE_LINE ++ more ->
  utf8_valid call = true -> no_byte LF call = true -> (length call < line_cap)%nat ->
  validate_callsign_with_allowlist (trim (call ++ [LF])) (allowed_callsigns config) = Ok cs ->
  cs <> bs "AGREE" ->
  exists r' ws',
  (forall later, connection (feed_server later ws)
                 = serve (stream_fuel (feed_server later ws')) (feed_server later ws'))
  /\ Server.trace ws' = Server.trace ws ++ [Wrote (Text CALLSIGN_PROMPT) None; Wrote (Text DISCLAIMER) None;
       Logged (mkLogEntry (now r') cs (bs "AGREED") LogAgreed None); Launched true]
  /\ passed (Server.reader ws) r' /\ pending r' = more
  /\ Server.reader ws' = mkReader (buffered r') (incoming r') (now r' + Z.max 0 d)
  /\ last_activity (Server.session ws') = now r'
  /\ acknowledged (Server.session ws') = true /\ Callsign.callsign (Server.session ws') = cs
  /\ Server.browser ws' = true /\ Server.writes ws' = [] /\ Server.fetches ws' = Server.fetches ws.
Proof.
  intros Hclone deadline Hq Hw Hl Hp Hu Hn Hlen Hv Hne. rewrite <- app_assoc in Hp.
  destruct (read_line_quiet deadline (Server.reader ws) call (AGREE_LINE ++ more) Hq Hp Hu Hn Hlen)
    as (r1 & Hr1 & Hp1 & Hq1).
  destruct (read_line_local _ _ _ _ Hr1) as [Hpass1 Hlocal1].
  set (w1 := record (Wrote (Text CALLSIGN_PROMPT) None) ws).
  set (w2 := set_session (Callsign.new cs (now r1)) (set_reader r1 w1)).
  set (w3 := record (Wrote (Text DISCLAIMER) None) w2).
  destruct (agree_read deadline cs w3 more Hq1 Hp1 Hne) as (r2 & Hloop & Hpass2 & Hp2).
  set (w4 := set_reader r2 w3).
  set (w5 := set_session (acknowledge (Server.session w4) (now r2)) w4).
  set (w6 := record (Logged (mkLogEntry (now r2) cs (bs "AGREED") LogAgreed None)) w5).
  set (w7 := record (Launched true) (advance d
    (Server.mkWorld (Server.reader w6) (Server.session w6) true (Server.writes w6) ls (Server.fetches w6)
       (Server.cloned w6) (Server.crash_loop w6) (Server.trace w6)))).
  exists r2, w7. split; [|split_and!; try done;
    [unfold w7, w6, w5, w4, w3, w2, w1; cbn; by rewrite <- !app_assoc|by eapply passed_trans]].
  intros later. unfold handle_connection. fold CALLSIGN_PROMPT.
  change ((gets Server.cloned ≫= ?k) (feed_server later ws)) with (k (Server.cloned ws) (feed_server later ws)).
  rewrite Hclone. cbn [negb].
  rewrite (bind_ok _ _ _ _ _ (write_free _ (feed_server later ws) Hw)).
  change (record (Wrote (Text CALLSIGN_PROMPT) None) (feed_server later ws)) with (feed_server later w1).
  change ((gets Server.clock ≫= ?k) (feed_server later w1)) with (k (Server.clock w1) (feed_server later w1)).
  cbv beta zeta. change (Server.clock w1 + PRE_AUTH_TIMEOUT_SECS * 1000) with deadline.
  rewrite (bind_ok _ _ _ _ _ (reading_ok _ (feed_server later w1) _ _ (Hlocal1 later))). rewrite Hv.
  match goal with |- context [(modify ?f ≫= ?k) ?w0] =>
    change ((modify f ≫= k) w0) with (k tt (feed_server later w2)) end.
  cbv beta. unfold await_agree. fold DISCLAIMER.
  rewrite (bind_ok _ _ _ _ _ (write_free _ (feed_server later w2) Hw)).
  change (record (Wrote (Text DISCLAIMER) None) (feed_server later w2)) with (feed_server later w3).
  change ((gets stream_fuel ≫= ?k) (feed_server later w3)) with (k (stream_fuel (feed_server later w3)) (feed_server later w3)).
  cbv beta. rewrite (bind_ok _ _ _ _ _ (Hloop later (length (pending (Server.reader (feed_server later w3)))))).
  rewrite agree_line_read, bool_decide_true by done. cbn [negb]. fold w4.
  change ((acknowledge_session ≫= ?k) (feed_server later w4)) with (k tt (feed_server later w5)). cbv beta.
  change ((log_entry (bs "AGREED") LogAgreed None ≫= ?k) (feed_server later w5)) with (k tt (feed_server later w6)).
  cbv beta. bind1. unfold launch_browser.
  change (Server.launches (feed_server later w6)) with (Server.launches ws). rewrite Hl. reflexivity.
Qed.
(** ** Joined *)

Lemma received_bytes cs : client_bytes (received_acts cs) = [].
Proof. unfold client_bytes, received_acts. induction cs as [|c cs IH]; [done|exact IH]. Qed.

Context {T : Type} `{TransportLaws T} `{DebugFormat}.

(** What the server writes is plain text for the client, however it is cut. *)
Lemma greeting_plain cs rest :
  concat cs ++ rest = CALLSIGN_PROMPT ++ DISCLAIMER -> plain [] cs.
Proof.
  intros Heq. split.
  - assert (Ha : forallb is_ascii (concat cs ++ rest) = true) by (rewrite Heq; reflexivity).
    rewrite forallb_app in Ha. by apply andb_true_iff in Ha as [Ha _].
  - apply (f_equal length) in Heq. rewrite length_app in Heq.
    change (length (CALLSIGN_PROMPT ++ DISCLAIMER)) with 92%nat in Heq.
    unfold MAX_HANDSHAKE_TEXT. simpl. lia.
Qed.

Lemma greeting_plain_second cs1 cs2 rest :
  concat (cs1 ++ cs2) ++ rest = CALLSIGN_PROMPT ++ DISCLAIMER -> plain [] cs2.
Proof.
  rewrite concat_app. intros Heq. destruct (greeting_plain (cs1 ++ cs2) rest) as [Ha Hl].
  { by rewrite concat_app. }
  rewrite concat_app, forallb_app in Ha. rewrite concat_app, length_app in Hl.
  apply andb_true_iff in Ha as [_ Ha]. split; [done|]. simpl in *. lia.
Qed.

(** C7: the two handshakes fit: on a direct connection, when the station's callsign is
    one the server takes and the operator, in time, accepts what the server wrote, both come to
    the end: what the client sends is what the server reads, what the server writes, in
    any pieces, is what the client waits for and what the operator was shown; the
    client reports success and the server, the agreement logged under the station's
    callsign and a browser started, goes on to serve requests. *)
Theorem handshakes_agree ws call cs more d ls heard1 heard2 unheard d' rest (w : Transport.World T) P :
  (* the server *)
  Server.cloned ws = true -> SocketRead.quiet (Server.clock ws + PRE_AUTH_TIMEOUT_SECS * 1000) (Server.reader ws) ->
  Server.writes ws = [] -> Server.launches ws = (d, true) :: ls ->
  pending (Server.reader ws) = (call ++ [LF]) ++ AGREE_LINE ++ more ->
  utf8_valid call = true -> no_byte LF call = true -> (length call < line_cap)%nat ->
  validate_callsign_with_allowlist (trim (call ++ [LF])) (allowed_callsigns config) = Ok cs ->
  cs <> bs "AGREE" ->
  (* the client *)
  Delivery.quiet w -> answers w = (d', Answered true) :: rest ->
  0 <= d' < CONSENT_TIMEOUT -> skip_bpq_app (ClientState.config (Transport.app w)) = true -> stable P ->
  (* the link *)
  concat (heard1 ++ heard2) ++ unheard = CALLSIGN_PROMPT ++ DISCLAIMER ->
  reaches is_prompt [] heard1 -> reaches is_disclaimer [] heard2 ->
  hears heard1 (says (call ++ [LF]) (hears heard2 (thinks d' (says AGREE_LINE P)))) w ->
  exists t ws' wrote w' said,
    connection ws = serve (stream_fuel ws') ws' /\ Server.trace ws' = Server.trace ws ++ wrote
    /\ server_bytes wrote = concat (heard1 ++ heard2) ++ unheard
    /\ Logged (mkLogEntry t cs (bs "AGREED") LogAgreed None) ∈ wrote
    /\ acknowledged (Server.session ws') = true /\ Server.browser ws' = true
    /\ perform_bpq_handshake call w = (Ok tt, w') /\ Delivery.quiet w' /\ P w'
    /\ Transport.trace w' = Transport.trace w ++ said
    /\ client_bytes said ++ pending (Server.reader ws') = pending (Server.reader ws)
    /\ Asked [Some (concat heard2)] (Answered true) ∈ said.
Proof.
  intros Hclone Hsq Hsw Hl Hp Hu Hn Hlen Hv Hne Hq Ha Hd Hskip HP Hcut Hr1 Hr2 Hh.
  destruct (connection_agreed ws call cs more d ls Hclone Hsq Hsw Hl Hp Hu Hn Hlen Hv Hne)
    as (r' & ws' & Hc & Ht & _ & Hp' & Hrd & _ & Hack & _ & Hb & _).
  specialize (Hc []). rewrite !feed_server_nil in Hc.
  assert (Hpend : pending (Server.reader ws') = more) by (by rewrite Hrd).
  assert (Hp1 : plain [] heard1).
  { rewrite concat_app, <- app_assoc in Hcut. by apply (greeting_plain heard1 (concat heard2 ++ unheard)). }
  destruct (handshake_heard call heard1 heard2 d' w rest P Hq Ha Hd Hskip HP Hh Hr1 Hp1 Hr2
    (greeting_plain_second _ _ _ Hcut)) as (w' & Hw & Hq' & HPw & _ & Htr).
  eexists (now r'), ws', _, w', _. split_and!; [exact Hc|exact Ht| | |done|done|exact Hw|done|done|exact Htr| |].
  - rewrite Hcut. unfold server_bytes. cbn [map concat]. by rewrite app_nil_r.
  - do 2 apply list_elem_of_further. apply list_elem_of_here.
  - rewrite Hp, Hpend. unfold client_bytes. rewrite !map_app, !concat_app.
    pose proof (received_bytes heard1) as Hb1. pose proof (received_bytes heard2) as Hb2.
    unfold client_bytes in Hb1, Hb2. rewrite Hb1, Hb2. cbn. by rewrite <- !app_assoc.
  - apply elem_of_app. right. apply list_elem_of_further, elem_of_app. right. apply list_elem_of_here.
Qed.
End Server.

(** ** A station comes on the air *)

#[local] Existing Instances ToyDebug.debug_format Toy.unicode Toy.unicode_laws rfc4648 Toy.sha256 Toy.brotli
  ToyModem.modem ToyModem.modem_laws.

Module Demo.
Definition direct_config : FileConfig :=
  mkFileConfig (bs "127.0.0.1") 8000 (bs "w1aw-2") (bs "N0CALL-8") (bs "WEB") true
    default_cache default_connection Ax25 default_vara.
Definition heard1 : list (list byte) := [bs "Enter your call"; bs "sign"].
Definition heard2 : list (list byte) :=
  [bs ": All activity is logged including your callsign." ++ [LF] ++ bs "Type AG"; bs "REE to"].
Definition client : Transport.World ToyModem.Script :=
  Transport.mkWorld (map EvData (heard1 ++ heard2)) (new_state direct_config) false 0 [] [] [(20000, Answered true)] [].
Definition server : Server.World :=
  Server.mkWorld (mkReader [] [(10, Data (bs "w1aw-2" ++ [LF])); (90000, Data AGREE_LINE)] 0)
    (Callsign.new [] 0) false [] [(1000, true)] [] true false [].
End Demo.

Lemma handshakes_agree_witness :
  exists t ws' wrote w' said,
    @handle_connection Toy.unicode rfc4648 Toy.sha256 Toy.brotli demo_config web_resolve no_domains web_parse
      no_dates no_probe Demo.server
      = @serve_loop rfc4648 Toy.sha256 Toy.brotli demo_config web_resolve no_domains web_parse no_dates
          no_probe (stream_fuel ws') ws'
    /\ Server.trace ws' = wrote
    /\ server_bytes wrote = CALLSIGN_PROMPT ++ DISCLAIMER
    /\ Logged (mkLogEntry t (bs "W1AW") (bs "AGREED") LogAgreed None) ∈ wrote
    /\ acknowledged (Server.session ws') = true /\ Server.browser ws' = true
    /\ perform_bpq_handshake (bs "w1aw-2") Demo.client = (Ok tt, w') /\ Delivery.quiet w' /\ modem w' = []
    /\ Transport.trace w' = said
    /\ client_bytes said ++ pending (Server.reader ws') = bs "w1aw-2" ++ [LF] ++ AGREE_LINE
    /\ Asked [Some (concat Demo.heard2)] (Answered true) ∈ said.
Proof.
  apply (handshakes_agree demo_config web_resolve no_domains web_parse no_dates no_probe Demo.server
    (bs "w1aw-2") (bs "W1AW") [] 1000 [] Demo.heard1 Demo.heard2 (bs " proceed: ") 20000 [] Demo.client
    (fun w => modem w = [])).
  - reflexivity.
  - split; [reflexivity|]. intros t e He.
    repeat (apply elem_of_cons in He as [He|He]; [injection He as -> ->; split; [reflexivity|discriminate]|]).
    by apply not_elem_of_nil in He.
  - reflexivity.
  - reflexivity.
  - reflexivity.
  - reflexivity.
  - reflexivity.
  - apply Nat.ltb_lt. reflexivity.
  - reflexivity.
  - discriminate.
  - by split.
  - reflexivity.
  - by split.
  - reflexivity.
  - intros w1 w (Hm & _) Hw. by rewrite Hm.
  - reflexivity.
  - by repeat split.
  - by repeat split.
  - intros w1 (Hm1 & _). eexists. split; [cbn; unfold ToyModem.scripted_recv; rewrite Hm1; reflexivity|].
    intros w2 (Hm2 & _). eexists. split; [cbn; unfold ToyModem.scripted_recv; rewrite Hm2; reflexivity|].
    intros w3 (Hm3 & _). eexists. split; [reflexivity|].
    intros w4 (Hm4 & _). eexists. split; [cbn; unfold ToyModem.scripted_recv; rewrite Hm4, Hm3; reflexivity|].
    intros w5 (Hm5 & _). eexists. split; [cbn; unfold ToyModem.scripted_recv; rewrite Hm5; reflexivity|].
    intros wt (Hmt & _) w6 (Hm6 & _). eexists. split; [reflexivity|]. rewrite Hm6. cbn. by rewrite Hmt.
Defined.
