(* ===== verification/Contact.v ===== *)
(** * A contact, from the connect button to the end

    The parts joined: the connect handler of the client ([open_session] of
    [client/src/transport/manager.rs], behind [api_connect_handler] of [proxy.rs]) over
    an AGWPE modem, the handshakes, and the pages, against one connection of the server
    ([handle_connection] of [server/src/main.rs]). *)
From Stdlib Require Import ZArith Lia Strings.Byte.
From stdpp Require Import base decidable list countable gmap.
From S2P Require Import WebApi Browser.
From S2P Require Import NetAddr Blocklist Filter ServerConfig OriginCC Callsign SocketRead Server.
From S2P Require Import AgwpeFrame Agwpe.
From S2P Require Import Prelude Bytes Numbers External Protocol TransportTypes Cache Rewrite Ui HostGuard.
From S2P Require Import ClientConfig ClientState Transport Session Manager Delivery Browse.
From S2P Require Import EndToEnd Visits Greeting.

(** ** The modem during the handshake *)

Section Link.
Context `{UnicodeCase} `{DebugFormat}.
(** The greeting comes before [D], and it is [t0] or after. *)
Context (D t0 : Z) (in_time : D <= t0 + 30 * 1000).

Definition air (later : list (Z * Agwpe.ReadEvent)) (cs : list (list byte))
    (w : Transport.World AgwpeTransport) : Prop :=
  carries D later [] cs w /\ t0 <= Transport.clock w.

Lemma air_stable later cs : stable (air later cs).
Proof.
  intros w1 w Hs [Hc Ht]. split; [by apply (carries_same _ _ _ _ w1 w)|]. destruct Hs as (_ & -> & _). done.
Qed.

Lemma air_hears later cs2 (Q : Transport.World AgwpeTransport -> Prop) cs1 : forall w,
  air later (cs1 ++ cs2) w -> (forall w', air later cs2 w' -> Q w') -> hears cs1 Q w.
Proof.
  induction cs1 as [|c cs IH]; intros w Ha HQ; [by apply HQ|]. intros w1 Hs.
  destruct (air_stable _ _ _ _ Hs Ha) as [Hc Ht].
  destruct (carries_next D (Transport.clock w1 + 30 * 1000) later [] c (cs ++ cs2) w1)
    as (w2 & Hr & Hc2 & _ & Hck & _); [lia|lia|done|].
  exists w2. split; [done|]. apply IH; [|done]. split; [done|lia].
Qed.

Lemma air_says later cs text (Q : Transport.World AgwpeTransport -> Prop) w :
  air later cs w -> (forall w', air later cs w' -> Q w') -> says text Q w.
Proof.
  intros Ha HQ w1 Hs. destruct (air_stable _ _ _ _ Hs Ha) as [Hc Ht].
  destruct (carries_send D later [] cs text w1 Hc) as (w2 & Hr & Hc2 & Hck & _).
  exists w2. split; [done|]. apply HQ. split; [done|lia].
Qed.

Lemma air_thinks later cs d (Q : Transport.World AgwpeTransport -> Prop) w :
  0 <= d -> air later cs w -> (forall w', air later cs w' -> Q w') -> thinks d Q w.
Proof.
  intros Hd Ha HQ w1 Hs. destruct (air_stable _ _ _ _ Hs Ha) as [Hc Ht]. apply HQ.
  split; [exact Hc|cbn; lia].
Qed.

(** A frame that confirms the AX.25 link: AGWPE's own, or LinBPQ's text *)
Definition confirms (f : AgwpeFrame) : Prop :=
  frame_wf f /\ (frame_type f = AgwpeFrame.Connected
    \/ frame_type f = AgwpeFrame.Connect /\ starts_with (bs "***") (data f) && contains (bs "CONNECTED") (data f) = true).

Lemma log_to_quiet {A} e (w : Transport.World AgwpeTransport) (k : unit -> @Task _ TransportError A) :
  Delivery.quiet w -> exists w', same w' w /\ (log_to e ≫= k) w = k tt w'.
Proof.
  intros Hq. unfold log_to, Agwpe.this, gets, mbind, M_bind.
  destruct (attached (modem w)); [|exists w; split; [by apply same_refl|done]].
  destruct Hq as [Hi Ha]. unfold push_log. rewrite (sync_alone w Hi). eexists. split; [|reflexivity]. by split_and!.
Qed.

(** The modem is connected, and the link's confirmation is on its way, then the frames
    [fs] of the greeting. *)
Definition confirmed (later : list (Z * Agwpe.ReadEvent)) (f0 : AgwpeFrame) (fs : list AgwpeFrame)
    (w : Transport.World AgwpeTransport) : Prop :=
  writes_succeed w /\ t0 <= Transport.clock w
  /\ awaits D later w (encode f0 ++ concat (map encode fs)).

Lemma confirmed_same later f0 fs w1 w : same w1 w -> confirmed later f0 fs w -> confirmed later f0 fs w1.
Proof. intros (Hm & Hc & _). unfold confirmed, writes_succeed, awaits. by rewrite Hm, Hc. Qed.

Lemma link_opens later f0 fs w :
  confirms f0 -> Forall data_frame_wf fs -> Delivery.quiet w -> confirmed later f0 fs w ->
  exists w', open_ax25_link w = (Ok tt, w') /\ goes w w' [] /\ air later (map AgwpeFrame.data fs) w'
    /\ ClientState.config (Transport.app w') = ClientState.config (Transport.app w).
Proof.
  intros [Hf0 Hconf] Hfs Hq Hw.
  assert (Hrun : exists w', open_ax25_link w = (Ok tt, w') /\ air later (map AgwpeFrame.data fs) w').
  { cbn [open_ax25_link Agwpe.agwpe]. unfold agwpe_open_ax25_link.
    change ((Agwpe.this id ≫= ?k) w) with (k (modem w) w). cbv beta.
    assert (Agwpe.is_connected (modem w) = true) as ->.
    { destruct Hw as ((s & Hs & _) & _). unfold Agwpe.is_connected. by rewrite Hs, bool_decide_true. }
    cbn [negb].
    match goal with |- context [(log_to ?e ≫= ?k) w] => destruct (log_to_quiet e w k Hq) as (w1 & Hs1 & ->) end.
    destruct (confirmed_same _ _ _ _ _ Hs1 Hw) as (Hws & Ht & Ha).
    destruct (write_all_carries D later _ (encode (new_frame (radio_port (modem w)) AgwpeFrame.Connect (my_call (modem w))
      (peer_call (modem w)) [])) w1 Hws Ha) as (w2 & Hr2 & Ha2 & Hws2 & Hc2 & Hp2).
    match goal with |- context [(mapE agwpe_to_transport_err (send_frame_internal ?f) ≫= ?k) w1] =>
      assert (Hsend : mapE agwpe_to_transport_err (send_frame_internal f) w1 = (Ok tt, w2)) end.
    { unfold send_frame_internal, Agwpe.this, gets, mapE, mbind, M_bind.
      destruct Hws as (s & Hs & _). unfold Agwpe.is_connected. rewrite Hs, bool_decide_true by done.
      cbn [negb]. by rewrite Hr2. }
    rewrite (bind_ok _ _ _ _ _ Hsend).
    change ((gets Transport.clock ≫= ?k) w2) with (k (Transport.clock w2) w2). cbv beta.
    change ((Agwpe.this pending_size ≫= ?k) w2) with (k (pending_size (modem w2)) w2). cbv beta. cbn [link_loop].
    destruct (read_frame_timely D (Transport.clock w2 + 30 * 1000) later f0 (concat (map encode fs)) w2)
      as (w3 & Hr3 & Ha3 & Hon3); [lia|lia|done|done|].
    match goal with |- context [(mapE _ _ ≫= ?k) w2] =>
      rewrite (bind_ok (mapE agwpe_to_transport_err (read_frame_with_timeout_deadline _)) k w2 f0 w3)
        by (unfold mapE; by rewrite Hr3) end.
    assert (Hq2 : Delivery.quiet w2).
    { pose proof (task_alone _ (polite_write_all (encode (new_frame (radio_port (modem w)) AgwpeFrame.Connect
        (my_call (modem w)) (peer_call (modem w)) []))) w1 (proj1 (proj2 (proj2 Hs1)))) as (Hi & Hab & _).
      rewrite Hr2 in Hi, Hab. cbn in Hi, Hab. split; [done|]. rewrite Hab. apply Hs1. }
    assert (Hq3 : Delivery.quiet w3).
    { pose proof (task_alone _ (polite_read_deadline (Transport.clock w2 + 30 * 1000)) w2 (proj1 Hq2)) as (Hi & Hab & _).
      rewrite Hr3 in Hi, Hab. cbn in Hi, Hab. split; [done|]. rewrite Hab. apply Hq2. }
    assert (Hair : air later (map AgwpeFrame.data fs) w3).
    { destruct Hon3 as (_ & Hck & Hws3). split; [|lia]. split; [by apply Hws3|]. exists fs. by rewrite app_nil_r. }
    assert (Hlog : forall e, exists w', log_to e w3 = (@Ok TransportError unit tt, w') /\ air later (map AgwpeFrame.data fs) w').
    { intros e. destruct (log_to_quiet e w3 (fun _ => mret tt) Hq3) as (w4 & Hs4 & Heq). exists w4.
      split; [|by apply (air_stable _ _ _ _ Hs4)]. unfold mbind, M_bind, mret, M_ret in Heq.
      unfold log_to, Agwpe.this, gets, mbind, M_bind in *. by destruct (attached (modem w3)). }
    destruct Hconf as [Ht0|[Ht0 Htext]]; rewrite Ht0; [apply Hlog|]. apply andb_true_iff in Htext as [Hx Hy].
    rewrite bool_decide_true by done. rewrite Hx, Hy. apply Hlog. }
  destruct Hrun as (w' & Hr & Hair). exists w'.
  pose proof (task_goes _ _ _ _ open_ax25_link_task Hq Hr) as Hg. split_and!; [done|done|done|].
  pose proof (task_alone _ (task_polite _ open_ax25_link_task) w (proj1 Hq)) as (_ & _ & Ho).
  rewrite Hr in Ho. cbn in Ho. by injection Ho.
Qed.

(** *** [open_session] of the manager *)

(** The greeting as the client hears it: up to the prompt, up to the disclaimer, and
    what is left of it *)
Definition greets (cs heard1 heard2 left : list (list byte)) : Prop :=
  cs = heard1 ++ heard2 ++ left /\ reaches is_prompt [] heard1 /\ reaches is_disclaimer [] heard2
  /\ plain [] heard1 /\ plain [] heard2.

Lemma ax25_opens later f0 fs w :
  confirms f0 -> Forall data_frame_wf fs -> Delivery.quiet w -> confirmed later f0 fs w ->
  exists w', ax25_open_and_await_connected w = (Ok tt, w') /\ Delivery.quiet w'
    /\ Transport.trace w' = Transport.trace w ++ [Opened] /\ answers w' = answers w
    /\ air later (map AgwpeFrame.data fs) w'
    /\ ClientState.config (Transport.app w') = ClientState.config (Transport.app w).
Proof.
  intros Hf0 Hfs Hq Hcon. unfold ax25_open_and_await_connected. set (w5 := note Opened w).
  destruct (link_opens later f0 fs w5 Hf0 Hfs Hq Hcon) as (w6 & Hopen & (Hq6 & Ht6 & Ha6) & Hair6 & Hcfg).
  change ((act Opened ≫= ?k) w) with (k tt w5). cbv beta. unfold mapE, mbind at 1, M_bind at 1. rewrite Hopen.
  cbn [map_err]. unfold push_log. rewrite (sync_alone w6) by apply Hq6. eexists. split; [reflexivity|].
  split; [exact Hq6|]. split; [cbn; by rewrite Ht6, app_nil_r|]. split; [done|]. by split.
Qed.

Lemma air_handshake later call heard1 heard2 left d w :
  0 <= d ->
  air later (heard1 ++ heard2 ++ left) w ->
  hears heard1 (says (call ++ [LF]) (hears heard2 (thinks d (says AGREE_LINE (air later left))))) w.
Proof.
  intros Hd Ha. apply (air_hears later (heard2 ++ left)); [done|]. intros wa Hwa.
  apply (air_says later (heard2 ++ left)); [done|]. intros wb Hwb.
  apply (air_hears later left); [done|]. intros wc Hwc. apply (air_thinks later left); [done..|].
  intros wd Hwd. by apply (air_says later left).
Qed.

Lemma session_opens later f0 fs heard1 heard2 left d rest target port call w :
  interference w = [] -> answers w = (d, Answered true) :: rest -> 0 <= d < CONSENT_TIMEOUT ->
  skip_bpq_app (ClientState.config (Transport.app w)) = true ->
  confirms f0 -> Forall data_frame_wf fs -> confirmed later f0 fs w ->
  greets (map AgwpeFrame.data fs) heard1 heard2 left ->
  exists w', handle_open_session target port call w = (Ok tt, w')
    /\ Delivery.quiet w' /\ connection_state (Transport.app w') = CsConnected /\ air later left w'
    /\ Transport.trace w' = Transport.trace w ++ Opened :: received_acts heard1 ++ [Sent (call ++ [LF])]
         ++ received_acts heard2 ++ [Asked [Some (concat heard2)] (Answered true); Sent AGREE_LINE].
Proof.
  intros Hi Ha Hd Hskip Hf0 Hfs Hcon (Hcs & Hr1 & Hr2 & Hp1 & Hp2). unfold handle_open_session.
  unfold mbind at 1, M_bind at 1, reset_abort. rewrite (sync_alone w Hi).
  set (w1 := set_abort false w). unfold lock_read, lock_update, set_state_with.
  unfold mbind at 1, M_bind at 1. rewrite (sync_alone w1) by exact Hi.
  unfold mbind at 1, M_bind at 1. rewrite (sync_alone w1) by exact Hi.
  set (sc := mkSessionConfig call target _ _ port).
  change ((mapE transport_err_to_agwpe (open_session sc) ≫= ?k) w1) with (k tt (set_modem (set_peer sc (modem w1)) w1)).
  cbv beta. set (w2 := set_modem _ w1). unfold mbind at 1, M_bind at 1.
  rewrite (sync_alone w2) by exact Hi. cbn [set_connection_state]. cbv beta iota zeta.
  match goal with |- context [send_entry ?e ?x] => set (w3 := send_entry e x) end.
  unfold mbind at 1, M_bind at 1. rewrite (sync_alone w3) by exact Hi.
  match goal with |- context [set_app ?a w3] => set (w4 := set_app a w3) end.
  assert (Hq4 : Delivery.quiet w4) by (by split).
  assert (Hcon4 : confirmed later f0 fs w4) by exact Hcon.
  destruct (ax25_opens later f0 fs w4 Hf0 Hfs Hq4 Hcon4) as (w7 & Hlink & Hq7 & Ht7 & Ha7 & Hair7 & Hcfg).
  rewrite (bind_ok _ _ _ _ _ Hlink).
  assert (Hskip7 : skip_bpq_app (ClientState.config (Transport.app w7)) = true) by (rewrite Hcfg; exact Hskip).
  rewrite Hcs in Hair7. apply (air_handshake later call _ _ _ d) in Hair7; [|lia].
  destruct (handshake_heard call heard1 heard2 d w7 rest (air later left) Hq7) as (w8 & Hh & Hq8 & Hair8 & _ & Htr8);
    [by rewrite Ha7|done|done|by apply air_stable|done..|].
  unfold catch. rewrite Hh. unfold set_state, set_state_with. rewrite (sync_alone w8 (proj1 Hq8)).
  cbn [set_connection_state]. eexists. split; [reflexivity|]. split; [exact Hq8|]. split; [done|]. split; [exact Hair8|].
  cbn [Transport.trace send_entry set_app]. rewrite Htr8, Ht7. unfold w4, w3, w2, w1. cbn. by rewrite <- app_assoc.
Qed.
End Link.

(** ** The greeting *)

Definition GREETING : list byte := CALLSIGN_PROMPT ++ DISCLAIMER.

Definition harmlessb (g : list byte) : bool :=
  negb (bool_decide (x2a ∈ g)) && negb (bool_decide (x52 ∈ g)) && (length g <=? 64)%nat.
Lemma harmlessb_ok g : harmlessb g = true -> harmless g.
Proof.
  unfold harmlessb, harmless. rewrite !andb_true_iff, !negb_true_iff, !bool_decide_eq_false, Nat.leb_le. tauto.
Qed.

Section Greeting.
Context `{UnicodeCaseLaws}.

Lemma reaches_concat p cs : forall received, reaches p received cs -> p (received ++ concat cs) = true.
Proof.
  induction cs as [|c cs IH]; intros received Hr; [done|]. cbn [concat]. destruct cs as [|c2 cs].
  - cbn [concat]. by rewrite app_nil_r.
  - destruct Hr as [_ Hr]. rewrite app_assoc. by apply IH.
Qed.

(** What follows the word the client waits for cannot be taken for anything. *)
Lemma greeting_left heard1 heard2 left :
  concat (heard1 ++ heard2 ++ left) = GREETING -> reaches is_disclaimer [] heard2 ->
  harmless (concat left).
Proof.
  rewrite !concat_app. intros Hcut Hr. apply reaches_concat in Hr. cbn [Datatypes.app] in Hr.
  set (h1 := concat heard1) in *. set (h2 := concat heard2) in *. rewrite app_assoc in Hcut.
  set (n := length (h1 ++ h2)).
  assert (Htake : take n GREETING = h1 ++ h2) by (unfold n; rewrite <- Hcut; apply take_app_length).
  assert (Hdrop : drop n GREETING = concat left) by (unfold n; rewrite <- Hcut; apply drop_app_length).
  assert (Hn : (n < 93)%nat).
  { apply (f_equal length) in Hcut. rewrite length_app in Hcut. fold n in Hcut.
    change (length GREETING) with 92%nat in Hcut. lia. }
  assert (Hascii : forallb is_ascii (h1 ++ h2) = true).
  { assert (Hall : forallb is_ascii GREETING = true) by reflexivity.
    rewrite <- Hcut, forallb_app in Hall. by apply andb_true_iff in Hall as [Hall _]. }
  assert (Hseen : contains (bs "AGREE") (to_ascii_uppercase (take n GREETING)) = true).
  { rewrite Htake. unfold to_ascii_uppercase. rewrite map_app. rewrite forallb_app in Hascii. apply andb_true_iff in Hascii as [_ Hascii].
    unfold is_disclaimer in Hr. rewrite to_uppercase_ascii in Hr by done.
    pose proof (contains_infix (bs "AGREE") (to_ascii_uppercase h1) (to_ascii_uppercase h2) []) as Hin.
    rewrite app_nil_r in Hin. by apply Hin. }
  assert (Hcheck : forallb (fun n => implb (contains (bs "AGREE") (to_ascii_uppercase (take n GREETING)))
      (harmlessb (drop n GREETING))) (seq 0 93) = true) by (vm_compute; reflexivity).
  rewrite forallb_forall in Hcheck. specialize (Hcheck n). rewrite Hseen, Hdrop in Hcheck.
  apply harmlessb_ok, Hcheck, in_seq. lia.
Qed.
End Greeting.

(** ** The contact *)

Section Contact.
Context `{UnicodeCaseLaws} `{DebugFormat} `{Base64Laws} `{Sha256Laws} `{BrotliLaws} `{HttpHeadersLaws}.
Context `{Sqlite} `{UrlCrate} `{LolHtml}.
Context (config : Config) (resolve_at : Z -> list byte -> Z -> option (list IpAddr)).
Context (domains_at : Z -> Blocklist.State) (url_parse : list byte -> option Filter.Url).
Context (parse_http_date : list byte -> option Z) (prober : Prober).
Context (cfg : Settings).

Abbreviation connection := (handle_connection config resolve_at domains_at url_parse parse_http_date prober).
Abbreviation serve := (serve_loop config resolve_at domains_at url_parse parse_http_date prober).
Abbreviation page_ok := (page_ok config resolve_at domains_at url_parse parse_http_date prober).
Abbreviation link_ok := (link_ok config parse_http_date prober cfg).
Abbreviation on_time := (on_time config).
Abbreviation shown := (shown config parse_http_date prober cfg).

(** *** The server *)

(** A connection the server has accepted at [t], on which a station will give its
    callsign, of the holder [cs], and AGREE; a browser starts in [d]. *)
Definition called (t : Z) (call cs : list byte) (greet : list (Z * SocketRead.ReadEvent)) (d : Z)
    (ws : Server.World) : Prop :=
  Server.reader ws = mkReader [] [] t /\ Server.cloned ws = true /\ Server.writes ws = []
  /\ (exists ls, Server.launches ws = (d, true) :: ls)
  /\ SocketRead.bytes_of greet = (call ++ [LF]) ++ AGREE_LINE
  /\ Forall living greet /\ (exists before te de, greet = before ++ [(te, Data de)])
  /\ Forall (fun e => fst e < t + PRE_AUTH_TIMEOUT_SECS * 1000) greet
  /\ utf8_valid call = true /\ no_byte LF call = true /\ (length call < line_cap)%nat
  /\ validate_callsign_with_allowlist (trim (call ++ [LF])) (allowed_callsigns config) = Ok cs
  /\ cs <> bs "AGREE".

(** What the server does up to the first request *)
Definition greeting_acts (t : Z) (cs : list byte) : list Server.Act :=
  [Wrote (Text CALLSIGN_PROMPT) None; Wrote (Text DISCLAIMER) None;
   Logged (mkLogEntry t cs (bs "AGREED") LogAgreed None); Launched true].

Lemma server_called t call cs greet d ws :
  called t call cs greet d ws ->
  exists ws',
    (forall later, connection (feed_server (greet ++ later) ws)
                   = serve (stream_fuel (feed_server later ws')) (feed_server later ws'))
    /\ Server.trace ws' = Server.trace ws ++ greeting_acts (arrival t greet) cs
    /\ at_rest (arrival t greet) (arrival t greet + Z.max 0 d) (Server.fetches ws) ws'.
Proof.
  intros (Hr & Hclone & Hw & [ls Hl] & Hbytes & Hliving & (before & te & de & Hlast) & Htime & Hu & Hn & Hlen & Hv & Hne).
  set (ws1 := feed_server greet ws).
  assert (Hr1 : Server.reader ws1 = mkReader [] greet t) by (unfold ws1, feed_server, feed; cbn; by rewrite Hr).
  destruct (connection_agreed config resolve_at domains_at url_parse parse_http_date prober ws1 call cs [] d ls)
    as (r' & ws' & Hrun & Htr & Hpass & Hpend & Hrd & Hact & _ & _ & Hb & Hwr & Hf); [done| |done|done| |done..|].
  { unfold Server.clock. rewrite Hr1. split; [cbn; unfold PRE_AUTH_TIMEOUT_SECS; lia|]. intros t' e Hin.
    cbn [SocketRead.incoming now] in *. rewrite Forall_forall in Htime, Hliving.
    split; [by apply (Htime _ Hin)|]. intros msg ->. by apply (Hliving _ Hin). }
  { rewrite Hr1. rewrite app_nil_r. exact Hbytes. }
  rewrite Hr1 in Hpass. apply (used_up _ _ before te de) in Hpass as ->; [|done..].
  cbn [SocketRead.incoming now buffered] in *.
  exists ws'. split; [|split; [exact Htr|by split_and!]].
  intros later. rewrite <- feed_server_app. apply Hrun.
Qed.

(** The station hangs up before the idle timeout: the connection ends. *)
Lemma serve_hangup last t fs ws f :
  at_rest last t fs ws -> (exists deadline, (forall s, last_activity s = last -> idle_deadline config s = Ok deadline)
    /\ t < deadline) ->
  exists ws', serve (S f) ws = (Ok tt, ws') /\ Server.trace ws' = Server.trace ws.
Proof.
  intros (Hr & Hlast & _) (deadline & Hdl & Hlt). cbn [serve_loop].
  unfold mbind at 1 2, M_bind at 1 2, gets at 1, lift at 1. rewrite Hdl by done. cbv beta iota.
  unfold catch at 1, reading at 1. rewrite Hr.
  assert (Hread : read_request deadline (mkReader [] [] t) = (Ok None, mkReader [] [] t)).
  { unfold read_request, read_bounded_line_until, mbind, M_bind. cbn [SocketRead.incoming length Nat.add].
    cbn [read_line_loop now]. by rewrite (proj2 (Z.leb_gt deadline t)) by lia. }
  rewrite Hread. by eexists.
Qed.

(** *** The client *)

Let secs : Z := session_timeout (timeout_secs cfg).

(** A client whose modem is up: the node will confirm the link with [f0], and the frames
    [fs] of the greeting come before [D], all within 30 seconds and the request's
    timeout; the operator will accept, in time. *)
Definition in_reach (D : Z) (call : list byte) later f0 (fs : list AgwpeFrame) (w : Web AgwpeTransport) : Prop :=
  let t0 := Transport.clock (world w) in
  interference (world w) = [] /\ ahead w = [] /\ actor_callsign w = call
  /\ (exists d rest, answers (world w) = (d, Answered true) :: rest /\ 0 <= d < CONSENT_TIMEOUT)
  /\ skip_bpq_app (ClientState.config (Transport.app (world w))) = true
  /\ D <= t0 + 30 * 1000 /\ D <= t0 + secs * 1000
  /\ confirms f0 /\ Forall data_frame_wf fs /\ confirmed D t0 later f0 fs (world w).

(** What the client does for the connect button *)
Definition opening_acts (call : list byte) (heard1 heard2 : list (list byte)) : list Transport.Act :=
  Opened :: received_acts heard1 ++ [Sent (call ++ [LF])]
  ++ received_acts heard2 ++ [Asked [Some (concat heard2)] (Answered true); Sent AGREE_LINE].

Lemma opening_bytes call heard1 heard2 :
  client_bytes (opening_acts call heard1 heard2) = (call ++ [LF]) ++ AGREE_LINE.
Proof.
  unfold opening_acts, client_bytes. cbn [map concat]. rewrite !map_app, !concat_app.
  pose proof (received_bytes heard1) as Hb1. pose proof (received_bytes heard2) as Hb2.
  unfold client_bytes in Hb1, Hb2. rewrite Hb1, Hb2. cbn. by rewrite !app_nil_r.
Qed.

Lemma client_connects D call later f0 fs heard1 heard2 left target port w :
  in_reach D call later f0 fs w -> greets (map AgwpeFrame.data fs) heard1 heard2 left ->
  exists w', open_and_answer cfg target port w = (Ok (mkConnectResponse true (Some (bs "Connected")) None), w')
    /\ waiting cfg later (concat left) w'
    /\ Transport.trace (world w') = Transport.trace (world w) ++ opening_acts call heard1 heard2
    /\ Browse.cache w' = Browse.cache w /\ ticks w' = ticks w.
Proof.
  intros (Hi & Ha & Hcall & (d & rest & Hans & Hd) & Hskip & HD1 & HD2 & Hf0 & Hfs & Hcon) Hgreets.
  destruct (session_opens D _ HD1 later f0 fs heard1 heard2 left d rest target port call (world w) Hi Hans Hd Hskip
    Hf0 Hfs Hcon Hgreets) as (wd & Hopen & Hq & Hstate & [Hcarries Hck] & Htr).
  set (w1 := mkWeb wd call (Browse.cache w) (ticks w) [] (replies w)).
  assert (Hunit : call_unit cfg (OpenSession target port) w = (Ok tt, w1)).
  { unfold call_unit. rewrite Ha, Hcall. cbn [head default run_queue step]. by rewrite Hopen. }
  exists (with_app (app_of w1) w1). unfold open_and_answer, catch. rewrite Hunit. unfold read_state.
  rewrite with_state_alone by apply Hq. split; [by unfold app_of, w1; cbn; rewrite Hstate|].
  split; [|by split_and!]. split; [exact Hq|]. split; [done|].
  exists left. split; [done|]. split; [exact Hstate|]. exists D.
  split; [cbn; fold secs; lia|exact Hcarries].
Qed.

(** C13: a whole contact: the operator presses the connect button; the link opens, both
    handshakes come to the end with the operator's consent to what the server wrote, and
    the pages asked for are shown one after the other, until the station hangs up and
    the server's connection ends.  Every byte either side writes is what the other
    reads, in any pieces: nothing the server wrote for the prompt is taken for a part of
    a page. *)
Theorem contact reload vs fs later t call cs greet d ws D f0 gfs heard1 heard2 left target port w :
  i32_min <= default_max_age_seconds config <= i32_max ->
  Forall page_ok vs -> Forall link_ok vs ->
  (* the server *)
  called t call cs greet d ws -> Server.fetches ws = map fetch_of vs ++ fs ->
  let t1 := arrival t greet in let t2 := t1 + Z.max 0 d in
  on_time t1 t2 vs ->
  (exists deadline, (forall s, last_activity s = activity_after t1 t2 vs -> idle_deadline config s = Ok deadline)
     /\ clock_after t2 vs < deadline) ->
  (* the client *)
  in_reach D call (concat (map v_reads vs) ++ later) f0 gfs w -> all_unseen reload vs w ->
  (* the greeting, as it comes *)
  concat (map AgwpeFrame.data gfs) = GREETING -> greets (map AgwpeFrame.data gfs) heard1 heard2 left ->
  exists wrote ws' w1 w' said,
    connection (feed_server (greet ++ concat (map v_asked vs)) ws) = (Ok tt, ws')
    /\ Server.trace ws' = Server.trace ws ++ greeting_acts t1 cs ++ wrote
    /\ open_and_answer cfg target port w = (Ok (mkConnectResponse true (Some (bs "Connected")) None), w1)
    /\ browse_pages cfg reload vs w1 = (map (fun v => Ok (shown v)) vs, w')
    /\ Transport.trace (world w') = Transport.trace (world w) ++ opening_acts call heard1 heard2 ++ said
    /\ server_bytes (greeting_acts t1 cs ++ wrote)
       = concat (map AgwpeFrame.data (gfs ++ concat (map v_frames vs)))
    /\ client_bytes (opening_acts call heard1 heard2 ++ said)
       = SocketRead.bytes_of (greet ++ concat (map v_asked vs)).
Proof.
  intros Hdefault Hpages Hlinks Hcalled Hfetches t1 t2 Htime Hend Hreach Hunseen Hgreeting Hgreets.
  destruct (server_called t call cs greet d ws Hcalled) as (ws1 & Hconn & Htr1 & Hrest1).
  rewrite Hfetches in Hrest1.
  destruct (client_connects D call _ f0 gfs heard1 heard2 left target port w Hreach Hgreets)
    as (w1 & Hopen & Hwait & Htrw1 & Hcache & Hticks).
  assert (Hg : harmless (concat left)).
  { destruct Hgreets as (Hcs & _ & Hr2 & _). apply (greeting_left heard1 heard2 left); [|done].
    by rewrite <- Hcs. }
  destruct (server_visits config resolve_at domains_at url_parse parse_http_date prober cfg fs vs t1 t2 ws1)
    as (wrote & ws2 & Hserve & Htr2 & Hbytes & Hrest2); [done..|].
  destruct (client_visits config resolve_at domains_at url_parse parse_http_date prober cfg Hdefault reload later vs
    (concat left) w1) as (said & w' & g' & Hbrowse & Htrw' & Hsaid & _); [done..| |].
  { unfold all_unseen, cache_quiet in *. by rewrite Hcache, Hticks. }
  assert (Hfuel : exists f, stream_fuel (feed_server (concat (map v_asked vs)) ws1) = (length vs + S f)%nat).
  { exists (length (SocketRead.bytes_of (concat (map v_asked vs))) - length vs)%nat.
    assert (length vs <= length (SocketRead.bytes_of (concat (map v_asked vs))))%nat by (by eapply asked_bytes). destruct Hrest1 as (Hr & _).
    unfold stream_fuel, pending, feed_server, feed. cbn. rewrite Hr. cbn. lia. }
  destruct Hfuel as (f & Hfuel).
  destruct (serve_hangup _ _ fs ws2 f Hrest2 Hend) as (ws3 & Hhang & Htr3).
  exists wrote, ws3, w1, w', said. split_and!; [| |done|done| | |].
  - rewrite Hconn, Hfuel. specialize (Hserve (S f) []). rewrite app_nil_r, feed_server_nil in Hserve.
    by rewrite Hserve.
  - by rewrite Htr3, Htr2, Htr1, <- app_assoc.
  - by rewrite Htrw', Htrw1, <- app_assoc.
  - rewrite map_app, concat_app, Hgreeting. unfold server_bytes at 1. rewrite map_app, concat_app.
    change (GREETING ++ server_bytes wrote = GREETING ++ concat (map AgwpeFrame.data (concat (map v_frames vs)))).
    rewrite Hbytes. f_equal. by eapply answers_carried.
  - destruct Hcalled as (_ & _ & _ & _ & Hb & Hliving & _). rewrite bytes_of_living, Hb by done.
    unfold client_bytes. rewrite map_app, concat_app. fold (client_bytes (opening_acts call heard1 heard2)).
    rewrite opening_bytes. f_equal. rewrite <- (requests_carried config parse_http_date prober cfg) by done. exact Hsaid.
Qed.
End Contact.

(** ** A station connects, looks at two pages, and goes *)

#[local] Existing Instances ToyDebug.debug_format Toy.unicode Toy.unicode_laws rfc4648 rfc4648_laws Toy.sha256
  Toy.sha256_laws Toy.brotli Toy.brotli_laws ToyHttp.http_headers ToyHttp.http_headers_laws ToySqlite.sqlite
  ToyUrl.url_crate ToyHtml.element ToyHtml.lol_html.

Module Demo.
Definition greet : list (Z * SocketRead.ReadEvent) :=
  [(10000, Data (bs "w1aw-2" ++ [LF])); (40000, SocketRead.Tick); (90000, Data AGREE_LINE)].
Definition server : Server.World :=
  Server.mkWorld (mkReader [] [] 0) (Callsign.new [] 0) false [] [(1000, true)]
    [(5000, inr (bs "hello")); (100, inr (bs "bye"))] true false [].
(** The node's confirmation, and the greeting in four frames and three reads *)
Definition link : AgwpeFrame := new_frame 0 AgwpeFrame.Connected (bs "N0CALL-8") (bs "w1aw-2") [].
Definition heard1 : list (list byte) := [bs "Enter your call"; bs "sign: "].
Definition heard2 : list (list byte) := [take 63 DISCLAIMER].
Definition left : list (list byte) := [drop 63 DISCLAIMER].
Definition frames : list AgwpeFrame := map Visits.Demo.frame (heard1 ++ heard2 ++ left).
Definition greeting_reads : list (Z * Agwpe.ReadEvent) :=
  [(5000, RdData (encode link ++ concat (map encode (take 1 frames))));
   (6000, RdData (concat (map encode (take 1 (drop 1 frames)))));
   (20000, RdData (concat (map encode (drop 2 frames))))].
Definition client : Web AgwpeTransport :=
  mkWeb
    (Transport.mkWorld
       (mkAgwpeTransport (Some (mkStream (greeting_reads ++ concat (map v_reads Visits.Demo.visits)) []))
          [] (bs "w1aw-2") [] 0 true [] [])
       (put_connection_state AgwpeConnected (new_state Greeting.Demo.direct_config)) true 0 [] [] [(60000, Answered true)] [])
    (bs "w1aw-2") (Some (mkCache ∅ 1000000 3600)) [] [] [].
End Demo.

Lemma demo_in_reach :
  in_reach Visits.Demo.settings 30000 (bs "w1aw-2") (concat (map v_reads Visits.Demo.visits) ++ []) Demo.link
    Demo.frames Demo.client.
Proof.
  split; [done|]. split; [done|]. split; [done|]. split; [by exists 60000, []|]. split; [done|].
  split; [vm_compute; discriminate|]. split; [vm_compute; discriminate|]. split.
  { split; [|by left]. unfold frame_wf, call_wf. vm_compute. repeat split; try discriminate; lia. }
  split.
  { repeat constructor; try (apply demo_frame_wf; vm_compute; lia). }
  split; [by eexists|]. split; [vm_compute; discriminate|].
  exists Demo.greeting_reads, []. split; [by rewrite app_nil_r|]. split; [|vm_compute; reflexivity].
  repeat constructor; vm_compute; discriminate.
Qed.

Lemma contact_witness :
  exists wrote ws' w1 w' said,
    handle_connection demo_config web_resolve no_domains web_parse no_dates no_probe
      (feed_server (Demo.greet ++ concat (map v_asked Visits.Demo.visits)) Demo.server) = (Ok tt, ws')
    /\ Server.trace ws' = greeting_acts 90000 (bs "W1AW") ++ wrote
    /\ open_and_answer Visits.Demo.settings (bs "N0CALL-8") 0 Demo.client
       = (Ok (mkConnectResponse true (Some (bs "Connected")) None), w1)
    /\ browse_pages Visits.Demo.settings false Visits.Demo.visits w1
       = (map (fun v => Ok (shown demo_config no_dates no_probe Visits.Demo.settings v)) Visits.Demo.visits, w')
    /\ Transport.trace (world w') = opening_acts (bs "w1aw-2") Demo.heard1 Demo.heard2 ++ said
    /\ server_bytes (greeting_acts 90000 (bs "W1AW") ++ wrote)
       = concat (map AgwpeFrame.data (Demo.frames ++ concat (map v_frames Visits.Demo.visits)))
    /\ client_bytes (opening_acts (bs "w1aw-2") Demo.heard1 Demo.heard2 ++ said)
       = bs "w1aw-2" ++ [LF] ++ bs "AGREE" ++ [LF] ++ bs "GET http://a.org/" ++ [LF] ++ bs "GET http://a.org/b" ++ [LF].
Proof.
  destruct (contact demo_config web_resolve no_domains web_parse no_dates no_probe Visits.Demo.settings
    false Visits.Demo.visits [] [] 0 (bs "w1aw-2") (bs "W1AW") Demo.greet 1000 Demo.server 30000 Demo.link Demo.frames
    Demo.heard1 Demo.heard2 Demo.left (bs "N0CALL-8") 0 Demo.client)
    as (wrote & ws' & w1 & w' & said & Hconn & Htr & Hopen & Hbrowse & Htr' & Hserver & Hclient).
  - vm_compute. split; discriminate.
  - apply Forall_forall. apply demo_page_ok.
  - apply Forall_forall. apply demo_link_ok.
  - split_and!; try done; [by eexists|by repeat constructor|
      by eexists [(10000, Data (bs "w1aw-2" ++ [LF])); (40000, SocketRead.Tick)], _, _|by repeat constructor|].
    apply Nat.ltb_lt. reflexivity.
  - done.
  - split.
    + exists 690000. split; [intros s Hs; unfold idle_deadline; rewrite Hs; reflexivity|]. split; [reflexivity|].
      by repeat constructor.
    + split; [|done]. exists 735500. split; [intros s Hs; unfold idle_deadline; rewrite Hs; reflexivity|].
      split; [reflexivity|]. by repeat constructor.
  - exists 1200100. split; [intros s Hs; unfold idle_deadline; rewrite Hs; reflexivity|reflexivity].
  - apply demo_in_reach.
  - right. split; [constructor|]. split; [|by repeat constructor].
    apply (bool_decide_unpack _). vm_compute. exact I.
  - vm_compute. reflexivity.
  - split_and!; [reflexivity|by split|done|split; [reflexivity|vm_compute; discriminate]|
      split; [reflexivity|vm_compute; discriminate]].
  - exists wrote, ws', w1, w', said. split_and!; assumption.
Defined.
